(* ===== verification/_CoqProject ===== *)
-Q . S2P
Prelude.v
Memory.v
Alloc.v
Cstring.v
Common.v
Shm.v
Locks.v
Kmem.v
KmemFacts.v
KmemInit.v
KmemPool.v
KmemDebug.v
Sockunion.v
SockunionFacts.v
CommonFacts.v
CommonProc.v
Stream.v
StreamFacts.v
Fifo.v
Linklist.v
LinklistFacts.v
Hash.v
HashFacts.v
Vector.v
Blocks.v
IdMaker.v
Mq.v
MqFacts.v
Sched.v
SchedFacts.v
Thpool.v
ThpoolFacts.v
ThpoolEnd.v
ThpoolMem.v
ThpoolHold.v
Timer.v
TimerFacts.v
Network.v
Client.v
Peer.v
Parser.v
Link.v
LinkFacts.v
LinkTypes.v
Core.v
Log.v
LogFacts.v
CoreFacts.v
PacketFacts.v
Worlds.v
Connect.v
ConnectFacts.v
Server.v
ServerFacts.v
SessionFacts.v
PipelineFacts.v
SysLoopFacts.v
ServerWorlds.v
