(* ===== verification/Prelude.v ===== *)
(** * misaka: a verified model of the miniServer event server

    misaka is a small C server.  Its main thread runs a libev loop over
    _peers_, the connection endpoints; packets travel in _streams_, growing
    byte buffers that can be linked.  Everything lives under src/misaka; the
    header files are in include/.

    ** The parts and how they meet

    - A descriptor becomes readable: misaka_read (lib/core.c) calls the read
      function of the peer's link (tcp_read or udp_read, link/), which fills
      the input buffer of the peer and calls its unpack function
      (parser/normal_parser.c).
    - A complete packet is copied (stream_clone_one), stamped with source,
      destination and event, and either pushed on the message queue of its
      event (lib/skynet_mq.c) with a job for the thread pool (lib/thpool.c), or
      routed to the peer with its node id.
    - A worker thread takes a queue from the global queue, hands its packets to
      the handler of the event (task/echo_task.c is one) and gives the queue
      back.  What handlers send goes through the queue of EVENT_NET back to the
      main thread, which looks up the peer in a hash table (lib/hash.c), packs
      the packet and appends it to the output fifo of the peer.
    - The peer becomes writable: misaka_write empties the fifo with tcp_write
      or udp_write.
    - Timeouts wait in a timing wheel (lib/timer.c) and come back as packets.
    - A connection is opened by a periodic timer that calls the start function
      of its link until it succeeds, or accepted by a listening peer.
    - core_init, core_register (app/echo/main.c) and core_run set all of this
      up and enter the event loop.

    ** The files

    - Prelude (this file): the faults a C program can commit and the error
      monad [res], machine integers by width, blocks of memory as lists with
      checked access, tactics and the hint database [misaka].
    - Memory: heaps of C objects as finite maps, NULL and dangling pointers,
      the classes [Allocator] (what malloc returns) and [Linked] (objects with
      a next link), and the theory of linked chains all components share.
    - Alloc: lib/memory.c, on blocks at their addresses.
    - Locks: include/spinlock.h and include/rwlock.h, the variants on atomic
      builtins, interleaved at single accesses.
    - Kmem, KmemFacts, KmemInit, KmemPool: the object caches of lib/kmem.c with
      the intrusive lists of include/list.h, on the bytes of a block; KmemDebug:
      its reports.
    - Cstring: the string functions of the C library the sources call.
    - Common, CommonFacts, CommonProc: lib/common.c.
    - Shm: lib/shm.c, and the signal handler of lib/core.c.
    - Sockunion, SockunionFacts: lib/sockunion.c.
    - Stream, StreamFacts: lib/stream.c on one buffer.
    - Fifo: lib/stream.c on linked packets and [struct stream_fifo], with the
      packet helpers of lib/core.c.
    - Linklist, LinklistFacts: lib/linklist.c.
    - Hash, HashFacts: lib/hash.c.
    - Vector: lib/vector.c.
    - Blocks: the constructors and destructors of vectors, hash tables, lists and
      copied addresses, on the blocks of Alloc.
    - IdMaker: lib/idmaker.c, the pool of peer ids.
    - Mq, MqFacts: lib/skynet_mq.c.
    - Sched, SchedFacts: worker, misaka_packet_task_route,
      misaka_packet_net_route and the packet loops of lib/core.c, interleaved.
    - Thpool, ThpoolFacts, ThpoolEnd: lib/thpool.c, interleaved; ThpoolMem: its
      memory; ThpoolHold: pause and resume.
    - Timer, TimerFacts: lib/timer.c.
    - Network: lib/network.c and the stream operations on descriptors, over the
      class [Kernel] of system calls.
    - Client: tool/client.c, over the same kernel.
    - Peer: [struct peer] of include/misaka.h, its function pointers, and the
      class [Libev] of watchers.
    - Parser: parser/normal_parser.c, task/echo_task.c and the default
      callbacks of lib/core.c.
    - Link, LinkFacts, LinkTypes: the data path of the four links under link/.
    - Core, CoreFacts, PacketFacts: the handlers of lib/core.c on the [world],
      the whole state of the server.
    - Log, LogFacts: lib/log.c, include/log.h, the dumps of lib/pub.c and
      misaka_core_watch, over the class of the logging library.
    - Connect, ConnectFacts: creating and opening the links, and the connect
      timer of lib/core.c.
    - Server, ServerFacts: the worker threads with their handlers, the timer
      loop, the start-up code, and the program as a sequence of events.
    - SessionFacts: the invariant of a server in service, and its sessions.
    - PipelineFacts: the server with requests in every stage, its events in any
      order.
    - SysLoopFacts: the timer loop, from the queue EVENT_SYS to the wheel and on to
      the queues of the tasks.
    - Worlds, ServerWorlds: small concrete servers on which the theorems about
      the core and the server are applied.

    ** How code is modelled

    A C function is a Rocq function with the same name that returns a [res]:
    [Ok] of its results and the state it leaves, or [Fail] of the fault it
    commits (access outside a block, NULL or freed pointer, failed assert,
    indeterminate value, signed overflow).  So a theorem that says [= Ok ...]
    also says that the code commits no fault.  State a function changes is
    passed in and out; the handlers of Core use a monad over [world], and their
    theorems the weakest precondition [wp] of CoreFacts.  The
    unsigned types wrap ([u8], [u16], [u32], [u64]), conversions to int are
    [s32].  Concurrent code (Sched, Thpool) is a step function on the shared
    state, one step per critical section, and the theorems quantify over all
    sequences of steps; [spinlock_serialises] justifies the step per critical
    section.  The running program is [server_run] over the events of libev and
    of the pool threads.

    What is not part of the repository is a parameter: what malloc answers
    ([Allocator], [StreamAllocator]; the contents of fresh memory are arbitrary
    too), the kernel ([Kernel]: a read returns at most
    what it was asked for, a write takes at most what it was given), the C
    library ([Libc] in Alloc), libev ([Libev]), the hash and
    compare callbacks of the containers, the clocks, /proc and signals ([System]), the results of the calls that open
    sockets ([open_env], [accept_env]), and the code of loaded plugins and
    scripts.  [script_kernel] and [record_libev] are instances, so
    the hypotheses can be met.

    ** Loops and bounds

    A loop of the source that is not structural takes a number of rounds and
    ends in [Fail OutOfFuel] when they are used up.  Functions fix that number
    where it follows from their arguments: the size of the heap for a walk of a
    linked chain, since the nodes of a chain are distinct; [nbytes + 1] for
    readn and writen, since every round moves a byte; the number of ticks for
    the clock of the timer; the capacity of a ring buffer for its copy.  The
    loop of tcp_write has no such bound, because its counter is never
    incremented: tcp_write and misaka_write take the number as an argument, and
    their theorems show that one round per packet is enough when the kernel
    takes each packet whole.  Since [OutOfFuel] is a fault, every
    theorem that says [= Ok ...] shows that the loop ends.

    ** What the theorems show

    - Data structures against abstract ones: a stream is a byte buffer with two
      offsets ([stream_run_refines_buffer]), a fifo and a message queue are
      sequences ([fifo_refines_queue], [mq_refines_fifo]), a list is the
      sequence of its data and stays linked both ways
      ([list_refines_sequence], [listnode_add_sort_sorts]), the hash table and
      the vector are finite maps ([hash_refines_map], [vector_refines_map]),
      the timing wheel is a list of countdowns ([timer_refines_countdown],
      [updatetime_ticks], [timelink_appends]), the object caches are pools of
      disjoint buffers ([kmem_refines_pools]) whose guard bytes show an overrun
      ([kmem_overrun_detected]).
    - Concurrency, for every interleaving: no packet is lost, duplicated or
      reordered within its queue ([sched_no_packet_lost]); the pool starts
      every job once and in order ([thpool_runs_every_job]) and can be destroyed
      ([thpool_destroy_ends]); pausing it changes nothing but when its threads
      run ([paused_pool_serves]), and it gives back the memory it took
      ([thpool_init_outcome]); the locks exclude
      and do not block each other ([spinlock_serialises], [rwlock_excludes],
      [rwlock_no_deadlock]).
    - Framing: whatever the fragmentation, the reader delivers the packets sent
      ([tcp_reader_reassembles]) and no input makes it fault
      ([tcp_reader_safe]); every value on the path of a packet keeps its C type
      ([packet_path_typed]); round trips of values, headers and addresses
      ([stream_items_roundtrip], [pack_unpack_header],
      [sockunion_string_roundtrip]); the address parser is its definition by
      fields ([inet_aton_spec]).
    - The server: for every order in which the kernel and the threads bring about
      reads, turns of the workers, routing and writes, on any number of
      connections, requests are answered in the order in which they were received,
      none lost, repeated or changed ([every_order_served]); packets of the queue
      EVENT_SYS reach their tasks when their countdowns end, in that order
      ([sys_loop_fires]); every sequence of requests on any number of connections is
      answered, and the server is in service again afterwards ([echo_session],
      a refinement of [echo_spec] by [server_run]; one request is
      [echo_round_trip], from [read_packet_to_task], [process_echo_replies],
      [misaka_packet_route_delivers] and [misaka_write_flushes]); an accepted
      connection becomes a peer in service and its reader stands where
      [tcp_reader_reassembles] starts ([tcp_accept_establishes], from
      [peer_register_enters]); the connect timer, for every answer of connect
      ([start_thread_outcome]).
    - Dumps: the records of a dump show the bytes it was given
      ([hex_dump_roundtrip]); the dump of the peers for every list of peers
      ([core_watch_outcome]); what is logged with and without a category
      ([log_opened_or_not]).
    - Memory of the containers: what the constructors take the destructors give
      back ([vector_init_free], [hash_create_free], [list_new_free],
      [sockunion_dup_free]).
    - The client copies its file through a server that echoes
      ([test_main_copies]).
    - The helpers: processes are found and stopped ([stop_process_stops]),
      commands run with the descriptors they should have
      ([evalpid_child_stdio]),
      interface names stay in their buffers ([find_ifname_safe]), netmasks and
      milliseconds are counted ([getmask_prefix], [get_tick_1khz_elapsed]).
    - Errors and limits of the code as it is: a packet stranded in its queue
      ([worker_strands_packet]), a queue cut off from the global queue
      ([sys_loop_loses_queue]), truncated and repeated packets
      ([tcp_read_retry_truncates], [tcp_write_resends]), the header behind the
      payload ([pack_unpack_closes]), calls of NULL
      ([misaka_stop_null_callback], [establish_null_callback]), stores behind
      a block ([script_plugin_overflows], [kmem_create_overflow],
      [get_eth_link_overflows]), recycled ids that were never stored
      ([idmaker_put_forgets]), pointers cut to 32 bits ([xrealloc_truncates]), a
      thread held after the resume ([late_signal_holds]), a thpool_init that
      waits for ever ([thpool_init_waits]), a client that never ends
      ([client_spins_when_closed]), a counter that start-up reads before it is set
      ([boot_reads_uninitialised]) and others.

    ** What is not modelled

    The start of the Python interpreter; the command line of main and the
    installation of its signal handlers; the variants of the locks that only call
    the pthread library.  The macros of the log are modelled in Log with the dumps
    that use them; their calls between the statements of other functions, which
    only write records, are left out there.  lib/lua_handle.c and lib/sysplugin.c
    hold no code.  Lua and Python are reduced to the value a script returns.  The
    server processes a packet in the step that takes it from its queue: two workers
    do not interleave inside a handler. *)

From Stdlib Require Export ZArith Lia.
From stdpp Require Export prelude fin_maps gmap list.

Local Open Scope Z_scope.

(** ** Faults and the error monad

    A C operation either returns or performs something the C program must
    not do; the second case is a value, so that a theorem can say it does
    not happen. *)

Inductive fault :=
| OutOfBounds      (* access outside a block *)
| NullDeref        (* dereference of NULL *)
| BadPointer       (* dereference of a freed or never allocated object *)
| AssertFailed     (* the <assert.h> assert of skynet_mq.c *)
| Uninitialised    (* use of an indeterminate value *)
| DivByZero        (* x % 0 *)
| SignedOverflow   (* int arithmetic out of range *)
| OutOfFuel.       (* the iteration bound of the model was reached *)

#[export] Instance fault_eq_dec : EqDecision fault.
Proof. solve_decision. Defined.

Inductive res (A : Type) :=
| Ok (a : A)
| Fail (e : fault).

Global Arguments Ok {A} a.
Global Arguments Fail {A} e.

#[export] Instance res_ret : MRet res := @Ok.
#[export] Instance res_bind : MBind res := λ A B f m,
  match m with Ok a => f a | Fail e => Fail e end.
#[export] Instance res_fmap : FMap res := λ A B f m,
  match m with Ok a => Ok (f a) | Fail e => Fail e end.

Lemma bind_Ok {A B} (f : A → res B) (a : A) : (Ok a ≫= f) = f a.
Proof. reflexivity. Qed.

Lemma bind_Ok_inv {A B} (f : A → res B) (m : res A) (b : B) :
  (m ≫= f) = Ok b → ∃ a, m = Ok a ∧ f a = Ok b.
Proof. destruct m; simpl; [eauto | discriminate]. Qed.

Definition from_option_or {A} (e : fault) (o : option A) : res A :=
  match o with Some a => Ok a | None => Fail e end.

Definition is_Ok {A} (m : res A) : Prop := ∃ a, m = Ok a.

(** Addresses of heap objects; [NULL] is the [None] of an [option loc]. *)
Abbreviation loc := positive (only parsing).

(** ** Machine integers

    An unsigned [w]-bit integer is a [Z] in [0, 2^w); arithmetic that may
    leave the range is reduced where the C type reduces it. *)

Definition u8 (z : Z) : Z := z mod 2 ^ 8.
Definition u16 (z : Z) : Z := z mod 2 ^ 16.
Definition u32 (z : Z) : Z := z mod 2 ^ 32.
Definition u64 (z : Z) : Z := z mod 2 ^ 64.

(** Two's complement value of the low 32 bits: the C [int]. *)
Definition s32 (z : Z) : Z :=
  let r := z mod 2 ^ 32 in if r <? 2 ^ 31 then r else r - 2 ^ 32.

Definition is_u8 (z : Z) : Prop := 0 ≤ z < 2 ^ 8.
Definition is_u16 (z : Z) : Prop := 0 ≤ z < 2 ^ 16.
Definition is_u32 (z : Z) : Prop := 0 ≤ z < 2 ^ 32.
Definition is_u64 (z : Z) : Prop := 0 ≤ z < 2 ^ 64.
Definition is_s32 (z : Z) : Prop := - 2 ^ 31 ≤ z < 2 ^ 31.

Global Arguments u8 : simpl never.
Global Arguments u16 : simpl never.
Global Arguments u32 : simpl never.
Global Arguments u64 : simpl never.
Global Arguments s32 : simpl never.

Create Rewrite HintDb misaka.
Create HintDb misaka discriminated.

Lemma u8_small z : is_u8 z → u8 z = z.
Proof. intros H. apply Z.mod_small, H. Qed.
Lemma u16_small z : is_u16 z → u16 z = z.
Proof. intros H. apply Z.mod_small, H. Qed.
Lemma u32_small z : is_u32 z → u32 z = z.
Proof. intros H. apply Z.mod_small, H. Qed.
Lemma u64_small z : is_u64 z → u64 z = z.
Proof. intros H. apply Z.mod_small, H. Qed.

Lemma u8_range z : is_u8 (u8 z).
Proof. apply Z.mod_pos_bound; lia. Qed.
Lemma u16_range z : is_u16 (u16 z).
Proof. apply Z.mod_pos_bound; lia. Qed.
Lemma u32_range z : is_u32 (u32 z).
Proof. apply Z.mod_pos_bound; lia. Qed.
Lemma u64_range z : is_u64 (u64 z).
Proof. apply Z.mod_pos_bound; lia. Qed.

#[export] Hint Resolve u8_range u16_range u32_range u64_range : misaka.

Lemma s32_range z : is_s32 (s32 z).
Proof.
  unfold s32, is_s32. pose proof (Z.mod_pos_bound z (2 ^ 32)) as Hb.
  destruct (Z.ltb_spec (z mod 2 ^ 32) (2 ^ 31)); lia.
Qed.

Lemma s32_small z : is_s32 z → s32 z = z.
Proof.
  unfold s32, is_s32. intros H.
  destruct (decide (0 ≤ z)).
  - rewrite Z.mod_small by lia. destruct (Z.ltb_spec z (2 ^ 31)); lia.
  - replace (z mod 2 ^ 32) with (z + 2 ^ 32).
    + destruct (Z.ltb_spec (z + 2 ^ 32) (2 ^ 31)); lia.
    + apply (Z.mod_unique_pos z (2 ^ 32) (-1)); lia.
Qed.

Lemma u32_s32 z : u32 (s32 z) = u32 z.
Proof.
  unfold u32, s32. destruct (Z.ltb_spec (z mod 2 ^ 32) (2 ^ 31)).
  - apply Z.mod_mod; lia.
  - rewrite <- (Z.mod_mod z (2 ^ 32)) at 2 by lia.
    replace (z mod 2 ^ 32 - 2 ^ 32) with (z mod 2 ^ 32 + (-1) * 2 ^ 32) by lia.
    apply Z.mod_add; lia.
Qed.

Lemma s32_u32 z : s32 (u32 z) = s32 z.
Proof. unfold s32, u32. rewrite Z.mod_mod by lia. reflexivity. Qed.

#[export] Hint Resolve s32_range : misaka.

Lemma mod_eq_close a b m : b ≤ a < b + m → a mod m = b mod m → a = b.
Proof.
  intros Hab He. assert ((a - b) mod m = 0) as H0.
  { rewrite Zminus_mod, He, Z.sub_diag. apply Z.mod_0_l. lia. }
  rewrite Z.mod_small in H0; lia.
Qed.

(** Signed arithmetic whose result does not fit is undefined. *)
Definition int_op (z : Z) : res Z :=
  if (- 2 ^ 31 <=? z) && (z <? 2 ^ 31) then Ok z else Fail SignedOverflow.

Lemma int_op_Ok z : - 2 ^ 31 ≤ z < 2 ^ 31 → int_op z = Ok z.
Proof.
  intros H. unfold int_op. destruct (Z.leb_spec (- 2 ^ 31) z); [| lia].
  destruct (Z.ltb_spec z (2 ^ 31)); [done | lia].
Qed.

(** ** Arrays indexed by machine integers

    [rd] and [wr] are [a[i]] as an rvalue and as an lvalue; [rd_block] and
    [wr_block] are the source and the destination of a [memcpy]. *)

Section arrays.
Context {A : Type}.
Implicit Types (l xs : list A) (i n : Z).

Definition in_range l i n : bool :=
  (0 <=? i) && (0 <=? n) && (i + n <=? Z.of_nat (length l)).

Definition rd l i : res A :=
  if 0 <=? i then from_option_or OutOfBounds (l !! Z.to_nat i) else Fail OutOfBounds.

Definition wr l i (v : A) : res (list A) :=
  if in_range l i 1 then Ok (<[Z.to_nat i := v]> l) else Fail OutOfBounds.

Definition slice l i n : list A := take (Z.to_nat n) (drop (Z.to_nat i) l).

Definition rd_block l i n : res (list A) :=
  if in_range l i n then Ok (slice l i n) else Fail OutOfBounds.

Definition splice l i xs : list A :=
  take (Z.to_nat i) l ++ xs ++ drop (Z.to_nat i + length xs) l.

Definition wr_block l i xs : res (list A) :=
  if in_range l i (Z.of_nat (length xs)) then Ok (splice l i xs) else Fail OutOfBounds.

Lemma in_range_spec l i n :
  in_range l i n = true ↔ 0 ≤ i ∧ 0 ≤ n ∧ i + n ≤ Z.of_nat (length l).
Proof. unfold in_range. rewrite !andb_true_iff, !Z.leb_le. tauto. Qed.

Lemma rd_Ok l i v : rd l i = Ok v ↔ 0 ≤ i ∧ l !! Z.to_nat i = Some v.
Proof.
  unfold rd. destruct (Z.leb_spec 0 i).
  - destruct (l !! Z.to_nat i); simpl; split; try intros [_ ?]; intros; simplify_eq; auto.
  - split; [discriminate | lia].
Qed.

Lemma rd_is_Ok l i : 0 ≤ i < Z.of_nat (length l) → ∃ v, rd l i = Ok v.
Proof.
  intros H. destruct (lookup_lt_is_Some_2 l (Z.to_nat i)) as [v Hv]; [lia |].
  exists v. apply rd_Ok. auto with lia.
Qed.

Lemma rd_oob l i : Z.of_nat (length l) ≤ i → rd l i = Fail OutOfBounds.
Proof.
  intros. unfold rd. rewrite lookup_ge_None_2 by lia. by destruct (Z.leb 0 i).
Qed.

Lemma wr_oob l i v : Z.of_nat (length l) ≤ i → wr l i v = Fail OutOfBounds.
Proof.
  intros. unfold wr. destruct (in_range l i 1) eqn:E; [| done].
  apply in_range_spec in E. lia.
Qed.

Lemma wr_Ok l i v :
  0 ≤ i < Z.of_nat (length l) → wr l i v = Ok (<[Z.to_nat i := v]> l).
Proof.
  intros H. unfold wr.
  rewrite (proj2 (in_range_spec l i 1)) by lia. reflexivity.
Qed.

Lemma rd_block_Ok l i n :
  0 ≤ i → 0 ≤ n → i + n ≤ Z.of_nat (length l) → rd_block l i n = Ok (slice l i n).
Proof.
  intros. unfold rd_block. rewrite (proj2 (in_range_spec l i n)) by lia. reflexivity.
Qed.

Lemma wr_block_Ok l i xs :
  0 ≤ i → i + Z.of_nat (length xs) ≤ Z.of_nat (length l) →
  wr_block l i xs = Ok (splice l i xs).
Proof.
  intros. unfold wr_block.
  rewrite (proj2 (in_range_spec l i (Z.of_nat (length xs)))) by lia. reflexivity.
Qed.

Lemma length_splice l i xs :
  0 ≤ i → i + Z.of_nat (length xs) ≤ Z.of_nat (length l) →
  length (splice l i xs) = length l.
Proof.
  intros. unfold splice. rewrite !length_app, length_take, length_drop. lia.
Qed.

Lemma length_slice l i n :
  0 ≤ i → 0 ≤ n → i + n ≤ Z.of_nat (length l) → Z.of_nat (length (slice l i n)) = n.
Proof. intros. unfold slice. rewrite length_take, length_drop. lia. Qed.

Lemma take_splice l i xs :
  0 ≤ i → i + Z.of_nat (length xs) ≤ Z.of_nat (length l) →
  take (Z.to_nat i + length xs) (splice l i xs) = take (Z.to_nat i) l ++ xs.
Proof.
  intros. unfold splice. rewrite app_assoc.
  rewrite take_app_length'; [reflexivity |]. rewrite length_app, length_take. lia.
Qed.

Lemma splice_prefix l i xs k :
  0 ≤ i → i + Z.of_nat (length xs) ≤ Z.of_nat (length l) → (k ≤ Z.to_nat i)%nat →
  take k (splice l i xs) = take k l.
Proof.
  intros. unfold splice. rewrite take_app_le by (rewrite length_take; lia).
  rewrite take_take. f_equal. lia.
Qed.

Lemma slice_splice l i xs :
  0 ≤ i → i + Z.of_nat (length xs) ≤ Z.of_nat (length l) →
  slice (splice l i xs) i (Z.of_nat (length xs)) = xs.
Proof.
  intros. unfold slice, splice.
  rewrite drop_app_length' by (rewrite length_take; lia).
  rewrite Nat2Z.id. apply take_app_length.
Qed.

Lemma Forall_slice (P : A → Prop) l i n : Forall P l → Forall P (slice l i n).
Proof. intros. unfold slice. auto using Forall_take, Forall_drop. Qed.

Lemma Forall_splice (P : A → Prop) l i xs :
  Forall P l → Forall P xs → Forall P (splice l i xs).
Proof. intros. unfold splice. rewrite !Forall_app. auto using Forall_take, Forall_drop. Qed.

(** A single write is a one-element block write. *)
Lemma insert_splice l i v :
  0 ≤ i < Z.of_nat (length l) → <[Z.to_nat i := v]> l = splice l i [v].
Proof.
  intros. unfold splice. simpl.
  rewrite insert_take_drop by lia. do 3 f_equal. lia.
Qed.

(** Consecutive block writes are one block write. *)
Lemma splice_app l i xs ys :
  0 ≤ i → i + Z.of_nat (length (xs ++ ys)) ≤ Z.of_nat (length l) →
  splice (splice l i xs) (i + Z.of_nat (length xs)) ys = splice l i (xs ++ ys).
Proof.
  intros Hi Hlen. rewrite length_app in Hlen.
  unfold splice at 1.
  replace (Z.to_nat (i + Z.of_nat (length xs))) with (Z.to_nat i + length xs)%nat by lia.
  rewrite take_splice by lia. unfold splice.
  rewrite <- !app_assoc. do 3 f_equal. rewrite length_app.
  rewrite app_assoc, drop_app_ge by (rewrite length_app, length_take; lia).
  rewrite drop_drop. f_equal. rewrite length_app, length_take. lia.
Qed.

End arrays.

#[export] Hint Resolve Forall_slice Forall_splice : misaka.

(** ** Tactics *)

(** Case analysis on the boolean comparisons of a goal, with their meaning. *)
Ltac case_cmp :=
  match goal with
  | |- context [Z.ltb ?a ?b] => destruct (Z.ltb_spec a b)
  | |- context [Z.leb ?a ?b] => destruct (Z.leb_spec a b)
  | |- context [Z.eqb ?a ?b] => destruct (Z.eqb_spec a b)
  | H : context [Z.ltb ?a ?b] |- _ => destruct (Z.ltb_spec a b)
  | H : context [Z.leb ?a ?b] |- _ => destruct (Z.leb_spec a b)
  | H : context [Z.eqb ?a ?b] |- _ => destruct (Z.eqb_spec a b)
  end.

(** Open a chain of binds in a hypothesis [m ≫= f = Ok b]. *)
Ltac inv_bind :=
  repeat match goal with
  | H : (_ ≫= _) = Ok _ |- _ =>
      let a := fresh "a" in let Ha := fresh "Ha" in
      apply bind_Ok_inv in H as (a & Ha & H)
  | H : Ok _ = Ok _ |- _ => injection H as H; simplify_eq
  | H : Fail _ = Ok _ |- _ => discriminate H
  end.

(** Range facts of the fixed-width types, unfolded for [lia]. *)
Ltac unfold_ranges := unfold is_u8, is_u16, is_u32, is_u64, is_s32 in *.

(** ** Big-endian byte strings *)

(** A value with its low [k] bits clear and one below [2^k] do not overlap. *)
Lemma lor_disjoint a b k :
  0 ≤ k → 0 ≤ b < 2 ^ k → Z.lor (a * 2 ^ k) b = a * 2 ^ k + b.
Proof.
  intros Hk Hb. rewrite <- Z.add_nocarry_lor; [reflexivity |].
  apply Z.bits_inj'. intros n Hn. rewrite Z.land_spec, Z.bits_0.
  destruct (Z.ltb_spec n k).
  - rewrite Z.mul_pow2_bits_low by lia. reflexivity.
  - rewrite <- (Z.mod_small b (2 ^ k)) by lia.
    rewrite Z.mod_pow2_bits_high by lia. apply andb_false_r.
Qed.

Definition be_value (bs : list Z) : Z := fold_left (λ acc b, acc * 2 ^ 8 + b) bs 0.

Fixpoint be_bytes (n : nat) (z : Z) : list Z :=
  match n with
  | O => []
  | S m => u8 (Z.shiftr z (8 * Z.of_nat m)) :: be_bytes m z
  end.

Lemma length_be_bytes n z : length (be_bytes n z) = n.
Proof. induction n; simpl; congruence. Qed.

Lemma be_bytes_u8 n z : Forall is_u8 (be_bytes n z).
Proof. induction n; simpl; constructor; auto with misaka. Qed.

Lemma fold_be_acc bs acc :
  fold_left (λ acc b, acc * 2 ^ 8 + b) bs acc =
  acc * 2 ^ (8 * Z.of_nat (length bs)) + be_value bs.
Proof.
  unfold be_value. revert acc. induction bs as [|b bs IH]; intros acc; cbn [fold_left length].
  - change (2 ^ (8 * Z.of_nat 0)) with 1. lia.
  - rewrite IH, (IH (0 * 2 ^ 8 + b)).
    replace (8 * Z.of_nat (S (length bs))) with (8 + 8 * Z.of_nat (length bs)) by lia.
    rewrite Z.pow_add_r by lia. lia.
Qed.

Lemma be_value_cons b bs :
  be_value (b :: bs) = b * 2 ^ (8 * Z.of_nat (length bs)) + be_value bs.
Proof. unfold be_value at 1. cbn [fold_left]. rewrite fold_be_acc. lia. Qed.

Lemma be_value_range bs :
  Forall is_u8 bs → 0 ≤ be_value bs < 2 ^ (8 * Z.of_nat (length bs)).
Proof.
  induction 1 as [|b bs Hb Hbs IH].
  - unfold be_value; simpl. lia.
  - rewrite be_value_cons. simpl length.
    replace (8 * Z.of_nat (S (length bs))) with (8 + 8 * Z.of_nat (length bs)) by lia.
    rewrite Z.pow_add_r by lia. unfold_ranges. nia.
Qed.

(** Decoding what was encoded gives the value back, modulo its width. *)
Lemma be_value_bytes n z : be_value (be_bytes n z) = z mod 2 ^ (8 * Z.of_nat n).
Proof.
  induction n as [|n IH].
  - simpl. rewrite Z.mod_1_r. reflexivity.
  - simpl be_bytes. rewrite be_value_cons, length_be_bytes, IH.
    unfold u8. rewrite Z.shiftr_div_pow2 by lia.
    replace (8 * Z.of_nat (S n)) with (8 * Z.of_nat n + 8) by lia.
    rewrite Z.pow_add_r by lia. rewrite Z.rem_mul_r by lia. lia.
Qed.

(** One step of the decoding loops: [acc] has been shifted past the byte [b]. *)
Lemma lor_byte a b k :
  0 ≤ k → is_u8 b → Z.lor (a * 2 ^ (k + 8)) (Z.shiftl b k) = (a * 2 ^ 8 + b) * 2 ^ k.
Proof.
  intros Hk Hb. rewrite Z.shiftl_mul_pow2 by lia.
  rewrite lor_disjoint; rewrite ?Z.pow_add_r by lia; unfold_ranges; nia.
Qed.
