(* ===== verification/Memory.v ===== *)
(** Heaps of C objects and singly linked chains.

    Objects of one C type live in one heap, a finite map from addresses; a
    pointer is an [option loc], [None] for NULL.  Reading through NULL or
    through a freed object is a fault.  The chain theory below is shared by
    every component whose nodes carry one link: stream fifos, hash buckets,
    the global message queue and the job queue of the thread pool. *)

From S2P Require Import Prelude.

Local Open Scope Z_scope.

Section heap.
Context {N : Type}.
Implicit Types (h : gmap loc N) (p : option loc).

(** [*p] *)
Definition load h p : res N :=
  match p with
  | None => Fail NullDeref
  | Some l => from_option_or BadPointer (h !! l)
  end.

(** [p->field = ...] *)
Definition modify h p (f : N → N) : res (gmap loc N) :=
  match p with
  | None => Fail NullDeref
  | Some l => n ← from_option_or BadPointer (h !! l); Ok (<[l := f n]> h)
  end.

(** [free(p)]: freeing NULL does nothing. *)
Definition release h p : res (gmap loc N) :=
  match p with
  | None => Ok h
  | Some l => n ← from_option_or BadPointer (h !! l); Ok (delete l h)
  end.

Lemma load_Some h l n : h !! l = Some n → load h (Some l) = Ok n.
Proof. intros H. simpl. by rewrite H. Qed.

Lemma modify_Some h l n f : h !! l = Some n → modify h (Some l) f = Ok (<[l := f n]> h).
Proof. intros H. simpl. by rewrite H. Qed.

Lemma release_Some h l n : h !! l = Some n → release h (Some l) = Ok (delete l h).
Proof. intros H. simpl. by rewrite H. Qed.

End heap.

(** An allocator of objects: it fails or hands out an address not in use. *)
Class Allocator (N : Type) := {
  xalloc : gmap loc N → option loc;
  xalloc_fresh h l : xalloc h = Some l → h !! l = None
}.

Lemma fresh_dom_None {N : Type} (h : gmap loc N) l : Some (fresh (dom h)) = Some l → h !! l = None.
Proof. intros [= <-]. apply not_elem_of_dom, is_fresh. Qed.

(** An allocator that never fails. *)
Definition unbounded_allocator {N : Type} : Allocator N :=
  {| xalloc h := Some (fresh (dom h)); xalloc_fresh := fresh_dom_None |}.

(** Nodes with one link field. *)
Class Linked (N : Type) := {
  link : N → option loc;
  set_link : option loc → N → N;
  link_set_link p n : link (set_link p n) = p
}.

Definition first_ptr (xs : list loc) (q : option loc) : option loc :=
  match xs with [] => q | x :: _ => Some x end.

Section chains.
Context {N : Type} {LN : Linked N}.
Implicit Types (h : gmap loc N) (xs ys : list loc) (q : option loc).

(** [chain h xs q]: the nodes [xs] are allocated, each links to the next one
    and the last one to [q]. *)
Fixpoint chain h xs q : Prop :=
  match xs with
  | [] => True
  | x :: xs' => (∃ n, h !! x = Some n ∧ link n = first_ptr xs' q) ∧ chain h xs' q
  end.

Lemma first_ptr_app xs ys q : first_ptr (xs ++ ys) q = first_ptr xs (first_ptr ys q).
Proof. by destruct xs. Qed.

Lemma chain_app h xs ys q :
  chain h (xs ++ ys) q ↔ chain h xs (first_ptr ys q) ∧ chain h ys q.
Proof.
  induction xs as [|x xs IH]; simpl; [tauto |].
  rewrite IH, first_ptr_app. tauto.
Qed.

(** Chains only depend on the nodes they go through. *)
Lemma chain_frame h h' xs q :
  (∀ x, x ∈ xs → h' !! x = h !! x) → chain h xs q → chain h' xs q.
Proof.
  induction xs as [|x xs IH]; simpl; [done |].
  intros Hf [(n & Hn & Hl) Hc]. split.
  - exists n. rewrite Hf by (left; done). done.
  - apply IH; [| done]. intros y Hy. apply Hf. by right.
Qed.

Lemma chain_insert h xs q x n : x ∉ xs → chain h xs q → chain (<[x := n]> h) xs q.
Proof.
  intros Hx. apply chain_frame. intros y Hy. apply lookup_insert_ne. by intros ->.
Qed.

Lemma chain_delete h xs q x : x ∉ xs → chain h xs q → chain (delete x h) xs q.
Proof.
  intros Hx. apply chain_frame. intros y Hy. apply lookup_delete_ne. by intros ->.
Qed.

Lemma chain_lookup h xs q x : chain h xs q → x ∈ xs → ∃ n, h !! x = Some n.
Proof.
  induction xs as [|y xs IH]; simpl; [by intros _ Hx%elem_of_nil |].
  intros [(n & Hn & _) Hc] [-> | Hx]%elem_of_cons; eauto.
Qed.

(** Relinking the last node of a chain redirects its end. *)
Lemma chain_snoc_relink h xs x q q' n :
  NoDup (xs ++ [x]) → chain h (xs ++ [x]) q → h !! x = Some n →
  chain (<[x := set_link q' n]> h) (xs ++ [x]) q'.
Proof.
  intros Hnd Hc Hx. apply chain_app in Hc as [Hc _]. apply chain_app. split.
  - apply chain_insert; [| done]. apply NoDup_app in Hnd as (_ & Hnd & _).
    intros Hin. apply (Hnd x Hin). set_solver.
  - simpl. split; [| done]. exists (set_link q' n).
    rewrite lookup_insert_eq, link_set_link. done.
Qed.

(** Following the links [k] times from a pointer. *)
Fixpoint walk (k : nat) h (p : option loc) : res (list loc) :=
  match k with
  | O => Fail OutOfFuel
  | S k =>
      match p with
      | None => Ok []
      | Some l => n ← load h p; xs ← walk k h (link n); Ok (l :: xs)
      end
  end.

Lemma walk_chain h xs k :
  chain h xs None → (length xs < k)%nat → walk k h (first_ptr xs None) = Ok xs.
Proof.
  revert k. induction xs as [|x xs IH]; intros k Hc Hk; (destruct k; [simpl in Hk; lia |]).
  - done.
  - destruct Hc as [(n & Hn & Hl) Hc]. simpl in Hk. simpl. rewrite Hn. simpl.
    rewrite Hl, IH by (auto; lia). done.
Qed.

Lemma chain_length h xs q : NoDup xs → chain h xs q → (length xs ≤ size (dom h))%nat.
Proof.
  intros Hnd Hc. rewrite <- (size_list_to_set (C := gset loc) xs) by done.
  apply subseteq_size. intros x Hx. apply elem_of_list_to_set in Hx.
  destruct (chain_lookup _ _ _ _ Hc Hx) as [n Hn]. apply elem_of_dom. eauto.
Qed.

End chains.

(** ** Sums over a finite map, such as the threads of a program *)

Section sums.
Context {A X : Type} (f : A → list X).
Implicit Types (th : gmap nat A).

Definition total th : list X := concat (f <$> (map_to_list th).*2).

Lemma total_delete th t a : th !! t = Some a → total th ≡ₚ f a ++ total (delete t th).
Proof.
  intros Ht. unfold total. rewrite <- (map_to_list_delete th t a Ht). done.
Qed.

Lemma total_insert th t b : total (<[t := b]> th) ≡ₚ f b ++ total (delete t th).
Proof.
  rewrite <- insert_delete_eq. unfold total.
  rewrite map_to_list_insert by apply lookup_delete_eq. done.
Qed.

Lemma total_step th t a b :
  th !! t = Some a → f b = f a → total (<[t := b]> th) ≡ₚ total th.
Proof. intros Ht Hf. rewrite total_insert, (total_delete th t a Ht). by rewrite Hf. Qed.

Lemma total_empty : total ∅ = [].
Proof. unfold total. by rewrite map_to_list_empty. Qed.

Lemma total_member th t a x : th !! t = Some a → x ∈ f a → x ∈ total th.
Proof. intros Ht Hx. rewrite (total_delete th t a Ht). apply elem_of_app. by left. Qed.

Lemma total_elem th x : x ∈ total th → ∃ t a, th !! t = Some a ∧ x ∈ f a.
Proof.
  unfold total. intros Hx. apply list_elem_of_In, in_concat in Hx as (l & Hl & Hx).
  apply list_elem_of_In, list_elem_of_fmap in Hl as (a & -> & Ha).
  apply list_elem_of_fmap in Ha as ([t a'] & -> & Ha). apply elem_of_map_to_list in Ha.
  apply list_elem_of_In in Hx. eauto.
Qed.
End sums.
