(* ===== verification/Alloc.v ===== *)
(** The allocation wrappers of lib/memory.c and the macros of include/memory.h, on
    blocks of bytes at their addresses, over the class [Libc] of what malloc,
    calloc and realloc answer.  MISAK_CACHE_SUPPORT is not defined, so every type
    of memory takes the default branch.

    XREALLOC calls a function that no header declares (memory.h declares
    misakarecalloc), so the compiler takes its result for an int: the pointer the
    caller gets is the low half of the address, sign-extended. *)

From S2P Require Import Prelude.

Local Open Scope Z_scope.

(** Blocks by address; a pointer is its address, 0 for NULL. *)
Abbreviation blocks := (gmap Z (list Z)).

Class Libc := {
  (* the address and the contents of a block, at an address not in use *)
  c_malloc : blocks → Z → option (Z * list Z);
  c_malloc_block m n a d : c_malloc m n = Some (a, d) →
    m !! a = None ∧ 0 < a < 2 ^ 64 ∧ Z.of_nat (length d) = n;
  c_calloc : blocks → Z → option Z;
  c_calloc_fresh m n a : c_calloc m n = Some a → m !! a = None ∧ 0 < a < 2 ^ 64;
  (* the address of the block grown or shrunk, and the bytes behind its old end *)
  c_realloc : blocks → Z → Z → option (Z * list Z);
  c_realloc_block m p n a t : c_realloc m p n = Some (a, t) →
    (a = p ∨ m !! a = None) ∧ 0 < a < 2 ^ 64 ∧ n ≤ Z.of_nat (length t)
}.

Section alloc.
Context {L : Libc}.
Implicit Types (m : blocks).

(** The flag says whether an error is logged. *)
Definition misakamalloc (mtype : Z) (size : Z) m : Z * bool * blocks :=
  match c_malloc m (u64 size) with
  | Some (a, d) => (a, false, <[a := d]> m)
  | None => (0, true, m)
  end.

Definition misakacalloc (mtype : Z) (size : Z) m : Z * blocks :=
  match c_calloc m (u64 size) with
  | Some a => (a, <[a := replicate (Z.to_nat (u64 size)) 0]> m)
  | None => (0, m)
  end.

(** realloc keeps the bytes up to the shorter of the two sizes; of NULL it is
    malloc. *)
Definition misakarealloc (mtype : Z) (ptr size : Z) m : res (Z * blocks) :=
  if ptr =? 0 then Ok ((misakamalloc mtype size m).1.1, (misakamalloc mtype size m).2) else
  d ← from_option_or BadPointer (m !! ptr);
  match c_realloc m ptr (u64 size) with
  | Some (a, t) => Ok (a, <[a := take (Z.to_nat (u64 size)) (d ++ t)]> (delete ptr m))
  | None => Ok (0, m)
  end.

Definition misakafree (mtype : Z) (ptr : Z) m : res (bool * blocks) :=
  if ptr =? 0 then Ok (true, m) else
  _ ← from_option_or BadPointer (m !! ptr);
  Ok (false, delete ptr m).

(** XFREE clears the pointer it is given. *)
Definition XFREE (mtype : Z) (ptr : Z) m : res (Z * blocks) :=
  '(_, m) ← misakafree mtype ptr m; Ok (0, m).

(** The result of a function without a declaration is an int. *)
Definition XREALLOC (mtype ptr size : Z) m : res (Z * blocks) :=
  '(a, m) ← misakarealloc mtype ptr size m; Ok (u64 (s32 a), m).

(** What was allocated is freed, once: the pointer that XFREE leaves is NULL, and
    freeing that only logs. *)
Theorem alloc_free_roundtrip mtype size m :
  let '(p, err, m1) := misakamalloc mtype size m in
  (err = true ∧ p = 0 ∧ m1 = m) ∨
  (err = false ∧ p ≠ 0 ∧ XFREE mtype p m1 = Ok (0, m) ∧ misakafree mtype 0 m = Ok (true, m)).
Proof.
  unfold misakamalloc. destruct (c_malloc m (u64 size)) as [[a d] |] eqn:E; [right | by left].
  apply c_malloc_block in E as (Hf & Ha & _). split; [done |]. split; [lia |]. split; [| done].
  unfold XFREE, misakafree. case_cmp; [lia |]. rewrite lookup_insert_eq. cbn [from_option_or].
  rewrite !bind_Ok, delete_insert_id by done. done.
Qed.

(** XREALLOC keeps the bytes of the block, up to the shorter of the two sizes,
    and no other block changes; but the pointer it returns is that of the block
    only when its address is below 2^31 or in the last 2^31 bytes, where no program
    has memory: for every other address it is another address. *)
Theorem xrealloc_truncates mtype p n m d a t :
  p ≠ 0 → 0 ≤ n < 2 ^ 31 → m !! p = Some d → c_realloc m p n = Some (a, t) →
  ∃ m', XREALLOC mtype p n m = Ok (u64 (s32 a), m') ∧
    m' !! a = Some (take (Z.to_nat n) (d ++ t)) ∧ (∀ b, b ≠ p → b ≠ a → m' !! b = m !! b) ∧
    (u64 (s32 a) = a ↔ a < 2 ^ 31 ∨ 2 ^ 64 - 2 ^ 31 ≤ a).
Proof.
  intros Hp Hn Hd Hr. pose proof (c_realloc_block m p n a t Hr) as (Ha & Hb & Ht).
  unfold XREALLOC, misakarealloc. case_cmp; [done |]. rewrite Hd. cbn [from_option_or].
  rewrite u64_small by (unfold_ranges; lia). rewrite bind_Ok, Hr, bind_Ok.
  eexists. split; [reflexivity |]. split; [by rewrite lookup_insert_eq |]. split.
  { intros b Hbp Hba. by rewrite lookup_insert_ne, lookup_delete_ne. }
  pose proof (s32_range a) as Hs. unfold_ranges. split.
  - intros He. unfold u64 in He. destruct (decide (0 ≤ s32 a)) as [Hpos | Hneg].
    + rewrite Z.mod_small in He by lia. lia.
    + rewrite <- (Z.mod_add _ 1), Z.mod_small in He by lia. lia.
  - intros [Hlo | Hhi].
    + rewrite s32_small by (unfold_ranges; lia). apply u64_small. unfold_ranges. lia.
    + assert (s32 a = a - 2 ^ 64) as ->.
      { transitivity (s32 (a - 2 ^ 64)); [| apply s32_small; unfold_ranges; lia].
        unfold s32. replace ((a - 2 ^ 64) mod 2 ^ 32) with (a mod 2 ^ 32); [done |].
        rewrite <- (Z.mod_add (a - 2 ^ 64) (2 ^ 32)) by lia. f_equal. lia. }
      unfold u64. rewrite <- (Z.mod_add _ 1), Z.mod_small by lia. lia.
Qed.
End alloc.

(** A C library that places blocks from an address on, far apart. *)
Program Definition libc_at (base : Z) (H : 0 < base < 2 ^ 63) : Libc :=
  {| c_malloc m n := if bool_decide (m !! base = None ∧ 0 ≤ n) then Some (base, replicate (Z.to_nat n) 0) else None;
     c_calloc m n := if bool_decide (m !! base = None) then Some base else None;
     c_realloc m p n :=
       if bool_decide (m !! base = None ∧ 0 ≤ n) then Some (base, replicate (Z.to_nat n) 0) else None |}.
Next Obligation.
  intros base H m n a d E. cbv beta in E. case_bool_decide as Hb; [| done]. injection E as <- <-.
  rewrite length_replicate. destruct Hb. repeat split; (done || lia).
Qed.
Next Obligation. intros base H m n a E. cbv beta in E. case_bool_decide; [| done]. injection E as <-. split; [done | lia]. Qed.
Next Obligation.
  intros base H m p n a t E. cbv beta in E. case_bool_decide as Hb; [| done]. injection E as <- <-.
  rewrite length_replicate. destruct Hb. repeat split; (auto || lia).
Qed.

Lemma high_address : 0 < 2 ^ 32 + 4096 < 2 ^ 63.
Proof. lia. Qed.

Definition two_bytes : blocks := {[64 := [7; 8]]}.

(** A block moved to an address above 2^32: the caller gets another one. *)
Lemma xrealloc_truncates_witness :
  let L := libc_at (2 ^ 32 + 4096) high_address in
  XREALLOC (L := L) 14 64 3 two_bytes = Ok (4096, {[2 ^ 32 + 4096 := [7; 8; 0]]}) ∧
  ∃ m', XREALLOC (L := L) 14 64 3 two_bytes = Ok (u64 (s32 (2 ^ 32 + 4096)), m') ∧
    m' !! (2 ^ 32 + 4096) = Some (take 3 ([7; 8] ++ [0; 0; 0])) ∧
    (∀ b, b ≠ 64 → b ≠ 2 ^ 32 + 4096 → m' !! b = two_bytes !! b) ∧
    (u64 (s32 (2 ^ 32 + 4096)) = 2 ^ 32 + 4096 ↔ 2 ^ 32 + 4096 < 2 ^ 31 ∨ 2 ^ 64 - 2 ^ 31 ≤ 2 ^ 32 + 4096).
Proof.
  intros L. split; [vm_compute; reflexivity |].
  apply (xrealloc_truncates (L := L) 14 64 3 two_bytes [7; 8] (2 ^ 32 + 4096) [0; 0; 0]);
    [lia | lia | reflexivity | vm_compute; reflexivity].
Defined.
