(* ===== verification/Cstring.v ===== *)
(** Strings of the C library: a string is the list of its characters without the
    terminating 0.  The functions of <string.h>, <stdlib.h> and <stdio.h> that the
    sources call, with the lemmas on reading back what was printed. *)

From Stdlib Require Import Ascii String.
From S2P Require Import Prelude.

Local Open Scope Z_scope.

(** A string literal *)
Definition chars (s : String.string) : list Z :=
  (λ c, Z.of_nat (Ascii.nat_of_ascii c)) <$> String.list_ascii_of_string s.

Global Arguments chars s%_string_scope.

(** The string at the beginning of a block. *)
Fixpoint c_string (bs : list Z) : list Z :=
  match bs with
  | [] => []
  | b :: bs => if b =? 0 then [] else b :: c_string bs
  end.

(** ** Characters *)

Definition is_digit (c : Z) : bool := (48 <=? c) && (c <=? 57).
Definition isspace (c : Z) : bool := (c =? 32) || ((9 <=? c) && (c <=? 13)).

(** ** Searching *)

(** The index of the first and of the last occurrence of a character. *)
Fixpoint strchr (cs : list Z) (c : Z) : option nat :=
  match cs with
  | [] => None
  | x :: cs => if x =? c then Some O else S <$> strchr cs c
  end.

Fixpoint strrchr (cs : list Z) (c : Z) : option nat :=
  match cs with
  | [] => None
  | x :: cs =>
      match strrchr cs c with
      | Some i => Some (S i)
      | None => if x =? c then Some O else None
      end
  end.

(** strncmp(cs, pre, strlen(pre)) == 0 *)
Fixpoint starts_with (pre cs : list Z) : bool :=
  match pre, cs with
  | [], _ => true
  | p :: pre, c :: cs => (p =? c) && starts_with pre cs
  | _ :: _, [] => false
  end.

Fixpoint strstr (cs needle : list Z) : option nat :=
  if starts_with needle cs then Some O else
  match cs with
  | [] => None
  | _ :: cs => S <$> strstr cs needle
  end.

(** strcmp(a, blk) == 0, where the second string is in the block [blk]: the
    comparison reads the block up to the first difference or the common end. *)
Fixpoint strcmp_eq (a blk : list Z) : res bool :=
  match blk with
  | [] => Fail OutOfBounds
  | b :: blk =>
      match a with
      | [] => Ok (b =? 0)
      | c :: a => if c =? b then strcmp_eq a blk else Ok false
      end
  end.

(** strncpy(blk, cs, n): the rest of the [n] characters is 0. *)
Definition strncpy (blk cs : list Z) (n : Z) : res (list Z) :=
  wr_block blk 0 (take (Z.to_nat n) (cs ++ replicate (Z.to_nat n) 0)).

(** sprintf into an array of [n] characters. *)
Definition sprintf (n : Z) (cs : list Z) : res (list Z) :=
  if Z.of_nat (length cs) <? n then Ok cs else Fail OutOfBounds.
Definition snprintf (n : Z) (cs : list Z) : list Z := take (Z.to_nat (n - 1)) cs.

(** ** Numbers *)

(** The value of the digits in front, from [acc] on, and what follows them. *)
Fixpoint digits (acc : Z) (cs : list Z) : Z * list Z :=
  match cs with
  | [] => (acc, [])
  | c :: cs' => if is_digit c then digits (acc * 10 + (c - 48)) cs' else (acc, cs)
  end.

Fixpoint skip_space (cs : list Z) : list Z :=
  match cs with
  | [] => []
  | c :: cs' => if isspace c then skip_space cs' else cs
  end.

Definition LONG_MAX : Z := 2 ^ 63 - 1.

(** strtol(cs, &end, 10): the value, clamped to [long], and the string at [end];
    without digits [end] is the argument. *)
Definition strtol (cs : list Z) : Z * list Z :=
  let s := skip_space cs in
  let '(neg, s) := match s with
                   | 45 :: s => (true, s)
                   | 43 :: s => (false, s)
                   | _ => (false, s)
                   end in
  match s with
  | c :: _ =>
      if is_digit c then
        let '(v, e) := digits 0 s in
        (if neg : bool then Z.max (- v) (- LONG_MAX - 1) else Z.min v LONG_MAX, e)
      else (0, cs)
  | [] => (0, cs)
  end.

Definition atoi (cs : list Z) : Z := s32 (strtol cs).1.

(** [%d] *)
Fixpoint decimal_loop (k : nat) (z : Z) (acc : list Z) : list Z :=
  match k with
  | O => acc
  | S k => let acc := (48 + z mod 10) :: acc in
           if z <? 10 then acc else decimal_loop k (z / 10) acc
  end.

(** 20 digits are enough for any integer of 64 bits. *)
Definition decimal (z : Z) : list Z :=
  if z <? 0 then 45 :: decimal_loop 20 (- z) [] else decimal_loop 20 z [].

(** sscanf with [k] conversions [%d] separated by dots: the values stored. *)
Fixpoint scan_dotted (k : nat) (cs : list Z) : list Z :=
  match k with
  | O => []
  | S k =>
      let '(v, e) := strtol cs in
      if bool_decide (e = cs) then [] else
      s32 v :: match e with 46 :: e => scan_dotted k e | _ => [] end
  end.

(** fgets into an array of [n] characters: the line, up to and with the end of
    line, and the rest of the file. *)
Fixpoint fgets (n : nat) (file : list Z) : list Z * list Z :=
  match n, file with
  | S n, c :: file =>
      if c =? 10 then ([c], file)
      else let '(l, r) := fgets n file in (c :: l, r)
  | _, _ => ([], file)
  end.

(** ** Printing and reading back *)

Lemma is_digit_spec c : is_digit c = true ↔ 48 ≤ c ≤ 57.
Proof. unfold is_digit. rewrite andb_true_iff, !Z.leb_le. done. Qed.

Lemma digits_app ds : ∀ acc rest,
  forallb is_digit ds = true → (∀ c cs, rest = c :: cs → is_digit c = false) →
  digits acc (ds ++ rest) = (foldl (λ v c, v * 10 + (c - 48)) acc ds, rest).
Proof.
  induction ds as [| d ds IH]; intros acc rest Hd Hr; cbn [app foldl].
  - destruct rest as [| c rest]; [done |]. cbn. by rewrite (Hr c rest eq_refl).
  - cbn in Hd. apply andb_true_iff in Hd as [Hd Hds]. cbn. rewrite Hd. by apply IH.
Qed.

Lemma decimal_loop_spec k : ∀ z acc,
  0 ≤ z < 10 ^ Z.of_nat (S k) →
  ∃ ds, decimal_loop (S k) z acc = ds ++ acc ∧ ds ≠ [] ∧ forallb is_digit ds = true ∧
    ∀ v, foldl (λ v c, v * 10 + (c - 48)) v ds = v * 10 ^ Z.of_nat (length ds) + z.
Proof.
  induction k as [| k IH]; intros z acc Hz.
  - cbn [decimal_loop]. exists [48 + z mod 10]. rewrite Z.mod_small by lia.
    destruct (z <? 10); (split; [done |]; split; [done |]; split; [cbn; rewrite (proj2 (is_digit_spec _)) by lia; done |]);
      intros v; cbn; lia.
  - cbn [decimal_loop]. destruct (Z.ltb_spec z 10) as [Hlt | Hge].
    + exists [48 + z mod 10]. rewrite Z.mod_small by lia. split; [done |]. split; [done |].
      split; [cbn; rewrite (proj2 (is_digit_spec _)) by lia; done |]. intros v. cbn. lia.
    + destruct (IH (z / 10) ((48 + z mod 10) :: acc)) as (ds & E & Hne & Hd & Hv).
      { rewrite Nat2Z.inj_succ, Z.pow_succ_r in Hz by lia. split; [apply Z.div_pos; lia |].
        apply Z.div_lt_upper_bound; lia. }
      exists (ds ++ [48 + z mod 10]). rewrite <- app_assoc. split; [exact E |].
      split; [by destruct ds |]. pose proof (Z.mod_pos_bound z 10 ltac:(lia)).
      split; [rewrite forallb_app, Hd; cbn; by rewrite (proj2 (is_digit_spec _)) by lia |].
      intros v. rewrite foldl_app, Hv, length_app. cbn [foldl length].
      rewrite Nat.add_1_r, Nat2Z.inj_succ, Z.pow_succ_r by lia. pose proof (Z.div_mod z 10 ltac:(lia)). lia.
Qed.

(** The digits of a number that is not negative *)
Lemma decimal_spec z :
  0 ≤ z < 2 ^ 63 →
  ∃ d ds, decimal z = d :: ds ∧ forallb is_digit (d :: ds) = true ∧
    foldl (λ v c, v * 10 + (c - 48)) 0 (d :: ds) = z.
Proof.
  intros Hz. unfold decimal. destruct (Z.ltb_spec z 0); [lia |].
  destruct (decimal_loop_spec 19 z []) as (ds & E & Hne & Hd & Hv); [cbn; lia |].
  rewrite app_nil_r in E. destruct ds as [| d ds]; [done |]. exists d, ds.
  split; [exact E |]. split; [done |]. rewrite Hv. lia.
Qed.

Lemma strtol_decimal z rest :
  0 ≤ z < 2 ^ 63 → (∀ c cs, rest = c :: cs → is_digit c = false) →
  strtol (decimal z ++ rest) = (z, rest).
Proof.
  intros Hz Hr. destruct (decimal_spec z Hz) as (d & ds & -> & Hd & Hv).
  pose proof Hd as Hd'. cbn [forallb] in Hd'. apply andb_true_iff in Hd' as [Hd1 _].
  pose proof (proj1 (is_digit_spec _) Hd1) as Hr1. unfold strtol. rewrite <- app_comm_cons. cbn [skip_space].
  assert (isspace d = false) as -> by (unfold isspace; rewrite orb_false_iff, andb_false_iff, Z.eqb_neq, !Z.leb_gt; lia).
  assert (match d :: ds ++ rest with 45 :: s => (true, s) | 43 :: s => (false, s) | _ => (false, d :: ds ++ rest) end
          = (false, d :: ds ++ rest)) as ->.
  { assert (d ≠ 45 ∧ d ≠ 43) as [H1 H2] by lia. clear -H1 H2.
    destruct d as [| p | p]; [done | | done]. do 6 (destruct p as [p | p |]; try done). }
  rewrite Hd1. rewrite app_comm_cons, digits_app by done. rewrite Hv. unfold LONG_MAX. f_equal. lia.
Qed.

Lemma decimal_cons z : 0 ≤ z < 2 ^ 63 → decimal z ≠ [].
Proof. intros Hz. destruct (decimal_spec z Hz) as (d & ds & -> & _). done. Qed.

Lemma decimal_loop_len k : ∀ z acc, (length (decimal_loop k z acc) <= k + length acc)%nat.
Proof.
  induction k as [| k IH]; intros z acc; cbn [decimal_loop]; [lia |].
  destruct (z <? 10); [cbn; lia |]. etrans; [apply IH | cbn; lia].
Qed.

Lemma decimal_length z : (length (decimal z) <= 21)%nat.
Proof.
  unfold decimal. destruct (z <? 0); cbn [length];
    [pose proof (decimal_loop_len 20 (- z) []) as H | pose proof (decimal_loop_len 20 z []) as H];
    cbn [length] in H; lia.
Qed.
