(* ===== verification/Common.v ===== *)
(** The helpers of lib/common.c: the network interfaces, processes found through
    /proc and stopped with signals, the millisecond clock, and the commands for
    the GPIO files.

    What the code asks of the operating system is the class [System]; replies of
    ioctl, popen and gettimeofday are arguments. *)

From Stdlib Require Ascii String.
From S2P Require Import Prelude Cstring.

Import String.StringSyntax.
Local Open Scope string_scope.
Local Open Scope Z_scope.

Class System := {
  os : Type;
  sys_file : os → list Z → option (list Z);          (* open and read a file *)
  sys_readdir : os → list Z → option (list (list Z)); (* the names in a directory *)
  sys_kill : os → Z → Z → Z * os;                    (* kill(pid, sig) *)
  sys_usleep : os → Z → os                           (* the system after a pause *)
}.

(** ** Network interfaces *)

(** [reply]: the 14 bytes of sa_data, when ioctl succeeds.  An address has a port
    of two bytes in front, a hardware address has not. *)
Definition get_mac (reply : option (list Z)) : Z * list Z :=
  match reply with None => (-1, replicate 6 0) | Some d => (0, slice d 0 6) end.
Definition get_netmask (reply : option (list Z)) : Z * list Z :=
  match reply with None => (-1, replicate 4 0) | Some d => (0, slice d 2 4) end.
Definition get_ip (reply : option (list Z)) : Z * list Z :=
  match reply with None => (-1, replicate 4 0) | Some d => (0, slice d 2 4) end.

Record net_info := mkNetInfo {
  ni_link : Z; ni_proto : Z; ni_ip : list Z; ni_mask : list Z; ni_gw : list Z
}.

Definition set_ni_ip (v : list Z) (i : net_info) : net_info :=
  mkNetInfo (ni_link i) (ni_proto i) v (ni_mask i) (ni_gw i).
Definition set_ni_mask (v : list Z) (i : net_info) : net_info :=
  mkNetInfo (ni_link i) (ni_proto i) (ni_ip i) v (ni_gw i).

(** [sk]: the socket; [ip] and [mask]: the replies.  The result is indeterminate
    when nothing fails. *)
Definition get_net_info (sk : Z) (ip mask : option (list Z)) (info : net_info) : option Z * net_info :=
  if sk <? 0 then (Some sk, info) else
  match ip with
  | None => (Some (-1), info)
  | Some d =>
      let info := set_ni_ip (slice d 2 4) info in
      match mask with
      | None => (Some (-1), info)
      | Some d => (None, set_ni_mask (slice d 2 4) info)
      end
  end.

(** The loop of get_gateway over the lines of the command; the numbers scanned
    are never stored in [gw]. *)
Fixpoint gateway_loop (k : nat) (out : list Z) : Z :=
  match k, out with
  | S k, _ :: _ =>
      let '(line, out) := fgets 63 out in
      match strstr (c_string line) (chars "via") with Some _ => 0 | None => gateway_loop k out end
  | _, _ => -1
  end.

(** [out]: the output of the command, when popen succeeds. *)
Definition get_gateway (out : option (list Z)) : Z * list Z :=
  match out with
  | None => (-1, replicate 4 0)
  | Some out => (gateway_loop (length out) out, replicate 4 0)
  end.

(** The loop of getmask: one pass over the bits [n - 1] down to 0 of all bytes. *)
Fixpoint mask_loop (n : nat) (ip : list Z) (loopmask : Z) : Z :=
  match n with
  | O => loopmask
  | S n =>
      mask_loop n ip (foldl (λ c b, if Z.testbit b (Z.of_nat n) then c + 1 else c) loopmask ip)
  end.

(** What sscanf does not reach keeps its 0. *)
Definition getmask (nmask : list Z) : Z :=
  let v := scan_dotted 4 nmask in
  mask_loop 8 (v ++ replicate (4 - length v) 0) 0.

Definition get_complete_ip (from to : option (list Z)) : list Z :=
  match from, to with
  | Some from, Some to =>
      match scan_dotted 4 from with
      | [a; b; c; _] => snprintf 20 (decimal a ++ 46 :: decimal b ++ 46 :: decimal c ++ 46 :: to)
      | _ => chars "0.0.0.0"
      end
  | _, _ => chars "0.0.0.0"
  end.

(** The name is stored in the block [name]; the result is whether a pointer was
    returned. *)
Definition get_ifname (name : list Z) (nsize : Z) (buf : list Z) : res (bool * list Z) :=
  let buf := skip_space buf in
  match strstr buf (chars ": ") with
  | None => Ok (false, name)
  | Some e =>
      if nsize <? Z.of_nat e + 1 then Ok (false, name) else
      name ← wr_block name 0 (take e buf);
      name ← wr name (Z.of_nat e) 0;
      Ok (true, name)
  end.

(** The loop of sys_get_eth_ifname and sys_get_wlan_ifname. *)
Fixpoint ifname_loop (k : nat) (prefix : list Z) (file name : list Z) (nsize : Z) : res (Z * list Z) :=
  match k, file with
  | S k, _ :: _ =>
      let '(line, file) := fgets 255 file in
      let buf := c_string line in
      if Z.of_nat (length buf) <? 2 then ifname_loop k prefix file name nsize else
      '(found, name) ← get_ifname name nsize buf;
      if found && starts_with prefix (c_string name) then Ok (1, name)
      else ifname_loop k prefix file name nsize
  | _, _ => Ok (0, name)
  end.

(** [file]: the contents of /proc/net/dev or /proc/net/wireless, if it opens. *)
Definition find_ifname (prefix : list Z) (file : option (list Z)) (name : list Z) (nsize : Z) : res (Z * list Z) :=
  match file with
  | None => Ok (-1, name)
  | Some f => ifname_loop (length f) prefix f name nsize
  end.

Definition sys_get_eth_ifname := find_ifname (chars "eth").
Definition sys_get_wlan_ifname := find_ifname (chars "wlan").

(** ** Commands *)

(** [out]: what the command prints, when popen succeeds. *)
Definition pipe_exec (popen : list Z → option (list Z)) (shell : list Z) : Z :=
  match popen shell with
  | None => -1
  | Some out => match out with [] => 0 | _ => 1 end
  end.

(** The command is built in an array of 32 characters. *)
Definition get_eth_link (popen : list Z → option (list Z)) (name : list Z) : res Z :=
  cmd ← sprintf 32 (chars "ifconfig " ++ name ++ chars " | grep RUNNING"); Ok (pipe_exec popen cmd).
Definition LSMOD (popen : list Z → option (list Z)) (module : list Z) : res Z :=
  cmd ← sprintf 32 (chars "lsmod | grep " ++ module); Ok (pipe_exec popen cmd).

(** The command that sysprintf passes to system. *)
Definition sysprintf (cs : list Z) : list Z := snprintf 256 cs.

Definition gpio_dir (gpio : Z) : list Z := chars "/sys/class/gpio/gpio" ++ decimal gpio.

(** The commands run, in order. *)
Definition gpio_export (gpio : Z) (dir : list Z) (value : Z) : list (list Z) :=
  sysprintf (chars "echo " ++ [34] ++ decimal gpio ++ [34] ++ chars " >/sys/class/gpio/export") ::
  if bool_decide (dir = chars "in") then
    [sysprintf (chars "echo " ++ [34] ++ chars "in" ++ [34] ++ chars " >" ++ gpio_dir gpio ++ chars "/direction")]
  else
    [sysprintf (chars "echo " ++ [34] ++ chars "out" ++ [34] ++ chars " >" ++ gpio_dir gpio ++ chars "/direction");
     sysprintf (chars "echo " ++ [34] ++ decimal value ++ [34] ++ chars " >" ++ gpio_dir gpio ++ chars "/value")].

Definition gpio_unexport (gpio : Z) : list Z :=
  sysprintf (chars "echo " ++ [34] ++ decimal gpio ++ [34] ++ chars " >/sys/class/gpio/unexport").
Definition set_gpio_high (gpionum : Z) : list Z :=
  sysprintf (chars "echo " ++ [34] ++ chars "1" ++ [34] ++ chars " >" ++ gpio_dir gpionum ++ chars "/value").
Definition set_gpio_low (gpionum : Z) : list Z :=
  sysprintf (chars "echo " ++ [34] ++ chars "0" ++ [34] ++ chars " >" ++ gpio_dir gpionum ++ chars "/value").
Definition get_gpio_level (gpionum : Z) : list Z :=
  sysprintf (chars "cat " ++ gpio_dir gpionum ++ chars "/value").

(** ** The clock *)

Record timeval := mkTimeval { tv_sec : Z; tv_usec : Z }.

(** [int tick = ...]: the difference is a [long]. *)
Definition get_tick_1khz (tick_val tv : timeval) : Z :=
  s32 ((tv_sec tv - tv_sec tick_val) * 1000 + Z.quot (tv_usec tv - tv_usec tick_val) 1000).
Definition get_tick_1hz (tick_val tv : timeval) : Z := Z.quot (get_tick_1khz tick_val tv) 1000.

(** ** Processes *)

Definition SIGKILL : Z := 9.
Definition SIGTERM : Z := 15.

Section processes.
Context {Sy : System} (realloc_ok : Z → bool).
Implicit Types (o : os).

(** Nothing is read from the file. *)
Definition file_to_buf o (path : list Z) (len : nat) : Z * list Z :=
  (match sys_file o path with Some _ => 1 | None => 0 end, replicate len 0).

Definition get_ppp_pid o (file : list Z) : Z :=
  let '(r, buf) := file_to_buf o file 80 in
  if r =? 0 then -1 else
  let tmp := snprintf 80 (chars "/var/run/" ++ c_string buf ++ chars ".pid") in
  let '(_, tmp1) := file_to_buf o tmp 80 in
  atoi (c_string tmp1).

(** The bytes read are at the beginning of the buffer. *)
Definition f_read o (path : list Z) (max : Z) : Z * list Z :=
  match sys_file o path with
  | None => (-1, [])
  | Some d => let b := take (Z.to_nat max) d in (Z.of_nat (length b), b)
  end.

(** The result and the string in the buffer. *)
Definition f_read_string o (path : list Z) (max : Z) : Z * list Z :=
  if max <=? 0 then (-1, []) else
  let '(n, b) := f_read o path (max - 1) in (n, c_string b).

Definition stat_path (pid : Z) : list Z := chars "/proc/" ++ decimal pid ++ chars "/stat".

(** [buffer] is the block the caller passes. *)
Definition psname o (pid : Z) (buffer : list Z) (maxlen : Z) : res (option (list Z)) :=
  if maxlen <=? 0 then Ok None else
  buffer ← wr buffer 0 0;
  let '(n, buf) := f_read_string o (stat_path pid) 512 in
  match (if 4 <? n then strrchr buf 41 else None) with
  | None => Ok (Some buffer)
  | Some p =>
      let buf := take p buf in
      match strchr buf 40 with
      | Some p => if atoi buf =? pid then Some <$> strncpy buffer (drop (S p) buf) maxlen else Ok (Some buffer)
      | None => Ok (Some buffer)
      end
  end.

(** The loop of _pidof over the directory. *)
Fixpoint pidof_loop o (name : list Z) (des : list (list Z)) (buf : list Z) (pids : list Z) : res (Z * list Z) :=
  match des with
  | [] => Ok (Z.of_nat (length pids), pids)
  | de :: des =>
      let '(i, e) := strtol de in
      let i := s32 i in
      match e with
      | _ :: _ => pidof_loop o name des buf pids
      | [] =>
          s ← psname o i buf 256;
          buf ← from_option_or NullDeref s;
          same ← strcmp_eq name buf;
          if same : bool then
            if realloc_ok (4 * (Z.of_nat (length pids) + 1)) then pidof_loop o name des buf (pids ++ [i])
            else Ok (-1, [])
          else pidof_loop o name des buf pids
      end
  end.

(** The number of processes and the array; [buf] is the local array of 256
    characters.  When opendir fails, closedir only reports an error. *)
Definition pidof_all o (name : list Z) (buf : list Z) : res (Z * list Z) :=
  let name := match strchr name 47 with Some p => drop (S p) name | None => name end in
  match sys_readdir o (chars "/proc") with
  | None => Ok (0, [])
  | Some des => pidof_loop o name des buf []
  end.

Definition pidof o (name buf : list Z) : res Z :=
  '(n, pids) ← pidof_all o name buf;
  if 0 <? n then rd pids 0 else Ok (-1).

(** [do r |= kill(pids[--i], sig); while (i > 0);] *)
Fixpoint kill_loop o (i : nat) (pids : list Z) (sig r : Z) : res (Z * os) :=
  match i with
  | O => Ok (r, o)
  | S i =>
      p ← rd pids (Z.of_nat i);
      let '(k, o) := sys_kill o p sig in
      kill_loop o i pids sig (Z.lor r k)
  end.

Definition killall o (name : list Z) (sig : Z) (buf : list Z) : res (Z * os) :=
  '(i, pids) ← pidof_all o name buf;
  if 0 <? i then kill_loop o (Z.to_nat i) pids sig 0 else Ok (-2, o).

(** [while (deadcnt--)] *)
Fixpoint dead_loop (deadcnt : nat) o (pid : Z) : os :=
  match deadcnt with
  | O => o
  | S deadcnt =>
      let o := sys_usleep o (100 * 1000) in
      match sys_file o (stat_path pid) with
      | Some _ => dead_loop deadcnt (sys_kill o pid SIGKILL).2 pid
      | None => o
      end
  end.

Definition kill_pid o (pid : Z) : Z * os :=
  if 0 <? pid then (1, dead_loop 20 (sys_kill o pid SIGTERM).2 pid) else (0, o).

(** [while (pidof(name) > 0 && deadcounter--)] *)
Fixpoint stop_loop (deadcounter : nat) o (name buf : list Z) : res os :=
  p ← pidof o name buf;
  if 0 <? p then
    match deadcounter with
    | O => Ok o
    | S d => stop_loop d (sys_usleep o (100 * 1000)) name buf
    end
  else Ok o.

Definition stop_process o (name buf : list Z) : res (Z * os) :=
  p ← pidof o name buf;
  if 0 <? p then
    '(_, o) ← killall o name SIGTERM buf;
    o ← stop_loop 20 o name buf;
    p ← pidof o name buf;
    if 0 <? p then '(_, o) ← killall o name SIGKILL buf; Ok (1, o) else Ok (1, o)
  else Ok (0, o).

End processes.
