(* ===== verification/Shm.v ===== *)
(** lib/shm.c: a handle for a segment of shared memory, on what shmget, shmat,
    shmdt and shmctl return.  A pointer is its address; the fields that shm_new
    does not set are indeterminate. *)

From S2P Require Import Prelude.

Local Open Scope Z_scope.

Record shmhandle := mkShm {
  sh_mem : option Z;
  sh_size : Z;
  sh_key : Z;
  sh_running : Z;
  sh_shmid : option Z
}.

(** [mem]: whether malloc succeeds. *)
Definition shm_new (mem : bool) (key size : Z) : option shmhandle :=
  if mem then Some (mkShm None size key 0 None) else None.

(** The pointer returned, 0 for NULL. *)
Definition shm_open (shmget : Z → Z → Z) (shmat : Z → Z) (h : shmhandle) : Z * shmhandle :=
  let shmid := shmget (sh_key h) (sh_size h) in
  if shmid <? 0 then (0, h) else
  let mem := shmat shmid in
  if mem =? 0 then (0, h) else
  (mem, mkShm (Some mem) (sh_size h) (sh_key h) 1 (Some shmid)).

Definition shm_close (shmdt shmctl : Z → Z) (h : shmhandle) : res (Z * shmhandle) :=
  mem ← from_option_or Uninitialised (sh_mem h);
  if mem =? 0 then Ok (0, h) else
  if shmdt mem <? 0 then Ok (-1, h) else
  shmid ← from_option_or Uninitialised (sh_shmid h);
  if shmctl shmid <? 0 then Ok (-2, h) else
  Ok (0, mkShm (Some 0) (sh_size h) (sh_key h) 0 (sh_shmid h)).

(** The handle that is left: none after it was freed. *)
Definition shm_delete (shmdt shmctl : Z → Z) (h : shmhandle) : res (Z * option shmhandle) :=
  '(ret, h) ← shm_close shmdt shmctl h;
  if ret <? 0 then Ok (-1, Some h) else Ok (0, None).

(** (void * ) -1, what shmat returns when it fails *)
Definition SHM_FAILED : Z := 2 ^ 64 - 1.

(** A segment that was attached is detached and removed once: closing again does
    nothing. *)
Lemma shm_close_once shmget shmat shmdt shmctl h mem h1 :
  shm_open shmget shmat h = (mem, h1) → mem ≠ 0 → shmdt mem = 0 → shmctl (shmget (sh_key h) (sh_size h)) = 0 →
  ∃ h2, shm_close shmdt shmctl h1 = Ok (0, h2) ∧ sh_running h2 = 0 ∧
    ∀ dt ctl, shm_close dt ctl h2 = Ok (0, h2) ∧ shm_delete dt ctl h2 = Ok (0, None).
Proof.
  unfold shm_open. cbv zeta. destruct (_ <? 0); [by intros [= <- <-] |]. destruct (Z.eqb_spec (shmat (shmget (sh_key h) (sh_size h))) 0) as [Hm | Hm].
  { by intros [= <- <-]. }
  intros [= <- <-] _ Hdt Hctl. unfold shm_close. cbn [sh_mem from_option_or sh_shmid]. rewrite bind_Ok.
  rewrite (proj2 (Z.eqb_neq _ _) Hm), Hdt. cbn [Z.ltb Z.compare]. rewrite bind_Ok, Hctl. cbn [Z.ltb Z.compare].
  eexists. split; [reflexivity |]. done.
Qed.

(** shm_open takes the failure of shmat, which is not NULL, for an address. *)
Lemma shm_open_failed shmget shmat h :
  0 ≤ shmget (sh_key h) (sh_size h) → (∀ i, shmat i = SHM_FAILED) →
  (shm_open shmget shmat h).1 = SHM_FAILED ∧ sh_running (shm_open shmget shmat h).2 = 1.
Proof.
  intros Hg Ha. unfold shm_open. rewrite (proj2 (Z.ltb_ge _ _) Hg), Ha. done.
Qed.

(** A handle that was never opened cannot be deleted: its pointer is read before
    it is set. *)
Lemma shm_delete_unopened shmdt shmctl key size :
  shm_delete shmdt shmctl <$> shm_new true key size = Some (Fail Uninitialised).
Proof. done. Qed.

(** ** The signal handler of lib/core.c *)

Definition SIGHUP : Z := 1.
Definition SIGINT : Z := 2.
Definition SIGPIPE : Z := 13.

(** misaka_servant.shm after the handler, and whether the process exits.  SIGKILL
    (9) cannot be caught; the code lists it. *)
Definition sighandle (shmdt shmctl : Z → Z) (num : Z) (shm : option shmhandle) : res (option shmhandle * bool) :=
  if (num =? SIGINT) || (num =? SIGHUP) || (num =? 9) then
    match shm with
    | Some h => _ ← shm_delete shmdt shmctl h; Ok (None, true)
    | None => Ok (None, true)
    end
  else Ok (shm, false).

(** The server survives a write to a closed connection, and an interrupt removes
    the segment it had attached before it exits. *)
Lemma sighandle_exits shmget shmat shmdt shmctl h mem h1 :
  shm_open shmget shmat h = (mem, h1) → mem ≠ 0 →
  sighandle shmdt shmctl SIGINT (Some h1) = Ok (None, true) ∧
  sighandle shmdt shmctl SIGPIPE (Some h1) = Ok (Some h1, false).
Proof.
  unfold shm_open. cbv zeta. destruct (_ <? 0); [by intros [= <- <-] |].
  destruct (Z.eqb_spec (shmat (shmget (sh_key h) (sh_size h))) 0) as [Hm | Hm]; [by intros [= <- <-] |].
  intros [= <- <-] _. split; [| done]. unfold sighandle. cbn [Z.eqb SIGINT Pos.eqb orb].
  unfold shm_delete, shm_close. cbn [sh_mem sh_shmid from_option_or]. rewrite bind_Ok.
  destruct (_ =? 0); [done |]. destruct (_ <? 0); [done |]. rewrite bind_Ok. destruct (_ <? 0); done.
Qed.
