(* ===== verification/Locks.v ===== *)
(** The locks of include/spinlock.h and include/rwlock.h, in the variant built
    on the atomic builtins __sync_*, taken by any number of threads.

    A builtin is one atomic step, a plain read of a lock field another one; a
    loop that does not leave stays at its program point.  [step] relations say
    what a thread may do next, and the theorems hold of every state that can be
    reached.  The critical section of the spinlock is a list of small steps on
    the data the lock protects, so that the theorem says what justifies
    modelling a locked operation as one step. *)

From S2P Require Import Prelude Memory.

Local Open Scope Z_scope.

(** ** Counting threads *)

Section counting.
Context {A : Type} (P : A → bool).
Implicit Types (th : gmap nat A).

Definition mark (a : A) : list unit := if P a then [tt] else [].

(** The number of threads of which [P] holds. *)
Definition threads_with th : Z := Z.of_nat (length (total mark th)).

Lemma threads_with_nonneg th : 0 ≤ threads_with th.
Proof. unfold threads_with. lia. Qed.

Lemma threads_with_step th t a b :
  th !! t = Some a →
  threads_with (<[t := b]> th) = threads_with th - Z.b2z (P a) + Z.b2z (P b).
Proof.
  intros Ht. unfold threads_with.
  rewrite (total_insert mark th t b), (total_delete mark th t a Ht), !length_app.
  unfold mark. destruct (P a), (P b); cbn [length Z.b2z]; lia.
Qed.

Lemma threads_with_some th t a : th !! t = Some a → P a = true → 0 < threads_with th.
Proof.
  intros Ht Ha. unfold threads_with. rewrite (total_delete mark th t a Ht), length_app.
  unfold mark at 1. rewrite Ha. cbn [length]. lia.
Qed.

Lemma threads_with_zero th t a : th !! t = Some a → threads_with th = 0 → P a = false.
Proof.
  intros Ht H0. destruct (P a) eqn:E; [| done].
  pose proof (threads_with_some th t a Ht E). lia.
Qed.

(** With at most one such thread, any two are the same. *)
Lemma threads_with_unique th t1 t2 a1 a2 :
  threads_with th ≤ 1 → th !! t1 = Some a1 → th !! t2 = Some a2 →
  P a1 = true → P a2 = true → t1 = t2.
Proof.
  intros Hle H1 H2 P1 P2. destruct (decide (t1 = t2)) as [| Hne]; [done |]. exfalso.
  unfold threads_with in Hle.
  rewrite (total_delete mark th t1 a1 H1) in Hle.
  rewrite (total_delete mark (delete t1 th) t2 a2) in Hle by (by rewrite lookup_delete_ne).
  unfold mark in Hle at 1 2. rewrite P1, P2 in Hle. rewrite !length_app in Hle. cbn [length] in Hle. lia.
Qed.

Lemma threads_with_bound th : threads_with th ≤ Z.of_nat (size th).
Proof.
  unfold threads_with, total. rewrite <- length_map_to_list.
  induction (map_to_list th) as [|[t a] l IH]; [done |].
  cbn [fmap list_fmap snd concat]. rewrite length_app. cbn [length].
  unfold mark at 1. destruct (P a); cbn [length]; lia.
Qed.

Lemma threads_with_none th : (∀ t a, th !! t = Some a → P a = false) → threads_with th = 0.
Proof.
  intros H. unfold threads_with. destruct (total mark th) as [|u us] eqn:E; [done |].
  destruct (total_elem mark th u) as (t & a & Ht & Hu); [rewrite E; left |].
  unfold mark in Hu. rewrite (H t a Ht) in Hu. by apply elem_of_nil in Hu.
Qed.

Lemma threads_with_exists th : threads_with th ≠ 0 → ∃ t a, th !! t = Some a ∧ P a = true.
Proof.
  intros H0. destruct (total mark th) as [|u us] eqn:E; [unfold threads_with in H0; by rewrite E in H0 |].
  destruct (total_elem mark th u) as (t & a & Ht & Hu); [rewrite E; left |].
  exists t, a. split; [done |]. unfold mark in Hu. destruct (P a); [done |]. by apply elem_of_nil in Hu.
Qed.

End counting.

(** ** The spinlock *)

Section spinlock.
(** [D]: the data the lock protects. *)
Context {D : Type}.

Record spinlock := mkSpin { sl_lock : Z }.

Definition spinlock_init : spinlock := mkSpin 0.

(** One round of [while (__sync_lock_test_and_set(&lock->lock,1)) {}]: whether
    the loop is left. *)
Definition spinlock_lock (l : spinlock) : bool * spinlock := (sl_lock l =? 0, mkSpin 1).

Definition spinlock_trylock (l : spinlock) : Z * spinlock :=
  (if sl_lock l =? 0 then 1 else 0, mkSpin 1).

(** __sync_lock_release stores 0. *)
Definition spinlock_unlock (l : spinlock) : spinlock := mkSpin 0.

(** A thread outside, in the loop of spinlock_lock, or inside with the steps it
    has taken and those it has still to take.  [body] is the code between
    SPIN_LOCK and SPIN_UNLOCK. *)
Inductive spin_at :=
| Outside
| Spinning (body : list (D → D))
| Inside (taken body : list (D → D)).

(** [sp_log] are the critical sections completed, in the order of their
    SPIN_UNLOCK; the code keeps no such record. *)
Record spin_sys := mkSpinSys {
  sp_lock : spinlock;
  sp_data : D;
  sp_threads : gmap nat spin_at;
  sp_log : list (list (D → D))
}.

Definition run_body (body : list (D → D)) (d : D) : D := foldl (λ d f, f d) d body.
Definition run_log (log : list (list (D → D))) (d : D) : D := foldl (λ d b, run_body b d) d log.

Inductive spin_step : spin_sys → spin_sys → Prop :=
| sp_call l d th log t body :
    th !! t = Some Outside →
    spin_step (mkSpinSys l d th log) (mkSpinSys l d (<[t := Spinning body]> th) log)
| sp_spin l d th log t body b l' :
    th !! t = Some (Spinning body) → spinlock_lock l = (b, l') →
    spin_step (mkSpinSys l d th log)
      (mkSpinSys l' d (<[t := if b then Inside [] body else Spinning body]> th) log)
| sp_try l d th log t body r l' :
    th !! t = Some Outside → spinlock_trylock l = (r, l') →
    spin_step (mkSpinSys l d th log)
      (mkSpinSys l' d (<[t := if r =? 0 then Outside else Inside [] body]> th) log)
| sp_body l d th log t taken f body :
    th !! t = Some (Inside taken (f :: body)) →
    spin_step (mkSpinSys l d th log) (mkSpinSys l (f d) (<[t := Inside (taken ++ [f]) body]> th) log)
| sp_unlock l d th log t taken :
    th !! t = Some (Inside taken []) →
    spin_step (mkSpinSys l d th log)
      (mkSpinSys (spinlock_unlock l) d (<[t := Outside]> th) (log ++ [taken])).

Definition inside (a : spin_at) : bool := match a with Inside _ _ => true | _ => false end.

Definition spin_start (d : D) (th : gmap nat spin_at) : spin_sys := mkSpinSys spinlock_init d th [].

(** The flag counts the threads inside; the data are those of the completed
    sections, and of the steps taken by the thread inside. *)
Definition spin_inv (d0 : D) (s : spin_sys) : Prop :=
  sl_lock (sp_lock s) = threads_with inside (sp_threads s) ∧ sl_lock (sp_lock s) ≤ 1 ∧
  (sl_lock (sp_lock s) = 0 → sp_data s = run_log (sp_log s) d0) ∧
  (∀ t taken body, sp_threads s !! t = Some (Inside taken body) →
     sp_data s = run_body taken (run_log (sp_log s) d0)).

Lemma run_body_snoc body f d : run_body (body ++ [f]) d = f (run_body body d).
Proof. unfold run_body. by rewrite foldl_app. Qed.

Lemma run_log_snoc log b d : run_log (log ++ [b]) d = run_body b (run_log log d).
Proof. unfold run_log. by rewrite foldl_app. Qed.

(** A thread that stays outside of the section changes nothing. *)
Lemma spin_inv_idle d0 l d th log t a b :
  spin_inv d0 (mkSpinSys l d th log) → th !! t = Some a → inside a = false → inside b = false →
  spin_inv d0 (mkSpinSys l d (<[t := b]> th) log).
Proof.
  intros (Hc & Hle & Hd & Hi) Ht Ha Hb. repeat split; cbn [sp_lock sp_threads sp_data sp_log] in *; auto.
  - rewrite (threads_with_step inside th t a b Ht), Ha, Hb. cbn [Z.b2z]. lia.
  - intros t' taken body Ht'. apply (Hi t' taken body).
    destruct (decide (t' = t)) as [-> | Hne]; [| by rewrite lookup_insert_ne in Ht'].
    rewrite lookup_insert_eq in Ht'. injection Ht' as ->. discriminate.
Qed.

(** Entering: the flag was 0. *)
Lemma spin_inv_enter d0 l d th log t a body :
  spin_inv d0 (mkSpinSys l d th log) → th !! t = Some a → inside a = false → sl_lock l = 0 →
  spin_inv d0 (mkSpinSys (mkSpin 1) d (<[t := Inside [] body]> th) log).
Proof.
  intros (Hc & Hle & Hd & Hi) Ht Ha H0. cbn [sp_lock sp_threads sp_data sp_log] in *.
  repeat split; cbn [sp_lock sp_threads sp_data sp_log sl_lock]; [| lia | lia |].
  - rewrite (threads_with_step inside th t a _ Ht), Ha. cbn [inside Z.b2z]. lia.
  - intros t' taken body' Ht'. destruct (decide (t' = t)) as [-> | Hne].
    + rewrite lookup_insert_eq in Ht'. injection Ht' as <- <-. by apply Hd.
    + rewrite lookup_insert_ne in Ht' by done. by apply (Hi t' taken body').
Qed.

(** The flag is set while a thread is inside, and 1 then. *)
Lemma spin_inv_flag d0 s t taken body :
  spin_inv d0 s → sp_threads s !! t = Some (Inside taken body) → sl_lock (sp_lock s) = 1.
Proof.
  intros (Hc & Hle & _) Ht. pose proof (threads_with_some inside _ _ _ Ht eq_refl). lia.
Qed.

Lemma spin_inv_busy d0 l d th log :
  spin_inv d0 (mkSpinSys l d th log) → sl_lock l ≠ 0 → l = mkSpin 1.
Proof.
  intros (Hc & Hle & _) H0. cbn [sp_lock sp_threads] in *.
  pose proof (threads_with_nonneg inside th). destruct l as [v]. cbn [sl_lock] in *. f_equal. lia.
Qed.

Lemma spin_step_inv d0 s s' : spin_inv d0 s → spin_step s s' → spin_inv d0 s'.
Proof.
  intros Hs Hst. destruct Hst as [l d th log t body Ht | l d th log t body b l' Ht Hl
    | l d th log t body r l' Ht Hl | l d th log t taken f body Ht | l d th log t taken Ht].
  - by eapply spin_inv_idle.
  - injection Hl as <- <-. destruct (Z.eqb_spec (sl_lock l) 0) as [H0 | H0].
    + by eapply spin_inv_enter.
    + rewrite <- (spin_inv_busy _ _ _ _ _ Hs H0). by eapply spin_inv_idle.
  - injection Hl as <- <-. destruct (Z.eqb_spec (sl_lock l) 0) as [H0 | H0]; cbn [Z.eqb].
    + by eapply spin_inv_enter.
    + rewrite <- (spin_inv_busy _ _ _ _ _ Hs H0). by eapply spin_inv_idle.
  - pose proof (spin_inv_flag _ _ _ _ _ Hs Ht) as H1. destruct Hs as (Hc & Hle & Hd & Hi).
    cbn [sp_lock sp_threads sp_data sp_log] in *.
    repeat split; cbn [sp_lock sp_threads sp_data sp_log]; [| done | lia |].
    + rewrite (threads_with_step inside th t _ _ Ht). cbn [inside Z.b2z]. lia.
    + intros t' taken' body' Ht'. destruct (decide (t' = t)) as [-> | Hne].
      * rewrite lookup_insert_eq in Ht'. injection Ht' as <- <-.
        by rewrite run_body_snoc, (Hi t taken (f :: body) Ht).
      * rewrite lookup_insert_ne in Ht' by done. exfalso. apply Hne.
        by eapply (threads_with_unique inside th); [lia | | | |].
  - pose proof (spin_inv_flag _ _ _ _ _ Hs Ht) as H1. destruct Hs as (Hc & Hle & Hd & Hi).
    cbn [sp_lock sp_threads sp_data sp_log] in *.
    repeat split; cbn [sp_lock sp_threads sp_data sp_log spinlock_unlock sl_lock]; [| lia | |].
    + rewrite (threads_with_step inside th t _ _ Ht). cbn [inside Z.b2z]. lia.
    + intros _. by rewrite run_log_snoc, (Hi t taken [] Ht).
    + intros t' taken' body' Ht'. exfalso. destruct (decide (t' = t)) as [-> | Hne].
      * by rewrite lookup_insert_eq in Ht'.
      * rewrite lookup_insert_ne in Ht' by done. apply Hne.
        by eapply (threads_with_unique inside th); [lia | | | |].
Qed.

(** C23: mutual exclusion and atomicity of the spinlock.  Whatever the
    interleaving of threads that lock, try to lock, take the steps of their
    critical section and unlock, at most one is inside; and the protected data
    are what the completed critical sections make of the initial data when each
    runs as one step, in the order in which they were completed, followed by
    the steps the thread inside has taken.  So a locked operation can be
    modelled as one step. *)
Theorem spinlock_serialises d0 th s :
  (∀ t a, th !! t = Some a → a = Outside) → rtc spin_step (spin_start d0 th) s →
  (∀ t1 t2 a1 a2, sp_threads s !! t1 = Some a1 → sp_threads s !! t2 = Some a2 →
     inside a1 = true → inside a2 = true → t1 = t2) ∧
  ((∀ t a, sp_threads s !! t = Some a → inside a = false) → sp_data s = run_log (sp_log s) d0) ∧
  (∀ t taken body, sp_threads s !! t = Some (Inside taken body) →
     sp_data s = run_log (sp_log s ++ [taken]) d0).
Proof.
  intros Hth Hr. assert (spin_inv d0 s) as (Hc & Hle & Hd & Hi).
  { assert (spin_inv d0 (spin_start d0 th)) as H0.
    { assert (threads_with inside th = 0) as Hz
        by (apply threads_with_none; intros t a Ht; by rewrite (Hth t a Ht)).
      repeat split; cbn; [by rewrite Hz | lia |]. intros t taken body Ht. by apply Hth in Ht. }
    revert H0. induction Hr as [| x y z Hxy _ IH]; [done |]. intros Hx. eapply IH, spin_step_inv; eauto. }
  split; [| split].
  - intros t1 t2 a1 a2 H1 H2 P1 P2. eapply (threads_with_unique inside); eauto. lia.
  - intros Hn. apply Hd. rewrite Hc. by apply threads_with_none.
  - intros t taken body Ht. rewrite run_log_snoc. by eapply Hi.
Qed.

End spinlock.

(** ** The read-write lock *)

Record rwlock := mkRw { rw_write : Z; rw_read : Z }.

Definition rwlock_init : rwlock := mkRw 0 0.

(** The program points of rwlock_rlock: the loop on [write], the increment, the
    test that follows it and the decrement that takes it back. *)
Inductive rlock_at := RSpin | RAdd | RTest | RSub.

(** One step of rwlock_rlock; [None]: it returns.  The builtins wrap around. *)
Definition rwlock_rlock (l : rwlock) (a : rlock_at) : rwlock * option rlock_at :=
  match a with
  | RSpin => (l, if rw_write l =? 0 then Some RAdd else Some RSpin)
  | RAdd => (mkRw (rw_write l) (s32 (rw_read l + 1)), Some RTest)
  | RTest => (l, if rw_write l =? 0 then None else Some RSub)
  | RSub => (mkRw (rw_write l) (s32 (rw_read l - 1)), Some RSpin)
  end.

(** rwlock_wlock: the test-and-set loop, and the loop that waits for readers. *)
Inductive wlock_at := WSet | WDrain.

Definition rwlock_wlock (l : rwlock) (a : wlock_at) : rwlock * option wlock_at :=
  match a with
  | WSet => (mkRw 1 (rw_read l), if rw_write l =? 0 then Some WDrain else Some WSet)
  | WDrain => (l, if rw_read l =? 0 then None else Some WDrain)
  end.

Definition rwlock_wunlock (l : rwlock) : rwlock := mkRw 0 (rw_read l).
Definition rwlock_runlock (l : rwlock) : rwlock := mkRw (rw_write l) (s32 (rw_read l - 1)).

(** Where a thread is. *)
Inductive rw_at :=
| RwOut
| InRlock (a : rlock_at)
| Reading
| InWlock (a : wlock_at)
| Writing.

Definition after_rlock (o : option rlock_at) : rw_at :=
  match o with Some a => InRlock a | None => Reading end.
Definition after_wlock (o : option wlock_at) : rw_at :=
  match o with Some a => InWlock a | None => Writing end.

Abbreviation rw_sys := (rwlock * gmap nat rw_at)%type.

Inductive rw_step : rw_sys → rw_sys → Prop :=
| rw_rlock_call l th t :
    th !! t = Some RwOut → rw_step (l, th) (l, <[t := InRlock RSpin]> th)
| rw_rlock l th t a l' o :
    th !! t = Some (InRlock a) → rwlock_rlock l a = (l', o) →
    rw_step (l, th) (l', <[t := after_rlock o]> th)
| rw_runlock l th t :
    th !! t = Some Reading → rw_step (l, th) (rwlock_runlock l, <[t := RwOut]> th)
| rw_wlock_call l th t :
    th !! t = Some RwOut → rw_step (l, th) (l, <[t := InWlock WSet]> th)
| rw_wlock l th t a l' o :
    th !! t = Some (InWlock a) → rwlock_wlock l a = (l', o) →
    rw_step (l, th) (l', <[t := after_wlock o]> th)
| rw_wunlock l th t :
    th !! t = Some Writing → rw_step (l, th) (rwlock_wunlock l, <[t := RwOut]> th).

(** The threads counted in [read] and in [write]. *)
Definition counted (a : rw_at) : bool :=
  match a with Reading | InRlock RTest | InRlock RSub => true | _ => false end.
Definition claiming (a : rw_at) : bool :=
  match a with Writing | InWlock WDrain => true | _ => false end.

Record rw_inv (s : rw_sys) : Prop := {
  rwi_read : rw_read s.1 = threads_with counted s.2;
  rwi_write : rw_write s.1 = threads_with claiming s.2;
  rwi_one : rw_write s.1 ≤ 1;
  rwi_excl : (∃ t, s.2 !! t = Some Writing) → ∀ t, s.2 !! t ≠ Some Reading;
  rwi_size : Z.of_nat (size s.2) < 2 ^ 31
}.

(** What a step of thread [t] from [a] to [b] has to show. *)
Lemma rw_inv_move l l' th t a b :
  rw_inv (l, th) → th !! t = Some a →
  rw_read l' = s32 (rw_read l - Z.b2z (counted a) + Z.b2z (counted b)) →
  rw_write l' = rw_write l - Z.b2z (claiming a) + Z.b2z (claiming b) →
  rw_write l' ≤ 1 →
  (b = Writing → ∀ t', <[t := b]> th !! t' ≠ Some Reading) →
  (b = Reading → ∀ t', th !! t' ≠ Some Writing) →
  rw_inv (l', <[t := b]> th).
Proof.
  intros [Hr Hw H1 Hx Hs] Ht Hr' Hw' H1' HbW HbR. cbn [fst snd] in *.
  pose proof (threads_with_bound counted (<[t := b]> th)) as Hb.
  pose proof (threads_with_nonneg counted (<[t := b]> th)) as Hn.
  assert (size (<[t := b]> th) = size th) as Hsz by (apply map_size_insert_Some; eauto).
  rewrite (threads_with_step counted th t a b Ht) in Hb, Hn.
  constructor; cbn [fst snd].
  - rewrite Hr', (threads_with_step counted th t a b Ht), Hr. apply s32_small. unfold_ranges. lia.
  - rewrite Hw', (threads_with_step claiming th t a b Ht). lia.
  - done.
  - intros [tw Htw]. destruct (decide (tw = t)) as [-> | Hne].
    + rewrite lookup_insert_eq in Htw. injection Htw as ->. by apply HbW.
    + rewrite lookup_insert_ne in Htw by done. intros t'.
      destruct (decide (t' = t)) as [-> | Hne']; [rewrite lookup_insert_eq | rewrite lookup_insert_ne by done].
      * intros [= ->]. by apply (HbR eq_refl tw).
      * apply Hx. eauto.
  - by rewrite Hsz.
Qed.

(** A thread that moves to a point outside of both sections. *)
Lemma rw_inv_quiet l l' th t a b :
  rw_inv (l, th) → th !! t = Some a →
  rw_read l' = s32 (rw_read l - Z.b2z (counted a) + Z.b2z (counted b)) →
  rw_write l' = rw_write l - Z.b2z (claiming a) + Z.b2z (claiming b) →
  rw_write l' ≤ 1 → b ≠ Writing → b ≠ Reading →
  rw_inv (l', <[t := b]> th).
Proof. intros. by eapply rw_inv_move. Qed.

Lemma rw_inv_read_s32 l th : rw_inv (l, th) → s32 (rw_read l) = rw_read l ∧ 0 ≤ rw_read l.
Proof.
  intros [Hr _ _ _ Hs]. cbn [fst snd] in *. pose proof (threads_with_bound counted th).
  pose proof (threads_with_nonneg counted th). split; [| lia]. apply s32_small. unfold_ranges. lia.
Qed.

Lemma rlock_inv l th t a l' o :
  rw_inv (l, th) → th !! t = Some (InRlock a) → rwlock_rlock l a = (l', o) →
  rw_inv (l', <[t := after_rlock o]> th).
Proof.
  intros Hi Ht Hl. pose proof (rw_inv_read_s32 _ _ Hi) as [Hs _]. pose proof (rwi_one _ Hi) as H1.
  pose proof (rwi_write _ Hi) as Hw. cbn [fst snd] in *.
  destruct a; cbn [rwlock_rlock] in Hl; injection Hl as <- <-; cbn [after_rlock].
  - destruct (rw_write l =? 0); cbn [after_rlock]; eapply rw_inv_quiet; eauto; cbn; rewrite ?Z.add_0_r, ?Z.sub_0_r; done.
  - eapply rw_inv_quiet; eauto; cbn; [f_equal; lia | lia].
  - destruct (Z.eqb_spec (rw_write l) 0) as [H0 | H0]; cbn [after_rlock].
    + eapply rw_inv_move; eauto; cbn; [rewrite Z.sub_add, Hs; done | lia |].
      intros _ t' Ht'. pose proof (threads_with_some claiming _ _ _ Ht' eq_refl). lia.
    + eapply rw_inv_quiet; eauto; cbn; [rewrite Z.sub_add, Hs; done | lia].
  - eapply rw_inv_quiet; eauto; cbn; [f_equal; lia | lia].
Qed.

Lemma wlock_inv l th t a l' o :
  rw_inv (l, th) → th !! t = Some (InWlock a) → rwlock_wlock l a = (l', o) →
  rw_inv (l', <[t := after_wlock o]> th).
Proof.
  intros Hi Ht Hl. pose proof (rw_inv_read_s32 _ _ Hi) as [Hs _]. pose proof (rwi_one _ Hi) as H1.
  pose proof (rwi_write _ Hi) as Hw. pose proof (rwi_read _ Hi) as Hr. cbn [fst snd] in *.
  pose proof (threads_with_nonneg claiming th).
  destruct a; cbn [rwlock_wlock] in Hl; injection Hl as <- <-.
  - destruct (Z.eqb_spec (rw_write l) 0) as [H0 | H0]; cbn [after_wlock];
      (eapply rw_inv_quiet; eauto; cbn; [rewrite Z.add_0_r, Z.sub_0_r, Hs; done | lia | lia]).
  - destruct (Z.eqb_spec (rw_read l) 0) as [H0 | H0]; cbn [after_wlock].
    + eapply rw_inv_move; eauto; cbn; [rewrite Z.add_0_r, Z.sub_0_r, Hs; done | lia |].
      intros _ t'. destruct (decide (t' = t)) as [-> | Hne]; [by rewrite lookup_insert_eq |].
      rewrite lookup_insert_ne by done. intros Ht'.
      pose proof (threads_with_some counted _ _ _ Ht' eq_refl). lia.
    + eapply rw_inv_quiet; eauto; cbn; [rewrite Z.add_0_r, Z.sub_0_r, Hs; done | lia].
Qed.

Lemma rw_step_inv s s' : rw_inv s → rw_step s s' → rw_inv s'.
Proof.
  intros Hi Hst. destruct Hst as [l th t Ht | l th t a l' o Ht Hl | l th t Ht | l th t Ht
    | l th t a l' o Ht Hl | l th t Ht]; pose proof (rw_inv_read_s32 _ _ Hi) as [Hs _];
    pose proof (rwi_one _ Hi) as H1; pose proof (rwi_write _ Hi) as Hw; cbn [fst snd] in *.
  - eapply rw_inv_quiet; eauto; cbn; rewrite ?Z.add_0_r, ?Z.sub_0_r; done.
  - by eapply rlock_inv.
  - eapply rw_inv_quiet; eauto; cbn; [f_equal; lia | lia].
  - eapply rw_inv_quiet; eauto; cbn; rewrite ?Z.add_0_r, ?Z.sub_0_r; done.
  - by eapply wlock_inv.
  - pose proof (threads_with_some claiming _ _ _ Ht eq_refl).
    eapply rw_inv_quiet; eauto; cbn; [rewrite Z.add_0_r, Z.sub_0_r, Hs; done | lia | lia].
Qed.

Lemma rw_reach_inv th s :
  (∀ t a, th !! t = Some a → a = RwOut) → Z.of_nat (size th) < 2 ^ 31 →
  rtc rw_step (rwlock_init, th) s → rw_inv s.
Proof.
  intros Hth Hsz Hr. assert (rw_inv (rwlock_init, th)) as H0.
  { assert (∀ P, P RwOut = false → threads_with P th = 0) as Hz.
    { intros P HP. apply threads_with_none. intros t a Ht. by rewrite (Hth t a Ht). }
    constructor; cbn [fst snd rwlock_init rw_read rw_write]; [| | lia | | done]; try by rewrite Hz.
    intros [t Ht]. by apply Hth in Ht. }
  revert H0. induction Hr as [| x y z Hxy _ IH]; [done |]. intros Hx. eapply IH, rw_step_inv; eauto.
Qed.

(** C24: the read-write lock excludes.  For any number of threads (less than
    2^31, the range of the reader count) and any interleaving of their atomic
    steps, at most one thread is between rwlock_wlock and rwlock_wunlock, and
    then none is between rwlock_rlock and rwlock_runlock. *)
Theorem rwlock_excludes th s :
  (∀ t a, th !! t = Some a → a = RwOut) → Z.of_nat (size th) < 2 ^ 31 →
  rtc rw_step (rwlock_init, th) s →
  ∀ t, s.2 !! t = Some Writing →
    ∀ t' a, s.2 !! t' = Some a → a = Reading ∨ a = Writing → t' = t.
Proof.
  intros Hth Hsz Hr t Ht t' a Ht' [-> | ->]; pose proof (rw_reach_inv _ _ Hth Hsz Hr) as [_ Hw H1 Hx _].
  - exfalso. by eapply (Hx (ex_intro _ t Ht) t').
  - eapply (threads_with_unique claiming s.2); eauto. lia.
Qed.

(** Some thread has a step to another program point. *)
Definition can_move (s : rw_sys) : Prop :=
  ∃ t a b l', s.2 !! t = Some a ∧ a ≠ RwOut ∧ b ≠ a ∧ rw_step s (l', <[t := b]> s.2).

Lemma rlock_moves l T t a :
  T !! t = Some (InRlock a) → after_rlock (rwlock_rlock l a).2 ≠ InRlock a → can_move (l, T).
Proof.
  intros Ht Hne. exists t, (InRlock a), (after_rlock (rwlock_rlock l a).2), (rwlock_rlock l a).1.
  split; [done |]. split; [done |]. split; [done |]. eapply rw_rlock; [done |]. apply surjective_pairing.
Qed.

Lemma wlock_moves l T t a :
  T !! t = Some (InWlock a) → after_wlock (rwlock_wlock l a).2 ≠ InWlock a → can_move (l, T).
Proof.
  intros Ht Hne. exists t, (InWlock a), (after_wlock (rwlock_wlock l a).2), (rwlock_wlock l a).1.
  split; [done |]. split; [done |]. split; [done |]. eapply rw_wlock; [done |]. apply surjective_pairing.
Qed.

(** A thread counted in [read], then one that claims [write], then any. *)
Lemma counted_moves l T t a : T !! t = Some a → counted a = true → can_move (l, T).
Proof.
  intros Ht Ha. destruct a as [| [] | | [] |]; try discriminate.
  - eapply rlock_moves; [done |]. cbn. by destruct (rw_write l =? 0).
  - by eapply rlock_moves.
  - exists t, Reading, RwOut, (rwlock_runlock l). split; [done |]. split; [done |]. split; [done |].
    by apply rw_runlock.
Qed.

Lemma claiming_moves l T t a :
  rw_read l = 0 → T !! t = Some a → claiming a = true → can_move (l, T).
Proof.
  intros H0 Ht Ha. destruct a as [| [] | | [] |]; try discriminate.
  - eapply wlock_moves; [done |]. cbn. by rewrite H0.
  - exists t, Writing, RwOut, (rwlock_wunlock l). split; [done |]. split; [done |]. split; [done |].
    by apply rw_wunlock.
Qed.

(** C25: the read-write lock does not deadlock.  In every state that can be
    reached, if some thread is inside one of its functions or holds it, then
    some thread has a step that is not a round of a waiting loop: it moves to
    another point. *)
Theorem rwlock_no_deadlock th s :
  (∀ t a, th !! t = Some a → a = RwOut) → Z.of_nat (size th) < 2 ^ 31 →
  rtc rw_step (rwlock_init, th) s → (∃ t a, s.2 !! t = Some a ∧ a ≠ RwOut) → can_move s.
Proof.
  intros Hth Hsz Hr (t & a & Ht & Ha). pose proof (rw_reach_inv _ _ Hth Hsz Hr) as [Hrd Hwr _ _ _].
  destruct s as [l T]. cbn [fst snd] in *.
  destruct (decide (threads_with counted T = 0)) as [Hc0 | (tr & c & Htr & Hc)%threads_with_exists];
    [| by eapply counted_moves].
  destruct (decide (threads_with claiming T = 0)) as [Hw0 | (tw & c & Htw & Hc)%threads_with_exists];
    [| by eapply claiming_moves; [lia | |]].
  pose proof (threads_with_zero counted _ _ _ Ht Hc0). pose proof (threads_with_zero claiming _ _ _ Ht Hw0).
  assert (rw_write l = 0) as Hwz by lia.
  destruct a as [| [] | | [] |]; try done; [eapply rlock_moves | eapply rlock_moves | eapply wlock_moves];
    try done; cbn; by rewrite Hwz.
Qed.

(** ** Concrete schedules *)

(** Two threads that increment a counter in two steps, a read and a write. *)
Definition counter_body : list (Z * Z → Z * Z) := [(λ '(x, _), (x, x)); (λ '(_, r), (r + 1, r))].

Definition two_threads : gmap nat (spin_at (D := Z * Z)) := {[0%nat := Outside; 1%nat := Outside]}.

Definition counter_end : spin_sys (D := Z * Z) :=
  mkSpinSys (mkSpin 1) (1, 1)
    {[0%nat := Outside; 1%nat := Inside [λ '(x, _), (x, x)] [λ '(_, r), (r + 1, r)]]} [counter_body].

(** Reading and writing threads. *)
Definition rw_threads : gmap nat rw_at := {[0%nat := RwOut; 1%nat := RwOut]}.

Lemma counter_run : rtc spin_step (spin_start (0, 0) two_threads) counter_end.
Proof.
  eapply rtc_l; [apply (sp_call _ _ _ _ 0%nat counter_body); reflexivity |].
  eapply rtc_l; [eapply (sp_spin _ _ _ _ 0%nat counter_body); reflexivity |].
  eapply rtc_l; [apply (sp_call _ _ _ _ 1%nat counter_body); reflexivity |].
  eapply rtc_l; [eapply (sp_spin _ _ _ _ 1%nat counter_body); reflexivity |].
  eapply rtc_l; [eapply (sp_body _ _ _ _ 0%nat []); reflexivity |].
  eapply rtc_l; [eapply (sp_body _ _ _ _ 0%nat [_]); reflexivity |].
  eapply rtc_l; [eapply (sp_unlock _ _ _ _ 0%nat); reflexivity |].
  eapply rtc_l; [eapply (sp_spin _ _ _ _ 1%nat counter_body); reflexivity |].
  eapply rtc_l; [eapply (sp_body _ _ _ _ 1%nat []); reflexivity |].
  apply rtc_refl.
Qed.

(** The values of a map with two keys. *)
Lemma two_keys {A} (a b : A) t c :
  ({[0%nat := a; 1%nat := b]} : gmap nat A) !! t = Some c → c = a ∨ c = b.
Proof.
  intros [[_ <-] | [_ [_ <-]%lookup_singleton_Some]]%lookup_insert_Some; auto.
Qed.

Lemma spinlock_serialises_witness :
  sp_data counter_end = run_log (sp_log counter_end ++ [[λ '(x, _), (x, x)]]) (0, 0).
Proof.
  apply (spinlock_serialises (0, 0) two_threads counter_end) with
    (t := 1%nat) (body := [λ '(_, r), (r + 1, r)]).
  - intros t a Ha. by apply two_keys in Ha as [-> | ->].
  - apply counter_run.
  - reflexivity.
Defined.

(** Thread 0 waits to write while thread 1 reads. *)
Definition rw_waiting : rw_sys := (mkRw 1 1, {[0%nat := InWlock WDrain; 1%nat := Reading]}).

Lemma rw_waiting_run : rtc rw_step (rwlock_init, rw_threads) rw_waiting.
Proof.
  eapply rtc_l; [apply (rw_rlock_call _ _ 1%nat); reflexivity |].
  eapply rtc_l; [eapply (rw_rlock _ _ 1%nat RSpin); reflexivity |].
  eapply rtc_l; [eapply (rw_rlock _ _ 1%nat RAdd); reflexivity |].
  eapply rtc_l; [eapply (rw_rlock _ _ 1%nat RTest); reflexivity |].
  eapply rtc_l; [apply (rw_wlock_call _ _ 0%nat); reflexivity |].
  eapply rtc_l; [eapply (rw_wlock _ _ 0%nat WSet); reflexivity |].
  apply rtc_refl.
Qed.

Definition rw_writing : rw_sys := (mkRw 1 0, {[0%nat := Writing; 1%nat := RwOut]}).

Lemma rw_writing_run : rtc rw_step (rwlock_init, rw_threads) rw_writing.
Proof.
  etrans; [apply rw_waiting_run |].
  eapply rtc_l; [eapply (rw_runlock _ _ 1%nat); reflexivity |].
  eapply rtc_l; [eapply (rw_wlock _ _ 0%nat WDrain); reflexivity |].
  apply rtc_refl.
Qed.

Lemma rwlock_excludes_witness :
  rw_writing.2 !! 0%nat = Some Writing ∧
  ∀ t' a, rw_writing.2 !! t' = Some a → a = Reading ∨ a = Writing → t' = 0%nat.
Proof.
  split; [reflexivity |]. apply (rwlock_excludes rw_threads rw_writing).
  - intros t a Ha. by apply two_keys in Ha as [-> | ->].
  - reflexivity.
  - apply rw_writing_run.
  - reflexivity.
Defined.

Lemma rwlock_no_deadlock_witness : can_move rw_waiting.
Proof.
  apply (rwlock_no_deadlock rw_threads rw_waiting).
  - intros t a Ha. by apply two_keys in Ha as [-> | ->].
  - reflexivity.
  - apply rw_waiting_run.
  - exists 0%nat, (InWlock WDrain). by split.
Defined.
