(* ===== verification/Kmem.v ===== *)
(** The object caches of lib/kmem.c, on the circular lists of include/list.h.

    kmem.c manages one block of raw memory: headers, list links, guard bytes
    and the objects handed out all live in it and are reached by address
    arithmetic.  So the model is a block of bytes with a base address, and the
    fields of the structures are loads and stores at their offsets, as on a
    64-bit little-endian machine; an access outside the block is a fault.  A
    pointer is an address, NULL is 0. *)

From S2P Require Import Prelude.

Local Open Scope Z_scope.

(** ** The block *)

Record arena := mkArena { a_base : Z; a_bytes : list Z }.

(** memcpy from and to the block *)
Definition ld_bytes (m : arena) (a n : Z) : res (list Z) := rd_block (a_bytes m) (a - a_base m) n.
Definition st_bytes (m : arena) (a : Z) (bs : list Z) : res arena :=
  bytes ← wr_block (a_bytes m) (a - a_base m) bs; Ok (mkArena (a_base m) bytes).

(** Little-endian integers of [n] bytes *)
Definition le_bytes (n : nat) (v : Z) : list Z := rev (be_bytes n v).
Definition le_value (bs : list Z) : Z := be_value (rev bs).

Definition ld (n : nat) (m : arena) (a : Z) : res Z :=
  bs ← ld_bytes m a (Z.of_nat n); Ok (le_value bs).
Definition st (n : nat) (m : arena) (a v : Z) : res arena := st_bytes m a (le_bytes n v).

(** An [int] and a pointer *)
Definition ld_int (m : arena) (a : Z) : res Z := s32 <$> ld 4 m a.
Definition st_int (m : arena) (a v : Z) : res arena := st 4 m a v.
Definition ld_ptr (m : arena) (a : Z) : res Z := ld 8 m a.
Definition st_ptr (m : arena) (a v : Z) : res arena := st 8 m a v.

(** ** include/list.h *)

(** struct list_head: [next] at 0, [prev] at 8 *)
Definition next_at (p : Z) : Z := p.
Definition prev_at (p : Z) : Z := p + 8.

Definition INIT_LIST_HEAD (m : arena) (ptr : Z) : res arena :=
  m ← st_ptr m (next_at ptr) ptr; st_ptr m (prev_at ptr) ptr.

(** __list_add *)
Definition list_add_between (m : arena) (new prev next : Z) : res arena :=
  m ← st_ptr m (prev_at next) new;
  m ← st_ptr m (next_at new) next;
  m ← st_ptr m (prev_at new) prev;
  st_ptr m (next_at prev) new.

Definition list_add (m : arena) (new head : Z) : res arena :=
  next ← ld_ptr m (next_at head); list_add_between m new head next.

Definition list_add_tail (m : arena) (new head : Z) : res arena :=
  prev ← ld_ptr m (prev_at head); list_add_between m new prev head.

(** __list_del *)
Definition list_del_between (m : arena) (prev next : Z) : res arena :=
  m ← st_ptr m (prev_at next) prev; st_ptr m (next_at prev) next.

Definition list_del (m : arena) (entry : Z) : res arena :=
  prev ← ld_ptr m (prev_at entry);
  next ← ld_ptr m (next_at entry);
  list_del_between m prev next.

Definition list_del_init (m : arena) (entry : Z) : res arena :=
  m ← list_del m entry; INIT_LIST_HEAD m entry.

Definition list_empty (m : arena) (head : Z) : res bool :=
  next ← ld_ptr m (next_at head); Ok (next =? head).

(** list_for_each: the entries visited. *)
Fixpoint list_for_each (k : nat) (m : arena) (pos head : Z) : res (list Z) :=
  match k with
  | O => Fail OutOfFuel
  | S k =>
      if pos =? head then Ok [] else
      next ← ld_ptr m (next_at pos); xs ← list_for_each k m next head; Ok (pos :: xs)
  end.

(** ** The structures of kmem.c *)

(** struct obj: [link] at 0, [buf] at 16 *)
Definition sizeof_obj : Z := 24.
Definition obj_buf (o : Z) : Z := o + 16.

(** struct kmem_cache *)
Definition NAME : Z := 40.
Definition sizeof_kmem_cache : Z := 72.
Definition kc_mem_size (c : Z) : Z := c + 40.
Definition kc_tots (c : Z) : Z := c + 44.
Definition kc_used (c : Z) : Z := c + 48.
Definition kc_free (c : Z) : Z := c + 52.
Definition kc_free_objs (c : Z) : Z := c + 56.

(** struct kmem *)
Definition sizeof_kmem : Z := 32.
Definition km_tots (k : Z) : Z := k.
Definition km_size (k : Z) : Z := k + 4.
Definition km_used_size (k : Z) : Z := k + 8.
Definition km_free (k : Z) : Z := k + 16.
Definition km_align (k : Z) : Z := k + 24.
Definition km_lock (k : Z) : Z := k + 28.

(** The overflow flag and its size *)
Definition OF : Z := 255.
Definition OFS : Z := 1.

(** [set_align]: [size] is a [size_t] where the macro is used, [align] an
    [int]. *)
Definition set_align (size align : Z) : Z :=
  Z.land (u64 (size + (align - 1))) (u64 (Z.lnot (align - 1))).

(** The semaphores are passed by value: the callee changes its copy. *)
Definition sem_down_now (sem : Z) : Z := if sem =? 0 then -1 else 0.
Definition sem_up (sem : Z) : unit := tt.

(** ** Operations *)

(** 0: both guard bytes are intact *)
Definition check_overflow (m : arena) (bufp mem_size : Z) : res Z :=
  if bufp =? 0 then Ok (-1) else
  b ← ld 1 m (bufp - 1);
  if negb (b =? OF) then Ok (-1) else
  b ← ld 1 m (bufp + mem_size);
  Ok (if b =? OF then 0 else -1).

Definition kmem_cache_checkoverflow (m : arena) (kmem_cachep bufp : Z) : res Z :=
  mem_size ← ld_int m (kc_mem_size kmem_cachep); check_overflow m bufp mem_size.

(** The kmem, or NULL if the space is too small. *)
Definition init_kmem (m : arena) (ptr size align : Z) : res (Z * arena) :=
  let real_size := s32 (set_align sizeof_kmem align) in
  if size <=? real_size then Ok (0, m) else
  m ← st_int m (km_tots ptr) 0;
  m ← st_int m (km_align ptr) align;
  m ← st_int m (km_size ptr) size;
  m ← st_int m (km_used_size ptr) real_size;
  m ← st_ptr m (km_free ptr) (ptr + real_size);
  m ← st_int m (km_lock ptr) 1;
  Ok (ptr, m).

Definition init_obj (m : arena) (objp mem_size : Z) : res arena :=
  m ← INIT_LIST_HEAD m objp;
  let index := objp + sizeof_obj in
  m ← st 1 m index OF;
  let index := index + 1 in
  m ← st_ptr m (obj_buf objp) index;
  st 1 m (index + mem_size) OF.

(** The loop of init_kmem_cache *)
Fixpoint init_objs (k : nat) (m : arena) (index mem_size real_mem_size head : Z) : res arena :=
  match k with
  | O => Ok m
  | S k =>
      m ← init_obj m index mem_size;
      m ← list_add m index head;
      init_objs k m (index + real_mem_size) mem_size real_mem_size head
  end.

(** [while(tots--)] counts a negative number down past the least [int]. *)
Definition init_loop (m : arena) (index mem_size real_mem_size head tots : Z) : res arena :=
  if tots <? 0 then
    m ← init_objs (Z.to_nat (tots + 2 ^ 31)) m index mem_size real_mem_size head;
    Fail SignedOverflow
  else init_objs (Z.to_nat tots) m index mem_size real_mem_size head.

(** strncpy of NAME - 1 characters pads with 0. *)
Definition cache_name (name : list Z) : list Z :=
  let cs := take (Z.to_nat (NAME - 1)) name in cs ++ replicate (Z.to_nat (NAME - 1) - length cs) 0.

Definition init_kmem_cache (m : arena) (c : Z) (name : list Z) (mem_size tots align : Z)
    : res (Z * arena) :=
  let real_size := s32 (set_align sizeof_kmem_cache align) in
  let real_mem_size := s32 (set_align (u64 (sizeof_obj + mem_size + 2 * OFS)) align) in
  m ← st_bytes m c (cache_name name);
  m ← st_int m (kc_mem_size c) mem_size;
  m ← st_int m (kc_tots c) tots;
  m ← st_int m (kc_free c) tots;
  m ← st_int m (kc_used c) 0;
  m ← INIT_LIST_HEAD m (kc_free_objs c);
  m ← init_loop m (c + real_size) mem_size real_mem_size (kc_free_objs c) tots;
  Ok (c, m).

(** [memset(p, 0, n)]: [n] is converted to [size_t]. *)
Definition clear_bytes (m : arena) (a n : Z) : res arena :=
  bytes ← (if in_range (a_bytes m) (a - a_base m) (u64 n)
           then wr_block (a_bytes m) (a - a_base m) (replicate (Z.to_nat (u64 n)) 0)
           else Fail OutOfBounds);
  Ok (mkArena (a_base m) bytes).

(** The size kmem_cache_create computes. *)
Definition cache_size (mem_size tots align : Z) : Z :=
  s32 (u64 (set_align sizeof_kmem_cache align +
            u64 (set_align (u64 (sizeof_obj + mem_size + 2 * OFS)) align * u64 tots))).

Definition kmem_cache_create (m : arena) (kmemp : Z) (name : list Z) (mem_size tots : Z)
    : res (Z * arena) :=
  lock ← ld_int m (km_lock kmemp);
  if negb (sem_down_now lock =? 0) then Ok (0, m) else
  align ← ld_int m (km_align kmemp);
  let real_size := cache_size mem_size tots align in
  size ← ld_int m (km_size kmemp);
  used_size ← ld_int m (km_used_size kmemp);
  room ← int_op (size - used_size);
  if room <=? real_size then Ok (0, m) else
  c ← ld_ptr m (km_free kmemp);
  m ← clear_bytes m c real_size;
  '(_, m) ← init_kmem_cache m c name mem_size tots align;
  used_size ← ld_int m (km_used_size kmemp);
  used ← int_op (used_size + real_size);
  m ← st_int m (km_used_size kmemp) used;
  free ← ld_ptr m (km_free kmemp);
  m ← st_ptr m (km_free kmemp) (free + real_size);
  n ← ld_int m (km_tots kmemp);
  n ← int_op (n + 1);
  m ← st_int m (km_tots kmemp) n;
  Ok (c, m).

Definition kmem_cache_alloc (m : arena) (c : Z) : res (Z * arena) :=
  free ← ld_int m (kc_free c);
  if free =? 0 then Ok (0, m) else
  list_headt ← ld_ptr m (next_at (kc_free_objs c));
  m ← list_del_init m list_headt;
  free ← ld_int m (kc_free c);
  free ← int_op (free - 1);
  m ← st_int m (kc_free c) free;
  used ← ld_int m (kc_used c);
  used ← int_op (used + 1);
  m ← st_int m (kc_used c) used;
  buf ← ld_ptr m (obj_buf list_headt);
  Ok (buf, m).

Definition kmem_cache_free (m : arena) (c bufp : Z) : res arena :=
  let objt := bufp - sizeof_obj - OFS in
  m ← list_add m objt (kc_free_objs c);
  used ← ld_int m (kc_used c);
  used ← int_op (used - 1);
  m ← st_int m (kc_used c) used;
  free ← ld_int m (kc_free c);
  free ← int_op (free + 1);
  st_int m (kc_free c) free.
