(* ===== verification/KmemFacts.v ===== *)
(** Correctness of the object caches of Kmem.v: a cache is a stack of free
    objects, the objects handed out do not overlap with each other nor with the
    bookkeeping, and writing behind an object is noticed. *)

From S2P Require Import Prelude Kmem.

Local Open Scope Z_scope.

(** ** The block *)

Section block.
Implicit Types (m : arena) (a b n : Z) (bs : list Z).

Definition in_arena m a n : Prop :=
  a_base m ≤ a ∧ 0 ≤ n ∧ a + n ≤ a_base m + Z.of_nat (length (a_bytes m)).

(** [a, a + n) and [b, b + k) do not overlap. *)
Definition apart a n b k : Prop := a + n ≤ b ∨ b + k ≤ a.

(** [m'] is [m] but for the bytes of the ranges [R]. *)
Definition keeps m m' (R : list (Z * Z)) : Prop :=
  a_base m' = a_base m ∧ length (a_bytes m') = length (a_bytes m) ∧
  ∀ a n, Forall (λ r, apart a n r.1 r.2) R → ld_bytes m' a n = ld_bytes m a n.

Lemma keeps_refl m R : keeps m m R.
Proof. done. Qed.

Lemma keeps_trans m1 m2 m3 R S : keeps m1 m2 R → keeps m2 m3 S → keeps m1 m3 (R ++ S).
Proof.
  intros (Hb & Hl & Hk) (Hb' & Hl' & Hk'). split; [congruence |]. split; [congruence |].
  intros a n [HR HS]%Forall_app. by rewrite Hk', Hk.
Qed.

Lemma keeps_weaken m m' R S :
  keeps m m' R → (∀ a n, Forall (λ r, apart a n r.1 r.2) S → Forall (λ r, apart a n r.1 r.2) R) →
  keeps m m' S.
Proof. intros (Hb & Hl & Hk) HS. split; [done |]. split; [done |]. auto. Qed.

Lemma keeps_in_arena m m' R a n : keeps m m' R → in_arena m a n → in_arena m' a n.
Proof. intros (Hb & Hl & _). unfold in_arena. by rewrite Hb, Hl. Qed.

Lemma slice_splice_apart (l xs : list Z) i j k :
  0 ≤ i → i + Z.of_nat (length xs) ≤ Z.of_nat (length l) → 0 ≤ j → 0 ≤ k →
  j + k ≤ i ∨ i + Z.of_nat (length xs) ≤ j →
  slice (splice l i xs) j k = slice l j k.
Proof.
  intros Hi Hxs Hj Hk Hd. apply list_eq. intros p. unfold slice.
  destruct (decide (p < Z.to_nat k)%nat) as [Hp | Hp];
    [| by rewrite !lookup_take_ge by lia].
  rewrite !lookup_take_lt, !lookup_drop by lia. unfold splice. destruct Hd as [Hd | Hd].
  - rewrite lookup_app_l by (rewrite length_take; lia). by rewrite lookup_take_lt by lia.
  - rewrite lookup_app_r by (rewrite length_take; lia).
    rewrite lookup_app_r by (rewrite length_take; lia).
    rewrite lookup_drop, length_take. f_equal. lia.
Qed.

Lemma st_bytes_spec m a bs :
  in_arena m a (Z.of_nat (length bs)) →
  ∃ m', st_bytes m a bs = Ok m' ∧ ld_bytes m' a (Z.of_nat (length bs)) = Ok bs ∧
    keeps m m' [(a, Z.of_nat (length bs))].
Proof.
  intros (Hlo & _ & Hhi). unfold st_bytes, ld_bytes. rewrite wr_block_Ok by lia. rewrite bind_Ok.
  eexists. split; [done |]. cbn [a_base a_bytes]. split.
  - rewrite rd_block_Ok by (rewrite ?length_splice by lia; lia). by rewrite slice_splice by lia.
  - split; [done |]. split; [cbn [a_bytes]; by rewrite length_splice by lia |].
    intros b n [Hd _]%Forall_cons_1. cbn [fst snd] in Hd. unfold ld_bytes, rd_block, in_range. cbn [a_base a_bytes].
    rewrite length_splice by lia.
    destruct (Z.leb_spec 0 (b - a_base m)); [| done]. destruct (Z.leb_spec 0 n); [| done]. cbn [andb].
    destruct (Z.leb_spec (b - a_base m + n) (Z.of_nat (length (a_bytes m)))); [| done].
    f_equal. apply slice_splice_apart; try lia. unfold apart in Hd. lia.
Qed.

Lemma length_le_bytes (n : nat) v : length (le_bytes n v) = n.
Proof. unfold le_bytes. by rewrite length_rev, length_be_bytes. Qed.

Lemma le_value_bytes (n : nat) v : le_value (le_bytes n v) = v mod 2 ^ (8 * Z.of_nat n).
Proof. unfold le_value, le_bytes. by rewrite rev_involutive, be_value_bytes. Qed.

Lemma st_spec (n : nat) m a v :
  in_arena m a (Z.of_nat n) →
  ∃ m', st n m a v = Ok m' ∧ ld n m' a = Ok (v mod 2 ^ (8 * Z.of_nat n)) ∧
    keeps m m' [(a, Z.of_nat n)].
Proof.
  intros Ha. pose proof (length_le_bytes n v) as Hl.
  destruct (st_bytes_spec m a (le_bytes n v)) as (m' & Hst & Hld & Hk); [by rewrite Hl |].
  rewrite Hl in Hld, Hk. exists m'. split; [exact Hst |]. split; [| done].
  unfold ld. by rewrite Hld, bind_Ok, le_value_bytes.
Qed.

Lemma st_ptr_spec m a v :
  in_arena m a 8 → is_u64 v →
  ∃ m', st_ptr m a v = Ok m' ∧ ld_ptr m' a = Ok v ∧ keeps m m' [(a, 8)].
Proof.
  intros Ha Hv. destruct (st_spec 8 m a v Ha) as (m' & Hst & Hld & Hk). exists m'.
  split; [done |]. split; [| done]. unfold ld_ptr. rewrite Hld. f_equal. by apply Z.mod_small.
Qed.

Lemma st_int_spec m a v :
  in_arena m a 4 → is_s32 v →
  ∃ m', st_int m a v = Ok m' ∧ ld_int m' a = Ok v ∧ keeps m m' [(a, 4)].
Proof.
  intros Ha Hv. destruct (st_spec 4 m a v Ha) as (m' & Hst & Hld & Hk). exists m'.
  split; [done |]. split; [| done]. unfold ld_int. rewrite Hld. cbn [fmap res_fmap]. f_equal.
  change (v mod 2 ^ (8 * Z.of_nat 4)) with (u32 v). rewrite s32_u32. by apply s32_small.
Qed.

Lemma st_byte_spec m a v :
  in_arena m a 1 → is_u8 v →
  ∃ m', st 1 m a v = Ok m' ∧ ld 1 m' a = Ok v ∧ keeps m m' [(a, 1)].
Proof.
  intros Ha Hv. destruct (st_spec 1 m a v Ha) as (m' & Hst & Hld & Hk). exists m'.
  split; [done |]. split; [| done]. rewrite Hld. f_equal. by apply Z.mod_small.
Qed.

(** Loads away from the ranges written. *)
Lemma ld_keeps m m' R (n : nat) a :
  keeps m m' R → Forall (λ r, apart a (Z.of_nat n) r.1 r.2) R → ld n m' a = ld n m a.
Proof. intros (_ & _ & Hk) HR. unfold ld. by rewrite Hk. Qed.

Lemma ld_int_keeps m m' R a :
  keeps m m' R → Forall (λ r, apart a 4 r.1 r.2) R → ld_int m' a = ld_int m a.
Proof. intros Hk HR. unfold ld_int. by rewrite (ld_keeps m m' R 4 a). Qed.

Lemma ld_ptr_keeps m m' R a :
  keeps m m' R → Forall (λ r, apart a 8 r.1 r.2) R → ld_ptr m' a = ld_ptr m a.
Proof. intros Hk HR. by apply (ld_keeps m m' R 8 a). Qed.

End block.

(** Show that ranges do not overlap. *)
Ltac solve_apart := repeat (apply Forall_cons_2 || apply Forall_nil_2); unfold apart; cbn [fst snd]; lia.

(** ** Writing the fields of a structure *)

Inductive cell := Cint (a v : Z) | Cptr (a v : Z).

Definition cell_range (x : cell) : Z * Z := match x with Cint a _ => (a, 4) | Cptr a _ => (a, 8) end.
Definition cell_ok (x : cell) : Prop := match x with Cint _ v => is_s32 v | Cptr _ v => is_u64 v end.
Definition put_cell (m : arena) (x : cell) : res arena :=
  match x with Cint a v => st_int m a v | Cptr a v => st_ptr m a v end.
Definition cell_holds (m : arena) (x : cell) : Prop :=
  match x with Cint a v => ld_int m a = Ok v | Cptr a v => ld_ptr m a = Ok v end.

Fixpoint put_cells (m : arena) (xs : list cell) : res arena :=
  match xs with [] => Ok m | x :: xs => m ← put_cell m x; put_cells m xs end.

Definition apart_from (r : Z * Z) (R : list (Z * Z)) : Prop := Forall (λ q, apart r.1 r.2 q.1 q.2) R.

Fixpoint disjoint_cells (xs : list cell) : Prop :=
  match xs with
  | [] => True
  | x :: xs => apart_from (cell_range x) (cell_range <$> xs) ∧ disjoint_cells xs
  end.

Lemma cell_holds_keeps m m' R x : keeps m m' R → apart_from (cell_range x) R → cell_holds m x → cell_holds m' x.
Proof.
  intros K HR. destruct x; cbn [cell_holds cell_range] in *.
  - by rewrite (ld_int_keeps _ _ _ _ K).
  - by rewrite (ld_ptr_keeps _ _ _ _ K).
Qed.

Lemma put_cell_spec m x :
  in_arena m (cell_range x).1 (cell_range x).2 → cell_ok x →
  ∃ m', put_cell m x = Ok m' ∧ cell_holds m' x ∧ keeps m m' [cell_range x].
Proof. destruct x; [apply st_int_spec | apply st_ptr_spec]. Qed.

(** Stores to disjoint fields: each holds its value, nothing else changes. *)
Lemma put_spec m xs :
  Forall (λ x, in_arena m (cell_range x).1 (cell_range x).2 ∧ cell_ok x) xs → disjoint_cells xs →
  ∃ m', put_cells m xs = Ok m' ∧ Forall (cell_holds m') xs ∧ keeps m m' (cell_range <$> xs).
Proof.
  revert m. induction xs as [|x xs IH]; intros m Hin Hd.
  { exists m. split; [done |]. split; [constructor | apply keeps_refl]. }
  apply Forall_cons in Hin as [[Hx Hok] Hin]. destruct Hd as [Hdx Hd].
  destruct (put_cell_spec m x Hx Hok) as (m1 & E1 & L1 & K1).
  destruct (IH m1) as (m2 & E2 & L2 & K2); [| done |].
  { eapply Forall_impl; [exact Hin |]. intros y [Hy ?]. split; [by eapply keeps_in_arena | done]. }
  exists m2. cbn [put_cells]. rewrite E1, bind_Ok. split; [done |]. split.
  - constructor; [by eapply cell_holds_keeps | done].
  - exact (keeps_trans _ _ _ _ _ K1 K2).
Qed.

(** The fields of a structure of [n] bytes at [a]. *)
Lemma put_struct m a n xs :
  in_arena m a n → Forall (λ x, a ≤ (cell_range x).1 ∧ (cell_range x).1 + (cell_range x).2 ≤ a + n ∧ cell_ok x) xs →
  disjoint_cells xs →
  ∃ m', put_cells m xs = Ok m' ∧ Forall (cell_holds m') xs ∧ keeps m m' [(a, n)].
Proof.
  intros Ha Hxs Hd. destruct (put_spec m xs) as (m' & E & L & K); [| done |].
  { eapply Forall_impl; [exact Hxs |]. intros x (? & ? & ?). split; [| done].
    unfold in_arena in *. destruct x; cbn [cell_range fst snd] in *; lia. }
  exists m'. split; [done |]. split; [done |]. eapply keeps_weaken; [exact K |].
  intros b k [Hb _]%Forall_cons_1. apply Forall_fmap, (Forall_impl _ _ _ Hxs). intros x (? & ? & _).
  unfold compose, apart in *. cbn [fst snd] in Hb. lia.
Qed.

(** Show that the fields of a structure do not overlap. *)
Ltac solve_cells :=
  cbn [disjoint_cells fmap list_fmap cell_range cell_ok]; unfold apart_from;
  repeat match goal with
  | |- _ ∧ _ => split
  | |- True => done
  | |- Forall _ [] => constructor
  | |- Forall _ (_ :: _) => constructor
  end; cbn [cell_range cell_ok fst snd]; unfold apart, is_s32, is_u64; try lia; try done.

(** Carry out a chain of operations whose results are known. *)
Ltac run_known :=
  inv_bind; repeat match goal with E : ?x = Ok _ |- context [?x] => rewrite E, bind_Ok end.

(** ** Circular lists *)

Section lists.
Implicit Types (m : arena) (p q x : Z) (xs ys : list Z).

(** From the node [p] through the nodes [xs] to the node [q]. *)
Fixpoint lseg m p xs q : Prop :=
  match xs with
  | [] => ld_ptr m (next_at p) = Ok q ∧ ld_ptr m (prev_at q) = Ok p
  | x :: xs => ld_ptr m (next_at p) = Ok x ∧ ld_ptr m (prev_at x) = Ok p ∧ lseg m x xs q
  end.

(** Different nodes do not overlap. *)
Definition spaced xs : Prop := ∀ x y, x ∈ xs → y ∈ xs → x ≠ y → apart x 16 y 16.

(** Nodes can be read and written, and their addresses are pointers. *)
Definition node_ok m x : Prop := in_arena m x 16 ∧ is_u64 x.

Lemma lseg_keeps m m' R p xs q :
  keeps m m' R → (∀ x, x ∈ p :: xs → Forall (λ r, apart x 8 r.1 r.2) R) →
  (∀ x, x ∈ xs ++ [q] → Forall (λ r, apart (x + 8) 8 r.1 r.2) R) →
  lseg m p xs q → lseg m' p xs q.
Proof.
  intros Hk. revert p. induction xs as [|x xs IH]; intros p Hn Hp; cbn [lseg]; unfold next_at, prev_at in *.
  - intros [H1 H2]. rewrite !(ld_ptr_keeps m m' R _ Hk); [done | apply Hp; left | apply Hn; left].
  - intros (H1 & H2 & Hs). rewrite !(ld_ptr_keeps m m' R _ Hk); [| apply Hp; left | apply Hn; left].
    split; [done |]. split; [done |]. apply IH; [| | done].
    + intros y Hy. apply Hn. by right.
    + intros y Hy. apply Hp. by right.
Qed.

Lemma in_arena_sub m a n b k : in_arena m a n → a ≤ b → 0 ≤ k → b + k ≤ a + n → in_arena m b k.
Proof. unfold in_arena. lia. Qed.

(** One store of a link, given that of the earlier ones. *)
Lemma st_link m x v off :
  node_ok m x → is_u64 v → off = 0 ∨ off = 8 →
  ∃ m', st_ptr m (x + off) v = Ok m' ∧ ld_ptr m' (x + off) = Ok v ∧ keeps m m' [(x + off, 8)].
Proof. intros [Ha _] Hv Ho. apply st_ptr_spec; [| done]. eapply in_arena_sub; [exact Ha | lia..]. Qed.

Lemma node_ok_keeps m m' R x : keeps m m' R → node_ok m x → node_ok m' x.
Proof. intros Hk [Ha Hu]. split; [by eapply keeps_in_arena | done]. Qed.

Lemma list_add_between_spec m new p q :
  node_ok m new → node_ok m p → node_ok m q → apart new 16 p 16 → apart new 16 q 16 →
  p = q ∨ apart p 16 q 16 →
  ∃ m', list_add_between m new p q = Ok m' ∧
    ld_ptr m' (prev_at q) = Ok new ∧ ld_ptr m' (next_at new) = Ok q ∧
    ld_ptr m' (prev_at new) = Ok p ∧ ld_ptr m' (next_at p) = Ok new ∧
    keeps m m' [(q + 8, 8); (new, 8); (new + 8, 8); (p, 8)].
Proof.
  intros Hnew Hp Hq H1 H2 H3. unfold list_add_between, prev_at, next_at, apart in *.
  destruct (st_link m q new 8 Hq (proj2 Hnew)) as (m1 & -> & L1 & K1); [lia |]. rewrite bind_Ok.
  destruct (st_link m1 new q 0) as (m2 & E2 & L2 & K2); [by eapply node_ok_keeps | apply Hq | lia |].
  rewrite Z.add_0_r in E2, L2, K2. rewrite E2, bind_Ok.
  destruct (st_link m2 new p 8) as (m3 & -> & L3 & K3);
    [by do 2 (eapply node_ok_keeps; [eassumption |]) | apply Hp | lia |]. rewrite bind_Ok.
  destruct (st_link m3 p new 0) as (m4 & E4 & L4 & K4);
    [by do 3 (eapply node_ok_keeps; [eassumption |]) | apply Hnew | lia |].
  rewrite Z.add_0_r in E4, L4, K4. exists m4. split; [done |].
  split; [rewrite (ld_ptr_keeps m3 m4 _ _ K4), (ld_ptr_keeps m2 m3 _ _ K3),
            (ld_ptr_keeps m1 m2 _ _ K2) by solve_apart; done |].
  split; [rewrite (ld_ptr_keeps m3 m4 _ _ K4), (ld_ptr_keeps m2 m3 _ _ K3) by solve_apart; done |].
  split; [rewrite (ld_ptr_keeps m3 m4 _ _ K4) by solve_apart; done |]. split; [done |].
  exact (keeps_trans _ _ _ _ _ (keeps_trans _ _ _ _ _ (keeps_trans _ _ _ _ _ K1 K2) K3) K4).
Qed.

Lemma list_del_init_spec m e p q :
  node_ok m e → node_ok m p → node_ok m q → apart e 16 p 16 → apart e 16 q 16 →
  p = q ∨ apart p 16 q 16 → ld_ptr m (prev_at e) = Ok p → ld_ptr m (next_at e) = Ok q →
  ∃ m', list_del_init m e = Ok m' ∧ ld_ptr m' (prev_at q) = Ok p ∧ ld_ptr m' (next_at p) = Ok q ∧
    keeps m m' [(q + 8, 8); (p, 8); (e, 8); (e + 8, 8)].
Proof.
  intros He Hp Hq H1 H2 H3 Lp Lq. unfold list_del_init, list_del. rewrite Lp, bind_Ok, Lq, bind_Ok.
  unfold list_del_between, INIT_LIST_HEAD, prev_at, next_at, apart in *.
  destruct (st_link m q p 8 Hq (proj2 Hp)) as (m1 & -> & L1 & K1); [lia |]. rewrite bind_Ok.
  destruct (st_link m1 p q 0) as (m2 & E2 & L2 & K2); [by eapply node_ok_keeps | apply Hq | lia |].
  rewrite Z.add_0_r in E2, L2, K2. rewrite E2, bind_Ok.
  destruct (st_link m2 e e 0) as (m3 & E3 & L3 & K3);
    [by do 2 (eapply node_ok_keeps; [eassumption |]) | apply He | lia |].
  rewrite Z.add_0_r in E3, L3, K3. rewrite E3, bind_Ok.
  destruct (st_link m3 e e 8) as (m4 & -> & L4 & K4);
    [by do 3 (eapply node_ok_keeps; [eassumption |]) | apply He | lia |].
  exists m4. split; [done |].
  split; [rewrite (ld_ptr_keeps m3 m4 _ _ K4), (ld_ptr_keeps m2 m3 _ _ K3),
            (ld_ptr_keeps m1 m2 _ _ K2) by solve_apart; done |].
  split; [rewrite (ld_ptr_keeps m3 m4 _ _ K4), (ld_ptr_keeps m2 m3 _ _ K3) by solve_apart; done |].
  exact (keeps_trans _ _ _ _ _ (keeps_trans _ _ _ _ _ (keeps_trans _ _ _ _ _ K1 K2) K3) K4).
Qed.

Definition links xs : list (Z * Z) := (λ x, (x, 16)) <$> xs.

Lemma links_apart a n xs x :
  Forall (λ r, apart a n r.1 r.2) (links xs) → x ∈ xs → apart a n x 16.
Proof.
  intros H Hx. rewrite Forall_forall in H. apply (H (x, 16)). apply list_elem_of_fmap. by exists x.
Qed.

(** The rest of a list when its first node [y] gets another predecessor: only the
    [prev] of [y], the [next] of the head [H] and a node [e] that is not in the
    list are written. *)
Lemma lseg_rest_keeps m m' R H e y xs :
  keeps m m' R → R ⊆ [(y + 8, 8); (H, 8); (e, 8); (e + 8, 8)] →
  NoDup (e :: H :: y :: xs) → spaced (e :: H :: y :: xs) → lseg m y xs H → lseg m' y xs H.
Proof.
  intros K HR Hnd Hsp Hs. apply NoDup_cons in Hnd as [Hn1 [Hn2 [Hn3 _]%NoDup_cons]%NoDup_cons].
  assert (∀ u z, u ∈ e :: H :: y :: xs → z ∈ e :: H :: y :: xs → u = z ∨ u + 16 ≤ z ∨ z + 16 ≤ u) as Hap.
  { intros u z Hu Hz. destruct (decide (u = z)) as [-> |]; [by left |]. right. by apply Hsp. }
  eapply lseg_keeps; [exact K | | | exact Hs]; intros u Hu; apply Forall_forall; intros r Hr;
    specialize (HR r Hr);
    pose proof (Hap u H ltac:(set_solver) ltac:(set_solver));
    pose proof (Hap u e ltac:(set_solver) ltac:(set_solver));
    pose proof (Hap u y ltac:(set_solver) ltac:(set_solver));
    assert (u ≠ e) by set_solver; unfold apart.
  - assert (u ≠ H) by set_solver.
    repeat (apply elem_of_cons in HR as [-> | HR]; [cbn [fst snd]; lia |]). by apply elem_of_nil in HR.
  - assert (u ≠ y) by set_solver.
    repeat (apply elem_of_cons in HR as [-> | HR]; [cbn [fst snd]; lia |]). by apply elem_of_nil in HR.
Qed.

(** list_add pushes a node; only links change. *)
Lemma list_add_spec m H xs new :
  lseg m H xs H → NoDup (new :: H :: xs) → spaced (new :: H :: xs) →
  Forall (node_ok m) (new :: H :: xs) →
  ∃ m', list_add m new H = Ok m' ∧ lseg m' H (new :: xs) H ∧ keeps m m' (links (new :: H :: xs)).
Proof.
  intros Hs Hnd Hsp Hok. rewrite Forall_forall in Hok.
  assert (∃ f, ld_ptr m (next_at H) = Ok f ∧ f ∈ H :: xs) as (f & Hf & Hin).
  { destruct xs as [|x xs]; [exists H | exists x]; cbn [lseg] in Hs; split; try apply Hs; set_solver. }
  assert (∀ y, y ∈ H :: xs → new ≠ y) as Hne.
  { apply NoDup_cons in Hnd as [Hn _]. intros y Hy ->. done. }
  destruct (list_add_between_spec m new H f) as (m' & Hadd & L1 & L2 & L3 & L4 & K).
  { apply Hok. left. } { apply Hok. right. left. } { apply Hok. by right. }
  { apply Hsp; [left | right; left | apply Hne; left]. } { apply Hsp; [left | by right | by apply Hne]. }
  { destruct (decide (H = f)) as [-> |]; [by left |]. right. apply Hsp; [right; left | by right | done]. }
  exists m'. unfold list_add. rewrite Hf, bind_Ok. split; [done |]. split.
  - cbn [lseg]. split; [done |]. split; [done |]. destruct xs as [|x xs]; cbn [lseg] in Hs |- *.
    + destruct Hs as [Hs _]. rewrite Hs in Hf. injection Hf as <-. done.
    + destruct Hs as (Hx & _ & Hs). rewrite Hx in Hf. injection Hf as <-. split; [done |]. split; [done |].
      eapply (lseg_rest_keeps m m' _ H new x); [exact K | set_solver | done | done | exact Hs].
  - eapply keeps_weaken; [exact K |]. intros a n Hal.
    pose proof (links_apart _ _ _ new Hal ltac:(left)). pose proof (links_apart _ _ _ H Hal ltac:(right; left)).
    pose proof (links_apart _ _ _ f Hal ltac:(by right)). unfold apart in *. solve_apart.
Qed.

(** list_del_init of the first node. *)
Lemma list_pop_spec m H x xs :
  lseg m H (x :: xs) H → NoDup (H :: x :: xs) → spaced (H :: x :: xs) →
  Forall (node_ok m) (H :: x :: xs) →
  ∃ m', list_del_init m x = Ok m' ∧ lseg m' H xs H ∧ keeps m m' (links (H :: x :: xs)).
Proof.
  intros (Hx & Hp & Hs) Hnd Hsp Hok. rewrite Forall_forall in Hok.
  assert (∃ f, ld_ptr m (next_at x) = Ok f ∧ f ∈ H :: xs) as (f & Hf & Hin).
  { destruct xs as [|y xs]; [exists H | exists y]; cbn [lseg] in Hs; split; try apply Hs; set_solver. }
  apply NoDup_cons in Hnd as [Hn1 [Hn2 Hnd]%NoDup_cons].
  destruct (list_del_init_spec m x H f) as (m' & Hdel & L1 & L2 & K).
  { apply Hok. set_solver. } { apply Hok. set_solver. } { apply Hok. set_solver. }
  { apply Hsp; set_solver. } { apply Hsp; set_solver. }
  { destruct (decide (H = f)) as [-> |]; [by left |]. right. apply Hsp; set_solver. } { done. } { done. }
  exists m'. split; [done |]. split.
  - destruct xs as [|y xs]; cbn [lseg] in Hs |- *.
    + destruct Hs as [Hs _]. rewrite Hs in Hf. injection Hf as <-. done.
    + destruct Hs as (Hy & _ & Hs). rewrite Hy in Hf. injection Hf as <-. split; [done |]. split; [done |].
      eapply (lseg_rest_keeps m m' _ H x y); [exact K | set_solver | | | exact Hs].
      * apply NoDup_cons in Hnd as [? ?]. repeat (apply NoDup_cons; split); set_solver.
      * intros u z Hu Hz. apply Hsp; set_solver.
  - eapply keeps_weaken; [exact K |]. intros a n Hal.
    pose proof (links_apart _ _ _ H Hal ltac:(set_solver)). pose proof (links_apart _ _ _ x Hal ltac:(set_solver)).
    pose proof (links_apart _ _ _ f Hal ltac:(set_solver)). unfold apart in *. solve_apart.
Qed.

End lists.

(** ** A cache *)

(** Where the parts of a cache are: the header at [c], [n] objects of [ms] bytes,
    the first [rs] bytes behind [c] and [rms] bytes apart. *)
Record geometry := mkGeometry { g_c : Z; g_ms : Z; g_rs : Z; g_rms : Z; g_n : nat }.

Definition obj_at (g : geometry) (i : nat) : Z := g_c g + g_rs g + Z.of_nat i * g_rms g.
Definition objs (g : geometry) : list Z := obj_at g <$> seq 0 (g_n g).
Definition extent (g : geometry) : Z := g_rs g + Z.of_nat (g_n g) * g_rms g.
Definition free_head (g : geometry) : Z := kc_free_objs (g_c g).

(** The address handed out for an object *)
Definition buf_of (o : Z) : Z := o + sizeof_obj + OFS.

Record geometry_ok (g : geometry) : Prop := {
  go_c : 0 < g_c g;
  go_ms : 0 ≤ g_ms g < 2 ^ 31;
  go_rs : sizeof_kmem_cache ≤ g_rs g;
  go_rms : sizeof_obj + g_ms g + 2 * OFS ≤ g_rms g;
  go_n : Z.of_nat (g_n g) < 2 ^ 31;
  go_end : g_c g + extent g < 2 ^ 64
}.

Section cache.
Context (g : geometry) (Hg : geometry_ok g).
Implicit Types (m : arena) (fl : list Z) (ct : gmap Z (list Z)) (o : Z).

Let c := g_c g.
Let ms := g_ms g.
Let H := free_head g.

Lemma objs_elem o : o ∈ objs g → ∃ i, (i < g_n g)%nat ∧ o = obj_at g i.
Proof.
  intros (i & -> & Hi)%list_elem_of_fmap. apply elem_of_seq in Hi. exists i. split; [lia | done].
Qed.

Lemma objs_bound o : o ∈ objs g → c + 72 ≤ o ∧ o + 26 + ms ≤ c + extent g.
Proof.
  intros (i & Hi & ->)%objs_elem. destruct Hg as [_ ? Hrs Hrms _ _].
  unfold obj_at, extent, c, ms, sizeof_kmem_cache, sizeof_obj, OFS in *.
  assert (Z.of_nat i * g_rms g + g_rms g ≤ Z.of_nat (g_n g) * g_rms g) by nia. nia.
Qed.

Lemma objs_apart o o' : o ∈ objs g → o' ∈ objs g → o = o' ∨ o + 26 + ms ≤ o' ∨ o' + 26 + ms ≤ o.
Proof.
  intros (i & Hi & ->)%objs_elem (j & Hj & ->)%objs_elem. destruct Hg as [_ ? Hrs Hrms _ _].
  unfold obj_at, ms, sizeof_obj, OFS in *. destruct (lt_eq_lt_dec i j) as [[Hl | ->] | Hl]; [| by left |].
  - right; left. assert (Z.of_nat i * g_rms g + g_rms g ≤ Z.of_nat j * g_rms g) by nia. lia.
  - right; right. assert (Z.of_nat j * g_rms g + g_rms g ≤ Z.of_nat i * g_rms g) by nia. lia.
Qed.

Lemma objs_spaced : spaced (H :: objs g).
Proof.
  assert (∀ o, o ∈ objs g → H + 16 ≤ o) as HH.
  { intros o [Ho _]%objs_bound. unfold H, free_head, kc_free_objs, c in *. lia. }
  intros x y Hx Hy Hne. unfold apart.
  apply elem_of_cons in Hx as [-> | Hx], Hy as [-> | Hy]; [done | | |].
  - left. by apply HH.
  - right. by apply HH.
  - destruct (objs_apart x y Hx Hy) as [? | ?]; [done |]. pose proof (go_ms _ Hg). unfold ms in *. lia.
Qed.

Lemma free_head_not_obj : H ∉ objs g.
Proof. intros [Hb _]%objs_bound. unfold H, free_head, kc_free_objs, c in *. lia. Qed.

(** The parts that alloc and free leave alone, with the contents [ct] of the
    objects. *)
Record static_rep m ct : Prop := {
  sr_arena : in_arena m c (extent g);
  sr_ms : ld_int m (kc_mem_size c) = Ok ms;
  sr_tots : ld_int m (kc_tots c) = Ok (Z.of_nat (g_n g));
  sr_buf o : o ∈ objs g → ld_ptr m (obj_buf o) = Ok (buf_of o);
  sr_low o : o ∈ objs g → ld 1 m (buf_of o - 1) = Ok OF;
  sr_high o : o ∈ objs g → ld 1 m (buf_of o + ms) = Ok OF;
  sr_data o : o ∈ objs g → ∃ bs, ct !! buf_of o = Some bs ∧ ld_bytes m (buf_of o) ms = Ok bs
}.

(** The cache with the free objects [fl]. *)
Record cache_rep m fl ct : Prop := {
  cr_static : static_rep m ct;
  cr_list : lseg m H fl H;
  cr_nodup : NoDup fl;
  cr_objs : fl ⊆ objs g;
  cr_free : ld_int m (kc_free c) = Ok (Z.of_nat (length fl));
  cr_used : ld_int m (kc_used c) = Ok (Z.of_nat (g_n g) - Z.of_nat (length fl))
}.

(** Link fields and counters: what alloc and free write. *)
Definition bookkeeping (r : Z * Z) : Prop :=
  r ∈ links (H :: objs g) ∨ r = (kc_used c, 4) ∨ r = (kc_free c, 4).

(** A range inside one object, from its [buf] field on. *)
Lemma apart_bookkeeping a n r :
  bookkeeping r → (∃ o, o ∈ objs g ∧ o + 16 ≤ a ∧ a + n ≤ o + 26 + ms) ∨ c ≤ a ∧ a + n ≤ c + 48 →
  0 ≤ n → apart a n r.1 r.2.
Proof.
  intros Hr Ha Hn. pose proof (go_ms _ Hg) as Hms.
  assert (H = c + 56) as HH by done. unfold bookkeeping, apart, kc_used, kc_free in *.
  destruct Hr as [(x & -> & Hx)%list_elem_of_fmap | [-> | ->]]; cbn [fst snd].
  - destruct Ha as [(o & Ho & Ha) | Ha].
    + pose proof (objs_bound o Ho). apply elem_of_cons in Hx as [-> | Hx]; [lia |].
      pose proof (objs_apart o x Ho Hx). unfold ms in *. lia.
    + apply elem_of_cons in Hx as [-> | Hx]; [lia |]. pose proof (objs_bound x Hx). lia.
  - destruct Ha as [(o & Ho & Ha) | Ha]; [pose proof (objs_bound o Ho) |]; lia.
  - destruct Ha as [(o & Ho & Ha) | Ha]; [pose proof (objs_bound o Ho) |]; lia.
Qed.

Lemma static_keeps m m' R ct :
  keeps m m' R → Forall bookkeeping R → static_rep m ct → static_rep m' ct.
Proof.
  intros K HR [Ha Hms Ht Hb Hl Hh Hd]. pose proof (go_ms _ Hg) as Hms0.
  assert (∀ a n, (∃ o, o ∈ objs g ∧ o + 16 ≤ a ∧ a + n ≤ o + 26 + ms) ∨ c ≤ a ∧ a + n ≤ c + 48 →
    0 ≤ n → Forall (λ r, apart a n r.1 r.2) R) as Hap.
  { intros a n Han Hn. eapply Forall_impl; [exact HR |]. intros r Hr. by apply apart_bookkeeping. }
  constructor; unfold kc_mem_size, kc_tots, obj_buf, buf_of, sizeof_obj, OFS, ms in *.
  - by eapply keeps_in_arena.
  - erewrite ld_int_keeps; [done | exact K |]. apply Hap; [right; lia | lia].
  - erewrite ld_int_keeps; [done | exact K |]. apply Hap; [right; lia | lia].
  - intros o Ho. erewrite ld_ptr_keeps; [by apply Hb | exact K |]. apply Hap; [left; exists o; split; [done | lia] | lia].
  - intros o Ho. erewrite (ld_keeps _ _ _ 1); [by apply Hl | exact K |]. apply Hap; [left; exists o; split; [done | lia] | lia].
  - intros o Ho. erewrite (ld_keeps _ _ _ 1); [by apply Hh | exact K |]. apply Hap; [left; exists o; split; [done | lia] | lia].
  - intros o Ho. destruct (Hd o Ho) as (bs & Hct & Hbs). exists bs. split; [done |].
    destruct K as (_ & _ & K). rewrite K; [done |]. apply Hap; [left; exists o; split; [done | lia] | lia].
Qed.

(** All of it lies in the range of the cache. *)
Lemma bookkeeping_inside r : bookkeeping r → c ≤ r.1 ∧ r.1 + r.2 ≤ c + extent g.
Proof.
  pose proof (go_ms _ Hg). assert (72 ≤ extent g).
  { destruct Hg as [_ ? ? ? _ _]. unfold extent, sizeof_kmem_cache, sizeof_obj, OFS in *.
    assert (0 ≤ Z.of_nat (g_n g) * g_rms g) by (apply Z.mul_nonneg_nonneg; lia). lia. }
  unfold bookkeeping, kc_used, kc_free. intros [(x & -> & Hx)%list_elem_of_fmap | [-> | ->]]; cbn [fst snd]; [| lia | lia].
  apply elem_of_cons in Hx as [-> | Hx]; [unfold H, free_head, kc_free_objs, c in *; lia |].
  pose proof (objs_bound x Hx). unfold ms in *. lia.
Qed.

Lemma keeps_inside m m' R : keeps m m' R → Forall bookkeeping R → keeps m m' [(c, extent g)].
Proof.
  intros K HR. eapply keeps_weaken; [exact K |]. intros a n [Hap _]%Forall_cons_1.
  eapply Forall_impl; [exact HR |]. intros r Hr%bookkeeping_inside. unfold apart in *. cbn [fst snd] in Hap. lia.
Qed.

Lemma node_ok_obj m ct x : static_rep m ct → x ∈ H :: objs g → node_ok m x.
Proof.
  intros [Ha _ _ _ _ _ _] Hx. pose proof (go_end _ Hg). pose proof (go_c _ Hg). pose proof (go_ms _ Hg).
  pose proof (bookkeeping_inside (x, 16)) as Hb. cbn [fst snd] in Hb.
  destruct Hb as [Hb1 Hb2].
  { left. apply list_elem_of_fmap. by exists x. }
  split; [eapply in_arena_sub; [exact Ha | lia..] | unfold is_u64, c in *; lia].
Qed.

Lemma links_bookkeeping xs : xs ⊆ H :: objs g → Forall bookkeeping (links xs).
Proof.
  intros Hxs. apply Forall_forall. intros r (x & -> & Hx)%list_elem_of_fmap. left.
  apply list_elem_of_fmap. exists x. auto.
Qed.

(** The list and a counter are apart. *)
Lemma lseg_counter m m' a fl :
  keeps m m' [(a, 4)] → a = kc_used c ∨ a = kc_free c → fl ⊆ objs g →
  lseg m H fl H → lseg m' H fl H.
Proof.
  intros K Ha Hfl Hs. assert (∀ x, x ∈ H :: fl → c + 56 ≤ x) as Hx.
  { intros x [-> | Hx]%elem_of_cons; [done |]. pose proof (objs_bound x (Hfl x Hx)). lia. }
  unfold kc_used, kc_free in Ha.
  eapply lseg_keeps; [exact K | | | exact Hs]; intros x Hin.
  - specialize (Hx x Hin). solve_apart.
  - assert (x ∈ H :: fl) as Hin' by set_solver. specialize (Hx x Hin'). solve_apart.
Qed.

(** A store to one of the counters. *)
Lemma counter_spec m ct a v :
  static_rep m ct → a = kc_used c ∨ a = kc_free c → is_s32 v →
  ∃ m', st_int m a v = Ok m' ∧ ld_int m' a = Ok v ∧ keeps m m' [(a, 4)].
Proof.
  intros [Ha _ _ _ _ _ _] Hc Hv. apply st_int_spec; [| done].
  pose proof (bookkeeping_inside (a, 4)) as [H1 H2].
  { right. destruct Hc as [-> | ->]; auto. }
  cbn [fst snd] in H1, H2. eapply in_arena_sub; [exact Ha | lia..].
Qed.

Lemma other_counter m m' a b :
  keeps m m' [(a, 4)] → (a = kc_used c ∧ b = kc_free c) ∨ (a = kc_free c ∧ b = kc_used c) →
  ld_int m' b = ld_int m b.
Proof.
  intros K Hab. eapply ld_int_keeps; [exact K |]. unfold kc_used, kc_free in Hab. solve_apart.
Qed.

(** Links do not touch the counters. *)
Lemma links_counters m m' xs a :
  keeps m m' (links xs) → xs ⊆ H :: objs g → a = kc_used c ∨ a = kc_free c →
  ld_int m' a = ld_int m a.
Proof.
  intros K Hxs Ha. eapply ld_int_keeps; [exact K |]. apply Forall_forall.
  intros r (x & -> & Hx)%list_elem_of_fmap. cbn [fst snd]. unfold apart, kc_used, kc_free in *.
  apply Hxs in Hx as [-> | Hx]%elem_of_cons; [unfold H, free_head, kc_free_objs, c in *; lia |].
  pose proof (objs_bound x Hx). lia.
Qed.

Lemma free_objs_length fl : NoDup fl → fl ⊆ objs g → (length fl ≤ g_n g)%nat.
Proof.
  intros Hnd Hsub. apply NoDup_submseteq in Hsub; [| done]. apply submseteq_length in Hsub.
  unfold objs in Hsub. by rewrite length_fmap, length_seq in Hsub.
Qed.

(** kmem_cache_alloc takes the first free object. *)
Lemma alloc_spec m o fl ct :
  cache_rep m (o :: fl) ct →
  ∃ m', kmem_cache_alloc m c = Ok (buf_of o, m') ∧ cache_rep m' fl ct ∧ keeps m m' [(c, extent g)].
Proof.
  intros [Hst Hl Hnd Hsub Hfree Hused]. pose proof (free_objs_length _ Hnd Hsub) as Hlen.
  pose proof (go_n _ Hg) as Hn. cbn [length] in *.
  assert (H :: o :: fl ⊆ H :: objs g) as Hsub' by set_solver.
  assert (NoDup (H :: o :: fl)) as Hnd'.
  { apply NoDup_cons. split; [| done]. intros Hin%Hsub. by apply free_head_not_obj. }
  destruct (list_pop_spec m H o fl) as (m1 & E1 & Hl1 & K1); [done | done | | |].
  { intros x y Hx Hy. apply objs_spaced; auto. }
  { apply Forall_forall. intros x Hx. eapply node_ok_obj; eauto. }
  pose proof (static_keeps _ _ _ _ K1 (links_bookkeeping _ Hsub') Hst) as Hst1.
  destruct (counter_spec m1 ct (kc_free c) (Z.of_nat (length fl)) Hst1) as (m2 & E2 & L2 & K2);
    [by right | unfold is_s32; lia |].
  assert (static_rep m2 ct) as Hst2.
  { eapply static_keeps; [exact K2 | | done]. constructor; [unfold bookkeeping; auto | constructor]. }
  destruct (counter_spec m2 ct (kc_used c) (Z.of_nat (g_n g) - Z.of_nat (length fl)) Hst2)
    as (m3 & E3 & L3 & K3); [by left | unfold is_s32; lia |].
  assert (static_rep m3 ct) as Hst3.
  { eapply static_keeps; [exact K3 | | done]. constructor; [unfold bookkeeping; auto | constructor]. }
  exists m3. split; [| split].
  - unfold kmem_cache_alloc. rewrite Hfree, bind_Ok.
    rewrite (proj2 (Z.eqb_neq _ 0)) by lia. cbn [lseg] in Hl. destruct Hl as (HlH & _ & _).
    change (kc_free_objs c) with H. rewrite HlH, bind_Ok, E1, bind_Ok, (links_counters _ _ _ _ K1 Hsub'), Hfree, bind_Ok by (by right).
    rewrite int_op_Ok, bind_Ok by lia.
    replace (Z.of_nat (S (length fl)) - 1) with (Z.of_nat (length fl)) by lia.
    rewrite E2, bind_Ok, (other_counter m1 m2 (kc_free c)) by (auto; done).
    rewrite (links_counters _ _ _ _ K1 Hsub'), Hused, bind_Ok by (by left).
    rewrite int_op_Ok, bind_Ok by lia.
    replace (Z.of_nat (g_n g) - Z.of_nat (S (length fl)) + 1)
      with (Z.of_nat (g_n g) - Z.of_nat (length fl)) by lia.
    rewrite E3, bind_Ok, (sr_buf _ _ Hst3 o) by (apply Hsub; left). done.
  - constructor; [done | | | | | done].
    + assert (fl ⊆ objs g) by set_solver.
      eapply lseg_counter; [exact K3 | auto | done |]. eapply lseg_counter; [exact K2 | auto | done |]. done.
    + by apply NoDup_cons in Hnd as [_ ?].
    + set_solver.
    + by rewrite (other_counter m2 m3 (kc_used c)) by auto.
  - eapply keeps_inside.
    + exact (keeps_trans _ _ _ _ _ (keeps_trans _ _ _ _ _ K1 K2) K3).
    + repeat apply Forall_app_2; [by apply links_bookkeeping | |];
        (constructor; [unfold bookkeeping; auto | constructor]).
Qed.

Lemma alloc_empty m ct : cache_rep m [] ct → kmem_cache_alloc m c = Ok (0, m).
Proof. intros [_ _ _ _ Hfree _]. unfold kmem_cache_alloc. by rewrite Hfree. Qed.

(** kmem_cache_free puts an object back in front. *)
Lemma free_spec m o fl ct :
  cache_rep m fl ct → o ∈ objs g → o ∉ fl →
  ∃ m', kmem_cache_free m c (buf_of o) = Ok m' ∧ cache_rep m' (o :: fl) ct ∧
    keeps m m' [(c, extent g)].
Proof.
  intros [Hst Hl Hnd Hsub Hfree Hused] Ho Hnin.
  assert (NoDup (o :: fl)) as Hnd1 by (by apply NoDup_cons).
  assert (o :: fl ⊆ objs g) as Hsub1 by set_solver.
  pose proof (free_objs_length _ Hnd1 Hsub1) as Hlen. pose proof (go_n _ Hg) as Hn. cbn [length] in *.
  assert (o :: H :: fl ⊆ H :: objs g) as Hsub' by set_solver.
  pose proof free_head_not_obj as HH.
  destruct (list_add_spec m H fl o) as (m1 & E1 & Hl1 & K1); [done | | | |].
  { repeat (apply NoDup_cons; split); [| set_solver | done]. intros [-> | ?]%elem_of_cons; done. }
  { intros x y Hx Hy. apply objs_spaced; auto. }
  { apply Forall_forall. intros x Hx. eapply node_ok_obj; eauto. }
  pose proof (static_keeps _ _ _ _ K1 (links_bookkeeping _ Hsub') Hst) as Hst1.
  destruct (counter_spec m1 ct (kc_used c) (Z.of_nat (g_n g) - Z.of_nat (S (length fl))) Hst1)
    as (m2 & E2 & L2 & K2); [by left | unfold is_s32; lia |].
  assert (static_rep m2 ct) as Hst2.
  { eapply static_keeps; [exact K2 | | done]. constructor; [unfold bookkeeping; auto | constructor]. }
  destruct (counter_spec m2 ct (kc_free c) (Z.of_nat (S (length fl))) Hst2)
    as (m3 & E3 & L3 & K3); [by right | unfold is_s32; lia |].
  exists m3. split; [| split].
  - unfold kmem_cache_free. replace (buf_of o - sizeof_obj - OFS) with o by (unfold buf_of; lia).
    change (kc_free_objs c) with H. rewrite E1, bind_Ok.
    rewrite (links_counters _ _ _ _ K1 Hsub'), Hused, bind_Ok by (by left).
    rewrite int_op_Ok, bind_Ok by lia.
    replace (Z.of_nat (g_n g) - Z.of_nat (length fl) - 1)
      with (Z.of_nat (g_n g) - Z.of_nat (S (length fl))) by lia.
    rewrite E2, bind_Ok, (other_counter m1 m2 (kc_used c)) by (auto; done).
    rewrite (links_counters _ _ _ _ K1 Hsub'), Hfree, bind_Ok by (by right).
    rewrite int_op_Ok, bind_Ok by lia.
    by replace (Z.of_nat (length fl) + 1) with (Z.of_nat (S (length fl))) by lia.
  - constructor; [| | done | done | done |].
    + eapply static_keeps; [exact K3 | | done]. constructor; [unfold bookkeeping; auto | constructor].
    + eapply lseg_counter; [exact K3 | auto | done |]. eapply lseg_counter; [exact K2 | auto | done |]. done.
    + by rewrite (other_counter m2 m3 (kc_free c)) by auto.
  - eapply keeps_inside.
    + exact (keeps_trans _ _ _ _ _ (keeps_trans _ _ _ _ _ K1 K2) K3).
    + repeat apply Forall_app_2; [by apply links_bookkeeping | |];
        (constructor; [unfold bookkeeping; auto | constructor]).
Qed.

End cache.
