(* ===== verification/KmemInit.v ===== *)
(** Building an object cache: what kmem_cache_create of Kmem.v leaves behind is a
    cache in the sense of KmemFacts.v, with every object free and cleared. *)

From S2P Require Import Prelude Kmem KmemFacts.

Local Open Scope Z_scope.

(** ** Rounding up *)

Section align.
Implicit Types x e : Z.

Lemma land_u64_mask x e :
  0 ≤ e ≤ 64 → is_u64 x → Z.land x (u64 (Z.lnot (2 ^ e - 1))) = x / 2 ^ e * 2 ^ e.
Proof.
  intros He Hx.
  replace (2 ^ e - 1) with (Z.ones e) by (rewrite Z.ones_equiv; lia).
  transitivity (Z.ldiff x (Z.ones e)).
  - apply Z.bits_inj'. intros n Hn. rewrite Z.land_spec, Z.ldiff_spec. unfold u64.
    destruct (Z.lt_ge_cases n 64).
    + by rewrite Z.mod_pow2_bits_low, Z.lnot_spec by lia.
    + rewrite Z.mod_pow2_bits_high by lia. unfold is_u64 in Hx.
      rewrite <- (Z.mod_small x (2 ^ 64)) by lia. by rewrite Z.mod_pow2_bits_high by lia.
  - by rewrite Z.ldiff_ones_r, Z.shiftl_mul_pow2, Z.shiftr_div_pow2 by lia.
Qed.

(** [set_align] rounds up to a multiple of a power of two. *)
Lemma set_align_spec x e :
  0 ≤ e ≤ 31 → 0 ≤ x → x + 2 ^ e ≤ 2 ^ 64 →
  (2 ^ e | set_align x (2 ^ e)) ∧ x ≤ set_align x (2 ^ e) < x + 2 ^ e.
Proof.
  intros He Hx Hb. assert (0 < 2 ^ e) by (apply Z.pow_pos_nonneg; lia).
  unfold set_align. rewrite (u64_small (x + _)) by (unfold is_u64; lia).
  rewrite land_u64_mask by (unfold is_u64; lia). split; [apply Z.divide_factor_r |].
  pose proof (Z.div_mod (x + (2 ^ e - 1)) (2 ^ e)). pose proof (Z.mod_pos_bound (x + (2 ^ e - 1)) (2 ^ e)). lia.
Qed.

End align.

(** ** Reading inside a range *)

Lemma ld_bytes_sub m a n bs off k :
  ld_bytes m a n = Ok bs → 0 ≤ off → 0 ≤ k → off + k ≤ n →
  ld_bytes m (a + off) k = Ok (slice bs off k).
Proof.
  unfold ld_bytes, rd_block. destruct (in_range _ _ n) eqn:Hr; [| done]. intros [= <-] Hoff Hk Hle.
  apply in_range_spec in Hr. rewrite (proj2 (in_range_spec _ _ k)) by lia. f_equal.
  unfold slice.
  apply list_eq. intros p. destruct (decide (p < Z.to_nat k)%nat); [| by rewrite !lookup_take_ge by lia].
  rewrite !lookup_take_lt, !lookup_drop, lookup_take_lt, lookup_drop by lia. f_equal. lia.
Qed.

Definition zeros (n : Z) : list Z := replicate (Z.to_nat n) 0.

Lemma slice_zeros n off k : 0 ≤ off → 0 ≤ k → off + k ≤ n → slice (zeros n) off k = zeros k.
Proof. intros. unfold slice, zeros. rewrite drop_replicate, take_replicate. f_equal. lia. Qed.

Lemma clear_bytes_spec m a n :
  in_arena m a n → n < 2 ^ 64 →
  ∃ m', clear_bytes m a n = Ok m' ∧ ld_bytes m' a n = Ok (zeros n) ∧ keeps m m' [(a, n)].
Proof.
  intros Ha Hn. assert (Z.of_nat (length (zeros n)) = n) as Hl.
  { unfold zeros. rewrite length_replicate. unfold in_arena in Ha. lia. }
  destruct (st_bytes_spec m a (zeros n)) as (m' & Hst & Hld & K); rewrite Hl in *; [done |].
  exists m'. split; [| done]. unfold clear_bytes.
  rewrite u64_small by (unfold is_u64, in_arena in *; lia).
  unfold st_bytes in Hst. unfold zeros in *. unfold wr_block in *. rewrite Hl in *. by destruct (in_range _ _ n).
Qed.

(** ** The objects *)

Section init.
Context (g : geometry) (Hg : geometry_ok g).
Implicit Types (m : arena) (o : Z).

Let c := g_c g.
Let ms := g_ms g.
Let H := free_head g.

(** The [buf] field and the guards of one object *)
Definition obj_ok m o : Prop :=
  ld_ptr m (obj_buf o) = Ok (buf_of o) ∧ ld 1 m (buf_of o - 1) = Ok OF ∧
  ld 1 m (buf_of o + ms) = Ok OF.

(** The first [i] objects are on the list, the buffers are clear. *)
Record built m (i : nat) : Prop := {
  bu_arena : in_arena m c (extent g);
  bu_list : lseg m H (reverse (obj_at g <$> seq 0 i)) H;
  bu_obj o : o ∈ obj_at g <$> seq 0 i → obj_ok m o;
  bu_clear o : o ∈ objs g → ld_bytes m (buf_of o) ms = Ok (zeros ms)
}.

Lemma init_obj_spec m o :
  in_arena m c (extent g) → o ∈ objs g →
  ∃ m', init_obj m o ms = Ok m' ∧ obj_ok m' o ∧ keeps m m' [(o, 25); (buf_of o + ms, 1)].
Proof.
  intros Ha Ho. pose proof (objs_bound g Hg o Ho) as Hb. fold c ms in Hb.
  pose proof (go_ms _ Hg) as Hms. pose proof (go_end _ Hg) as He. pose proof (go_c _ Hg) as Hc. fold c ms in Hms, He, Hc.
  assert (∀ m' R b k, keeps m m' R → o ≤ b → 0 ≤ k → b + k ≤ o + 26 + ms → in_arena m' b k) as Hin.
  { intros m' R b k K ???. eapply keeps_in_arena; [exact K |]. eapply in_arena_sub; [exact Ha | lia..]. }
  unfold init_obj, INIT_LIST_HEAD, next_at, prev_at, obj_buf, sizeof_obj.
  destruct (st_ptr_spec m o o) as (m1 & -> & L1 & K1);
    [eapply (Hin m []); [apply keeps_refl | lia..] | unfold is_u64; lia |]. rewrite bind_Ok.
  destruct (st_ptr_spec m1 (o + 8) o) as (m2 & -> & L2 & K2);
    [eapply Hin; [exact K1 | lia..] | unfold is_u64; lia |]. rewrite bind_Ok.
  pose proof (keeps_trans _ _ _ _ _ K1 K2) as K12.
  destruct (st_byte_spec m2 (o + 24) OF) as (m3 & -> & L3 & K3);
    [eapply Hin; [exact K12 | lia..] | done |]. rewrite bind_Ok.
  pose proof (keeps_trans _ _ _ _ _ K12 K3) as K13.
  destruct (st_ptr_spec m3 (o + 16) (o + 24 + 1)) as (m4 & -> & L4 & K4);
    [eapply Hin; [exact K13 | lia..] | unfold is_u64; lia |]. rewrite bind_Ok.
  pose proof (keeps_trans _ _ _ _ _ K13 K4) as K14.
  destruct (st_byte_spec m4 (o + 24 + 1 + ms) OF) as (m5 & -> & L5 & K5);
    [eapply Hin; [exact K14 | lia..] | done |].
  pose proof (keeps_trans _ _ _ _ _ K14 K5) as K15.
  exists m5. split; [done |]. unfold obj_ok, buf_of, obj_buf, sizeof_obj, OFS. split_and!.
  - by rewrite (ld_ptr_keeps _ _ _ _ K5) by solve_apart.
  - replace (o + 24 + 1 - 1) with (o + 24) by lia.
    by rewrite (ld_keeps _ _ _ 1 _ K5), (ld_keeps _ _ _ 1 _ K4) by solve_apart.
  - done.
  - eapply keeps_weaken; [exact K15 |]. intros a n [H1 [H2 _]%Forall_cons_1]%Forall_cons_1.
    unfold apart in *. cbn [fst snd] in *. cbn [app]. solve_apart.
Qed.

Lemma obj_ok_keeps m m' R o :
  keeps m m' R → Forall (λ r, apart (o + 16) (10 + ms) r.1 r.2) R → obj_ok m o → obj_ok m' o.
Proof.
  intros K HR. pose proof (go_ms _ Hg) as Hms. fold ms in Hms.
  assert (∀ b k, o + 16 ≤ b → b + k ≤ o + 26 + ms → Forall (λ r, apart b k r.1 r.2) R) as Hap.
  { intros b k ??. eapply Forall_impl; [exact HR |]. intros r. unfold apart. lia. }
  unfold obj_ok, obj_buf, buf_of, sizeof_obj, OFS.
  rewrite (ld_ptr_keeps _ _ _ _ K), !(ld_keeps _ _ _ 1 _ K) by (apply Hap; lia). done.
Qed.

Lemma objs_prefix o i : (i ≤ g_n g)%nat → o ∈ obj_at g <$> seq 0 i → o ∈ objs g.
Proof.
  intros Hi (j & -> & Hj)%list_elem_of_fmap. apply elem_of_seq in Hj.
  apply list_elem_of_fmap. exists j. split; [done |]. apply elem_of_seq. lia.
Qed.

Lemma obj_at_new i : obj_at g i ∉ obj_at g <$> seq 0 i.
Proof.
  intros (j & Hj & Hin)%list_elem_of_fmap. apply elem_of_seq in Hin.
  pose proof (go_rms _ Hg). pose proof (go_ms _ Hg). unfold obj_at, sizeof_obj, OFS in *.
  assert (Z.of_nat i * g_rms g = Z.of_nat j * g_rms g) as Heq%Z.mul_cancel_r by lia; lia.
Qed.

Lemma objs_NoDup i : NoDup (obj_at g <$> seq 0 i).
Proof.
  induction i as [|i IH]; [constructor |]. rewrite seq_S, fmap_app.
  apply NoDup_app. split; [done |]. split; [| apply NoDup_singleton].
  intros x Hx Hy%list_elem_of_singleton. subst. by apply (obj_at_new i).
Qed.

Lemma nodes_in m x : in_arena m c (extent g) → x ∈ H :: objs g → node_ok m x.
Proof.
  intros Ha Hx. pose proof (go_end _ Hg) as He. pose proof (go_c _ Hg) as Hc. fold c in He, Hc.
  assert (c ≤ x ∧ x + 16 ≤ c + extent g) as [??].
  { apply (bookkeeping_inside g Hg (x, 16)). left. apply list_elem_of_fmap. by exists x. }
  split; [eapply in_arena_sub; [exact Ha | lia..] | unfold is_u64; lia].
Qed.

Lemma links_apart_obj ys :
  (∀ y, y ∈ ys → y ∈ H :: objs g) → ∀ x a n, x ∈ objs g → x + 16 ≤ a → a + n ≤ x + 26 + ms → 0 ≤ n →
  Forall (λ r, apart a n r.1 r.2) (links ys).
Proof.
  intros Hys x a n Hx ?? Hn. apply Forall_forall. intros r (y & -> & Hy)%list_elem_of_fmap.
  apply (apart_bookkeeping g Hg); [| left; by exists x | done]. left. apply list_elem_of_fmap. exists y. auto.
Qed.

(** One round of the loop *)
Lemma init_round m i :
  (i < g_n g)%nat → built m i →
  ∃ m1 m', init_obj m (obj_at g i) ms = Ok m1 ∧ list_add m1 (obj_at g i) H = Ok m' ∧
    built m' (S i) ∧ keeps m m' [(H, extent g - 56)].
Proof.
  intros Hi [Ha Hl Ho Hz]. set (o := obj_at g i). set (xs := reverse (obj_at g <$> seq 0 i)).
  assert (o ∈ objs g) as Hin by (apply list_elem_of_fmap; exists i; split; [done | apply elem_of_seq; lia]).
  assert (∀ x, x ∈ xs → x ∈ objs g) as Hxs.
  { intros x Hx. unfold xs in Hx. rewrite elem_of_reverse in Hx. apply (objs_prefix x i); [lia | done]. }
  assert (o ∉ xs) as Hnew by (unfold xs; rewrite elem_of_reverse; apply obj_at_new).
  pose proof (go_ms _ Hg) as Hms. fold ms in Hms. assert (H = c + 56) as HH by done.
  pose proof (objs_bound g Hg) as Hb. fold c ms in Hb. pose proof (objs_apart g Hg) as Hap. fold ms in Hap.
  assert (∀ x, x ∈ o :: H :: xs → x ∈ H :: objs g) as Hsub by set_solver.
  destruct (init_obj_spec m o Ha Hin) as (m1 & E1 & Hobj & K1).
  pose proof (Hb o Hin) as Hbo.
  assert (∀ x, x ∈ xs → x ≠ o) as Hne by set_solver.
  assert (lseg m1 H xs H) as Hl1.
  { eapply lseg_keeps; [exact K1 | | | exact Hl]; intros x Hx; unfold buf_of, sizeof_obj, OFS.
    - apply elem_of_cons in Hx as [-> | Hx]; [solve_apart |].
      pose proof (Hap x o (Hxs _ Hx) Hin). pose proof (Hne x Hx). solve_apart.
    - apply elem_of_app in Hx as [Hx | ->%list_elem_of_singleton]; [| solve_apart].
      pose proof (Hap x o (Hxs _ Hx) Hin). pose proof (Hne x Hx). solve_apart. }
  destruct (list_add_spec m1 H xs o) as (m2 & E2 & Hl2 & K2); [done | | | |].
  { pose proof (free_head_not_obj g Hg) as HnH. fold H in HnH. repeat (apply NoDup_cons; split).
    - intros [Heq | ?]%elem_of_cons; [by rewrite Heq in Hin | done].
    - intros Hx%Hxs. by apply HnH.
    - unfold xs. rewrite reverse_Permutation. apply objs_NoDup. }
  { intros x y Hx Hy. apply (objs_spaced g Hg); auto. }
  { apply Forall_forall. intros x Hx. eapply node_ok_keeps; [exact K1 | auto using nodes_in]. }
  pose proof (links_apart_obj (o :: H :: xs) Hsub) as Hlk.
  exists m1, m2. split; [done |]. split; [done |]. split.
  - constructor.
    + do 2 (eapply keeps_in_arena; [eassumption |]). done.
    + rewrite seq_S, fmap_app. by rewrite reverse_app.
    + intros x Hx. rewrite seq_S, fmap_app in Hx.
      assert (x ∈ objs g) as Hxo.
      { eapply (objs_prefix x (S i)); [lia |]. by rewrite seq_S, fmap_app. }
      eapply obj_ok_keeps; [exact K2 | apply (Hlk x); [done | lia..] |].
      apply elem_of_app in Hx as [Hx | ->%list_elem_of_singleton]; [| done].
      eapply obj_ok_keeps; [exact K1 | | by apply Ho].
      assert (x ≠ o) by (apply Hne; unfold xs; by rewrite elem_of_reverse).
      pose proof (Hap x o Hxo Hin). unfold buf_of, sizeof_obj, OFS. solve_apart.
    + intros x Hx. destruct K2 as (_ & _ & K2). rewrite K2 by (apply (Hlk x); [done | unfold buf_of, sizeof_obj, OFS; lia..]).
      destruct K1 as (_ & _ & K1). rewrite K1; [by apply Hz |].
      pose proof (Hap x o Hx Hin). unfold buf_of, sizeof_obj, OFS. solve_apart.
  - eapply keeps_weaken; [exact (keeps_trans _ _ _ _ _ K1 K2) |].
    intros a n [Hr _]%Forall_cons_1. cbn [fst snd] in Hr. apply Forall_app. unfold apart in Hr. split.
    + unfold buf_of, sizeof_obj, OFS. solve_apart.
    + apply Forall_forall. intros r (y & -> & Hy)%list_elem_of_fmap. cbn [fst snd]. unfold apart.
      apply Hsub in Hy as [-> | Hy]%elem_of_cons; [| pose proof (Hb y Hy); lia].
      pose proof (Hb o Hin). lia.
Qed.

(** The whole loop *)
Lemma init_objs_spec k m i :
  (i + k = g_n g)%nat → built m i →
  ∃ m', init_objs k m (obj_at g i) ms (g_rms g) H = Ok m' ∧ built m' (g_n g) ∧
    keeps m m' [(H, extent g - 56)].
Proof.
  revert m i. induction k as [|k IH]; intros m i Hi Hbu.
  { exists m. replace (g_n g) with i by lia. split; [done |]. split; [done | apply keeps_refl]. }
  destruct (init_round m i) as (m1 & m2 & E1 & E2 & Hbu2 & K); [lia | done |].
  destruct (IH m2 (S i)) as (m' & E' & Hbu' & K'); [lia | done |].
  exists m'. cbn [init_objs]. rewrite E1, bind_Ok, E2, bind_Ok.
  replace (obj_at g i + g_rms g) with (obj_at g (S i)) by (unfold obj_at; lia).
  split; [done |]. split; [done |]. eapply keeps_weaken; [exact (keeps_trans _ _ _ _ _ K K') |].
  intros a n Hr. by apply Forall_app.
Qed.

(** The cache header, then the loop *)
Definition fresh_contents : gmap Z (list Z) :=
  list_to_map ((λ o, (buf_of o, zeros ms)) <$> objs g).

Lemma fresh_contents_lookup b bs :
  fresh_contents !! b = Some bs ↔ bs = zeros ms ∧ ∃ o, o ∈ objs g ∧ b = buf_of o.
Proof.
  unfold fresh_contents. rewrite <- elem_of_list_to_map.
  - rewrite list_elem_of_fmap. split; [intros (o & [= -> ->] & Ho); eauto |].
    intros (-> & o & Ho & ->). eauto.
  - rewrite <- list_fmap_compose. apply NoDup_fmap_2_strong; [| apply objs_NoDup].
    cbn. unfold buf_of. lia.
Qed.

Lemma built_cache_rep m :
  built m (g_n g) → ld_int m (kc_mem_size c) = Ok ms → ld_int m (kc_tots c) = Ok (Z.of_nat (g_n g)) →
  ld_int m (kc_free c) = Ok (Z.of_nat (g_n g)) → ld_int m (kc_used c) = Ok 0 →
  cache_rep g m (reverse (objs g)) fresh_contents.
Proof.
  intros [Ha Hl Ho Hz] Hms Ht Hf Hu. assert (length (reverse (objs g)) = g_n g) as Hlen.
  { unfold objs. by rewrite length_reverse, length_fmap, length_seq. }
  constructor.
  - constructor; [done.. | | | |]; intros o Hin; try apply (Ho o Hin).
    exists (zeros ms). split; [| by apply Hz]. apply fresh_contents_lookup. eauto.
  - done.
  - rewrite reverse_Permutation. apply objs_NoDup.
  - intros o. by rewrite elem_of_reverse.
  - by rewrite Hlen.
  - by rewrite Hlen, Z.sub_diag.
Qed.

Lemma length_cache_name name : length (cache_name name) = 39%nat.
Proof.
  unfold cache_name, NAME. rewrite length_app, length_replicate, length_take.
  replace (Z.to_nat (40 - 1)) with 39%nat by done. lia.
Qed.

(** The stores before the loop, given the clear block *)
Lemma init_header_spec m name :
  in_arena m c (extent g) → ld_bytes m c (extent g) = Ok (zeros (extent g)) → 72 ≤ extent g →
  ∃ m', (m ← st_bytes m c (cache_name name);
         m ← st_int m (kc_mem_size c) ms;
         m ← st_int m (kc_tots c) (Z.of_nat (g_n g));
         m ← st_int m (kc_free c) (Z.of_nat (g_n g));
         m ← st_int m (kc_used c) 0;
         INIT_LIST_HEAD m H) = Ok m' ∧
    built m' 0 ∧ ld_int m' (kc_mem_size c) = Ok ms ∧ ld_int m' (kc_tots c) = Ok (Z.of_nat (g_n g)) ∧
    ld_int m' (kc_free c) = Ok (Z.of_nat (g_n g)) ∧ ld_int m' (kc_used c) = Ok 0 ∧
    keeps m m' [(c, 72)].
Proof.
  intros Ha Hz He. pose proof (go_ms _ Hg) as Hms. pose proof (go_n _ Hg) as Hn. fold ms in Hms.
  pose proof (go_end _ Hg) as Hend. pose proof (go_c _ Hg) as Hc. fold c in Hc, Hend.
  destruct (st_bytes_spec m c (cache_name name)) as (m1 & -> & _ & K1).
  { rewrite length_cache_name. eapply in_arena_sub; [exact Ha | lia..]. }
  rewrite length_cache_name in K1. change (Z.of_nat 39) with 39 in K1. rewrite bind_Ok.
  destruct (put_struct m1 c 72 [Cint (kc_mem_size c) ms; Cint (kc_tots c) (Z.of_nat (g_n g));
    Cint (kc_free c) (Z.of_nat (g_n g)); Cint (kc_used c) 0; Cptr (next_at H) H; Cptr (prev_at H) H])
    as (m2 & E & L & K2); unfold prev_at, next_at in *; change H with (c + 56) in *;
    unfold kc_mem_size, kc_tots, kc_free, kc_used in *.
  { eapply keeps_in_arena; [exact K1 |]. eapply in_arena_sub; [exact Ha | lia..]. }
  { solve_cells. } { solve_cells. }
  repeat (apply Forall_cons in L as [? L]). cbn [put_cells put_cell cell_holds] in *.
  exists m2. split; [unfold INIT_LIST_HEAD, next_at, prev_at; run_known; done |].
  assert (keeps m m2 [(c, 72)]) as K.
  { eapply keeps_weaken; [exact (keeps_trans _ _ _ _ _ K1 K2) |]. intros a n [Hr _]%Forall_cons_1.
    unfold apart in *. cbn [fst snd app] in *. solve_apart. }
  split; [constructor | done].
  - by eapply keeps_in_arena.
  - done.
  - by intros o ?%elem_of_nil.
  - intros o Ho. pose proof (objs_bound g Hg o Ho) as Hb. fold c ms in Hb.
    unfold buf_of, sizeof_obj, OFS. destruct K as (_ & _ & K). rewrite K by solve_apart.
    replace (o + 24 + 1) with (c + (o + 25 - c)) by lia. rewrite (ld_bytes_sub _ _ _ _ _ _ Hz) by lia.
    by rewrite slice_zeros by lia.
Qed.

End init.

(** ** The allocator *)

(** The header of the whole block: [e] is the binary logarithm of the alignment,
    [used] bytes of [size] are taken by [tots] caches and the header. *)
Record allocator := mkAllocator { al_e : Z; al_size : Z; al_used : Z; al_tots : Z }.

Record kmem_rep (m : arena) (k : Z) (s : allocator) : Prop := {
  kr_arena : in_arena m k (al_size s);
  kr_pos : 0 < k ∧ k + al_size s < 2 ^ 64;
  kr_e : 0 ≤ al_e s ≤ 30;
  kr_used : sizeof_kmem ≤ al_used s ≤ al_size s;
  kr_size_int : al_size s < 2 ^ 31;
  kr_tots : 0 ≤ al_tots s ∧ sizeof_kmem_cache * al_tots s ≤ al_used s;
  kr_ld_tots : ld_int m (km_tots k) = Ok (al_tots s);
  kr_ld_size : ld_int m (km_size k) = Ok (al_size s);
  kr_ld_used : ld_int m (km_used_size k) = Ok (al_used s);
  kr_ld_free : ld_ptr m (km_free k) = Ok (k + al_used s);
  kr_ld_align : ld_int m (km_align k) = Ok (2 ^ al_e s);
  kr_ld_lock : ld_int m (km_lock k) = Ok 1
}.

(** Where the next cache goes. *)
Definition next_cache (k : Z) (s : allocator) (mem_size : Z) (n : nat) : geometry :=
  mkGeometry (k + al_used s) mem_size (set_align sizeof_kmem_cache (2 ^ al_e s))
    (set_align (sizeof_obj + mem_size + 2 * OFS) (2 ^ al_e s)) n.

(** The sizes that the [int]s of kmem.c can hold. *)
Definition fits (k : Z) (s : allocator) (mem_size : Z) (n : nat) : Prop :=
  0 ≤ mem_size < 2 ^ 31 ∧ g_rms (next_cache k s mem_size n) < 2 ^ 31 ∧
  extent (next_cache k s mem_size n) < 2 ^ 31.

(** A cache is not touched by writes elsewhere. *)
Lemma cache_rep_keeps g m m' R fl ct :
  geometry_ok g → keeps m m' R → Forall (λ r, apart (g_c g) (extent g) r.1 r.2) R →
  cache_rep g m fl ct → cache_rep g m' fl ct.
Proof.
  intros Hg K HR [[Ha L1 L2 Hb Hl Hh Hd] Hs Hnd Hsub L3 L4].
  pose proof (go_ms _ Hg). pose proof (objs_bound g Hg) as Hbd.
  assert (∀ b n, g_c g ≤ b → b + n ≤ g_c g + extent g → Forall (λ r, apart b n r.1 r.2) R) as Hap.
  { intros b n ??. eapply Forall_impl; [exact HR |]. intros r. unfold apart. lia. }
  assert (72 ≤ extent g) as H72.
  { pose proof (bookkeeping_inside g Hg (free_head g, 16)) as [_ Hi]; [left; apply list_elem_of_fmap; exists (free_head g); split; [done | left] |].
    cbn [fst snd] in Hi. unfold free_head, kc_free_objs in Hi. lia. }
  assert (∀ x, x ∈ free_head g :: objs g → g_c g ≤ x ∧ x + 16 ≤ g_c g + extent g) as Hn.
  { intros x Hx. apply (bookkeeping_inside g Hg (x, 16)). left. apply list_elem_of_fmap. by exists x. }
  constructor; [constructor | | done | done | |].
  - by eapply keeps_in_arena.
  - rewrite (ld_int_keeps _ _ _ _ K); [done |]. apply Hap; unfold kc_mem_size; lia.
  - rewrite (ld_int_keeps _ _ _ _ K); [done |]. apply Hap; unfold kc_tots; lia.
  - intros o Ho. rewrite (ld_ptr_keeps _ _ _ _ K); [by apply Hb |]. pose proof (Hbd o Ho). apply Hap; unfold obj_buf; lia.
  - intros o Ho. rewrite (ld_keeps _ _ _ 1 _ K); [by apply Hl |]. pose proof (Hbd o Ho).
    apply Hap; unfold buf_of, sizeof_obj, OFS; lia.
  - intros o Ho. rewrite (ld_keeps _ _ _ 1 _ K); [by apply Hh |]. pose proof (Hbd o Ho).
    apply Hap; unfold buf_of, sizeof_obj, OFS; lia.
  - intros o Ho. destruct (Hd o Ho) as (bs & Hct & Hbs). exists bs. split; [done |].
    destruct K as (_ & _ & K). rewrite K; [done |]. pose proof (Hbd o Ho). apply Hap; unfold buf_of, sizeof_obj, OFS; lia.
  - eapply lseg_keeps; [exact K | | | exact Hs]; intros x Hx; destruct (Hn x ltac:(set_solver)); apply Hap; lia.
  - rewrite (ld_int_keeps _ _ _ _ K); [done |]. apply Hap; unfold kc_free; lia.
  - rewrite (ld_int_keeps _ _ _ _ K); [done |]. apply Hap; unfold kc_used; lia.
Qed.

Section create.
Context (k : Z).
Implicit Types (m : arena) (s : allocator).

Lemma kmem_rep_keeps m m' R s :
  keeps m m' R → Forall (λ r, apart k 32 r.1 r.2) R → kmem_rep m k s → kmem_rep m' k s.
Proof.
  intros K HR [Ha Hp He Hu Hs Ht L1 L2 L3 L4 L5 L6].
  assert (∀ b n, k ≤ b → b + n ≤ k + 32 → Forall (λ r, apart b n r.1 r.2) R) as Hap.
  { intros b n ??. eapply Forall_impl; [exact HR |]. intros r. unfold apart. lia. }
  unfold km_tots, km_size, km_used_size, km_free, km_align, km_lock in *.
  constructor; [by eapply keeps_in_arena | done.. | | | | | |];
    unfold km_tots, km_size, km_used_size, km_free, km_align, km_lock;
    first [rewrite (ld_int_keeps _ _ _ _ K) by (apply Hap; lia) | rewrite (ld_ptr_keeps _ _ _ _ K) by (apply Hap; lia)]; done.
Qed.

Lemma pow2_small e : 0 ≤ e ≤ 30 → 0 < 2 ^ e ≤ 2 ^ 30.
Proof. intros He. split; [apply Z.pow_pos_nonneg; lia | apply Z.pow_le_mono_r; lia]. Qed.

Lemma count_small (n : nat) rs rms : 0 ≤ rs → rs + Z.of_nat n * rms < 2 ^ 31 → 1 ≤ rms → Z.of_nat n < 2 ^ 31.
Proof. intros. assert (Z.of_nat n * 1 ≤ Z.of_nat n * rms) by (apply Z.mul_le_mono_nonneg_l; lia). lia. Qed.

Lemma next_cache_ok m s mem_size n :
  kmem_rep m k s → fits k s mem_size n → extent (next_cache k s mem_size n) ≤ al_size s - al_used s →
  geometry_ok (next_cache k s mem_size n).
Proof.
  intros [Ha Hp He Hu Hs Ht _ _ _ _ _ _] (Hms & Hrms & Hext) Hroom. pose proof (pow2_small _ He).
  pose proof (set_align_spec sizeof_kmem_cache (al_e s)) as [_ Hrs]; [lia | done | unfold sizeof_kmem_cache; lia |].
  pose proof (set_align_spec (sizeof_obj + mem_size + 2 * OFS) (al_e s)) as [_ Hr];
    [lia | unfold sizeof_obj, OFS; lia.. |].
  unfold sizeof_kmem in Hu. constructor; unfold extent in *; cbn [g_c g_ms g_rs g_rms g_n next_cache] in *; try lia.
  apply (count_small _ (g_rs (next_cache k s mem_size n)) (g_rms (next_cache k s mem_size n))); cbn [g_rs g_rms next_cache]; unfold sizeof_kmem_cache, sizeof_obj, OFS in *; lia.
Qed.

Lemma cache_size_extent s mem_size n :
  0 ≤ al_e s ≤ 30 → fits k s mem_size n →
  cache_size mem_size (Z.of_nat n) (2 ^ al_e s) = extent (next_cache k s mem_size n) ∧
  72 ≤ extent (next_cache k s mem_size n).
Proof.
  intros He (Hms & Hrms & Hext). pose proof (pow2_small _ He).
  pose proof (set_align_spec sizeof_kmem_cache (al_e s)) as [_ Hrs]; [lia | done | unfold sizeof_kmem_cache; lia |].
  pose proof (set_align_spec (sizeof_obj + mem_size + 2 * OFS) (al_e s)) as [_ Hr];
    [lia | unfold sizeof_obj, OFS; lia.. |].
  unfold extent in *. cbn [g_c g_ms g_rs g_rms g_n next_cache] in *. unfold cache_size.
  assert (Z.of_nat n < 2 ^ 31) by (eapply count_small; [| exact Hext |]; unfold sizeof_kmem_cache, sizeof_obj, OFS in *; lia).
  assert (0 ≤ Z.of_nat n * set_align (sizeof_obj + mem_size + 2 * OFS) (2 ^ al_e s)) by (apply Z.mul_nonneg_nonneg; unfold sizeof_obj, OFS in *; lia).
  rewrite (u64_small (sizeof_obj + mem_size + 2 * OFS)) by (unfold is_u64, sizeof_obj, OFS; lia).
  rewrite (u64_small (Z.of_nat n)) by (unfold is_u64; lia).
  rewrite (Z.mul_comm (set_align _ _) (Z.of_nat n)). unfold sizeof_kmem_cache in *.
  rewrite (u64_small (Z.of_nat n * _)) by (unfold is_u64; lia). rewrite u64_small by (unfold is_u64; lia).
  rewrite s32_small by (unfold is_s32; lia). lia.
Qed.

(** init_kmem_cache on a clear block *)
Lemma init_kmem_cache_spec m s name mem_size n :
  let g := next_cache k s mem_size n in
  0 ≤ al_e s ≤ 30 → fits k s mem_size n → geometry_ok g → in_arena m (g_c g) (extent g) →
  ld_bytes m (g_c g) (extent g) = Ok (zeros (extent g)) →
  ∃ m', init_kmem_cache m (g_c g) name mem_size (Z.of_nat n) (2 ^ al_e s) = Ok (g_c g, m') ∧
    cache_rep g m' (reverse (objs g)) (fresh_contents g) ∧ keeps m m' [(g_c g, extent g)].
Proof.
  intros g He Hfit Hg Ha Hz. destruct (cache_size_extent s mem_size n He Hfit) as [_ Hext].
  destruct Hfit as (Hms & Hrms & Hext'). pose proof (pow2_small _ He).
  pose proof (set_align_spec sizeof_kmem_cache (al_e s)) as [_ Hrs]; [lia | done | unfold sizeof_kmem_cache; lia |].
  pose proof (set_align_spec (sizeof_obj + mem_size + 2 * OFS) (al_e s)) as [_ Hr];
    [lia | unfold sizeof_obj, OFS; lia.. |].
  destruct (init_header_spec g Hg m name Ha Hz Hext) as (m1 & E1 & Hbu & L1 & L2 & L3 & L4 & K1).
  destruct (init_objs_spec g Hg n m1 0) as (m2 & E2 & Hbu2 & K2); [done | done |].
  exists m2. split; [| split].
  - unfold init_kmem_cache. cbv zeta. revert E1. cbn [g g_c g_ms g_rs g_rms g_n next_cache].
    change (free_head _) with (kc_free_objs (k + al_used s)).
    intros E1. run_known.
    unfold init_loop. rewrite (proj2 (Z.ltb_ge _ _)), Nat2Z.id by lia.
    rewrite (u64_small (_ + _ + _)) by (unfold is_u64, sizeof_obj, OFS; lia).
    do 2 rewrite s32_small by (cbn [g_rms next_cache] in Hrms; unfold is_s32, sizeof_kmem_cache, sizeof_obj, OFS in *; lia).
    unfold obj_at in E2. cbn [g g_c g_ms g_rs g_rms g_n next_cache Z.of_nat Z.mul] in E2.
    rewrite Z.add_0_r in E2. change (free_head _) with (kc_free_objs (k + al_used s)) in E2. by rewrite E2.
  - apply built_cache_rep; [done.. | | | |];
      (erewrite ld_int_keeps; [eassumption | exact K2 |]); unfold free_head, kc_free_objs, kc_mem_size, kc_tots, kc_free, kc_used; solve_apart.
  - eapply keeps_weaken; [exact (keeps_trans _ _ _ _ _ K1 K2) |]. intros a b [Hab _]%Forall_cons_1.
    fold g in Hext. unfold apart, free_head, kc_free_objs in *. cbn [app fst snd] in *. solve_apart.
Qed.

(** The room check *)
Lemma create_no_room m s name mem_size n :
  kmem_rep m k s → fits k s mem_size n → al_size s - al_used s ≤ extent (next_cache k s mem_size n) →
  kmem_cache_create m k name mem_size (Z.of_nat n) = Ok (0, m).
Proof.
  intros Hk Hfit Hroom. destruct (cache_size_extent s mem_size n (kr_e _ _ _ Hk) Hfit) as [Hsz _].
  pose proof (kr_used _ _ _ Hk). pose proof (kr_size_int _ _ _ Hk). unfold sizeof_kmem in *.
  unfold kmem_cache_create.
  rewrite (kr_ld_lock _ _ _ Hk), bind_Ok. cbn [sem_down_now Z.eqb negb].
  rewrite (kr_ld_align _ _ _ Hk), bind_Ok, (kr_ld_size _ _ _ Hk), bind_Ok, (kr_ld_used _ _ _ Hk), bind_Ok.
  rewrite int_op_Ok, bind_Ok, Hsz by lia. by rewrite (proj2 (Z.leb_le _ _)) by lia.
Qed.

Definition grown (s : allocator) (n : Z) : allocator :=
  mkAllocator (al_e s) (al_size s) (al_used s + n) (al_tots s + 1).

(** The last stores of kmem_cache_create *)
Lemma create_finish m s n :
  kmem_rep m k s → sizeof_kmem_cache ≤ n → al_used s + n ≤ al_size s →
  ∃ m', (used_size ← ld_int m (km_used_size k);
         used ← int_op (used_size + n);
         m ← st_int m (km_used_size k) used;
         free ← ld_ptr m (km_free k);
         m ← st_ptr m (km_free k) (free + n);
         t ← ld_int m (km_tots k);
         t ← int_op (t + 1);
         st_int m (km_tots k) t) = Ok m' ∧
    kmem_rep m' k (grown s n) ∧ keeps m m' [(k, 32)].
Proof.
  intros [Ha Hp He Hu Hs Ht L1 L2 L3 L4 L5 L6] Hn Hle.
  unfold sizeof_kmem, sizeof_kmem_cache, km_tots, km_size, km_used_size, km_free, km_align, km_lock in *.
  assert (∀ m' R b j, keeps m m' R → k ≤ b → 0 ≤ j → b + j ≤ k + 32 → in_arena m' b j) as Hin.
  { intros m' R b j K ???. eapply keeps_in_arena; [exact K |]. eapply in_arena_sub; [exact Ha | lia..]. }
  rewrite L3, bind_Ok, int_op_Ok, bind_Ok by lia.
  destruct (st_int_spec m (k + 8) (al_used s + n)) as (m1 & -> & M1 & K1);
    [eapply (Hin m []); [apply keeps_refl | lia..] | unfold is_s32; lia |]. rewrite bind_Ok.
  rewrite (ld_ptr_keeps _ _ _ _ K1), L4, bind_Ok by solve_apart.
  destruct (st_ptr_spec m1 (k + 16) (k + al_used s + n)) as (m2 & -> & M2 & K2);
    [eapply Hin; [exact K1 | lia..] | unfold is_u64; lia |]. rewrite bind_Ok.
  rewrite (ld_int_keeps _ _ _ _ K2), (ld_int_keeps _ _ _ _ K1), L1, bind_Ok, int_op_Ok, bind_Ok by (lia || solve_apart).
  pose proof (keeps_trans _ _ _ _ _ K1 K2) as J2.
  destruct (st_int_spec m2 k (al_tots s + 1)) as (m3 & -> & M3 & K3);
    [eapply Hin; [exact J2 | lia..] | unfold is_s32; lia |].
  pose proof (keeps_trans _ _ _ _ _ J2 K3) as J3. cbn [app] in J3.
  exists m3. split; [done |]. split.
  - constructor; unfold sizeof_kmem, sizeof_kmem_cache, km_tots, km_size, km_used_size, km_free, km_align, km_lock;
      cbn [al_e al_size al_used al_tots grown]; try lia.
    + by eapply keeps_in_arena.
    + done.
    + by rewrite (ld_int_keeps _ _ _ _ J3) by solve_apart.
    + by rewrite (ld_int_keeps _ _ _ _ K3), (ld_int_keeps _ _ _ _ K2) by solve_apart.
    + rewrite (ld_ptr_keeps _ _ _ _ K3) by solve_apart. rewrite M2. f_equal. lia.
    + by rewrite (ld_int_keeps _ _ _ _ J3) by solve_apart.
    + by rewrite (ld_int_keeps _ _ _ _ J3) by solve_apart.
  - eapply keeps_weaken; [exact J3 |]. intros a b [Hr _]%Forall_cons_1. cbn [fst snd] in Hr.
    unfold apart in Hr. solve_apart.
Qed.

Lemma create_spec m s name mem_size n :
  let g := next_cache k s mem_size n in
  kmem_rep m k s → fits k s mem_size n → extent g < al_size s - al_used s →
  ∃ m', kmem_cache_create m k name mem_size (Z.of_nat n) = Ok (g_c g, m') ∧
    geometry_ok g ∧ cache_rep g m' (reverse (objs g)) (fresh_contents g) ∧
    kmem_rep m' k (grown s (extent g)) ∧ keeps m m' [(k, 32); (g_c g, extent g)].
Proof.
  intros g Hk Hfit Hroom. destruct (cache_size_extent s mem_size n (kr_e _ _ _ Hk) Hfit) as [Hsz H72].
  pose proof (kr_used _ _ _ Hk) as Hu. pose proof (kr_size_int _ _ _ Hk) as Hs. unfold sizeof_kmem in *.
  assert (geometry_ok g) as Hg by (eapply next_cache_ok; [done.. | fold g; lia]).
  assert (g_c g = k + al_used s) as Hc by done. fold g in Hsz, H72.
  assert (in_arena m (g_c g) (extent g)) as Ha.
  { eapply in_arena_sub; [exact (kr_arena _ _ _ Hk) | lia..]. }
  destruct (clear_bytes_spec m (g_c g) (extent g) Ha ltac:(lia)) as (m1 & E1 & Hz & K1).
  destruct (init_kmem_cache_spec m1 s name mem_size n (kr_e _ _ _ Hk) Hfit Hg) as (m2 & E2 & Hrep & K2);
    [by eapply keeps_in_arena | done |]. fold g in E2, Hrep, K2.
  assert (kmem_rep m2 k s) as Hk2.
  { eapply kmem_rep_keeps; [exact (keeps_trans _ _ _ _ _ K1 K2) | cbn [app]; solve_apart | done]. }
  destruct (create_finish m2 s (extent g) Hk2) as (m3 & E3 & Hk3 & K3); [unfold sizeof_kmem_cache; lia | lia |].
  exists m3. split; [| split; [done | split; [| split; [done |]]]].
  - unfold kmem_cache_create.
    rewrite (kr_ld_lock _ _ _ Hk), bind_Ok. cbn [sem_down_now Z.eqb negb].
    rewrite (kr_ld_align _ _ _ Hk), bind_Ok, (kr_ld_size _ _ _ Hk), bind_Ok, (kr_ld_used _ _ _ Hk), bind_Ok.
    rewrite int_op_Ok, bind_Ok, Hsz by lia. rewrite (proj2 (Z.leb_gt _ _)) by lia.
    rewrite (kr_ld_free _ _ _ Hk), bind_Ok, <- Hc, E1, bind_Ok, E2, bind_Ok. by run_known.
  - eapply cache_rep_keeps; [done | exact K3 | | done]. solve_apart.
  - eapply keeps_weaken; [exact (keeps_trans _ _ _ _ _ (keeps_trans _ _ _ _ _ K1 K2) K3) |].
    intros a b [Hr1 [Hr2 _]%Forall_cons_1]%Forall_cons_1. unfold apart in *. cbn [app fst snd] in *. solve_apart.
Qed.

(** init_kmem *)
Lemma init_kmem_spec m size e :
  in_arena m k size → 0 < k → k + size < 2 ^ 64 → size < 2 ^ 31 → 0 ≤ e ≤ 30 →
  set_align sizeof_kmem (2 ^ e) < size →
  ∃ m', init_kmem m k size (2 ^ e) = Ok (k, m') ∧
    kmem_rep m' k (mkAllocator e size (set_align sizeof_kmem (2 ^ e)) 0) ∧ keeps m m' [(k, 32)].
Proof.
  intros Ha Hk Hend Hsize He Hroom. pose proof (pow2_small _ He) as Hp.
  pose proof (set_align_spec sizeof_kmem e) as [_ Hal]; [lia | done | unfold sizeof_kmem; lia |].
  unfold init_kmem. rewrite s32_small by (unfold is_s32, sizeof_kmem in *; lia).
  set (used := set_align sizeof_kmem (2 ^ e)) in *. unfold sizeof_kmem in Hal.
  rewrite (proj2 (Z.leb_gt _ _)) by lia.
  destruct (put_struct m k 32 [Cint (km_tots k) 0; Cint (km_align k) (2 ^ e); Cint (km_size k) size;
    Cint (km_used_size k) used; Cptr (km_free k) (k + used); Cint (km_lock k) 1]) as (m' & E & L & K);
    unfold km_tots, km_size, km_used_size, km_free, km_align, km_lock in *.
  { eapply in_arena_sub; [exact Ha | lia..]. } { solve_cells. } { solve_cells. }
  repeat (apply Forall_cons in L as [? L]). cbn [put_cells put_cell cell_holds] in *.
  exists m'. split; [by run_known |]. split; [| done].
  constructor; cbn [al_e al_size al_used al_tots]; unfold sizeof_kmem, sizeof_kmem_cache; [by eapply keeps_in_arena | lia.. | done | done | done | done | done | done].
Qed.

End create.
