(* ===== verification/KmemPool.v ===== *)
(** The promise of lib/kmem.c as an abstract machine, and that the bytes of Kmem.v
    implement it: a block is carved into caches, a cache is a stack of free
    buffers, and a buffer keeps what its owner wrote until the owner changes it,
    whatever happens to the other buffers. *)

From S2P Require Import Prelude Kmem KmemFacts KmemInit.

Local Open Scope Z_scope.

(** ** What a client does *)

Inductive kmem_op :=
  | KCreate (name : list Z) (mem_size : Z) (tots : nat)
  | KAlloc (c : Z)
  | KFree (c b : Z)
  | KWrite (c b off : Z) (bs : list Z)
  | KRead (c b off n : Z)
  | KCheck (c b : Z).

Inductive kmem_answer := APtr (p : Z) | ABytes (bs : list Z) | ACode (r : Z) | ADone.

(** On the block of bytes: writes and reads are plain memory accesses. *)
Definition kmem_step (k : Z) (m : arena) (op : kmem_op) : res (arena * kmem_answer) :=
  match op with
  | KCreate name mem_size tots =>
      '(p, m) ← kmem_cache_create m k name mem_size (Z.of_nat tots); Ok (m, APtr p)
  | KAlloc c => '(p, m) ← kmem_cache_alloc m c; Ok (m, APtr p)
  | KFree c b => m ← kmem_cache_free m c b; Ok (m, ADone)
  | KWrite _ b off bs => m ← st_bytes m (b + off) bs; Ok (m, ADone)
  | KRead _ b off n => bs ← ld_bytes m (b + off) n; Ok (m, ABytes bs)
  | KCheck c b => r ← kmem_cache_checkoverflow m c b; Ok (m, ACode r)
  end.

Fixpoint kmem_run (k : Z) (m : arena) (ops : list kmem_op) : res (arena * list kmem_answer) :=
  match ops with
  | [] => Ok (m, [])
  | op :: ops =>
      '(m, x) ← kmem_step k m op; '(m, xs) ← kmem_run k m ops; Ok (m, x :: xs)
  end.

(** ** What it may expect *)

(** A cache: where it is, its free buffers, the last freed first, and what each of
    its buffers contains. *)
Record cache_pool := mkCachePool { p_geo : geometry; p_free : list Z; p_data : gmap Z (list Z) }.

Record pools := mkPools { ps_kmem : allocator; ps_pools : gmap Z cache_pool }.

Definition set_pool (s : pools) (c : Z) (p : cache_pool) : pools :=
  mkPools (ps_kmem s) (<[c := p]> (ps_pools s)).

#[local] Instance fits_dec k s mem_size n : Decision (fits k s mem_size n).
Proof. unfold fits. apply _. Defined.

(** [None]: the client broke the rules. *)
Definition pools_step (k : Z) (s : pools) (op : kmem_op) : option (pools * kmem_answer) :=
  match op with
  | KCreate _ mem_size tots =>
      let g := next_cache k (ps_kmem s) mem_size tots in
      guard (fits k (ps_kmem s) mem_size tots);;
      if al_size (ps_kmem s) - al_used (ps_kmem s) <=? extent g then Some (s, APtr 0)
      else Some (mkPools (grown (ps_kmem s) (extent g))
                   (<[g_c g := mkCachePool g (buf_of <$> reverse (objs g)) (fresh_contents g)]> (ps_pools s)),
                 APtr (g_c g))
  | KAlloc c =>
      p ← ps_pools s !! c;
      match p_free p with
      | [] => Some (s, APtr 0)
      | b :: fl => Some (set_pool s c (mkCachePool (p_geo p) fl (p_data p)), APtr b)
      end
  | KFree c b =>
      p ← ps_pools s !! c; _ ← p_data p !! b; guard (b ∉ p_free p);;
      Some (set_pool s c (mkCachePool (p_geo p) (b :: p_free p) (p_data p)), ADone)
  | KWrite c b off bs =>
      p ← ps_pools s !! c; old ← p_data p !! b;
      guard (0 ≤ off ∧ off + Z.of_nat (length bs) ≤ g_ms (p_geo p));;
      Some (set_pool s c (mkCachePool (p_geo p) (p_free p) (<[b := splice old off bs]> (p_data p))), ADone)
  | KRead c b off n =>
      p ← ps_pools s !! c; bs ← p_data p !! b;
      guard (0 ≤ off ∧ 0 ≤ n ∧ off + n ≤ g_ms (p_geo p));;
      Some (s, ABytes (slice bs off n))
  | KCheck c b => p ← ps_pools s !! c; _ ← p_data p !! b; Some (s, ACode 0)
  end.

Fixpoint pools_run (k : Z) (s : pools) (ops : list kmem_op) : option (pools * list kmem_answer) :=
  match ops with
  | [] => Some (s, [])
  | op :: ops =>
      '(s, x) ← pools_step k s op; '(s, xs) ← pools_run k s ops; Some (s, x :: xs)
  end.

(** ** Writing in a buffer *)

Lemma slice_splice_inside (l xs : list Z) i j n :
  0 ≤ j → j ≤ i → i + Z.of_nat (length xs) ≤ j + n → j + n ≤ Z.of_nat (length l) →
  slice (splice l i xs) j n = splice (slice l j n) (i - j) xs.
Proof.
  intros Hj Hji Hin Hn. unfold slice, splice. apply list_eq. intros p.
  destruct (decide (p < Z.to_nat n)%nat) as [Hp | Hp].
  - rewrite lookup_take_lt, lookup_drop by lia.
    destruct (decide (Z.to_nat j + p < Z.to_nat i)%nat) as [H1 | H1].
    { rewrite !lookup_app_l by (rewrite ?length_take, ?length_drop; lia).
      by rewrite !lookup_take_lt, lookup_drop by lia. }
    rewrite lookup_app_r, length_take by (rewrite length_take; lia).
    rewrite (lookup_app_r (take _ (take _ _))), !length_take, length_drop by (rewrite !length_take, length_drop; lia).
    replace (Z.to_nat j + p - Z.to_nat i `min` length l)%nat
      with (p - Z.to_nat (i - j) `min` (Z.to_nat n `min` (length l - Z.to_nat j)))%nat by lia.
    destruct (decide (Z.to_nat j + p < Z.to_nat i + length xs)%nat) as [H2 | H2].
    { rewrite !lookup_app_l by lia. done. }
    rewrite !lookup_app_r by lia. rewrite !lookup_drop, lookup_take_lt, lookup_drop by lia. f_equal. lia.
  - rewrite lookup_take_ge by lia. symmetry. apply lookup_ge_None_2.
    rewrite !length_app, length_drop, !length_take, length_drop. lia.
Qed.

Lemma write_inside m a n old off bs m' :
  ld_bytes m a n = Ok old → 0 ≤ off → off + Z.of_nat (length bs) ≤ n →
  st_bytes m (a + off) bs = Ok m' → ld_bytes m' a n = Ok (splice old off bs).
Proof.
  intros Hld Hoff Hle. unfold ld_bytes, rd_block, st_bytes, wr_block in *.
  destruct (in_range (a_bytes m) (a - a_base m) n) eqn:Hr; [| done]. injection Hld as <-.
  apply in_range_spec in Hr. rewrite (proj2 (in_range_spec _ _ _)) by lia. rewrite bind_Ok.
  intros [= <-]. cbn [a_base a_bytes]. rewrite (proj2 (in_range_spec _ _ _)) by (rewrite length_splice by lia; lia).
  f_equal. rewrite slice_splice_inside by lia. f_equal. lia.
Qed.

Section client.
Context (g : geometry) (Hg : geometry_ok g).

(** The owner of a buffer writes in it. *)
Lemma write_spec m fl ct o old off bs :
  cache_rep g m fl ct → o ∈ objs g → ct !! buf_of o = Some old →
  0 ≤ off → off + Z.of_nat (length bs) ≤ g_ms g →
  ∃ m', st_bytes m (buf_of o + off) bs = Ok m' ∧
    cache_rep g m' fl (<[buf_of o := splice old off bs]> ct) ∧ keeps m m' [(g_c g, extent g)].
Proof.
  intros [[Ha L1 L2 Hb Hl Hh Hd] Hs Hnd Hsub L3 L4] Ho Hold Hoff Hle.
  pose proof (objs_bound g Hg) as Hbd. pose proof (objs_apart g Hg) as Hap. pose proof (Hbd o Ho) as Hbo.
  destruct (st_bytes_spec m (buf_of o + off) bs) as (m' & E & _ & K).
  { eapply in_arena_sub; [exact Ha | unfold buf_of, sizeof_obj, OFS; lia..]. }
  exists m'. split; [done |].
  assert (∀ x a n, x ∈ objs g → x ≤ a → a + n ≤ x + 25 ∨ x + 25 + g_ms g ≤ a → a + n ≤ x + 26 + g_ms g →
    Forall (λ r, apart a n r.1 r.2) [(buf_of o + off, Z.of_nat (length bs))]) as Hout.
  { intros x a n Hx ???. pose proof (Hap x o Hx Ho). unfold buf_of, sizeof_obj, OFS. solve_apart. }
  assert (∀ a n, a + n ≤ g_c g + 72 →
    Forall (λ r, apart a n r.1 r.2) [(buf_of o + off, Z.of_nat (length bs))]) as Hhead.
  { intros a n ?. unfold buf_of, sizeof_obj, OFS. solve_apart. }
  split; [constructor; [constructor | | done | done | |] |].
  - by eapply keeps_in_arena.
  - rewrite (ld_int_keeps _ _ _ _ K); [done |]. apply Hhead. unfold kc_mem_size. lia.
  - rewrite (ld_int_keeps _ _ _ _ K); [done |]. apply Hhead. unfold kc_tots. lia.
  - intros x Hx. rewrite (ld_ptr_keeps _ _ _ _ K); [by apply Hb |]. pose proof (Hbd x Hx). pose proof (go_ms _ Hg). apply (Hout x); unfold obj_buf; lia || done.
  - intros x Hx. rewrite (ld_keeps _ _ _ 1 _ K); [by apply Hl |]. pose proof (Hbd x Hx). pose proof (go_ms _ Hg).
    apply (Hout x); unfold buf_of, sizeof_obj, OFS; lia || done.
  - intros x Hx. rewrite (ld_keeps _ _ _ 1 _ K); [by apply Hh |]. pose proof (Hbd x Hx).
    pose proof (go_ms _ Hg). apply (Hout x); unfold buf_of, sizeof_obj, OFS; lia || done.
  - intros x Hx. destruct (decide (x = o)) as [-> | Hne].
    + exists (splice old off bs). split; [by rewrite lookup_insert_eq |].
      destruct (Hd o Ho) as (old' & Hct & Hld). rewrite Hold in Hct. injection Hct as <-.
      by eapply write_inside.
    + destruct (Hd x Hx) as (bx & Hct & Hld). exists bx. split.
      { rewrite lookup_insert_ne; [done |]. unfold buf_of. lia. }
      destruct K as (_ & _ & K). rewrite K; [done |]. pose proof (Hap x o Hx Ho).
      unfold buf_of, sizeof_obj, OFS. solve_apart.
  - eapply lseg_keeps; [exact K | | | exact Hs]; intros x Hx.
    + apply elem_of_cons in Hx as [-> | Hx]; [apply Hhead; unfold free_head, kc_free_objs; lia |].
      pose proof (go_ms _ Hg). apply (Hout x); [auto | lia..].
    + apply elem_of_app in Hx as [Hx | ->%list_elem_of_singleton]; [| apply Hhead; unfold free_head, kc_free_objs; lia].
      pose proof (go_ms _ Hg). apply (Hout x); [auto | lia..].
  - rewrite (ld_int_keeps _ _ _ _ K); [done |]. apply Hhead. unfold kc_free. lia.
  - rewrite (ld_int_keeps _ _ _ _ K); [done |]. apply Hhead. unfold kc_used. lia.
  - eapply keeps_weaken; [exact K |]. intros a n [Hr _]%Forall_cons_1. cbn [fst snd] in Hr.
    unfold apart, buf_of, sizeof_obj, OFS in *. solve_apart.
Qed.

Lemma check_spec m fl ct o :
  cache_rep g m fl ct → o ∈ objs g → kmem_cache_checkoverflow m (g_c g) (buf_of o) = Ok 0.
Proof.
  intros [[_ L1 _ _ Hl Hh _] _ _ _ _ _] Ho. unfold kmem_cache_checkoverflow, check_overflow.
  rewrite L1, bind_Ok. pose proof (objs_bound g Hg o Ho). pose proof (go_c _ Hg).
  rewrite (proj2 (Z.eqb_neq _ 0)) by (unfold buf_of, sizeof_obj, OFS; lia).
  rewrite Hl, bind_Ok by done. cbn [Z.eqb negb OF Pos.eqb]. by rewrite Hh by done.
Qed.

End client.

(** ** Refinement *)

Section refinement.
Context (k : Z).
Implicit Types (m : arena) (s : pools) (p : cache_pool).

Definition range (p : cache_pool) : Z * Z := (g_c (p_geo p), extent (p_geo p)).

(** The bytes represent one cache. *)
Record pool_rep m p : Prop := {
  pr_geo : geometry_ok (p_geo p);
  pr_rep : ∃ fl, p_free p = buf_of <$> fl ∧ cache_rep (p_geo p) m fl (p_data p);
  pr_dom b bs : p_data p !! b = Some bs → ∃ o, o ∈ objs (p_geo p) ∧ b = buf_of o
}.

(** The bytes represent the block: the caches follow the header, up to the used
    size, and do not overlap. *)
Record pools_rep m s : Prop := {
  ps_rep : kmem_rep m k (ps_kmem s);
  ps_each c p : ps_pools s !! c = Some p →
    g_c (p_geo p) = c ∧ pool_rep m p ∧ k + 32 ≤ c ∧ c + extent (p_geo p) ≤ k + al_used (ps_kmem s);
  ps_apart c c' p p' : ps_pools s !! c = Some p → ps_pools s !! c' = Some p' → c ≠ c' →
    apart (range p).1 (range p).2 (range p').1 (range p').2
}.

Lemma pool_rep_keeps m m' R p :
  keeps m m' R → apart_from (range p) R → pool_rep m p → pool_rep m' p.
Proof.
  intros K HR [Hg (fl & Hfl & Hrep) Hd]. constructor; [done | | done]. exists fl. split; [done |].
  by eapply cache_rep_keeps.
Qed.

(** An operation on the cache [c] that stays in its range. *)
Lemma pools_rep_update m m' s c p p' :
  pools_rep m s → ps_pools s !! c = Some p → keeps m m' [(c, extent (p_geo p))] →
  p_geo p' = p_geo p → pool_rep m' p' → pools_rep m' (set_pool s c p').
Proof.
  intros [Hk Hps Hap] Hp K Hgeo Hp'. destruct (Hps c p Hp) as (Hc & _ & Hlo & Hhi).
  constructor; cbn [ps_kmem ps_pools set_pool].
  - eapply kmem_rep_keeps; [exact K | | done]. solve_apart.
  - intros d q. destruct (decide (d = c)) as [-> | Hne].
    + rewrite lookup_insert_eq. intros [= <-]. by rewrite Hgeo.
    + rewrite lookup_insert_ne by done. intros Hq. destruct (Hps d q Hq) as (Hd & Hrep & Hb).
      split; [done |]. split; [| done]. eapply pool_rep_keeps; [exact K | | done].
      pose proof (Hap d c q p Hq Hp Hne). unfold apart_from, range in *. cbn [fst snd] in *.
      rewrite Hd, Hc in *. by constructor.
  - intros d d' q q'. rewrite !lookup_insert. repeat case_decide; subst; intros; simplify_eq;
      unfold range in *; cbn [fst snd] in *; rewrite ?Hgeo; first [done | eapply Hap; eauto].
Qed.

Lemma not_free_obj (fl : list Z) (o : Z) : buf_of o ∉ buf_of <$> fl → o ∉ fl.
Proof. intros Hn Ho. apply Hn. apply list_elem_of_fmap. eauto. Qed.

Lemma create_refines m s name mem_size tots s' x :
  pools_rep m s → pools_step k s (KCreate name mem_size tots) = Some (s', x) →
  ∃ m', kmem_step k m (KCreate name mem_size tots) = Ok (m', x) ∧ pools_rep m' s'.
Proof.
  intros Hrep Hstep. pose proof Hrep as [Hk Hps Hap]. cbn [pools_step kmem_step] in *.
  case_guard as Hfit; [| done]. cbn [mbind option_bind] in Hstep.
  set (g := next_cache k (ps_kmem s) mem_size tots) in *.
  destruct (Z.leb_spec (al_size (ps_kmem s) - al_used (ps_kmem s)) (extent g)) as [Hroom | Hroom].
  - injection Hstep as <- <-. exists m. by rewrite (create_no_room k m (ps_kmem s)).
  - injection Hstep as <- <-.
    destruct (create_spec k m (ps_kmem s) name mem_size tots Hk Hfit Hroom) as (m' & -> & Hg & Hc & Hk' & K).
    fold g in Hg, Hc, Hk', K. exists m'. split; [done |].
    destruct (cache_size_extent k (ps_kmem s) mem_size tots (kr_e _ _ _ Hk) Hfit) as [_ H72]. fold g in H72.
    assert (g_c g = k + al_used (ps_kmem s)) as Hgc by done. pose proof (kr_used _ _ _ Hk) as Hu. unfold sizeof_kmem in Hu.
    constructor; cbn [ps_kmem ps_pools grown al_used]; [done | |].
    + intros c p. destruct (decide (c = g_c g)) as [-> | Hne].
      * rewrite lookup_insert_eq. intros [= <-]. cbn [p_geo]. split; [done |]. split; [| lia].
        constructor; cbn [p_geo p_free p_data]; [done | eauto |].
        intros b bs (_ & Hb)%fresh_contents_lookup; done.
      * rewrite lookup_insert_ne by done. intros Hp. destruct (Hps c p Hp) as (Hc0 & Hpr & Hlo & Hhi).
        split; [done |]. split; [| lia]. eapply pool_rep_keeps; [exact K | | done].
        unfold apart_from, range. cbn [fst snd]. rewrite Hc0. solve_apart.
    + assert (∀ c p, ps_pools s !! c = Some p → c + extent (p_geo p) ≤ g_c g ∧ g_c (p_geo p) = c) as Hold.
      { intros c p Hp. destruct (Hps c p Hp) as (? & _ & _ & ?). split; [lia | done]. }
      intros c c' p p'. rewrite !lookup_insert. repeat case_decide; intros; simplify_eq; [| | by eapply Hap];
        unfold range, apart; cbn [fst snd p_geo]; [destruct (Hold c' p') | destruct (Hold c p)]; try done; lia.
Qed.

Lemma kmem_step_refines m s op s' x :
  pools_rep m s → pools_step k s op = Some (s', x) →
  ∃ m', kmem_step k m op = Ok (m', x) ∧ pools_rep m' s'.
Proof.
  intros Hrep. pose proof Hrep as [Hk Hps Hap].
  destruct op as [name mem_size tots | c | c b | c b off bs | c b off n | c b]; [by apply create_refines | ..];
    cbn [pools_step kmem_step]; (destruct (ps_pools s !! c) as [p |] eqn:Hp; [| done]); cbn [mbind option_bind];
    destruct (Hps c p Hp) as (Hc & [Hg (fl & Hfl & Hcr) Hdom] & Hlo & Hhi); rewrite <- ?Hc.
  - rewrite Hfl. destruct fl as [|o fl]; cbn [fmap list_fmap].
    + intros [= <- <-]. exists m. by rewrite (alloc_empty _ _ _ Hcr).
    + intros [= <- <-]. destruct (alloc_spec _ Hg _ _ _ _ Hcr) as (m' & -> & Hcr' & K). exists m'.
      split; [done |]. rewrite Hc in *. eapply pools_rep_update; eauto. constructor; cbn; eauto.
  - destruct (p_data p !! b) as [bs |] eqn:Hb; [| done]. cbn [mbind option_bind].
    case_guard as Hn; [| done]. intros [= <- <-]. destruct (Hdom _ _ Hb) as (o & Ho & ->).
    rewrite Hfl in Hn. destruct (free_spec _ Hg _ o _ _ Hcr Ho) as (m' & -> & Hcr' & K).
    { by apply not_free_obj. }
    exists m'. split; [done |]. rewrite Hc in *. eapply pools_rep_update; eauto. constructor; cbn; [done | | done].
    exists (o :: fl). by rewrite Hfl.
  - destruct (p_data p !! b) as [old |] eqn:Hb; [| done]. cbn [mbind option_bind].
    case_guard as Hn; [| done]. intros [= <- <-]. destruct (Hdom _ _ Hb) as (o & Ho & ->).
    destruct (write_spec _ Hg _ _ _ o old off bs Hcr Ho Hb) as (m' & -> & Hcr' & K); [lia.. |].
    exists m'. split; [done |]. rewrite Hc in *. eapply pools_rep_update; eauto. constructor; cbn; [done | eauto |].
    intros d ds. destruct (decide (d = buf_of o)) as [-> | Hne]; [eauto |].
    rewrite lookup_insert_ne by done. apply Hdom.
  - destruct (p_data p !! b) as [bs |] eqn:Hb; [| done]. cbn [mbind option_bind].
    case_guard as Hn; [| done]. intros [= <- <-]. destruct (Hdom _ _ Hb) as (o & Ho & ->). exists m.
    destruct Hcr as [[_ _ _ _ _ _ Hd] _ _ _ _ _]. destruct (Hd o Ho) as (bs' & Hbs & Hld).
    rewrite Hb in Hbs. injection Hbs as <-. by rewrite (ld_bytes_sub _ _ _ _ _ _ Hld) by lia.
  - destruct (p_data p !! b) as [bs |] eqn:Hb; [| done]. cbn [mbind option_bind].
    intros [= <- <-]. destruct (Hdom _ _ Hb) as (o & Ho & ->). exists m. by rewrite (check_spec _ Hg _ _ _ _ Hcr Ho).
Qed.

Lemma kmem_run_refines ops m s s' xs :
  pools_rep m s → pools_run k s ops = Some (s', xs) →
  ∃ m', kmem_run k m ops = Ok (m', xs) ∧ pools_rep m' s'.
Proof.
  revert m s xs. induction ops as [|op ops IH]; intros m s xs Hrep.
  { intros [= <- <-]. exists m. done. }
  cbn [pools_run kmem_run]. destruct (pools_step k s op) as [[s1 x] |] eqn:E; [| done]. cbn [mbind option_bind].
  destruct (pools_run k s1 ops) as [[s2 ys] |] eqn:E2; [| done]. intros [= <- <-].
  destruct (kmem_step_refines m s op s1 x Hrep E) as (m1 & -> & Hrep1). rewrite bind_Ok.
  destruct (IH m1 s1 ys Hrep1 E2) as (m2 & -> & Hrep2). rewrite bind_Ok. eauto.
Qed.

End refinement.

Definition empty_pools (e size : Z) : pools :=
  mkPools (mkAllocator e size (set_align sizeof_kmem (2 ^ e)) 0) ∅.

Lemma init_pools_rep m k size e :
  in_arena m k size → 0 < k → k + size < 2 ^ 64 → size < 2 ^ 31 → 0 ≤ e ≤ 30 →
  set_align sizeof_kmem (2 ^ e) < size →
  ∃ m', init_kmem m k size (2 ^ e) = Ok (k, m') ∧ pools_rep k m' (empty_pools e size).
Proof.
  intros Ha Hk Hend Hs He Hroom. destruct (init_kmem_spec k m size e) as (m' & E & Hrep & _); [done.. |].
  exists m'. split; [done |]. constructor; [done | |]; cbn [ps_pools empty_pools]; by intros *; rewrite lookup_empty.
Qed.

(** What a client can rely on: buffers with their guards are disjoint and inside
    the block, behind the header. *)
Definition disjoint_buffers (k : Z) (s : pools) : Prop :=
  ∀ c p b bs, ps_pools s !! c = Some p → p_data p !! b = Some bs →
    (k + sizeof_kmem ≤ b - OFS ∧ b + g_ms (p_geo p) + OFS ≤ k + al_size (ps_kmem s)) ∧
    ∀ c' p' b' bs', ps_pools s !! c' = Some p' → p_data p' !! b' = Some bs' → b ≠ b' →
      apart (b - OFS) (g_ms (p_geo p) + 2 * OFS) (b' - OFS) (g_ms (p_geo p') + 2 * OFS).

Lemma pools_rep_disjoint k m s : pools_rep k m s → disjoint_buffers k s.
Proof.
  intros [Hk Hps Hap] c p b bs Hp Hb. destruct (Hps c p Hp) as (Hc & [Hg _ Hd] & Hlo & Hhi).
  destruct (Hd b bs Hb) as (o & Ho & ->). pose proof (objs_bound _ Hg o Ho) as Hbo.
  pose proof (kr_used _ _ _ Hk) as Hu. rewrite Hc in Hbo. unfold buf_of, sizeof_kmem, sizeof_obj, OFS in *.
  split; [lia |]. intros c' p' b' bs' Hp' Hb' Hne.
  destruct (Hps c' p' Hp') as (Hc' & [Hg' _ Hd'] & Hlo' & Hhi').
  destruct (Hd' b' bs' Hb') as (o' & Ho' & ->). pose proof (objs_bound _ Hg' o' Ho') as Hbo'. rewrite Hc' in Hbo'.
  destruct (decide (c = c')) as [<- | Hcc].
  - rewrite Hp in Hp'. injection Hp' as <-. pose proof (objs_apart _ Hg o o' Ho Ho'). unfold buf_of, apart, sizeof_obj, OFS in *. lia.
  - pose proof (Hap c c' p p' Hp Hp' Hcc) as Ha. unfold apart, range, buf_of, sizeof_obj, OFS in *. cbn [fst snd] in Ha.
    rewrite Hc, Hc' in Ha. lia.
Qed.

(** C8: starting from [init_kmem] on a block of memory that is large enough, with
    an alignment that is a power of two, every sequence of creations, allocations,
    frees, writes, reads and guard checks that follows the rules of the abstract
    machine (sizes that an [int] holds, no freeing of a free buffer, no access
    outside a buffer) runs without a fault on the bytes of the block and returns
    exactly the machine's answers: allocation is last in first out, NULL exactly
    when the cache is empty, and a buffer reads back what was last written to it;
    all buffers with their guard bytes are disjoint and inside the block. *)
Theorem kmem_refines_pools m k size e :
  in_arena m k size → 0 < k → k + size < 2 ^ 64 → size < 2 ^ 31 → 0 ≤ e ≤ 30 →
  set_align sizeof_kmem (2 ^ e) < size →
  ∃ m0, init_kmem m k size (2 ^ e) = Ok (k, m0) ∧
    ∀ ops s xs, pools_run k (empty_pools e size) ops = Some (s, xs) →
      (∃ m', kmem_run k m0 ops = Ok (m', xs)) ∧ disjoint_buffers k s.
Proof.
  intros Ha Hk Hend Hs He Hroom. destruct (init_pools_rep m k size e) as (m0 & E & Hrep); [done.. |].
  exists m0. split; [done |]. intros ops s xs Hrun.
  destruct (kmem_run_refines k ops m0 _ _ _ Hrep Hrun) as (m' & Hrun' & Hrep').
  split; [eauto | by eapply pools_rep_disjoint].
Qed.

(** A block of 600 bytes and a session with two caches *)
Definition sample_block : arena := mkArena 4096 (replicate 600 170).
Definition sample_ops : list kmem_op :=
  [KCreate [97; 98] 10 3; KAlloc 4128; KWrite 4128 4305 2 [1; 2; 3]; KCreate [99] 4 2; KAlloc 4320;
   KFree 4320 4449; KAlloc 4128; KAlloc 4128; KAlloc 4128; KRead 4128 4305 1 4; KCheck 4128 4305; KCreate [100] 100 9].

Lemma kmem_refines_pools_witness :
  ∃ m0 m', init_kmem sample_block 4096 600 (2 ^ 3) = Ok (4096, m0) ∧
    kmem_run 4096 m0 sample_ops =
      Ok (m', [APtr 4128; APtr 4305; ADone; APtr 4320; APtr 4449; ADone; APtr 4265; APtr 4225; APtr 0;
               ABytes [0; 1; 2; 3]; ACode 0; APtr 0]).
Proof.
  destruct (kmem_refines_pools sample_block 4096 600 3) as (m0 & E & Hrun); [| lia.. | by vm_compute |].
  { unfold in_arena. cbn. lia. }
  destruct (pools_run 4096 (empty_pools 3 600) sample_ops) as [[s xs] |] eqn:Hp; [| by vm_compute in Hp].
  destruct (Hrun _ _ _ Hp) as [[m' Hm'] _]. exists m0, m'. split; [done |]. rewrite Hm'. do 2 f_equal.
  apply (f_equal (fmap snd)) in Hp. vm_compute in Hp. by injection Hp as <-.
Defined.

(** *** Running over the end of a buffer *)

Lemma ld_last m a n bs b :
  ld_bytes m a (n + 1) = Ok (bs ++ [b]) → Z.of_nat (length bs) = n → is_u8 b → ld 1 m (a + n) = Ok b.
Proof.
  intros Hld Hn Hb. unfold ld. rewrite (ld_bytes_sub _ _ _ _ _ _ Hld) by lia. rewrite bind_Ok.
  unfold slice. rewrite drop_app_ge by lia.
  replace (Z.to_nat n - length bs)%nat with 0%nat by lia. done.
Qed.

(** C28: a client that fills a buffer and writes one byte too many is noticed by
    the guard check exactly when that byte differs from the guard value, and every
    other buffer of the cache still passes its check. *)
Theorem kmem_overrun_detected m k s c p b old bs v :
  pools_rep k m s → ps_pools s !! c = Some p → p_data p !! b = Some old →
  Z.of_nat (length bs) = g_ms (p_geo p) → is_u8 v →
  ∃ m', st_bytes m b (bs ++ [v]) = Ok m' ∧
    kmem_cache_checkoverflow m' c b = Ok (if v =? OF then 0 else -1) ∧
    ∀ b' old', p_data p !! b' = Some old' → b' ≠ b → kmem_cache_checkoverflow m' c b' = Ok 0.
Proof.
  intros [_ Hps _] Hp Hb Hlen Hv. destruct (Hps c p Hp) as (Hc & [Hg (fl & _ & Hcr) Hd] & _).
  destruct Hcr as [[Ha L1 _ _ Hl Hh _] _ _ _ _ _]. destruct (Hd b old Hb) as (o & Ho & ->).
  pose proof (objs_bound _ Hg o Ho) as Hbo. pose proof (go_c _ Hg) as Hc0. pose proof (go_ms _ Hg) as Hms.
  destruct (st_bytes_spec m (buf_of o) (bs ++ [v])) as (m' & E & Hld & K).
  { rewrite length_app. eapply in_arena_sub; [exact Ha | unfold buf_of, sizeof_obj, OFS; cbn [length]; lia..]. }
  rewrite length_app in Hld, K. cbn [length] in Hld, K.
  replace (Z.of_nat (length bs + 1)) with (g_ms (p_geo p) + 1) in Hld, K by lia.
  exists m'. split; [done |]. unfold kmem_cache_checkoverflow, check_overflow. rewrite <- Hc.
  rewrite (ld_int_keeps _ _ _ _ K), L1, bind_Ok by (unfold kc_mem_size, buf_of, sizeof_obj, OFS; solve_apart). split.
  - rewrite (proj2 (Z.eqb_neq _ 0)) by (unfold buf_of, sizeof_obj, OFS; lia).
    rewrite (ld_keeps _ _ _ 1 (buf_of o - 1) K), Hl, bind_Ok by (done || (unfold buf_of, sizeof_obj, OFS; solve_apart)). cbn [Z.eqb negb OF Pos.eqb].
    by rewrite (ld_last _ _ _ _ _ Hld Hlen Hv), bind_Ok.
  - intros b' old' Hb' Hne. rewrite bind_Ok. destruct (Hd b' old' Hb') as (o' & Ho' & ->).
    pose proof (objs_bound _ Hg o' Ho') as Hbo'. pose proof (objs_apart _ Hg o o' Ho Ho') as Hap.
    assert (o ≠ o') by congruence. unfold buf_of, sizeof_obj, OFS in *.
    rewrite (proj2 (Z.eqb_neq _ 0)) by lia.
    rewrite (ld_keeps _ _ _ 1 (o' + 24 + 1 - 1) K), Hl, bind_Ok by (done || solve_apart). cbn [Z.eqb negb OF Pos.eqb].
    by rewrite (ld_keeps _ _ _ 1 _ K), Hh, bind_Ok by (done || solve_apart).
Qed.

Lemma kmem_overrun_detected_witness :
  ∃ m m', st_bytes m 4305 [0; 1; 2; 3; 4; 5; 6; 7; 8; 9; 10] = Ok m' ∧
    kmem_cache_checkoverflow m' 4128 4305 = Ok (-1).
Proof.
  destruct (init_pools_rep sample_block 4096 600 3) as (m0 & _ & Hrep); [| lia.. | by vm_compute |].
  { unfold in_arena. cbn. lia. }
  destruct (pools_run 4096 (empty_pools 3 600) sample_ops) as [[s xs] |] eqn:Hp; [| by vm_compute in Hp].
  destruct (kmem_run_refines 4096 _ _ _ _ _ Hrep Hp) as (m & _ & Hrep').
  destruct (ps_pools s !! 4128) as [p |] eqn:Hc.
  2:{ apply (f_equal (λ r, r ≫= λ x, ps_pools x.1 !! 4128)) in Hp. cbn [mbind option_bind fst] in Hp.
      rewrite Hc in Hp. by vm_compute in Hp. }
  assert (p_data p !! 4305 = Some [0; 0; 1; 2; 3; 0; 0; 0; 0; 0] ∧ g_ms (p_geo p) = 10) as [Hd Hms].
  { apply (f_equal (λ r, r ≫= λ x, ps_pools x.1 !! 4128)) in Hp. cbn [mbind option_bind fst] in Hp.
    rewrite Hc in Hp. vm_compute in Hp. by injection Hp as <-. }
  destruct (kmem_overrun_detected m 4096 s 4128 p 4305 _ [0; 1; 2; 3; 4; 5; 6; 7; 8; 9] 10 Hrep' Hc Hd)
    as (m' & E & Hchk & _); [by rewrite Hms | unfold is_u8; lia |].
  exists m, m'. split; [exact E | exact Hchk].
Defined.

(** *** What the code does not check *)

Definition sample_session (ops : list kmem_op) : res (list kmem_answer) :=
  '(k, m) ← init_kmem sample_block 4096 600 8; '(_, xs) ← kmem_run k m ops; Ok xs.

(** A buffer that is freed twice is handed out twice: kmem_cache_free does not
    look whether the object is already on the list of free objects. *)
Theorem kmem_double_free :
  sample_session [KCreate [97] 10 3; KAlloc 4128; KFree 4128 4305; KFree 4128 4305; KAlloc 4128; KAlloc 4128] =
  Ok [APtr 4128; APtr 4305; ADone; ADone; APtr 4305; APtr 4305].
Proof. by vm_compute. Qed.

(** Kmem_cache_create computes the size of a cache in an [int]: for two
    objects of [2 ^ 31 - 26] bytes it is 72, the room check passes in a block of
    600 bytes and initialising the first object writes outside the block. *)
Theorem kmem_create_overflow :
  cache_size (2 ^ 31 - 26) 2 8 = 72 ∧ sample_session [KCreate [97] (2 ^ 31 - 26) 2] = Fail OutOfBounds.
Proof. by vm_compute. Qed.
