(* ===== verification/KmemDebug.v ===== *)
(** The reports of lib/kmem.c: sem_down, debug_obj, debug_kmem_cache and
    debug_kmem, on the bytes of Kmem.v.  What printf makes of a pointer is a
    parameter. *)

From Stdlib Require Ascii String.
From S2P Require Import Prelude Cstring Kmem KmemFacts KmemInit KmemPool.

Import String.StringSyntax.
Local Open Scope Z_scope.

(** [while (0 == sem); --sem;]: the copy of a semaphore that is 0 stays 0, and the
    call does not return ([None]). *)
Definition sem_down (sem : Z) : option unit := if sem =? 0 then None else Some tt.

(** The string at an address: the bytes up to the first 0 *)
Fixpoint ld_string (n : nat) (m : arena) (a : Z) : res (list Z) :=
  match n with
  | O => Fail OutOfFuel
  | S n =>
      b ← ld 1 m a;
      if b =? 0 then Ok [] else cs ← ld_string n m (a + 1); Ok (b :: cs)
  end.

(** printf of a label, an int and the end of the line *)
Definition int_line (label : list Z) (v : Z) : list Z := label ++ decimal v ++ [10].

Section debug.
Context (pointer_text : Z → list Z).
Implicit Types (m : arena).

Definition debug_obj m (ptr mem_size : Z) : res (list Z) :=
  buf ← ld_ptr m (obj_buf ptr);
  r ← check_overflow m buf mem_size;
  Ok (chars "obj(x" ++ pointer_text ptr ++ chars "):" ++
      (if negb (r =? 0) then chars "overflow" else chars "safe") ++ [10]).

(** The loop of debug_kmem_cache over the objects visited, [mode] 2 *)
Fixpoint debug_objs m (xs : list Z) (mem_size : Z) : res (list Z) :=
  match xs with
  | [] => Ok []
  | x :: xs => l ← debug_obj m x mem_size; ls ← debug_objs m xs mem_size; Ok (l ++ ls)
  end.

(** The link is the first field of an object.  A list that does not come back to
    its head within the bytes of the block is circular. *)
Definition debug_kmem_cache m (ptr mode : Z) : res (list Z) :=
  let size := length (a_bytes m) in
  name ← ld_string (S size) m ptr;
  ms ← ld_int m (kc_mem_size ptr);
  tots ← ld_int m (kc_tots ptr);
  used ← ld_int m (kc_used ptr);
  free ← ld_int m (kc_free ptr);
  let head := chars "kmem_cache:  " ++ name ++ [10] ++ int_line (chars "mem_size  =  ") ms ++
    int_line (chars "tot objs  =  ") tots ++ int_line (chars "used objs =  ") used ++
    int_line (chars "free objs =  ") free in
  if mode =? 0 then Ok head else
  first ← ld_ptr m (next_at (kc_free_objs ptr));
  xs ← list_for_each (S size) m first (kc_free_objs ptr);
  lines ← (if mode =? 2 then debug_objs m xs ms else Ok []);
  Ok (head ++ chars "free obj chain checked:" ++ [10] ++ lines).

(** [None]: it does not return. *)
Definition debug_kmem m (ptr : Z) : res (option (list Z)) :=
  lock ← ld_int m (km_lock ptr);
  match sem_down lock with
  | None => Ok None
  | Some _ =>
      tots ← ld_int m (km_tots ptr);
      size ← ld_int m (km_size ptr);
      used ← ld_int m (km_used_size ptr);
      lock ← ld_int m (km_lock ptr);
      let _ := sem_up lock in
      Ok (Some (chars "kmem:" ++ [10] ++ int_line (chars "total kmem_caches   =  ") tots ++
            int_line (chars "total size of mem   =  ") size ++
            int_line (chars "total used_size of mem  =  ") used))
  end.

(** ** What they report *)

Lemma list_for_each_lseg m H fl : ∀ p n,
  lseg m p fl H → H ∉ fl → (length fl < n)%nat →
  ∃ first, ld_ptr m (next_at p) = Ok first ∧ list_for_each n m first H = Ok fl.
Proof.
  induction fl as [| x fl IH]; intros p n Hs Hn Hlt; destruct n as [| n]; cbn [length] in *; try lia.
  - destruct Hs as [E _]. exists H. split; [done |]. cbn. by rewrite Z.eqb_refl.
  - destruct Hs as (E & _ & Hs). exists x. split; [done |]. cbn [list_for_each].
    apply not_elem_of_cons in Hn as [Hx Hn]. rewrite (proj2 (Z.eqb_neq _ _)) by done.
    destruct (IH x n Hs Hn ltac:(lia)) as (next & -> & E'). by rewrite bind_Ok, E', bind_Ok.
Qed.

(** The line of an object whose guards are intact *)
Definition safe_line (o : Z) : list Z := chars "obj(x" ++ pointer_text o ++ chars "):safe" ++ [10].

Lemma debug_objs_safe g m fl ct xs :
  geometry_ok g → cache_rep g m fl ct → xs ⊆ objs g →
  debug_objs m xs (g_ms g) = Ok (mjoin (safe_line <$> xs)).
Proof.
  intros Hg Hrep. induction xs as [| o xs IH]; intros Hin; [done |]. cbn [debug_objs].
  assert (o ∈ objs g) as Ho by (apply Hin; left).
  pose proof (check_spec g Hg m fl ct o Hrep Ho) as Hc. destruct Hrep as [[_ L1 _ Hb _ _ _] _ _ _ _ _].
  unfold kmem_cache_checkoverflow in Hc. rewrite L1, bind_Ok in Hc.
  unfold debug_obj. rewrite (Hb o Ho), bind_Ok, Hc, bind_Ok, bind_Ok.
  rewrite IH by (intros x Hx; apply Hin; by right). done.
Qed.

Lemma free_objs_fit g m fl ct :
  geometry_ok g → cache_rep g m fl ct → (length fl < S (length (a_bytes m)))%nat.
Proof.
  intros Hg [Hst _ Hnd Hob _ _]. pose proof (free_objs_length g fl Hnd Hob) as Hl.
  destruct Hst as [Ha _ _ _ _ _ _]. destruct Ha as (Ha0 & _ & Ha).
  destruct Hg as [? ? ? ? ? ?]. unfold extent, sizeof_kmem_cache, sizeof_obj, OFS in *.
  assert (Z.of_nat (g_n g) * 1 ≤ Z.of_nat (g_n g) * g_rms g) by (apply Z.mul_le_mono_nonneg_l; lia). lia.
Qed.

(** The reports.  Of a block that the operations of KmemPool.v built, debug_kmem
    returns and prints the numbers of the abstract state; of each of its caches,
    debug_kmem_cache prints its size and counters and, in mode 2, one line per
    free object, in the order of the free list, each with its guards intact. *)
Theorem kmem_reports m k s c p name :
  pools_rep k m s → ps_pools s !! c = Some p → ld_string (S (length (a_bytes m))) m c = Ok name →
  debug_kmem m k = Ok (Some (chars "kmem:" ++ [10] ++
    int_line (chars "total kmem_caches   =  ") (al_tots (ps_kmem s)) ++
    int_line (chars "total size of mem   =  ") (al_size (ps_kmem s)) ++
    int_line (chars "total used_size of mem  =  ") (al_used (ps_kmem s)))) ∧
  ∃ fl, p_free p = buf_of <$> fl ∧
  debug_kmem_cache m c 2 = Ok ((chars "kmem_cache:  " ++ name ++ [10] ++
    int_line (chars "mem_size  =  ") (g_ms (p_geo p)) ++
    int_line (chars "tot objs  =  ") (Z.of_nat (g_n (p_geo p))) ++
    int_line (chars "used objs =  ") (Z.of_nat (g_n (p_geo p)) - Z.of_nat (length fl)) ++
    int_line (chars "free objs =  ") (Z.of_nat (length fl))) ++
    chars "free obj chain checked:" ++ [10] ++ mjoin (safe_line <$> fl)).
Proof.
  intros [Hk Hps _] Hc Hname. split.
  - destruct Hk as [_ _ _ _ _ _ H1 H2 H3 _ _ H6]. unfold debug_kmem.
    rewrite H6, bind_Ok. cbn [sem_down Z.eqb]. by rewrite H1, bind_Ok, H2, bind_Ok, H3, bind_Ok, bind_Ok.
  - destruct (Hps c p Hc) as (<- & [Hg (fl & Hfl & Hrep) _] & _). exists fl. split; [done |].
    pose proof (free_objs_fit _ _ _ _ Hg Hrep) as Hlt. pose proof Hrep as [Hst Hl Hnd Hob Hf Hu].
    pose proof (debug_objs_safe _ m fl _ fl Hg Hrep Hob) as Hd. destruct Hst as [_ L1 L2 _ _ _ _].
    unfold debug_kmem_cache. rewrite Hname, bind_Ok, L1, bind_Ok, L2, bind_Ok, Hu, bind_Ok, Hf, bind_Ok.
    cbn [Z.eqb].
    assert (free_head (p_geo p) ∉ fl) as Hn by (intros Hin; by apply (free_head_not_obj _ Hg), Hob).
    destruct (list_for_each_lseg m _ fl _ _ Hl Hn Hlt) as (first & E1 & E2).
    unfold free_head in E1, E2. rewrite E1, bind_Ok, E2, bind_Ok, Pos.eqb_refl, Hd. done.
Qed.
End debug.
