(* ===== verification/Sockunion.v ===== *)
(** Socket addresses: [union sockunion] of include/sockunion.h and the
    operations of lib/sockunion.c.

    A C string is the list of its characters without the terminating 0.  What
    a system call returns is an argument of the operations that make one. *)

From S2P Require Import Prelude Cstring.

Local Open Scope Z_scope.

(** The union of [struct sockaddr] and [struct sockaddr_in]: both start with
    the family; port and address are kept in network byte order. *)
Record sockunion := mkSockunion {
  sa_family : Z;
  sin_port : Z;
  sin_addr : Z
}.

#[export] Instance sockunion_eq_dec : EqDecision sockunion.
Proof. solve_decision. Defined.

Definition AF_INET : Z := 2.
Definition INADDR_ANY : Z := 0.
Definition SU_ADDRSTRLEN : Z := 46.
Definition INET_ADDRSTRLEN : Z := 16.

(** sizeof (struct sockaddr_in) *)
Definition sizeof_sockaddr_in : Z := 16.

(** The host is little-endian: a number in network byte order has its bytes
    reversed. *)
Definition htonl (z : Z) : Z := be_value (rev (be_bytes 4 z)).
Definition ntohl (z : Z) : Z := htonl z.
Definition htons (z : Z) : Z := be_value (rev (be_bytes 2 z)).
Definition ntohs (z : Z) : Z := htons z.

(** ** Conversion from strings *)

(** The loop of inet_aton; [u_long] has 64 bits.  A dot falls through to the
    case of the terminating 0, which ends the loop. *)
Fixpoint aton_loop (cp : list Z) (dots addr val : Z) : option (Z * Z) :=
  match cp with
  | [] => if 255 <? val then None else Some (dots, Z.lor (u64 (Z.shiftl addr 8)) val)
  | c :: cp =>
      if is_digit c then aton_loop cp dots addr (u64 (u64 (val * 10) + (c - 48)))
      else if c =? 46 then
        let dots := dots + 1 in
        if 3 <? dots then None else
        if 255 <? val then None else
        aton_loop cp dots (Z.lor (u64 (Z.shiftl addr 8)) val) 0
      else None
  end.

(** 1 and the address to store through [inaddr], or 0. *)
Definition inet_aton (cp : list Z) : Z * option Z :=
  match aton_loop cp 0 0 0 with
  | None => (0, None)
  | Some (dots, addr) =>
      let addr := if dots <? 3 then u64 (Z.shiftl addr (8 * (3 - dots))) else addr in
      (1, Some (htonl (u32 addr)))
  end.

(** The result of inet_pton, and what it stores through [addrptr]. *)
Definition inet_pton (family : Z) (strptr : list Z) : Z * option Z :=
  if family =? AF_INET then
    match inet_aton strptr with
    | (1, a) => (1, a)
    | _ => (0, None)
    end
  else (-1, None).

Definition zero_sockunion : sockunion := mkSockunion 0 0 0.

(** The union is cleared first, so it is all 0 after a failure. *)
Definition str2sockunion (str : list Z) : Z * sockunion :=
  match inet_pton AF_INET str with
  | (r, Some a) => if 0 <? r then (0, mkSockunion AF_INET 0 a) else (-1, mkSockunion 0 0 a)
  | (_, None) => (-1, zero_sockunion)
  end.

(** [mem]: XCALLOC succeeded; its result is not checked. *)
Definition sockunion_str2su (mem : bool) (str : list Z) : res (option sockunion) :=
  if mem then
    match inet_pton AF_INET str with
    | (r, Some a) => Ok (if 0 <? r then Some (mkSockunion AF_INET 0 a) else None)
    | (_, None) => Ok None
    end
  else match inet_pton AF_INET str with (_, Some _) => Fail NullDeref | _ => Ok None end.

(** ** Conversion to strings *)

(** The decimal digits of a byte. *)
Definition dec_digits (b : Z) : list Z :=
  if b <? 10 then [48 + b] else
  if b <? 100 then [48 + b / 10; 48 + b mod 10]
  else [48 + b / 100; 48 + b / 10 mod 10; 48 + b mod 10].

(** Bytes in decimal, separated by dots. *)
Fixpoint dotted (bs : list Z) : list Z :=
  match bs with
  | [] => []
  | [b] => dec_digits b
  | b :: bs => dec_digits b ++ 46 :: dotted bs
  end.

(** inet_ntop of the C library for AF_INET: the four bytes of the address in the
    order of memory; it fails when the string and its 0 do not fit. *)
Definition inet_ntop (addr len : Z) : option (list Z) :=
  let str := dotted (be_bytes 4 (ntohl addr)) in
  if Z.of_nat (length str) <? len then Some str else None.

Definition inet_ntoa (addr : Z) : list Z := dotted (be_bytes 4 (ntohl addr)).

(** The buffer [str] is left alone for other families. *)
Definition inet_sutop (su : sockunion) (str : list Z) : list Z :=
  if sa_family su =? AF_INET then
    match inet_ntop (sin_addr su) INET_ADDRSTRLEN with Some s => s | None => str end
  else str.

Definition sockunion2str (su : sockunion) (len : Z) : option (list Z) :=
  if sa_family su =? AF_INET then inet_ntop (sin_addr su) len else None.

(** [str] is an array on the stack: for other families the string returned is
    what it happens to hold. *)
Definition sockunion_su2str (su : sockunion) : res (list Z) :=
  if sa_family su =? AF_INET then
    from_option_or Uninitialised (inet_ntop (sin_addr su) SU_ADDRSTRLEN)
  else Fail Uninitialised.

(** ** Comparison *)

(** [sockunion_same]: memcmp of the addresses decides for AF_INET. *)
Definition sockunion_same (su1 su2 : sockunion) : Z :=
  if negb (sa_family su1 =? sa_family su2) then 0 else
  if sa_family su1 =? AF_INET then (if sin_addr su1 =? sin_addr su2 then 1 else 0) else 1.

Definition sockunion_cmp (su1 su2 : sockunion) : Z :=
  if sa_family su1 >? sa_family su2 then 1 else
  if sa_family su1 <? sa_family su2 then -1 else
  if sa_family su1 =? AF_INET then
    if ntohl (sin_addr su1) =? ntohl (sin_addr su2) then 0 else
    if ntohl (sin_addr su1) >? ntohl (sin_addr su2) then 1 else -1
  else 0.

Definition sockunion_sizeof (su : sockunion) : Z :=
  if sa_family su =? AF_INET then sizeof_sockaddr_in else 0.

(** [mem]: XCALLOC succeeded; its result is not checked. *)
Definition sockunion_dup (mem : bool) (su : sockunion) : res sockunion :=
  if mem then Ok su else Fail NullDeref.

(** ** System calls on addresses *)

Inductive connect_errno := EINPROGRESS | ECONNECT_OTHER.

Inductive connect_result :=
| connect_error
| connect_success
| connect_in_progress
| connect_passive.

(** [connect]: what the system call returns for an address and its length, with
    errno.  The result of the ioctl that follows a success is not used. *)
Definition sockunion_connect (connect : sockunion → Z → Z * connect_errno) (peersu : sockunion)
    : connect_result :=
  let '(ret, err) := connect peersu (sockunion_sizeof peersu) in
  if ret =? 0 then connect_success
  else if ret <? 0 then
    match err with EINPROGRESS => connect_in_progress | ECONNECT_OTHER => connect_error end
  else connect_in_progress.

(** The result of bind, and the address as it is left in [su].  [su_addr] tells
    whether the last argument is not NULL. *)
Definition sockunion_bind (bind : sockunion → Z → Z) (su : sockunion) (port : Z) (su_addr : bool)
    : Z * sockunion :=
  if sa_family su =? AF_INET then
    let su := mkSockunion (sa_family su) (htons port)
                (if su_addr then sin_addr su else htonl INADDR_ANY) in
    (bind su sizeof_sockaddr_in, su)
  else (bind su 0, su).

(** The socket, and the family as it is left in [su]. *)
Definition sockunion_stream_socket (socket : Z → Z) (su : sockunion) : Z * sockunion :=
  let su := if sa_family su =? 0 then mkSockunion AF_INET (sin_port su) (sin_addr su) else su in
  (socket (sa_family su), su).

Definition sockunion_socket (socket : Z → Z) (su : sockunion) : Z :=
  let sock := socket (sa_family su) in if sock <? 0 then -1 else sock.

(** The descriptor accept returns, and the address it stores. *)
Definition sockunion_accept (accept : Z * sockunion) : Z * sockunion := accept.

(** sockopt_reuseaddr and sockopt_reuseport: [ret] is the result of setsockopt. *)
Definition sockopt_reuseaddr (ret : Z) : Z := if ret <? 0 then -1 else 0.
Definition sockopt_reuseport (ret : Z) : Z := if ret <? 0 then -1 else 0.

Definition sockopt_ttl (family ret : Z) : Z :=
  if family =? AF_INET then (if ret <? 0 then -1 else 0) else 0.
Definition sockopt_cork (ret : Z) : Z := ret.
Definition sockopt_minttl (family ret : Z) : Z := if family =? AF_INET then ret else -1.

(** [name]: the result of getsockname or getpeername and the address stored; only
    AF_INET is copied out. *)
Definition sockunion_name (mem : bool) (name : Z * sockunion) : res (option sockunion) :=
  let '(ret, su) := name in
  if ret <? 0 then Ok None else
  if sa_family su =? AF_INET then (if mem then Ok (Some su) else Fail NullDeref) else Ok None.

Definition sockunion_getsockname := sockunion_name.
Definition sockunion_getpeername := sockunion_name.
