(* ===== verification/SockunionFacts.v ===== *)
(** Correctness of the address operations of Sockunion.v: the parser of dotted
    addresses against a definition by fields, the round trip with the printed
    form, and the order of addresses. *)

From Stdlib Require Ascii String.
From S2P Require Import Prelude Cstring Sockunion.

Import String.StringSyntax.
Local Open Scope string_scope.

Local Open Scope Z_scope.

(** ** Byte order *)

Lemma be_bytes_value bs : Forall is_u8 bs → be_bytes (length bs) (be_value bs) = bs.
Proof.
  assert (∀ n z k, 0 ≤ k → be_bytes n (z + k * 2 ^ (8 * Z.of_nat n)) = be_bytes n z) as Hskip.
  { induction n as [|n IH]; intros z k Hk; [done |]. cbn [be_bytes]. f_equal.
    - unfold u8. rewrite !Z.shiftr_div_pow2 by lia.
      replace (k * 2 ^ (8 * Z.of_nat (S n))) with (k * 2 ^ 8 * 2 ^ (8 * Z.of_nat n)).
      + rewrite Z.div_add by lia. rewrite Z.mod_add by lia. done.
      + rewrite <- Z.mul_assoc, <- Z.pow_add_r by lia. do 2 f_equal. lia.
    - replace (k * 2 ^ (8 * Z.of_nat (S n))) with (k * 2 ^ 8 * 2 ^ (8 * Z.of_nat n)).
      + apply IH. lia.
      + rewrite <- Z.mul_assoc, <- Z.pow_add_r by lia. do 2 f_equal. lia. }
  induction 1 as [|b bs Hb Hbs IH]; [done |]. cbn [length be_bytes]. rewrite be_value_cons. f_equal.
  - unfold u8. rewrite Z.shiftr_div_pow2 by lia. pose proof (be_value_range bs Hbs).
    rewrite Z.div_add_l, (Z.div_small (be_value bs)) by lia. rewrite Z.add_0_r. by apply Z.mod_small.
  - rewrite Z.add_comm, Hskip by (unfold_ranges; lia). done.
Qed.

(** Reversing the bytes twice. *)
Lemma htonl_htonl z : is_u32 z → htonl (htonl z) = z.
Proof.
  intros Hz. unfold htonl.
  assert (be_bytes 4 (be_value (rev (be_bytes 4 z))) = rev (be_bytes 4 z)) as ->.
  { rewrite <- (be_bytes_value (rev (be_bytes 4 z))) at 2.
    - by rewrite length_rev, length_be_bytes.
    - apply Forall_rev, be_bytes_u8. }
  rewrite rev_involutive, be_value_bytes. by apply Z.mod_small.
Qed.

Lemma htonl_u32 z : is_u32 (htonl z).
Proof.
  unfold htonl. pose proof (be_value_range (rev (be_bytes 4 z))) as H.
  rewrite length_rev, length_be_bytes in H. apply H, Forall_rev, be_bytes_u8.
Qed.

Lemma htonl_inj a b : is_u32 a → is_u32 b → htonl a = htonl b → a = b.
Proof. intros Ha Hb He. by rewrite <- (htonl_htonl a Ha), <- (htonl_htonl b Hb), He. Qed.

(** ** Parsing: the fields of a dotted address *)

(** The parts of a string between its dots. *)
Fixpoint fields (cs : list Z) : list Z * list (list Z) :=
  match cs with
  | [] => ([], [])
  | c :: cs =>
      let '(f, fs) := fields cs in
      if c =? 46 then ([], f :: fs) else (c :: f, fs)
  end.

(** The value of a field, modulo the 64 bits of the accumulator. *)
Definition field_step (val c : Z) : Z := u64 (u64 (val * 10) + (c - 48)).
Definition field_value (f : list Z) : Z := foldl field_step 0 f.

Definition field_ok (val : Z) (f : list Z) : bool := forallb is_digit f && (foldl field_step val f <=? 255).

(** The address in host byte order: at most four fields of digits, each below
    256; missing ones are 0. *)
Definition dotted_value (cs : list Z) : option Z :=
  let '(f, fs) := fields cs in
  if (length (f :: fs) <=? 4)%nat && forallb (field_ok 0) (f :: fs)
  then Some (be_value ((field_value <$> f :: fs) ++ replicate (4 - length (f :: fs)) 0))
  else None.

Definition shift_in (addr val : Z) : Z := addr * 2 ^ 8 + val.

Lemma shift_in_lor addr val k :
  0 ≤ k ≤ 3 → 0 ≤ addr < 2 ^ (8 * k) → 0 ≤ val ≤ 255 →
  Z.lor (u64 (Z.shiftl addr 8)) val = shift_in addr val ∧
  0 ≤ shift_in addr val < 2 ^ (8 * (k + 1)).
Proof.
  intros Hk Ha Hv. unfold shift_in.
  assert (2 ^ (8 * k) ≤ 2 ^ 24) by (apply Z.pow_le_mono_r; lia).
  replace (8 * (k + 1)) with (8 * k + 8) by lia. rewrite Z.pow_add_r by lia.
  rewrite Z.shiftl_mul_pow2, u64_small by (unfold_ranges; lia).
  rewrite lor_disjoint by lia. lia.
Qed.

Lemma field_step_nonneg val c : 0 ≤ field_step val c.
Proof. unfold field_step. pose proof (u64_range (u64 (val * 10) + (c - 48))). unfold_ranges. lia. Qed.

(** The loop, with [val] read so far of the field in progress and [dots] fields
    complete. *)
Lemma aton_loop_spec cs : ∀ dots addr val,
  0 ≤ dots ≤ 3 → 0 ≤ addr < 2 ^ (8 * dots) → 0 ≤ val →
  aton_loop cs dots addr val =
    let '(f, fs) := fields cs in
    if (dots + Z.of_nat (length fs) <=? 3) && field_ok val f && forallb (field_ok 0) fs
    then Some (dots + Z.of_nat (length fs),
               foldl shift_in addr (foldl field_step val f :: (field_value <$> fs)))
    else None.
Proof.
  induction cs as [|c cs IH]; intros dots addr val Hd Ha Hv; cbn [aton_loop fields].
  - unfold field_ok. cbn [length forallb foldl fmap list_fmap andb]. rewrite Z.add_0_r.
    rewrite (proj2 (Z.leb_le dots 3)) by lia. cbn [andb]. rewrite Z.leb_antisym, andb_true_r.
    destruct (Z.ltb_spec 255 val); cbn [negb]; [done |].
    destruct (shift_in_lor addr val dots) as [-> _]; [lia | done | lia | done].
  - destruct (is_digit c) eqn:Hdig.
    + rewrite IH by (auto; apply field_step_nonneg). destruct (fields cs) as [f fs].
      destruct (Z.eqb_spec c 46) as [-> |]; [done |].
      unfold field_ok. cbn [forallb foldl]. rewrite Hdig. done.
    + destruct (Z.eqb_spec c 46) as [-> | Hne].
      * destruct (Z.ltb_spec 3 (dots + 1)).
        { destruct (fields cs) as [f fs]. cbn [length].
          rewrite (proj2 (Z.leb_gt _ 3)) by lia. done. }
        destruct (Z.ltb_spec 255 val) as [Hbig | Hsm].
        { destruct (fields cs) as [f fs]. unfold field_ok at 1. cbn [forallb foldl andb].
          rewrite (proj2 (Z.leb_gt val 255)) by lia. by rewrite andb_false_r. }
        destruct (shift_in_lor addr val dots) as [-> Hb]; [lia | done | lia |].
        rewrite IH by lia. destruct (fields cs) as [f fs]. cbn [length].
        replace (dots + 1 + Z.of_nat (length fs)) with (dots + Z.of_nat (S (length fs))) by lia.
        unfold field_ok at 3. cbn [forallb foldl andb fmap list_fmap].
        rewrite (proj2 (Z.leb_le val 255)) by lia. cbn [andb]. rewrite andb_true_r, andb_assoc. done.
      * destruct (fields cs) as [f fs]. unfold field_ok at 1. cbn [forallb]. rewrite Hdig.
        cbn [andb]. by rewrite andb_false_r.
Qed.

Lemma foldl_shift_in vs addr : foldl shift_in addr vs = fold_left (λ acc b, acc * 2 ^ 8 + b) vs addr.
Proof. revert addr. induction vs as [|v vs IH]; intros addr; [done |]. cbn [foldl fold_left]. apply IH. Qed.

Lemma be_value_zeros vs k :
  be_value (vs ++ replicate k 0) = be_value vs * 2 ^ (8 * Z.of_nat k).
Proof.
  unfold be_value at 1. rewrite fold_left_app, fold_be_acc, length_replicate.
  assert (be_value (replicate k 0) = 0) as ->; [| fold (be_value vs); lia].
  induction k as [|k IH]; [done |]. cbn [replicate]. rewrite be_value_cons, IH. lia.
Qed.

Lemma field_ok_value f : field_ok 0 f = true → 0 ≤ field_value f ≤ 255.
Proof.
  unfold field_ok, field_value. intros [_ H%Z.leb_le]%andb_true_iff. split; [| done].
  assert (∀ val, 0 ≤ val → 0 ≤ foldl field_step val f) as Hn; [| by apply Hn].
  clear. induction f as [|c f IH]; intros val Hv; [done |]. cbn [foldl]. apply IH, field_step_nonneg.
Qed.

Lemma fields_ok_u8 fs : forallb (field_ok 0) fs = true → Forall is_u8 (field_value <$> fs).
Proof.
  intros H. apply Forall_fmap, Forall_forall. intros f Hf. rewrite forallb_forall in H.
  pose proof (field_ok_value f (H f (proj1 (list_elem_of_In _ _) Hf))). unfold is_u8, compose. lia.
Qed.

(** C26: the address parser.  inet_aton accepts exactly the strings of one to
    four fields separated by dots, each of decimal digits only with a value
    (in its 64-bit accumulator) of at most 255, and stores the address whose
    bytes are the fields, from the most significant one, the missing ones 0. *)
Theorem inet_aton_spec cs :
  inet_aton cs = match dotted_value cs with Some a => (1, Some (htonl a)) | None => (0, None) end.
Proof.
  unfold inet_aton, dotted_value. rewrite aton_loop_spec by lia.
  destruct (fields cs) as [f fs] eqn:E. rewrite Z.add_0_l.
  assert ((length (f :: fs) <=? 4)%nat = (Z.of_nat (length fs) <=? 3)) as ->.
  { cbn [length]. destruct (Nat.leb_spec (S (length fs)) 4), (Z.leb_spec (Z.of_nat (length fs)) 3); lia || done. }
  destruct (Z.leb_spec (Z.of_nat (length fs)) 3) as [Hlen |]; [| done]. cbn [andb].
  change (field_ok 0 f && forallb (field_ok 0) fs) with (forallb (field_ok 0) (f :: fs)).
  destruct (forallb (field_ok 0) (f :: fs)) eqn:Hok; [| done].
  apply fields_ok_u8 in Hok. cbn [fmap list_fmap] in Hok |- *. fold (field_value f).
  rewrite foldl_shift_in. fold (be_value (field_value f :: (field_value <$> fs))).
  set (vs := field_value f :: (field_value <$> fs)) in *.
  assert (length vs = S (length fs)) as Hvs by (unfold vs; cbn [length]; by rewrite length_fmap).
  pose proof (be_value_range vs Hok) as Hr. rewrite Hvs in Hr.
  change (length (f :: fs)) with (S (length fs)).
  rewrite be_value_zeros. do 3 f_equal.
  destruct (Z.ltb_spec (Z.of_nat (length fs)) 3).
  - rewrite Z.shiftl_mul_pow2 by lia.
    replace (8 * (3 - Z.of_nat (length fs))) with (8 * Z.of_nat (4 - S (length fs))) by lia.
    assert (be_value vs * 2 ^ (8 * Z.of_nat (4 - S (length fs))) < 2 ^ 32).
    { replace (2 ^ 32) with (2 ^ (8 * Z.of_nat (S (length fs))) * 2 ^ (8 * Z.of_nat (4 - S (length fs)))).
      - apply Z.mul_lt_mono_pos_r; lia.
      - rewrite <- Z.pow_add_r by lia. f_equal. lia. }
    rewrite u64_small, u32_small by (unfold_ranges; nia). done.
  - replace (4 - S (length fs))%nat with 0%nat by lia. rewrite Z.mul_1_r. apply u32_small.
    replace (8 * Z.of_nat (S (length fs))) with 32 in Hr by lia. unfold_ranges. lia.
Qed.

(** ** Printing and parsing *)

Lemma dec_digits_spec b : is_u8 b → field_ok 0 (dec_digits b) = true ∧ field_value (dec_digits b) = b.
Proof.
  intros Hb. assert (Forall (λ b, field_ok 0 (dec_digits b) = true ∧ field_value (dec_digits b) = b)
                       (seqZ 0 256)) as Hall.
  { apply (bool_decide_eq_true_1 _). vm_compute. done. }
  rewrite Forall_forall in Hall. apply Hall, elem_of_seqZ. unfold_ranges. lia.
Qed.

Lemma fields_nodot ds : forallb is_digit ds = true → fields ds = (ds, []).
Proof.
  induction ds as [|c ds IH]; [done |]. cbn [forallb fields]. intros [Hc Hds]%andb_true_iff.
  rewrite IH by done. destruct (Z.eqb_spec c 46) as [-> |]; done.
Qed.

Lemma fields_dot ds cs :
  forallb is_digit ds = true → fields (ds ++ 46 :: cs) = (ds, (fields cs).1 :: (fields cs).2).
Proof.
  induction ds as [|c ds IH]; cbn [app forallb fields]; [by destruct (fields cs) |].
  intros [Hc Hds]%andb_true_iff. rewrite IH by done. destruct (Z.eqb_spec c 46) as [-> |]; done.
Qed.

Lemma dec_digits_digits b : is_u8 b → forallb is_digit (dec_digits b) = true.
Proof. intros [H _]%dec_digits_spec. by apply andb_true_iff in H as [H _]. Qed.

Lemma fields_dotted b bs :
  Forall is_u8 (b :: bs) → fields (dotted (b :: bs)) = (dec_digits b, dec_digits <$> bs).
Proof.
  revert b. induction bs as [|c bs IH]; intros b [Hb Hbs]%Forall_cons_1.
  - by apply fields_nodot, dec_digits_digits.
  - change (dotted (b :: c :: bs)) with (dec_digits b ++ 46 :: dotted (c :: bs)).
    rewrite fields_dot by (by apply dec_digits_digits). by rewrite IH.
Qed.

Lemma dotted_value_dotted bs :
  Forall is_u8 bs → length bs = 4%nat → dotted_value (dotted bs) = Some (be_value bs).
Proof.
  intros Hbs Hlen. destruct bs as [|b bs]; [done |]. unfold dotted_value.
  rewrite fields_dotted by done.
  assert (forallb (field_ok 0) (dec_digits <$> b :: bs) = true) as Hok.
  { apply forallb_forall. intros f Hf%list_elem_of_In. apply list_elem_of_fmap in Hf as (x & -> & Hx).
    rewrite Forall_forall in Hbs. by apply dec_digits_spec, Hbs. }
  assert (field_value <$> (dec_digits <$> b :: bs) = b :: bs) as Hv.
  { rewrite <- list_fmap_compose. transitivity (id <$> b :: bs); [| apply list_fmap_id].
    apply list_fmap_ext.
    intros i x Hx. rewrite Forall_forall in Hbs. by apply dec_digits_spec, Hbs, (list_elem_of_lookup_2 _ i). }
  cbn [fmap list_fmap] in Hok, Hv. rewrite Hok. cbn [fmap list_fmap]. rewrite Hv.
  cbn [length] in *. rewrite length_fmap. rewrite Hlen, andb_true_r. cbn [Nat.leb Nat.sub replicate].
  by rewrite app_nil_r.
Qed.

Lemma length_dotted bs : (length bs = 4)%nat → Forall is_u8 bs → (length (dotted bs) ≤ 15)%nat.
Proof.
  intros Hlen Hbs. destruct bs as [|a [|b [|c [|d [|]]]]]; try done.
  cbn [dotted]. rewrite !length_app. cbn [length]. rewrite !length_app. cbn [length]. rewrite length_app.
  assert (∀ x, (length (dec_digits x) ≤ 3)%nat) as H.
  { intros x. unfold dec_digits. destruct (x <? 10), (x <? 100); cbn; lia. }
  cbn [length]. pose proof (H a). pose proof (H b). pose proof (H c). pose proof (H d). lia.
Qed.

(** C27: printing and parsing.  sockunion2str of an IPv4 address into a buffer of
    INET_ADDRSTRLEN bytes or more succeeds, and str2sockunion of the string
    gives the address back, with the port cleared. *)
Theorem sockunion_string_roundtrip su len :
  sa_family su = AF_INET → is_u32 (sin_addr su) → INET_ADDRSTRLEN ≤ len →
  ∃ str, sockunion2str su len = Some str ∧
    str2sockunion str = (0, mkSockunion AF_INET 0 (sin_addr su)).
Proof.
  intros Hf Ha Hlen. unfold sockunion2str. rewrite Hf, Z.eqb_refl. unfold inet_ntop.
  pose proof (be_bytes_u8 4 (ntohl (sin_addr su))) as Hu.
  pose proof (length_be_bytes 4 (ntohl (sin_addr su))) as H4.
  pose proof (length_dotted _ H4 Hu) as H15. unfold INET_ADDRSTRLEN in Hlen.
  rewrite (proj2 (Z.ltb_lt _ len)) by lia. eexists. split; [done |].
  unfold str2sockunion, inet_pton. rewrite Z.eqb_refl, inet_aton_spec, dotted_value_dotted by done.
  cbv beta iota. change (0 <? 1) with true. cbv iota. do 2 f_equal. unfold ntohl. rewrite be_value_bytes. rewrite Z.mod_small by apply htonl_u32.
  by apply htonl_htonl.
Qed.

(** ** The order of addresses *)

(** Sockunion_cmp orders addresses.  Exchanging the arguments changes the
    sign, the order is transitive, and 0 means exactly that sockunion_same holds
    (addresses of 32 bits). *)
Theorem sockunion_cmp_order a b c :
  is_u32 (sin_addr a) → is_u32 (sin_addr b) →
  sockunion_cmp b a = - sockunion_cmp a b ∧
  (sockunion_cmp a b ≤ 0 → sockunion_cmp b c ≤ 0 → sockunion_cmp a c ≤ 0) ∧
  (sockunion_cmp a b = 0 ↔ sockunion_same a b = 1).
Proof.
  intros Ha Hb. unfold sockunion_cmp, sockunion_same. rewrite !Z.gtb_ltb.
  split; [| split].
  - repeat case_cmp; lia.
  - repeat case_cmp; lia.
  - destruct (Z.eqb_spec (sin_addr a) (sin_addr b)) as [He | He].
    + rewrite He. repeat case_cmp; cbn [negb]; lia.
    + assert (ntohl (sin_addr a) ≠ ntohl (sin_addr b)) by (intros ?; by apply He, htonl_inj).
      repeat case_cmp; cbn [negb]; lia.
Qed.

(** ** Examples *)

(** An overflow of the parser.  A field is accumulated modulo 2^64 and only
    the result is compared with 255: the string 18446744073709551616.0.0.1,
    whose first field is 2^64, is accepted as the address 0.0.0.1. *)
Theorem inet_aton_overflows :
  inet_aton (chars "18446744073709551616.0.0.1") = inet_aton (chars "0.0.0.1") ∧
  (inet_aton (chars "0.0.0.1")).1 = 1 ∧ (inet_aton (chars "256.0.0.1")).1 = 0.
Proof. vm_compute. done. Qed.

Lemma sockunion_string_roundtrip_witness :
  ∃ str, sockunion2str (mkSockunion AF_INET 80 16777343) 46 = Some str ∧
    str2sockunion str = (0, mkSockunion AF_INET 0 16777343).
Proof.
  apply (sockunion_string_roundtrip (mkSockunion AF_INET 80 16777343) 46);
    [reflexivity | unfold is_u32; cbn; lia | unfold INET_ADDRSTRLEN; lia].
Defined.

Lemma sockunion_cmp_order_witness :
  sockunion_cmp (mkSockunion AF_INET 80 33554559) (mkSockunion AF_INET 80 16777343) =
  - sockunion_cmp (mkSockunion AF_INET 80 16777343) (mkSockunion AF_INET 80 33554559).
Proof.
  apply (sockunion_cmp_order (mkSockunion AF_INET 80 16777343) (mkSockunion AF_INET 80 33554559)
    (mkSockunion AF_INET 80 33554559)); unfold is_u32; cbn; lia.
Defined.
