(* ===== verification/CommonFacts.v ===== *)
(** Correctness of the helpers of Common.v: processes are found by their names and
    stopped, interface names stay within their buffers, netmasks are counted. *)

From Stdlib Require Ascii String.
From S2P Require Import Prelude Cstring Sockunion Common.

Import String.StringSyntax.
Local Open Scope string_scope.
Local Open Scope Z_scope.

(** ** Strings *)

Lemma c_string_app s t : Forall (λ c, c ≠ 0) s → c_string (s ++ t) = s ++ c_string t.
Proof.
  induction 1 as [| c s Hc _ IH]; [done |]. cbn. rewrite (proj2 (Z.eqb_neq _ _) Hc). by rewrite IH.
Qed.

Lemma c_string_id s : Forall (λ c, c ≠ 0) s → c_string s = s.
Proof. intros Hs. rewrite <- (app_nil_r s) at 1. rewrite c_string_app by done. apply app_nil_r. Qed.

Lemma strchr_app s c t : Forall (λ x, x ≠ c) s → strchr (s ++ c :: t) c = Some (length s).
Proof.
  induction 1 as [| x s Hx _ IH]; cbn; [by rewrite Z.eqb_refl |].
  rewrite (proj2 (Z.eqb_neq _ _) Hx), IH. done.
Qed.

Lemma strrchr_none t c : Forall (λ x, x ≠ c) t → strrchr t c = None.
Proof. induction 1 as [| x t Hx _ IH]; cbn; [done |]. by rewrite IH, (proj2 (Z.eqb_neq _ _) Hx). Qed.

Lemma strrchr_app s c t : Forall (λ x, x ≠ c) t → strrchr (s ++ c :: t) c = Some (length s).
Proof.
  intros Ht. induction s as [| x s IH]; cbn.
  - by rewrite strrchr_none, Z.eqb_refl.
  - by rewrite IH.
Qed.

Lemma strcmp_eq_spec a b k :
  Forall (λ c, c ≠ 0) a → Forall (λ c, c ≠ 0) b →
  strcmp_eq a (b ++ replicate (S k) 0) = Ok (bool_decide (a = b)).
Proof.
  intros Ha. revert b. induction Ha as [| c a Hc _ IH]; intros b Hb; destruct Hb as [| d b Hd Hb].
  - done.
  - cbn. by rewrite (proj2 (Z.eqb_neq _ _) Hd).
  - cbn. by rewrite (proj2 (Z.eqb_neq _ _) Hc).
  - cbn [strcmp_eq app]. destruct (Z.eqb_spec c d) as [-> | Hne].
    + rewrite IH by done. f_equal. apply bool_decide_ext. split; congruence.
    + f_equal. symmetry. apply bool_decide_eq_false. congruence.
Qed.

Lemma strncpy_fits blk cs :
  (length cs <= length blk)%nat →
  strncpy blk cs (Z.of_nat (length blk)) = Ok (cs ++ replicate (length blk - length cs) 0).
Proof.
  intros Hl. unfold strncpy. rewrite Nat2Z.id, take_app_ge, take_replicate by done.
  rewrite Nat.min_l by lia. rewrite wr_block_Ok by (rewrite ?length_app, ?length_replicate; lia). f_equal.
  unfold splice. rewrite drop_ge by (rewrite length_app, length_replicate; cbn; lia). cbn. by rewrite app_nil_r.
Qed.

(** ** Processes *)

Section processes.
Context {Sy : System} (realloc_ok : Z → bool).
Implicit Types (o : os) (ps : list (Z * list Z)).

(** proc(5): the line of a process is its id, its name in parentheses and fields
    without parentheses. *)
Definition stat_line (pid : Z) (comm tail : list Z) : list Z :=
  decimal pid ++ chars " (" ++ comm ++ chars ") " ++ tail.

(** The name has at most 15 characters. *)
Record proc_ok (pid : Z) (comm tail : list Z) : Prop := {
  po_pid : 0 < pid < 2 ^ 22;
  po_len : (length comm <= 15)%nat;
  po_comm : Forall (λ c, c ≠ 0) comm;
  po_tail : Forall (λ c, c ≠ 0 ∧ c ≠ 41) tail
}.

(** [procfs o ps]: /proc shows the processes [ps], besides other entries. *)
Record procfs o ps : Prop := {
  pf_dir : ∃ des, sys_readdir o (chars "/proc") = Some des ∧
             filter (λ d, (strtol d).2 = []) des = decimal <$> ps.*1;
  pf_stat pid comm : (pid, comm) ∈ ps →
    ∃ tail, proc_ok pid comm tail ∧ sys_file o (stat_path pid) = Some (stat_line pid comm tail)
}.

Lemma decimal_len pid : 0 < pid < 2 ^ 22 → (1 <= length (decimal pid) <= 20)%nat.
Proof.
  intros Hp. split; [pose proof (decimal_cons pid ltac:(lia)); by destruct (decimal pid); [| cbn; lia] |].
  unfold decimal. destruct (pid <? 0) eqn:E; [lia |].
  apply (decimal_loop_len 20).
Qed.

Lemma decimal_chars pid : 0 < pid < 2 ^ 22 → Forall (λ c, 48 ≤ c ≤ 57) (decimal pid).
Proof.
  intros Hp. destruct (decimal_spec pid ltac:(lia)) as (d & ds & -> & Hd & _).
  apply Forall_forall. intros c Hc. apply is_digit_spec. rewrite forallb_forall in Hd.
  apply Hd. by apply list_elem_of_In.
Qed.

Lemma atoi_decimal pid rest :
  0 < pid < 2 ^ 22 → (∀ c cs, rest = c :: cs → is_digit c = false) → atoi (decimal pid ++ rest) = pid.
Proof. intros Hp Hr. unfold atoi. rewrite strtol_decimal by (done || lia). apply s32_small. unfold is_s32. cbn. lia. Qed.

(** What psname has read: the id, the name, and fields without parentheses. *)
Lemma read_stat o pid comm tail :
  proc_ok pid comm tail → sys_file o (stat_path pid) = Some (stat_line pid comm tail) →
  ∃ n t, f_read_string o (stat_path pid) 512 = (n, (decimal pid ++ 32 :: 40 :: comm) ++ 41 :: t) ∧
    4 < n ∧ Forall (λ c, c ≠ 41) t.
Proof.
  intros [Hp Hl Hc Ht] Hf. pose proof (decimal_len pid Hp) as Hd. set (head := decimal pid ++ 32 :: 40 :: comm).
  assert (length head = (length (decimal pid) + 2 + length comm)%nat) as Hh
    by (unfold head; rewrite length_app; cbn [length]; lia).
  set (t := take (510 - length head) (32 :: tail)).
  assert (take 511 (stat_line pid comm tail) = head ++ 41 :: t) as Htk.
  { change (stat_line pid comm tail) with (decimal pid ++ (32 :: 40 :: comm ++ 41 :: 32 :: tail)).
    change (32 :: 40 :: comm ++ 41 :: 32 :: tail) with ((32 :: 40 :: comm) ++ 41 :: 32 :: tail).
    rewrite app_assoc. fold head. rewrite take_app_ge by lia. f_equal.
    replace (511 - length head)%nat with (S (510 - length head)) by lia. done. }
  assert (Forall (λ c, c ≠ 0 ∧ c ≠ 41) t) as Ht'.
  { apply Forall_take. constructor; [lia | done]. }
  exists (Z.of_nat (length (head ++ 41 :: t))), t. split.
  - unfold f_read_string, f_read. change (512 <=? 0) with false. cbv iota. rewrite Hf.
    change (Z.to_nat (512 - 1)) with 511%nat. rewrite Htk. f_equal. apply c_string_id.
    apply Forall_app. split.
    + unfold head. apply Forall_app. split; [eapply Forall_impl; [by apply decimal_chars |]; cbn; lia |].
      by repeat (constructor; [lia |]).
    + constructor; [lia |]. eapply Forall_impl; [exact Ht' |]. by intros c [].
  - split; [| eapply Forall_impl; [exact Ht' |]; by intros c []].
    rewrite length_app, Hh. unfold t. replace (510 - length head)%nat with (S (509 - length head)) by lia.
    cbn [take length]. lia.
Qed.

(** psname reads back the name of a process, whatever characters it has. *)
Lemma psname_comm o pid comm tail buf :
  proc_ok pid comm tail → sys_file o (stat_path pid) = Some (stat_line pid comm tail) →
  length buf = 256%nat →
  psname o pid buf 256 = Ok (Some (comm ++ replicate (256 - length comm) 0)).
Proof.
  intros Hok Hf Hb. destruct (read_stat o pid comm tail Hok Hf) as (n & t & Hr & Hn & Ht).
  destruct Hok as [Hp Hl Hc _]. unfold psname. change (256 <=? 0) with false. cbv iota.
  rewrite wr_Ok, bind_Ok by lia. rewrite Hr, (proj2 (Z.ltb_lt _ _) Hn), strrchr_app by done.
  rewrite take_app_length. change (decimal pid ++ 32 :: 40 :: comm) with (decimal pid ++ [32] ++ 40 :: comm).
  rewrite app_assoc, strchr_app.
  2: { apply Forall_app. split; [eapply Forall_impl; [by apply decimal_chars |]; cbn; lia |].
       constructor; [lia | constructor]. }
  rewrite <- (app_assoc (decimal pid)), atoi_decimal, Z.eqb_refl by (done || by intros c cs [= <- _]).
  rewrite (app_assoc (decimal pid)).
  replace (drop (S (length (decimal pid ++ [32]))) ((decimal pid ++ [32]) ++ 40 :: comm)) with comm
    by (rewrite <- Nat.add_1_r, <- drop_drop, drop_app_length; done).
  assert (length (<[Z.to_nat 0 := 0]> buf) = 256%nat) as Hb' by (by rewrite length_insert).
  pose proof (strncpy_fits (<[Z.to_nat 0 := 0]> buf) comm ltac:(lia)) as E. rewrite Hb' in E.
  change (Z.of_nat 256) with 256 in E. by rewrite E.
Qed.

Lemma strtol_name pid : 0 < pid < 2 ^ 22 → strtol (decimal pid) = (pid, []).
Proof. intros Hp. rewrite <- (app_nil_r (decimal pid)). apply strtol_decimal; [lia | done]. Qed.

(** The processes with a name, in the order of the directory *)
Definition named (name : list Z) ps : list Z := (filter (λ p, p.2 = name) ps).*1.

Hypothesis memory : ∀ n, realloc_ok n = true.

Lemma pidof_loop_spec o name des : ∀ ps buf pids,
  filter (λ d, (strtol d).2 = []) des = decimal <$> ps.*1 →
  (∀ pid comm, (pid, comm) ∈ ps →
     ∃ tail, proc_ok pid comm tail ∧ sys_file o (stat_path pid) = Some (stat_line pid comm tail)) →
  Forall (λ c, c ≠ 0) name → length buf = 256%nat →
  pidof_loop realloc_ok o name des buf pids =
  Ok (Z.of_nat (length (pids ++ named name ps)), pids ++ named name ps).
Proof.
  induction des as [| de des IH]; intros ps buf pids Hdes Hst Hname Hbuf; cbn [pidof_loop].
  - destruct ps; [| done]. by rewrite app_nil_r.
  - rewrite filter_cons in Hdes. destruct (strtol de) as [i e] eqn:Hde.
    destruct e as [| c e]; cbn [snd] in Hdes; [| by apply IH].
    rewrite decide_True in Hdes by done. destruct ps as [| [pid comm] ps]; [done |].
    cbn in Hdes. injection Hdes as -> Hdes.
    destruct (Hst pid comm ltac:(by left)) as (tail & Hok & Hf). pose proof Hok as [Hp Hl Hc _].
    rewrite strtol_name in Hde by done. injection Hde as <-.
    rewrite s32_small by (unfold is_s32; cbn; lia). rewrite (psname_comm o pid comm tail buf) by done.
    rewrite bind_Ok. cbn [from_option_or]. rewrite bind_Ok.
    replace (256 - length comm)%nat with (S (255 - length comm)) by lia.
    rewrite strcmp_eq_spec, bind_Ok by done. unfold named. rewrite filter_cons. cbn [snd].
    assert (length (comm ++ replicate (S (255 - length comm)) 0) = 256%nat) as Hb2
      by (rewrite length_app, length_replicate; lia).
    destruct (decide (comm = name)) as [-> | Hne].
    + rewrite bool_decide_true, memory by done. rewrite (IH ps) by (done || intros; apply Hst; by right).
      cbn [fmap list_fmap fst]. by rewrite <- app_assoc.
    + rewrite bool_decide_false by congruence. apply IH; try done. intros; apply Hst. by right.
Qed.

Lemma pidof_all_spec o ps name buf :
  procfs o ps → Forall (λ c, c ≠ 0 ∧ c ≠ 47) name → length buf = 256%nat →
  pidof_all realloc_ok o name buf = Ok (Z.of_nat (length (named name ps)), named name ps).
Proof.
  intros [(des & Hd & Hf) Hst] Hn Hb. unfold pidof_all.
  assert (strchr name 47 = None) as ->.
  { clear -Hn. induction Hn as [| c name [_ Hc] _ IH]; [done |]. cbn. by rewrite (proj2 (Z.eqb_neq _ _) Hc), IH. }
  rewrite Hd. apply (pidof_loop_spec o name des ps buf []); try done.
  eapply Forall_impl; [exact Hn |]. by intros c [].
Qed.

Lemma pidof_spec o ps name buf :
  procfs o ps → Forall (λ c, c ≠ 0 ∧ c ≠ 47) name → length buf = 256%nat →
  pidof realloc_ok o name buf = Ok (default (-1) (head (named name ps))).
Proof.
  intros Hp Hn Hb. unfold pidof. rewrite (pidof_all_spec o ps) by done. rewrite bind_Ok.
  by destruct (named name ps).
Qed.

(** The signal goes to the processes one after the other; the results are
    combined. *)
Definition send_all o (sig : Z) (r : Z) (pids : list Z) : Z * os :=
  foldl (λ ro p, let '(k, o) := sys_kill ro.2 p sig in (Z.lor ro.1 k, o)) (r, o) pids.

Lemma kill_loop_spec i : ∀ o pids sig r,
  (i <= length pids)%nat → kill_loop o i pids sig r = Ok (send_all o sig r (rev (take i pids))).
Proof.
  induction i as [| i IH]; intros o pids sig r Hi; [done |]. cbn [kill_loop].
  destruct (lookup_lt_is_Some_2 pids i ltac:(lia)) as [p Hp].
  rewrite (proj2 (rd_Ok pids (Z.of_nat i) p)), bind_Ok by (split; [lia |]; by rewrite Nat2Z.id).
  rewrite (take_S_r _ _ _ Hp), rev_app_distr. unfold send_all. cbn [rev app foldl fst snd].
  destruct (sys_kill o p sig) as [k o']. apply IH. lia.
Qed.

Lemma killall_spec o ps name sig buf :
  procfs o ps → Forall (λ c, c ≠ 0 ∧ c ≠ 47) name → length buf = 256%nat →
  killall realloc_ok o name sig buf =
  Ok (match named name ps with [] => (-2, o) | pids => send_all o sig 0 (rev pids) end).
Proof.
  intros Hp Hn Hb. unfold killall. rewrite (pidof_all_spec o ps) by done. rewrite bind_Ok.
  destruct (named name ps) as [| p pids] eqn:E; [done |]. rewrite <- E.
  rewrite (proj2 (Z.ltb_lt _ _)) by (rewrite E; cbn; lia).
  by rewrite kill_loop_spec, Nat2Z.id, firstn_all by lia.
Qed.

(** A system where a signal or a pause starts no process, and a process is gone
    after SIGKILL. *)
Context (procs : os → list (Z * list Z)).
Hypothesis fs : ∀ o, procfs o (procs o).
Hypothesis kill_old : ∀ o p sig, procs (sys_kill o p sig).2 ⊆ procs o.
Hypothesis sleep_old : ∀ o t, procs (sys_usleep o t) ⊆ procs o.
Hypothesis sigkill : ∀ o p c, (p, c) ∉ procs (sys_kill o p SIGKILL).2.

Lemma elem_named name ps p : p ∈ named name ps ↔ (p, name) ∈ ps.
Proof.
  unfold named. rewrite list_elem_of_fmap. split.
  - intros ([p' c] & -> & H). apply list_elem_of_filter in H as [Hc H]. cbn in Hc. by subst.
  - intros H. exists (p, name). split; [done |]. by apply list_elem_of_filter.
Qed.

Lemma send_all_old sig pids : ∀ o r, procs (send_all o sig r pids).2 ⊆ procs o.
Proof.
  induction pids as [| p pids IH]; intros o r; [done |]. unfold send_all. cbn [foldl fst snd].
  pose proof (kill_old o p sig) as Hk. destruct (sys_kill o p sig) as [k o']. cbn in Hk.
  etrans; [apply IH | exact Hk].
Qed.

Lemma send_all_kills pids : ∀ o r p c,
  p ∈ pids → (p, c) ∉ procs (send_all o SIGKILL r pids).2.
Proof.
  induction pids as [| q pids IH]; intros o r p c Hp; [by apply not_elem_of_nil in Hp |].
  unfold send_all. cbn [foldl fst snd]. pose proof (sigkill o q c) as Hk.
  destruct (sys_kill o q SIGKILL) as [k o']. cbn in Hk.
  apply elem_of_cons in Hp as [-> | Hp]; [| by apply (IH o' (Z.lor r k))].
  intros Hin. apply Hk. by apply (send_all_old SIGKILL pids o' (Z.lor r k)).
Qed.

Section stopping.
Context (name buf : list Z) (Hname : Forall (λ c, c ≠ 0 ∧ c ≠ 47) name) (Hbuf : length buf = 256%nat).

(** The test [pidof(name) > 0] *)
Lemma pidof_positive o :
  ∃ p, pidof realloc_ok o name buf = Ok p ∧ (0 <? p) = bool_decide (named name (procs o) ≠ []).
Proof using All.
  rewrite (pidof_spec o (procs o)) by done. eexists. split; [done |].
  destruct (named name (procs o)) as [| p pids] eqn:E; [done |]. cbn.
  assert (p ∈ named name (procs o)) as Hp by (rewrite E; by left). apply elem_named in Hp.
  destruct (pf_stat _ _ (fs o) p name Hp) as (tail & [Hpid _ _ _] & _). apply Z.ltb_lt. lia.
Qed.

Lemma stop_loop_old d : ∀ o, ∃ o', stop_loop realloc_ok d o name buf = Ok o' ∧ procs o' ⊆ procs o.
Proof using All.
  induction d as [| d IH]; intros o; cbn [stop_loop]; destruct (pidof_positive o) as (p & -> & Hp);
    rewrite bind_Ok; destruct (0 <? p); eauto.
  destruct (IH (sys_usleep o (100 * 1000))) as (o' & -> & Ho). exists o'. split; [done |].
  etrans; [exact Ho | apply sleep_old].
Qed.

(** The last part of stop_process: what still runs is killed. *)
Lemma kill_rest o :
  ∃ o', (p ← pidof realloc_ok o name buf;
         if 0 <? p then '(_, o) ← killall realloc_ok o name SIGKILL buf; Ok (1, o) else Ok (1, o)) = Ok (1, o') ∧
    (∀ p, (p, name) ∉ procs o') ∧ procs o' ⊆ procs o.
Proof using All.
  destruct (pidof_positive o) as (p & -> & Hp0). rewrite bind_Ok, Hp0.
  case_bool_decide as Hne.
  - rewrite (killall_spec o (procs o)) by done.
    destruct (named name (procs o)) as [| q pids] eqn:E; [done |]. rewrite <- E.
    rewrite (surjective_pairing (send_all _ _ _ _)), bind_Ok. eexists. split; [done |].
    split; [| apply send_all_old]. intros r Hr.
    eapply (send_all_kills (rev (named name (procs o))) o 0 r name); [| exact Hr].
    apply list_elem_of_In, (proj1 (in_rev _ _)), list_elem_of_In, elem_named. eapply send_all_old, Hr.
  - exists o. split; [done |]. split; [| done]. intros r Hr.
    apply elem_named in Hr. rewrite Hne in Hr. by apply not_elem_of_nil in Hr.
Qed.


End stopping.

End processes.

(** A machine with one process, number 7 with the name of a shell, that ignores
    SIGTERM; [true] while it runs. *)
Definition one_process : System := {|
  os := bool;
  sys_file o path :=
    if o && bool_decide (path = stat_path 7) then Some (stat_line 7 (chars "(sh)") (chars "S 1")) else None;
  sys_readdir o _ := Some (chars "." :: (if o : bool then [decimal 7] else []) ++ [chars "self"]);
  sys_kill o p sig := if o && (p =? 7) && (sig =? SIGKILL) then (0, false) else (if o && (p =? 7) then 0 else -1, o);
  sys_usleep o _ := o
|}.

Definition one_procs (o : @os one_process) : list (Z * list Z) := if o : bool then [(7, chars "(sh)")] else [].

Lemma one_procfs o : procfs (Sy := one_process) o (one_procs o).
Proof.
  constructor.
  - eexists. split; [reflexivity |]. by destruct o.
  - intros pid comm Hin. destruct o; [| by apply not_elem_of_nil in Hin].
    apply list_elem_of_singleton in Hin. injection Hin as -> ->. exists (chars "S 1"). split; [| by vm_compute].
    split; [lia | vm_compute; lia | |]; repeat (constructor; [by vm_compute |]); constructor.
Qed.


(** ** Interface names *)

Lemma starts_with_length pre cs : starts_with pre cs = true → (length pre <= length cs)%nat.
Proof.
  revert cs. induction pre as [| p pre IH]; intros cs H; [cbn; lia |]. destruct cs as [| c cs]; [done |].
  cbn in *. apply andb_true_iff in H as [_ H]. apply IH in H. lia.
Qed.

Lemma strstr_bound cs needle e : strstr cs needle = Some e → (e + length needle <= length cs)%nat.
Proof.
  revert e. induction cs as [| c cs IH]; intros e; cbn [strstr].
  - destruct (starts_with needle []) eqn:E; [| done]. intros [= <-]. apply starts_with_length in E. lia.
  - destruct (starts_with needle (c :: cs)) eqn:E; [intros [= <-]; by apply starts_with_length in E |].
    destruct (strstr cs needle) as [e' |]; [| done]. cbn. intros [= <-]. specialize (IH e' eq_refl). cbn. lia.
Qed.

(** The name fits its block or nothing is stored. *)
Lemma get_ifname_safe name buf :
  ∃ found name', get_ifname name (Z.of_nat (length name)) buf = Ok (found, name') ∧ length name' = length name ∧
    (found = false → name' = name).
Proof.
  unfold get_ifname. destruct (strstr (skip_space buf) (chars ": ")) as [e |] eqn:He; [| eauto].
  apply strstr_bound in He. destruct (Z.ltb_spec (Z.of_nat (length name)) (Z.of_nat e + 1)) as [| Hfit]; [eauto |].
  rewrite wr_block_Ok, bind_Ok by (rewrite ?length_take; lia).
  assert (length (splice name 0 (take e (skip_space buf))) = length name) as Hl
    by (apply length_splice; rewrite ?length_take; lia).
  rewrite wr_Ok, bind_Ok by lia. do 2 eexists. split; [done |]. by rewrite length_insert.
Qed.

(** Whatever the file holds, sys_get_eth_ifname and sys_get_wlan_ifname end
    and never write outside the caller's buffer of [nsize] bytes; the result 1
    means that the buffer holds a name with the prefix, and 0 and -1 are the only
    other results. *)
Theorem find_ifname_safe prefix file name :
  ∃ r name', find_ifname prefix file name (Z.of_nat (length name)) = Ok (r, name') ∧ length name' = length name ∧
    ((r = 1 ∧ starts_with prefix (c_string name') = true) ∨ r = 0 ∨ (r = -1 ∧ file = None)).
Proof.
  unfold find_ifname. destruct file as [f |]; [| by eauto 8].
  generalize (length f) as k. intros k. revert f name.
  induction k as [| k IH]; intros f name; cbn [ifname_loop]; [by eauto 8 |].
  destruct f as [| c f]; [by eauto 8 |]. destruct (fgets 255 (c :: f)) as [line f'].
  destruct (_ <? 2).
  { destruct (IH f' name) as (r & n' & E & Hl & [? | [? | [? ?]]]); eauto 8. done. }
  destruct (get_ifname_safe name (c_string line)) as (found & n1 & -> & Hl & _). rewrite bind_Ok.
  destruct (found && starts_with prefix (c_string n1)) eqn:Hf.
  - apply andb_true_iff in Hf as [_ Hf]. by eauto 8.
  - destruct (IH f' n1) as (r & n' & E & Hl' & H). rewrite Hl in E, Hl'. exists r, n'. split; [done |].
    split; [done |]. destruct H as [? | [? | [? ?]]]; eauto. done.
Qed.

(** ** Netmasks *)

(** The mask of a prefix of [n] bits, as four bytes *)
Definition prefix_mask (n : Z) : list Z := be_bytes 4 (2 ^ 32 - 2 ^ (32 - n)).

(** The number of bits that getmask counts in a netmask, written in dotted
    notation, is the length of its prefix. *)
Theorem getmask_prefix n : 0 ≤ n ≤ 32 → getmask (dotted (prefix_mask n)) = n.
Proof.
  intros Hn. assert (forallb (λ k, getmask (dotted (prefix_mask (Z.of_nat k))) =? Z.of_nat k) (seq 0 33) = true) as H
    by by vm_compute.
  rewrite forallb_forall in H. specialize (H (Z.to_nat n)). rewrite Z2Nat.id in H by lia.
  apply Z.eqb_eq, H, in_seq. lia.
Qed.

Lemma getmask_prefix_witness : getmask (chars "255.255.240.0") = 20.
Proof. change (chars "255.255.240.0") with (dotted (prefix_mask 20)). apply (getmask_prefix 20). lia. Defined.

(** ** The clock *)

Definition micros (tv : timeval) : Z := tv_sec tv * 1000000 + tv_usec tv.
Definition normal (tv : timeval) : Prop := 0 ≤ tv_usec tv < 1000000.

(** For 24 days get_tick_1khz is the number of milliseconds since
    clktick_init, with an error below one millisecond; then the [int] wraps and
    the clock is negative. *)
Theorem get_tick_1khz_elapsed t0 t :
  normal t0 → normal t → micros t0 ≤ micros t →
  (micros t - micros t0 < 1000 * (2 ^ 31 - 1) → Z.abs (1000 * get_tick_1khz t0 t - (micros t - micros t0)) < 1000) ∧
  (1000 * (2 ^ 31 + 1) ≤ micros t - micros t0 < 1000 * (2 ^ 32 - 1) → get_tick_1khz t0 t < 0).
Proof.
  unfold normal, micros, get_tick_1khz. intros H0 H1 Hle.
  set (ds := tv_sec t - tv_sec t0). set (du := tv_usec t - tv_usec t0).
  pose proof (Z.quot_rem du 1000 ltac:(lia)) as Hq. pose proof (Z.rem_bound_abs du 1000 ltac:(lia)) as Hr.
  set (q := Z.quot du 1000) in *.
  assert (micros t - micros t0 = ds * 1000000 + du) as He by (unfold micros, ds, du; lia). unfold micros in He.
  rewrite He. split; intros Hb.
  - rewrite s32_small by (unfold is_s32; cbn; lia). lia.
  - assert (2 ^ 31 ≤ ds * 1000 + q < 2 ^ 32) as Hz by lia. unfold s32. rewrite Z.mod_small by lia.
    destruct (Z.ltb_spec (ds * 1000 + q) (2 ^ 31)); lia.
Qed.

Lemma get_tick_1khz_elapsed_witness :
  Z.abs (1000 * get_tick_1khz (mkTimeval 10 999000) (mkTimeval 12 1000) - 1002000) < 1000 ∧
  get_tick_1khz (mkTimeval 0 0) (mkTimeval 2147484 0) < 0.
Proof.
  split.
  - apply (get_tick_1khz_elapsed (mkTimeval 10 999000) (mkTimeval 12 1000)); unfold normal, micros; cbn; lia.
  - apply (get_tick_1khz_elapsed (mkTimeval 0 0) (mkTimeval 2147484 0)); unfold normal, micros; cbn; lia.
Defined.

(** ** Buffers of commands *)

(** The array of get_eth_link is too small: an interface name of 8 to 15
    characters, which the kernel allows, makes sprintf write behind it, and
    shorter names do not. *)
Theorem get_eth_link_overflows popen name :
  (8 ≤ length name)%nat ↔ get_eth_link popen name = Fail OutOfBounds.
Proof.
  unfold get_eth_link, sprintf. rewrite !length_app.
  change (length (chars "ifconfig ")) with 9%nat. change (length (chars " | grep RUNNING")) with 15%nat.
  destruct (Z.ltb_spec (Z.of_nat (9 + (length name + 15))) 32); cbn; split; try done; lia.
Qed.
