(* ===== verification/CommonProc.v ===== *)
(** Child processes of lib/common.c: _evalpid and _eval, with the descriptor table
    of the child up to its execvp, and the small functions about files and the
    clock that ask the system one question. *)

From Stdlib Require Ascii String.
From S2P Require Import Prelude Cstring Common.

Import String.StringSyntax.
Local Open Scope string_scope.
Local Open Scope Z_scope.

(** ** Descriptors of a process *)

(** A descriptor is open on a path with flags. *)
Record ofile := mkOfile { of_path : list Z; of_flags : Z }.
#[export] Instance ofile_eq_dec : EqDecision ofile.
Proof. solve_decision. Defined.

Definition O_RDONLY : Z := 0.
Definition O_WRONLY : Z := 1.
Definition O_RDWR : Z := 2.
Definition O_CREAT : Z := 64.
Definition O_TRUNC : Z := 512.
Definition O_APPEND : Z := 1024.

Section process.
(** What the system answers: whether a path can be opened. *)
Context (can_open : list Z → Z → bool).
Implicit Types (fds : gmap Z ofile).

(** The lowest free number from [i] on: there is one among the first
    [size fds + 1]. *)
Fixpoint lowest (k : nat) (i : Z) fds : Z :=
  match k with
  | O => i
  | S k => if fds !! i is Some _ then lowest k (i + 1) fds else i
  end.

Definition open_path fds (path : list Z) (flags : Z) : Z * gmap Z ofile :=
  if can_open path flags then
    let fd := lowest (S (size fds)) 0 fds in (fd, <[fd := mkOfile path flags]> fds)
  else (-1, fds).

Definition dup2 fds (oldfd newfd : Z) : gmap Z ofile :=
  match fds !! oldfd with Some f => <[newfd := f]> fds | None => fds end.

(** ** The child *)

Definition console : list Z := chars "/dev/console".
Definition null : list Z := chars "/dev/null".

(** Standard input, output and error are closed and opened again. *)
Definition child_stdio fds : gmap Z ofile :=
  let fds := delete 2 (delete 1 (delete 0 fds)) in
  let '(fd, fds) := open_path fds console O_RDWR in
  if fd <? 0 then
    let '(_, fds) := open_path fds null O_RDONLY in
    let '(_, fds) := open_path fds null O_WRONLY in
    let '(_, fds) := open_path fds null O_WRONLY in
    fds
  else
    let fds := delete fd fds in
    let '(_, fds) := open_path fds console O_RDONLY in
    let '(_, fds) := open_path fds console O_WRONLY in
    let '(_, fds) := open_path fds console O_WRONLY in
    fds.

(** [>>file] appends and [>file] overwrites. *)
Definition redirect_target (path : list Z) : list Z * Z :=
  let flags := Z.lor O_WRONLY O_CREAT in
  if starts_with (chars ">>") path then (drop 2 path, Z.lor flags O_APPEND)
  else if starts_with (chars ">") path then (drop 1 path, Z.lor flags O_TRUNC)
  else (path, flags).

Definition redirect fds (path : option (list Z)) : gmap Z ofile :=
  match path with
  | None => fds
  | Some path =>
      let '(path, flags) := redirect_target path in
      let '(fd, fds) := open_path fds path flags in
      if fd <? 0 then fds else delete fd (dup2 fds fd 1)
  end.

(** The descriptors with which execvp is called. *)
Definition evalpid_child fds (path : option (list Z)) : gmap Z ofile := redirect (child_stdio fds) path.

(** ** The parent *)

Definition WIFEXITED (status : Z) : bool := Z.land status 127 =? 0.
Definition WEXITSTATUS (status : Z) : Z := Z.land (Z.shiftr status 8) 255.

(** [pid]: what fork returns; [status]: what waitpid stores.  The results are the
    return value and the value stored through [ppid]. *)
Definition evalpid_parent (pid errno status : Z) (ppid : bool) : Z * option Z :=
  if pid =? -1 then (errno, None)
  else if ppid then (0, Some pid)
  else if WIFEXITED status then (WEXITSTATUS status, None) else (status, None).

Definition eval_child fds : gmap Z ofile := evalpid_child fds (Some (chars ">/dev/console")).

End process.

(** ** Questions to the system *)

(** stat: the mode of the file, if there is one.  Anything but a directory. *)
Definition f_exists (stat : list Z → option Z) (path : list Z) : bool :=
  match stat path with Some mode => negb (Z.land mode 61440 =? 16384) | None => false end.

Definition clktick_init (tv : timeval) : timeval := tv.

(** The parameter is overwritten, not the structure it points to. *)
Definition get_sys_date (tm now : list Z) : list Z := tm.

Definition check_wan_link (num : Z) : Z := 1.

(** The words of a string *)
Fixpoint next_word (cs : list Z) : list Z :=
  match cs with
  | [] => []
  | c :: cs => if isspace c then [] else c :: next_word cs
  end.
Fixpoint drop_word (cs : list Z) : list Z :=
  match cs with
  | [] => []
  | c :: cs => if isspace c then c :: cs else drop_word cs
  end.

(** sscanf(out, "%*s %s", line): the second word of [out] is stored in [line], the
    254 characters the file's first line was read into. *)
Definition find_name_by_proc (file : option (list Z)) (out : option (list Z)) : res (option (list Z)) :=
  match out with
  | None => Ok None
  | Some out =>
      match file with
      | None => Ok None
      | Some [] => Ok None
      | Some _ =>
          _ ← sprintf 254 (next_word (skip_space (drop_word (skip_space out))));
          Ok (Some out)
      end
  end.

(** ** What the child gets *)

Section child.
Context (can_open : list Z → Z → bool).
Implicit Types (fds : gmap Z ofile).

(** The lowest free number, when [d] is a free one. *)
Lemma lowest_free k : ∀ i fds d,
  fds !! d = None → i ≤ d < i + Z.of_nat k → fds !! lowest k i fds = None ∧ i ≤ lowest k i fds ≤ d.
Proof.
  induction k as [| k IH]; intros i fds d Hd Hr; cbn [lowest]; [lia |].
  destruct (fds !! i) as [f |] eqn:Hi; [| split; [done | lia]].
  destruct (decide (i = d)) as [-> |]; [congruence |].
  destruct (IH (i + 1) fds d Hd) as [H1 H2]; [lia |]. split; [done | lia].
Qed.

Lemma used_size fds (n : nat) : (∀ i, (i < n)%nat → is_Some (fds !! Z.of_nat i)) → (n ≤ size fds)%nat.
Proof.
  intros Hlt. assert (list_to_set (Z.of_nat <$> seq 0 n) ⊆ dom fds) as Hsub.
  { intros x [j [-> Hj%elem_of_seq]]%elem_of_list_to_set%list_elem_of_fmap. apply elem_of_dom, Hlt. lia. }
  apply subseteq_size in Hsub. rewrite size_dom, size_list_to_set, length_fmap, length_seq in Hsub; [done |].
  apply NoDup_fmap_2; [apply _ | apply NoDup_seq].
Qed.

(** So one of the first [size fds + 1] numbers is free. *)
Lemma lowest_spec fds : let fd := lowest (S (size fds)) 0 fds in fds !! fd = None ∧ 0 ≤ fd.
Proof.
  destruct (decide (Exists (λ i, fds !! Z.of_nat i = None) (seq 0 (S (size fds))))) as [He | Hn].
  - apply Exists_exists in He as (d & Hd%elem_of_seq & Hf).
    destruct (lowest_free (S (size fds)) 0 fds (Z.of_nat d) Hf) as [H1 H2]; [lia |]. split; [done | lia].
  - exfalso. enough (S (size fds) ≤ size fds)%nat by lia. apply used_size. intros i Hi.
    apply not_eq_None_Some. intros Hz. apply Hn, Exists_exists. exists i. split; [apply elem_of_seq; lia | done].
Qed.

(** Opening with the numbers below [n] taken and [n] free. *)
Lemma open_path_at fds path flags (n : nat) :
  can_open path flags = true → (∀ i, (i < n)%nat → is_Some (fds !! Z.of_nat i)) → fds !! Z.of_nat n = None →
  open_path can_open fds path flags = (Z.of_nat n, <[Z.of_nat n := mkOfile path flags]> fds).
Proof.
  intros Hc Hlt Hn. unfold open_path. rewrite Hc.
  enough (lowest (S (size fds)) 0 fds = Z.of_nat n) as -> by done.
  pose proof (used_size fds n Hlt) as Hsz.
  destruct (lowest_free (S (size fds)) 0 fds (Z.of_nat n) Hn) as [Hf Hle]; [lia |].
  destruct (decide (lowest (S (size fds)) 0 fds = Z.of_nat n)) as [-> | Hne]; [done |].
  destruct (Hlt (Z.to_nat (lowest (S (size fds)) 0 fds))) as [f Hf']; [lia |].
  rewrite Z2Nat.id in Hf' by lia. congruence.
Qed.

(** Three opens in a row on a table without the standard descriptors. *)
Lemma open_three fds dev fl0 fl1 fl2 :
  (∀ i, 0 ≤ i < 3 → fds !! i = None) →
  can_open dev fl0 = true → can_open dev fl1 = true → can_open dev fl2 = true →
  (let '(_, fds) := open_path can_open fds dev fl0 in
   let '(_, fds) := open_path can_open fds dev fl1 in
   let '(_, fds) := open_path can_open fds dev fl2 in fds)
  = <[2 := mkOfile dev fl2]> (<[1 := mkOfile dev fl1]> (<[0 := mkOfile dev fl0]> fds)).
Proof.
  intros Hf H0 H1 H2.
  rewrite (open_path_at fds dev fl0 0) by (done || lia || by apply Hf). cbn [Z.of_nat].
  rewrite (open_path_at _ dev fl1 1); [cbn [Z.of_nat] | done | |].
  - rewrite (open_path_at _ dev fl2 2); [done | done | |].
    + intros i Hi. destruct i as [| [| i]]; [by simplify_map_eq.. | lia].
    + rewrite !lookup_insert_ne by (cbn; lia). by apply Hf.
  - intros i Hi. destruct i as [| i]; [by simplify_map_eq | lia].
  - rewrite lookup_insert_ne by (cbn; lia). by apply Hf.
Qed.

(** The device on which the standard descriptors are opened. *)
Definition stdio_dev : list Z := if can_open console O_RDWR then console else null.

Lemma child_stdio_opens fds :
  can_open stdio_dev O_RDONLY = true → can_open stdio_dev O_WRONLY = true →
  child_stdio can_open fds = <[2 := mkOfile stdio_dev O_WRONLY]> (<[1 := mkOfile stdio_dev O_WRONLY]>
    (<[0 := mkOfile stdio_dev O_RDONLY]> (delete 2 (delete 1 (delete 0 fds))))).
Proof.
  intros Hr Hw. unfold child_stdio, stdio_dev in *. set (base := delete 2 _).
  assert (∀ i, 0 ≤ i < 3 → base !! i = None) as Hb.
  { intros i Hi. unfold base. assert (i = 0 ∨ i = 1 ∨ i = 2) as [-> | [-> | ->]] by lia; by simplify_map_eq. }
  destruct (can_open console O_RDWR) eqn:Hc.
  - rewrite (open_path_at base console O_RDWR 0) by (done || lia || by apply Hb). cbn [Z.of_nat Z.ltb Z.compare].
    rewrite delete_insert_id by (by apply Hb). by apply open_three.
  - unfold open_path at 1. rewrite Hc. cbn [Z.ltb Z.compare]. by apply open_three.
Qed.

End child.


(** find_name_by_proc never stores the name it is asked for: what it returns is
    its argument, unchanged. *)
Lemma find_name_by_proc_nothing file out r :
  find_name_by_proc file (Some out) = Ok r → r = None ∨ r = Some out.
Proof.
  unfold find_name_by_proc. destruct file as [[| c cs] |]; [intros [= <-]; auto | | intros [= <-]; auto].
  intros H. apply bind_Ok_inv in H as (w & _ & [= <-]). auto.
Qed.
