(* ===== verification/Stream.v ===== *)
(** Packet buffers: [struct stream] and the operations of lib/stream.c on one
    buffer.

    A stream is a record with the fields of include/stream.h; the block its
    [data] points to is the list of its bytes.  The [assert] of these files is
    the one of include/zebra.h, [#define assert(x) (x)], so a failed check only
    logs: every out-of-bounds branch goes on to its [return] statement, and the
    definitions return what it returns.  An access outside the block is
    [Fail OutOfBounds]. *)

From S2P Require Import Prelude Sockunion.

Local Open Scope Z_scope.

(** ** The structure *)

Record stream := mkStream {
  s_next : option loc;  (* link to next packet *)
  s_owner : Z;
  s_type : Z;  (* dst type *)
  s_stype : Z;  (* src type *)
  s_su : sockunion;
  s_dsu : sockunion;
  s_plen : Z;
  s_rlen : Z;  (* next read len *)
  s_flag : Z;
  s_src : Z;
  s_dst : Z;
  s_mark : Z;
  s_interval : Z;  (* used when as timer msg *)
  s_repeat : Z;
  s_nid : Z;  (* id for the node *)
  s_sid : Z;  (* session of the packet *)
  s_seq : Z;  (* seq of the packet *)
  s_edata : list (option loc);  (* private data for every event *)
  s_getp : Z;  (* next get position *)
  s_endp : Z;  (* last valid data position *)
  s_size : Z;  (* size of data segment *)
  s_data : list Z;  (* the block data points to *)
}.

(** Assignment to one field, [s->f = v]. *)

Definition set_next (v : option loc) (s : stream) : stream :=
  mkStream
    v (s_owner s) (s_type s) (s_stype s) (s_su s) (s_dsu s) (s_plen s) (s_rlen s)
    (s_flag s) (s_src s) (s_dst s) (s_mark s) (s_interval s) (s_repeat s) (s_nid s)
    (s_sid s) (s_seq s) (s_edata s) (s_getp s) (s_endp s) (s_size s) (s_data s).
Definition set_type (v : Z) (s : stream) : stream :=
  mkStream
    (s_next s) (s_owner s) v (s_stype s) (s_su s) (s_dsu s) (s_plen s) (s_rlen s)
    (s_flag s) (s_src s) (s_dst s) (s_mark s) (s_interval s) (s_repeat s) (s_nid s)
    (s_sid s) (s_seq s) (s_edata s) (s_getp s) (s_endp s) (s_size s) (s_data s).
Definition set_stype (v : Z) (s : stream) : stream :=
  mkStream
    (s_next s) (s_owner s) (s_type s) v (s_su s) (s_dsu s) (s_plen s) (s_rlen s)
    (s_flag s) (s_src s) (s_dst s) (s_mark s) (s_interval s) (s_repeat s) (s_nid s)
    (s_sid s) (s_seq s) (s_edata s) (s_getp s) (s_endp s) (s_size s) (s_data s).
Definition set_su (v : sockunion) (s : stream) : stream :=
  mkStream
    (s_next s) (s_owner s) (s_type s) (s_stype s) v (s_dsu s) (s_plen s) (s_rlen s)
    (s_flag s) (s_src s) (s_dst s) (s_mark s) (s_interval s) (s_repeat s) (s_nid s)
    (s_sid s) (s_seq s) (s_edata s) (s_getp s) (s_endp s) (s_size s) (s_data s).
Definition set_dsu (v : sockunion) (s : stream) : stream :=
  mkStream
    (s_next s) (s_owner s) (s_type s) (s_stype s) (s_su s) v (s_plen s) (s_rlen s)
    (s_flag s) (s_src s) (s_dst s) (s_mark s) (s_interval s) (s_repeat s) (s_nid s)
    (s_sid s) (s_seq s) (s_edata s) (s_getp s) (s_endp s) (s_size s) (s_data s).
Definition set_rlen (v : Z) (s : stream) : stream :=
  mkStream
    (s_next s) (s_owner s) (s_type s) (s_stype s) (s_su s) (s_dsu s) (s_plen s) v
    (s_flag s) (s_src s) (s_dst s) (s_mark s) (s_interval s) (s_repeat s) (s_nid s)
    (s_sid s) (s_seq s) (s_edata s) (s_getp s) (s_endp s) (s_size s) (s_data s).
Definition set_flag (v : Z) (s : stream) : stream :=
  mkStream
    (s_next s) (s_owner s) (s_type s) (s_stype s) (s_su s) (s_dsu s) (s_plen s)
    (s_rlen s) v (s_src s) (s_dst s) (s_mark s) (s_interval s) (s_repeat s) (s_nid s)
    (s_sid s) (s_seq s) (s_edata s) (s_getp s) (s_endp s) (s_size s) (s_data s).
Definition set_src (v : Z) (s : stream) : stream :=
  mkStream
    (s_next s) (s_owner s) (s_type s) (s_stype s) (s_su s) (s_dsu s) (s_plen s)
    (s_rlen s) (s_flag s) v (s_dst s) (s_mark s) (s_interval s) (s_repeat s) (s_nid s)
    (s_sid s) (s_seq s) (s_edata s) (s_getp s) (s_endp s) (s_size s) (s_data s).
Definition set_dst (v : Z) (s : stream) : stream :=
  mkStream
    (s_next s) (s_owner s) (s_type s) (s_stype s) (s_su s) (s_dsu s) (s_plen s)
    (s_rlen s) (s_flag s) (s_src s) v (s_mark s) (s_interval s) (s_repeat s) (s_nid s)
    (s_sid s) (s_seq s) (s_edata s) (s_getp s) (s_endp s) (s_size s) (s_data s).
Definition set_mark (v : Z) (s : stream) : stream :=
  mkStream
    (s_next s) (s_owner s) (s_type s) (s_stype s) (s_su s) (s_dsu s) (s_plen s)
    (s_rlen s) (s_flag s) (s_src s) (s_dst s) v (s_interval s) (s_repeat s) (s_nid s)
    (s_sid s) (s_seq s) (s_edata s) (s_getp s) (s_endp s) (s_size s) (s_data s).
Definition set_nid (v : Z) (s : stream) : stream :=
  mkStream
    (s_next s) (s_owner s) (s_type s) (s_stype s) (s_su s) (s_dsu s) (s_plen s)
    (s_rlen s) (s_flag s) (s_src s) (s_dst s) (s_mark s) (s_interval s) (s_repeat s) v
    (s_sid s) (s_seq s) (s_edata s) (s_getp s) (s_endp s) (s_size s) (s_data s).
Definition set_sid (v : Z) (s : stream) : stream :=
  mkStream
    (s_next s) (s_owner s) (s_type s) (s_stype s) (s_su s) (s_dsu s) (s_plen s)
    (s_rlen s) (s_flag s) (s_src s) (s_dst s) (s_mark s) (s_interval s) (s_repeat s)
    (s_nid s) v (s_seq s) (s_edata s) (s_getp s) (s_endp s) (s_size s) (s_data s).
Definition set_seq (v : Z) (s : stream) : stream :=
  mkStream
    (s_next s) (s_owner s) (s_type s) (s_stype s) (s_su s) (s_dsu s) (s_plen s)
    (s_rlen s) (s_flag s) (s_src s) (s_dst s) (s_mark s) (s_interval s) (s_repeat s)
    (s_nid s) (s_sid s) v (s_edata s) (s_getp s) (s_endp s) (s_size s) (s_data s).
Definition set_getp (v : Z) (s : stream) : stream :=
  mkStream
    (s_next s) (s_owner s) (s_type s) (s_stype s) (s_su s) (s_dsu s) (s_plen s)
    (s_rlen s) (s_flag s) (s_src s) (s_dst s) (s_mark s) (s_interval s) (s_repeat s)
    (s_nid s) (s_sid s) (s_seq s) (s_edata s) v (s_endp s) (s_size s) (s_data s).
Definition set_endp (v : Z) (s : stream) : stream :=
  mkStream
    (s_next s) (s_owner s) (s_type s) (s_stype s) (s_su s) (s_dsu s) (s_plen s)
    (s_rlen s) (s_flag s) (s_src s) (s_dst s) (s_mark s) (s_interval s) (s_repeat s)
    (s_nid s) (s_sid s) (s_seq s) (s_edata s) (s_getp s) v (s_size s) (s_data s).
Definition set_size (v : Z) (s : stream) : stream :=
  mkStream
    (s_next s) (s_owner s) (s_type s) (s_stype s) (s_su s) (s_dsu s) (s_plen s)
    (s_rlen s) (s_flag s) (s_src s) (s_dst s) (s_mark s) (s_interval s) (s_repeat s)
    (s_nid s) (s_sid s) (s_seq s) (s_edata s) (s_getp s) (s_endp s) v (s_data s).
Definition set_data (v : list Z) (s : stream) : stream :=
  mkStream
    (s_next s) (s_owner s) (s_type s) (s_stype s) (s_su s) (s_dsu s) (s_plen s)
    (s_rlen s) (s_flag s) (s_src s) (s_dst s) (s_mark s) (s_interval s) (s_repeat s)
    (s_nid s) (s_sid s) (s_seq s) (s_edata s) (s_getp s) (s_endp s) (s_size s) v.

(** ** Utility macros *)

(* STREAM_SIZE, STREAM_WRITEABLE, STREAM_READABLE: size_t arithmetic *)
Definition STREAM_SIZE (s : stream) : Z := s_size s.
Definition STREAM_WRITEABLE (s : stream) : Z := u64 (s_size s - s_endp s).
Definition STREAM_READABLE (s : stream) : Z := u64 (s_endp s - s_getp s).

Definition GETP_VALID (s : stream) (g : Z) : bool := g <=? s_endp s.
Definition PUT_AT_VALID (s : stream) (g : Z) : bool := GETP_VALID s g.
Definition ENDP_VALID (s : stream) (e : Z) : bool := e <=? s_size s.

(** CHECK_SIZE(S, Z): the size that [Z] holds afterwards. *)
Definition CHECK_SIZE (s : stream) (z : Z) : Z :=
  if u64 (s_endp s + z) >? s_size s then u64 (s_size s - s_endp s) else z.

Definition MISAKA_MAX_PACKET_SIZE : Z := 256.
Definition MISAKA_HEADER_SIZE : Z := 8.

(** ** Memory steps the operations share *)

(** [s->data[s->getp++]] *)
Definition next_byte (s : stream) : res (Z * stream) :=
  b ← rd (s_data s) (s_getp s); Ok (b, set_getp (u64 (s_getp s + 1)) s).

(** [s->data[s->endp++] = b] *)
Definition push_byte (b : Z) (s : stream) : res stream :=
  d ← wr (s_data s) (s_endp s) (u8 b);
  Ok (set_endp (u64 (s_endp s + 1)) (set_data d s)).

(** [s->data[p] = b] *)
Definition poke_byte (p b : Z) (s : stream) : res stream :=
  d ← wr (s_data s) p (u8 b); Ok (set_data d s).

(** [memcpy (s->data + s->endp, src, n); s->endp += n] *)
Definition push_block (bs : list Z) (n : Z) (s : stream) : res stream :=
  src ← rd_block bs 0 n;
  d ← wr_block (s_data s) (s_endp s) src;
  Ok (set_endp (u64 (s_endp s + n)) (set_data d s)).

(** The four bytes of a [u32] in memory, on either kind of host. *)
Inductive byte_order := LITTLE_ENDIAN | BIG_ENDIAN.

Definition host_bytes (o : byte_order) (l : Z) : list Z :=
  let be := [u8 (Z.shiftr l 24); u8 (Z.shiftr l 16); u8 (Z.shiftr l 8); u8 l] in
  match o with BIG_ENDIAN => be | LITTLE_ENDIAN => reverse be end.

Definition host_word (o : byte_order) (bs : list Z) : Z :=
  let be bs := fold_left (λ acc b, Z.lor (Z.shiftl acc 8) b) bs 0 in
  match o with BIG_ENDIAN => be bs | LITTLE_ENDIAN => be (reverse bs) end.

(** ** Creation and sizing

    What an allocation returned is an argument: [None] is NULL, [Some] the
    indeterminate contents of the new object.  XMALLOC and XREALLOC take an
    [int], so a request of [n] bytes asks the C library for [alloc_size n]. *)

Definition alloc_size (n : Z) : Z := u64 (s32 n).

Definition stream_new (size : Z) (obj : option stream) (blk : option (list Z))
    : option stream :=
  if size =? 0 then None else
  match obj with
  | None => None
  | Some s =>
      match blk with
      | None => None
      | Some d =>
          Some (set_size size (set_next None (set_mark 0 (set_type 0
                 (set_endp 0 (set_getp 0 (set_data d s)))))))
      end
  end.

Definition stream_copy (new src : stream) : res stream :=
  let new := set_getp (s_getp src) (set_endp (s_endp src) new) in
  bs ← rd_block (s_data src) 0 (s_endp src);
  d ← wr_block (s_data new) 0 bs;
  Ok (set_data d new).

Definition stream_dup (s : stream) (obj : option stream) (blk : option (list Z))
    : res (option stream) :=
  match stream_new (s_endp s) obj blk with
  | None => Ok None
  | Some new => new' ← stream_copy new s; Ok (Some new')
  end.

(** [tail]: the indeterminate bytes realloc appends when the block grows. *)
Definition realloc_block (d : list Z) (n : Z) (tail : list Z) : list Z :=
  take (Z.to_nat n) (d ++ tail).

Definition stream_resize (s : stream) (newsize : Z) (tail : option (list Z))
    : Z * stream :=
  match tail with
  | None => (s_size s, s)
  | Some t =>
      let s := set_data (realloc_block (s_data s) (alloc_size newsize) t) s in
      let s := set_size newsize s in
      let s := if s_endp s >? s_size s then set_endp (s_size s) s else s in
      let s := if s_getp s >? s_endp s then set_getp (s_endp s) s else s in
      (s_size s, s)
  end.

(** ** Positions *)

Definition stream_get_getp (s : stream) : Z := s_getp s.
Definition stream_get_endp (s : stream) : Z := s_endp s.
Definition stream_get_size (s : stream) : Z := s_size s.

Definition stream_set_getp (s : stream) (pos : Z) : stream :=
  let pos := if GETP_VALID s pos then pos else s_endp s in set_getp pos s.

Definition stream_forward_getp (s : stream) (size : Z) : stream :=
  if GETP_VALID s (u64 (s_getp s + size)) then set_getp (u64 (s_getp s + size)) s else s.

(** [size] is an [int]: it is sign-extended before the addition. *)
Definition stream_forward (s : stream) (size : Z) : stream :=
  set_getp (u64 (s_getp s + size)) s.

Definition stream_forward_endp (s : stream) (size : Z) : stream :=
  if ENDP_VALID s (u64 (s_endp s + size)) then set_endp (u64 (s_endp s + size)) s else s.

Definition stream_empty (s : stream) : bool := s_endp s =? 0.

Definition stream_reset (s : stream) : stream := set_endp 0 (set_getp 0 s).

(** [stream_pnt]: the bytes from [data + getp] to the end of the block. *)
Definition stream_pnt (s : stream) : list Z := drop (Z.to_nat (s_getp s)) (s_data s).

(** ** Reading *)

Definition stream_get (s : stream) (size : Z) : res (option (list Z) * stream) :=
  if STREAM_READABLE s <? size then Ok (None, s) else
  bs ← rd_block (s_data s) (s_getp s) size;
  Ok (Some bs, set_getp (u64 (s_getp s + size)) s).

Definition stream_getc (s : stream) : res (Z * stream) :=
  if STREAM_READABLE s <? 1 then Ok (0, s) else next_byte s.

Definition stream_getc_from (s : stream) (from : Z) : res Z :=
  if negb (GETP_VALID s (u64 (from + 1))) then Ok 0 else rd (s_data s) from.

Definition stream_getw (s : stream) : res (Z * stream) :=
  if STREAM_READABLE s <? 2 then Ok (0, s) else
  '(b0, s) ← next_byte s; let w := u16 (Z.shiftl b0 8) in
  '(b1, s) ← next_byte s; let w := u16 (Z.lor w b1) in
  Ok (w, s).

Definition stream_getw_from (s : stream) (from : Z) : res Z :=
  if negb (GETP_VALID s (u64 (from + 2))) then Ok 0 else
  b0 ← rd (s_data s) from; let w := u16 (Z.shiftl b0 8) in
  b1 ← rd (s_data s) (u64 (from + 1)); Ok (u16 (Z.lor w b1)).

Definition stream_getl (s : stream) : res (Z * stream) :=
  if STREAM_READABLE s <? 4 then Ok (0, s) else
  '(b0, s) ← next_byte s; let l := u32 (Z.shiftl b0 24) in
  '(b1, s) ← next_byte s; let l := u32 (Z.lor l (Z.shiftl b1 16)) in
  '(b2, s) ← next_byte s; let l := u32 (Z.lor l (Z.shiftl b2 8)) in
  '(b3, s) ← next_byte s; let l := u32 (Z.lor l b3) in
  Ok (l, s).

Definition stream_getl_from (s : stream) (from : Z) : res Z :=
  if negb (GETP_VALID s (u64 (from + 4))) then Ok 0 else
  b0 ← rd (s_data s) from; let l := u32 (Z.shiftl b0 24) in
  b1 ← rd (s_data s) (u64 (from + 1)); let l := u32 (Z.lor l (Z.shiftl b1 16)) in
  b2 ← rd (s_data s) (u64 (from + 2)); let l := u32 (Z.lor l (Z.shiftl b2 8)) in
  b3 ← rd (s_data s) (u64 (from + 3)); Ok (u32 (Z.lor l b3)).

(** [q |= ((u64) b) << k] *)
Definition or_byte (q b k : Z) : Z := Z.lor q (u64 (Z.shiftl b k)).

Definition stream_getq (s : stream) : res (Z * stream) :=
  if STREAM_READABLE s <? 8 then Ok (0, s) else
  '(b, s) ← next_byte s; let q := u64 (Z.shiftl b 56) in
  '(b, s) ← next_byte s; let q := or_byte q b 48 in
  '(b, s) ← next_byte s; let q := or_byte q b 40 in
  '(b, s) ← next_byte s; let q := or_byte q b 32 in
  '(b, s) ← next_byte s; let q := or_byte q b 24 in
  '(b, s) ← next_byte s; let q := or_byte q b 16 in
  '(b, s) ← next_byte s; let q := or_byte q b 8 in
  '(b, s) ← next_byte s; let q := or_byte q b 0 in
  Ok (q, s).

Definition stream_getq_from (s : stream) (from : Z) : res Z :=
  if negb (GETP_VALID s (u64 (from + 8))) then Ok 0 else
  b ← rd (s_data s) from; let q := u64 (Z.shiftl b 56) in
  b ← rd (s_data s) (u64 (from + 1)); let q := or_byte q b 48 in
  b ← rd (s_data s) (u64 (from + 2)); let q := or_byte q b 40 in
  b ← rd (s_data s) (u64 (from + 3)); let q := or_byte q b 32 in
  b ← rd (s_data s) (u64 (from + 4)); let q := or_byte q b 24 in
  b ← rd (s_data s) (u64 (from + 5)); let q := or_byte q b 16 in
  b ← rd (s_data s) (u64 (from + 6)); let q := or_byte q b 8 in
  b ← rd (s_data s) (u64 (from + 7)); Ok (or_byte q b 0).

Definition stream_get_ipv4 (o : byte_order) (s : stream) : res (Z * stream) :=
  if STREAM_READABLE s <? 4 then Ok (0, s) else
  bs ← rd_block (s_data s) (s_getp s) 4;
  Ok (host_word o bs, set_getp (u64 (s_getp s + 4)) s).

(** ** Writing *)

(** [src = None] is the NULL source, which writes zeroes. *)
Definition stream_put (s : stream) (src : option (list Z)) (size : Z) : res stream :=
  let size := CHECK_SIZE s size in
  if STREAM_WRITEABLE s <? size then Ok s else
  match src with
  | Some bs => push_block bs size s
  | None => push_block (replicate (Z.to_nat size) 0) size s
  end.

Definition stream_write (s : stream) (ptr : list Z) (size : Z) : res (Z * stream) :=
  let size := CHECK_SIZE s size in
  if STREAM_WRITEABLE s <? size then Ok (0, s) else
  s' ← push_block ptr size s; Ok (size, s').

Definition stream_putc (s : stream) (c : Z) : res (Z * stream) :=
  if STREAM_WRITEABLE s <? 1 then Ok (0, s) else
  s ← push_byte c s; Ok (1, s).

Definition stream_putw (s : stream) (w : Z) : res (Z * stream) :=
  if STREAM_WRITEABLE s <? 2 then Ok (0, s) else
  s ← push_byte (Z.shiftr w 8) s;
  s ← push_byte w s;
  Ok (2, s).

Definition stream_putl (s : stream) (l : Z) : res (Z * stream) :=
  if STREAM_WRITEABLE s <? 4 then Ok (0, s) else
  s ← push_byte (Z.shiftr l 24) s;
  s ← push_byte (Z.shiftr l 16) s;
  s ← push_byte (Z.shiftr l 8) s;
  s ← push_byte l s;
  Ok (4, s).

Definition stream_putq (s : stream) (q : Z) : res (Z * stream) :=
  if STREAM_WRITEABLE s <? 8 then Ok (0, s) else
  s ← push_byte (Z.shiftr q 56) s;
  s ← push_byte (Z.shiftr q 48) s;
  s ← push_byte (Z.shiftr q 40) s;
  s ← push_byte (Z.shiftr q 32) s;
  s ← push_byte (Z.shiftr q 24) s;
  s ← push_byte (Z.shiftr q 16) s;
  s ← push_byte (Z.shiftr q 8) s;
  s ← push_byte q s;
  Ok (8, s).

Definition stream_putc_at (s : stream) (putp c : Z) : res (Z * stream) :=
  if negb (PUT_AT_VALID s (u64 (putp + 1))) then Ok (0, s) else
  s ← poke_byte putp c s; Ok (1, s).

Definition stream_putw_at (s : stream) (putp w : Z) : res (Z * stream) :=
  if negb (PUT_AT_VALID s (u64 (putp + 2))) then Ok (0, s) else
  s ← poke_byte putp (Z.shiftr w 8) s;
  s ← poke_byte (u64 (putp + 1)) w s;
  Ok (2, s).

Definition stream_putl_at (s : stream) (putp l : Z) : res (Z * stream) :=
  if negb (PUT_AT_VALID s (u64 (putp + 4))) then Ok (0, s) else
  s ← poke_byte putp (Z.shiftr l 24) s;
  s ← poke_byte (u64 (putp + 1)) (Z.shiftr l 16) s;
  s ← poke_byte (u64 (putp + 2)) (Z.shiftr l 8) s;
  s ← poke_byte (u64 (putp + 3)) l s;
  Ok (4, s).

Definition stream_putq_at (s : stream) (putp q : Z) : res (Z * stream) :=
  if negb (PUT_AT_VALID s (u64 (putp + 8))) then Ok (0, s) else
  s ← poke_byte putp (Z.shiftr q 56) s;
  s ← poke_byte (u64 (putp + 1)) (Z.shiftr q 48) s;
  s ← poke_byte (u64 (putp + 2)) (Z.shiftr q 40) s;
  s ← poke_byte (u64 (putp + 3)) (Z.shiftr q 32) s;
  s ← poke_byte (u64 (putp + 4)) (Z.shiftr q 24) s;
  s ← poke_byte (u64 (putp + 5)) (Z.shiftr q 16) s;
  s ← poke_byte (u64 (putp + 6)) (Z.shiftr q 8) s;
  s ← poke_byte (u64 (putp + 7)) q s;
  Ok (8, s).

Definition stream_put_ipv4 (o : byte_order) (s : stream) (l : Z) : res (Z * stream) :=
  if STREAM_WRITEABLE s <? 4 then Ok (0, s) else
  s ← push_block (host_bytes o l) 4 s; Ok (4, s).

(** [addr] points to the four bytes of a [struct in_addr]. *)
Definition stream_put_in_addr (s : stream) (addr : list Z) : res (Z * stream) :=
  if STREAM_WRITEABLE s <? 4 then Ok (0, s) else
  s ← push_block addr 4 s; Ok (4, s).

(** ** Packet metadata *)

Definition stream_color_one (to from : stream) : stream :=
  let to := set_type (s_type from) to in
  let to := set_src (s_src from) to in
  let to := set_dst (s_dst from) to in
  let to := set_mark (s_mark from) to in
  let to := set_su (s_su from) to in
  let to := set_dsu (s_dsu from) to in
  set_stype (s_stype from) to.

Definition stream_clone_one (from : stream) (obj : option stream) (blk : option (list Z))
    : res (option stream) :=
  match stream_new MISAKA_MAX_PACKET_SIZE obj blk with
  | None => Ok None
  | Some to =>
      let to := stream_color_one to from in
      to ← stream_put to (Some (stream_pnt from))
             (u64 (stream_get_endp from - stream_get_getp from));
      Ok (Some to)
  end.

Definition stream_dir_exchange (s : stream) : stream :=
  let tmp := s_src s in
  let s := set_src (s_dst s) s in
  let s := set_dst tmp s in
  let tsu := s_su s in
  let s := set_su (s_dsu s) s in
  set_dsu tsu s.

(** [*to-- = *from--] for [size] steps, both indices relative to [data]. *)
Fixpoint reverse_loop (n : nat) (from to : Z) (s : stream) : res stream :=
  match n with
  | O => Ok s
  | S n =>
      b ← rd (s_data s) from;
      s ← poke_byte to b s;
      reverse_loop n (from - 1) (to - 1) s
  end.

Definition reverse_stream (s : stream) (size : Z) : res stream :=
  s ← stream_put s (Some (replicate (Z.to_nat MISAKA_HEADER_SIZE) 0)) (u64 size);
  let from := s_getp s + stream_get_endp s in
  let to := from + size + stream_get_endp s in
  reverse_loop (Z.to_nat size) from to s.
