(* ===== verification/StreamFacts.v ===== *)
(** Correctness of the packet buffers of Stream.v: the offsets invariant, the
    bytes each operation reads and writes, round trips. *)

From S2P Require Import Prelude Sockunion Stream.

Local Open Scope Z_scope.

(** ** The invariant: getp <= endp <= size

    This is what the comment on STREAM_VERIFY_SANE asks of every stream, plus
    what the allocation established: the block has [size] bytes, at most
    PTRDIFF_MAX as every C object. *)

Definition sane (s : stream) : Prop :=
  0 ≤ s_getp s ≤ s_endp s ∧ s_endp s ≤ s_size s ∧ s_size s < 2 ^ 63 ∧
  Z.of_nat (length (s_data s)) = s_size s ∧ Forall is_u8 (s_data s).

(** The valid bytes and the unread ones. *)
Definition content (s : stream) : list Z := take (Z.to_nat (s_endp s)) (s_data s).
Definition unread (s : stream) : list Z := drop (Z.to_nat (s_getp s)) (content s).

(** The stream after [bs] has been appended at [endp]. *)
Definition pushed (s : stream) (bs : list Z) : stream :=
  set_endp (s_endp s + Z.of_nat (length bs)) (set_data (splice (s_data s) (s_endp s) bs) s).

(** The stream after [bs] has overwritten the bytes from [p] on. *)
Definition poked (s : stream) (p : Z) (bs : list Z) : stream :=
  set_data (splice (s_data s) p bs) s.

Ltac sane_inv :=
  match goal with H : sane _ |- _ => destruct H as (?H & ?H & ?H & ?H & ?H) end.

Lemma READABLE_sane s : sane s → STREAM_READABLE s = s_endp s - s_getp s.
Proof. intros. sane_inv. apply u64_small. unfold_ranges. lia. Qed.

Lemma WRITEABLE_sane s : sane s → STREAM_WRITEABLE s = s_size s - s_endp s.
Proof. intros. sane_inv. apply u64_small. unfold_ranges. lia. Qed.

Lemma length_content s : sane s → Z.of_nat (length (content s)) = s_endp s.
Proof. intros. sane_inv. unfold content. rewrite length_take. lia. Qed.

Lemma length_unread s : sane s → Z.of_nat (length (unread s)) = s_endp s - s_getp s.
Proof. intros Hs. pose proof (length_content s Hs). sane_inv.
  unfold unread. rewrite length_drop. lia. Qed.

Lemma content_u8 s : sane s → Forall is_u8 (content s).
Proof. intros. sane_inv. unfold content. auto using Forall_take. Qed.

Lemma set_getp_sane s p : sane s → 0 ≤ p ≤ s_endp s → sane (set_getp p s).
Proof. intros. sane_inv. repeat split; simpl; auto; lia. Qed.

Lemma pushed_sane s bs :
  sane s → Forall is_u8 bs → s_endp s + Z.of_nat (length bs) ≤ s_size s →
  sane (pushed s bs).
Proof.
  intros. sane_inv. repeat split; simpl; auto; try lia.
  - rewrite length_splice; lia.
  - auto with misaka.
Qed.

Lemma pushed_content s bs :
  sane s → s_endp s + Z.of_nat (length bs) ≤ s_size s →
  content (pushed s bs) = content s ++ bs.
Proof.
  intros. sane_inv. unfold content; simpl.
  rewrite <- (take_splice (s_data s) (s_endp s) bs) by lia. f_equal. lia.
Qed.

Lemma pushed_pushed s xs ys :
  sane s → s_endp s + Z.of_nat (length (xs ++ ys)) ≤ s_size s →
  pushed (pushed s xs) ys = pushed s (xs ++ ys).
Proof.
  intros. sane_inv. unfold pushed, set_endp, set_data; simpl. f_equal.
  - rewrite length_app. lia.
  - apply splice_app; lia.
Qed.

Lemma poked_sane s p bs :
  sane s → Forall is_u8 bs → 0 ≤ p → p + Z.of_nat (length bs) ≤ s_size s →
  sane (poked s p bs).
Proof.
  intros. sane_inv. repeat split; simpl; auto; try lia.
  - rewrite length_splice; lia.
  - auto with misaka.
Qed.

(** Invariant goals of a chain of updates, and the bounds they leave. *)
Ltac solve_sane :=
  lazymatch goal with
  | |- sane (set_getp _ _) => apply set_getp_sane; [solve_sane | solve_sane]
  | |- sane (pushed _ _) => apply pushed_sane; [solve_sane | solve_sane | solve_sane]
  | |- sane (poked _ _ _) =>
      apply poked_sane; [solve_sane | solve_sane | solve_sane | solve_sane]
  | |- sane _ => assumption
  | |- Forall is_u8 (_ ++ _) => apply Forall_app_2; solve_sane
  | |- Forall is_u8 (_ :: _) => apply Forall_cons_2; [apply u8_range | solve_sane]
  | |- Forall is_u8 [] => apply Forall_nil_2
  | |- Forall _ _ => auto with misaka
  | |- _ => cbn [s_getp s_endp s_size set_getp set_endp set_data pushed poked length app] in *;
            lia
  end.

(** ** The shared memory steps *)

Lemma push_byte_spec s b :
  sane s → s_endp s < s_size s → push_byte b s = Ok (pushed s [u8 b]).
Proof.
  intros Hs ?. sane_inv. unfold push_byte, pushed. rewrite wr_Ok by lia.
  simpl mbind. rewrite u64_small by (unfold_ranges; lia).
  rewrite insert_splice by lia. reflexivity.
Qed.

Lemma poke_byte_spec s p b :
  sane s → 0 ≤ p < s_size s → poke_byte p b s = Ok (poked s p [u8 b]).
Proof.
  intros Hs ?. sane_inv. unfold poke_byte, poked. rewrite wr_Ok by lia.
  simpl mbind. rewrite insert_splice by lia. reflexivity.
Qed.

Lemma poked_poked s p xs ys q :
  sane s → 0 ≤ p → q = p + Z.of_nat (length xs) →
  p + Z.of_nat (length (xs ++ ys)) ≤ s_size s →
  poked (poked s p xs) q ys = poked s p (xs ++ ys).
Proof.
  intros ? ? -> ?. sane_inv. unfold poked, set_data; simpl. f_equal.
  apply splice_app; lia.
Qed.

Lemma push_block_spec s bs n :
  sane s → 0 ≤ n ≤ Z.of_nat (length bs) → s_endp s + n ≤ s_size s →
  push_block bs n s = Ok (pushed s (take (Z.to_nat n) bs)).
Proof.
  intros Hs ? ?. sane_inv. unfold push_block.
  rewrite rd_block_Ok by lia. rewrite bind_Ok.
  assert (Z.of_nat (length (slice bs 0 n)) = n) by (apply length_slice; lia).
  rewrite wr_block_Ok by lia. rewrite bind_Ok.
  rewrite u64_small by (unfold_ranges; lia).
  unfold pushed, slice. rewrite drop_0.
  unfold slice in *. rewrite drop_0 in *. do 3 f_equal. lia.
Qed.

(** The byte at an offset; only used inside the block. *)
Definition byte_at (s : stream) (i : Z) : Z := nth (Z.to_nat i) (s_data s) 0.

Lemma rd_byte_at s i : sane s → 0 ≤ i < s_size s → rd (s_data s) i = Ok (byte_at s i).
Proof.
  intros ? ?. sane_inv. apply rd_Ok. split; [lia |].
  unfold byte_at.
  destruct (lookup_lt_is_Some_2 (s_data s) (Z.to_nat i)) as [b Hb]; [lia |].
  rewrite Hb. f_equal. symmetry. by apply nth_lookup_Some.
Qed.

Lemma byte_at_u8 s i : sane s → 0 ≤ i < s_size s → is_u8 (byte_at s i).
Proof.
  intros Hs Hi. pose proof (rd_byte_at s i Hs Hi) as [_ Hl]%rd_Ok. sane_inv.
  eapply Forall_lookup_1; eauto.
Qed.

Lemma next_byte_spec s :
  sane s → s_getp s < s_endp s →
  next_byte s = Ok (byte_at s (s_getp s), set_getp (s_getp s + 1) s).
Proof.
  intros Hs ?. unfold next_byte. rewrite rd_byte_at by (auto; sane_inv; lia).
  rewrite bind_Ok. sane_inv. rewrite u64_small by (unfold_ranges; lia). reflexivity.
Qed.

(** ** What the readers return: the big-endian value of the bytes *)

Fixpoint bytes_at (s : stream) (i : Z) (n : nat) : list Z :=
  match n with O => [] | S n => byte_at s i :: bytes_at s (i + 1) n end.

Lemma bytes_at_slice s i n :
  sane s → 0 ≤ i → i + Z.of_nat n ≤ s_size s →
  bytes_at s i n = slice (s_data s) i (Z.of_nat n).
Proof.
  revert i. induction n as [|n IH]; intros i Hs Hi Hn; [done |].
  assert (rd (s_data s) i = Ok (byte_at s i)) as [_ Hr]%rd_Ok by (apply rd_byte_at; auto; lia).
  cbn [bytes_at]. rewrite IH by (auto; lia). unfold slice. rewrite !Nat2Z.id.
  rewrite (drop_S _ _ _ Hr). cbn [take]. do 3 f_equal. lia.
Qed.

Lemma bytes_at_u8 s i n :
  sane s → 0 ≤ i → i + Z.of_nat n ≤ s_size s → Forall is_u8 (bytes_at s i n).
Proof. intros Hs ? ?. rewrite bytes_at_slice by auto. sane_inv. auto with misaka. Qed.

(** Decoding steps shared by the readers; [k] counts the bytes still to come. *)
Lemma dec32_first b k : is_u8 b → k = 24 ∨ k = 16 → u32 (Z.shiftl b k) = b * 2 ^ k.
Proof.
  intros Hb Hk. rewrite Z.shiftl_mul_pow2 by lia. apply u32_small. unfold_ranges.
  destruct Hk as [-> | ->]; lia.
Qed.

Lemma dec_step w acc b k k8 :
  0 ≤ k → k8 = k + 8 → 0 ≤ acc → is_u8 b → (acc * 2 ^ 8 + b) * 2 ^ k < 2 ^ w →
  Z.lor (acc * 2 ^ k8) (Z.shiftl b k) mod 2 ^ w = (acc * 2 ^ 8 + b) * 2 ^ k.
Proof.
  intros ? -> ? ? ?. rewrite lor_byte by auto. apply Z.mod_small. unfold_ranges. nia.
Qed.

Lemma dec32 b0 b1 b2 b3 :
  is_u8 b0 → is_u8 b1 → is_u8 b2 → is_u8 b3 →
  u32 (Z.lor (u32 (Z.lor (u32 (Z.lor (u32 (Z.shiftl b0 24)) (Z.shiftl b1 16)))
       (Z.shiftl b2 8))) b3) = be_value [b0; b1; b2; b3].
Proof.
  intros. rewrite dec32_first by auto. unfold u32.
  rewrite (dec_step 32 b0 b1 16 24) by (auto; unfold_ranges; lia).
  rewrite (dec_step 32 (b0 * 2 ^ 8 + b1) b2 8 16) by (auto; unfold_ranges; lia).
  rewrite <- (Z.shiftl_0_r b3) at 1.
  rewrite (dec_step 32 ((b0 * 2 ^ 8 + b1) * 2 ^ 8 + b2) b3 0 8) by (auto; unfold_ranges; lia).
  unfold be_value. cbn [fold_left]. lia.
Qed.

Lemma dec16 b0 b1 :
  is_u8 b0 → is_u8 b1 → u16 (Z.lor (u16 (Z.shiftl b0 8)) b1) = be_value [b0; b1].
Proof.
  intros. unfold u16. rewrite Z.shiftl_mul_pow2 by lia.
  rewrite (Z.mod_small (b0 * 2 ^ 8)) by (unfold_ranges; lia).
  rewrite <- (Z.shiftl_0_r b1) at 1.
  rewrite (dec_step 16 b0 b1 0 8) by (auto; unfold_ranges; lia).
  unfold be_value. cbn [fold_left]. lia.
Qed.

Lemma or_byte_step acc b k k8 :
  0 ≤ k ≤ 56 → k8 = k + 8 → 0 ≤ acc → is_u8 b →
  or_byte (acc * 2 ^ k8) b k = (acc * 2 ^ 8 + b) * 2 ^ k.
Proof.
  intros Hk -> Ha Hb. unfold or_byte. rewrite (u64_small (Z.shiftl b k)); [apply lor_byte; [lia | done] |].
  rewrite Z.shiftl_mul_pow2 by lia. unfold_ranges.
  assert (2 ^ k ≤ 2 ^ 56) by (apply Z.pow_le_mono_r; lia).
  assert (0 < 2 ^ k) by (apply Z.pow_pos_nonneg; lia). nia.
Qed.

Lemma dec64 b0 b1 b2 b3 b4 b5 b6 b7 :
  Forall is_u8 [b0; b1; b2; b3; b4; b5; b6; b7] →
  or_byte (or_byte (or_byte (or_byte (or_byte (or_byte (or_byte
    (u64 (Z.shiftl b0 56)) b1 48) b2 40) b3 32) b4 24) b5 16) b6 8) b7 0 =
  be_value [b0; b1; b2; b3; b4; b5; b6; b7].
Proof.
  rewrite !Forall_cons_iff. intros (?&?&?&?&?&?&?&?&_).
  rewrite (Z.shiftl_mul_pow2 b0), (u64_small (b0 * 2 ^ 56)) by (unfold_ranges; lia).
  rewrite (or_byte_step b0 b1 48 56) by (auto; unfold_ranges; lia).
  rewrite (or_byte_step _ b2 40 48) by (auto; unfold_ranges; lia).
  rewrite (or_byte_step _ b3 32 40) by (auto; unfold_ranges; lia).
  rewrite (or_byte_step _ b4 24 32) by (auto; unfold_ranges; lia).
  rewrite (or_byte_step _ b5 16 24) by (auto; unfold_ranges; lia).
  rewrite (or_byte_step _ b6 8 16) by (auto; unfold_ranges; lia).
  rewrite (or_byte_step _ b7 0 8) by (auto; unfold_ranges; lia).
  unfold be_value. cbn [fold_left]. lia.
Qed.

(** ** Functional behaviour of the readers *)

Ltac step_next :=
  rewrite next_byte_spec by solve_sane; rewrite bind_Ok; cbn [s_getp set_getp].

(** A reader of [n] bytes: too few bytes leave the stream alone and give 0,
    otherwise the value is big-endian and [getp] moves past it. *)
Definition read_spec (n : nat) (rdr : stream → res (Z * stream)) : Prop := ∀ s, sane s →
  rdr s = if s_endp s - s_getp s <? Z.of_nat n then Ok (0, s)
          else Ok (be_value (bytes_at s (s_getp s) n),
                   set_getp (s_getp s + Z.of_nat n) s).

Lemma byte_at_set_getp s p i : byte_at (set_getp p s) i = byte_at s i.
Proof. reflexivity. Qed.

Lemma set_getp_set_getp p q s : set_getp p (set_getp q s) = set_getp p s.
Proof. reflexivity. Qed.

Ltac decode_done := rewrite !set_getp_set_getp; do 3 f_equal; lia.

Lemma stream_getc_spec : read_spec 1 stream_getc.
Proof.
  intros s Hs. unfold stream_getc. rewrite READABLE_sane by done.
  change (Z.of_nat 1) with 1. destruct (Z.ltb_spec (s_endp s - s_getp s) 1); [done |].
  rewrite next_byte_spec by (auto; lia). cbn [bytes_at]. reflexivity.
Qed.

Lemma stream_getw_spec : read_spec 2 stream_getw.
Proof.
  intros s Hs. unfold stream_getw. rewrite READABLE_sane by done.
  change (Z.of_nat 2) with 2. destruct (Z.ltb_spec (s_endp s - s_getp s) 2); [done |].
  pose proof Hs as (?&?&_).
  do 2 step_next. cbn [bytes_at].
  rewrite !byte_at_set_getp, dec16 by (apply byte_at_u8; auto; lia).
  decode_done.
Qed.

Lemma stream_getl_spec : read_spec 4 stream_getl.
Proof.
  intros s Hs. unfold stream_getl. rewrite READABLE_sane by done.
  change (Z.of_nat 4) with 4. destruct (Z.ltb_spec (s_endp s - s_getp s) 4); [done |].
  pose proof Hs as (?&?&_).
  do 4 step_next. cbn [bytes_at].
  rewrite !byte_at_set_getp, dec32 by (apply byte_at_u8; auto; lia).
  decode_done.
Qed.

Lemma stream_getq_spec : read_spec 8 stream_getq.
Proof.
  intros s Hs. unfold stream_getq. rewrite READABLE_sane by done.
  change (Z.of_nat 8) with 8. destruct (Z.ltb_spec (s_endp s - s_getp s) 8); [done |].
  pose proof Hs as (?&?&_).
  do 8 step_next. cbn [bytes_at].
  rewrite !byte_at_set_getp, dec64
    by (repeat (apply Forall_cons_2; [apply byte_at_u8; auto; lia |]); apply Forall_nil_2).
  decode_done.
Qed.

(** The readers at a position: [from + n] must not wrap around. *)
Definition read_from_spec (n : nat) (rdr : stream → Z → res Z) : Prop := ∀ s from,
  sane s → 0 ≤ from → from + Z.of_nat n < 2 ^ 64 →
  rdr s from = if from + Z.of_nat n <=? s_endp s then Ok (be_value (bytes_at s from n))
               else Ok 0.

Ltac step_rd :=
  rewrite ?u64_small by (unfold_ranges; lia);
  rewrite rd_byte_at by (auto; lia); rewrite ?bind_Ok; cbv zeta.

Lemma stream_getc_from_spec : read_from_spec 1 stream_getc_from.
Proof.
  intros s from Hs Hf Hw. unfold stream_getc_from, GETP_VALID.
  change (Z.of_nat 1) with 1 in *. pose proof Hs as (?&?&?&_).
  rewrite u64_small by (unfold_ranges; lia).
  destruct (Z.leb_spec (from + 1) (s_endp s)); cbn [negb]; [| done].
  step_rd. reflexivity.
Qed.

Lemma stream_getw_from_spec : read_from_spec 2 stream_getw_from.
Proof.
  intros s from Hs Hf Hw. unfold stream_getw_from, GETP_VALID.
  change (Z.of_nat 2) with 2 in *. pose proof Hs as (?&?&?&_).
  rewrite u64_small by (unfold_ranges; lia).
  destruct (Z.leb_spec (from + 2) (s_endp s)); cbn [negb]; [| done].
  do 2 step_rd. rewrite dec16 by (apply byte_at_u8; auto; lia). reflexivity.
Qed.

Lemma stream_getl_from_spec : read_from_spec 4 stream_getl_from.
Proof.
  intros s from Hs Hf Hw. unfold stream_getl_from, GETP_VALID.
  change (Z.of_nat 4) with 4 in *. pose proof Hs as (?&?&?&_).
  rewrite u64_small by (unfold_ranges; lia).
  destruct (Z.leb_spec (from + 4) (s_endp s)); cbn [negb]; [| done].
  do 4 step_rd. rewrite dec32 by (apply byte_at_u8; auto; lia).
  cbn [bytes_at]. rewrite <- !Z.add_assoc. reflexivity.
Qed.

Lemma stream_getq_from_spec : read_from_spec 8 stream_getq_from.
Proof.
  intros s from Hs Hf Hw. unfold stream_getq_from, GETP_VALID.
  change (Z.of_nat 8) with 8 in *. pose proof Hs as (?&?&?&_).
  rewrite u64_small by (unfold_ranges; lia).
  destruct (Z.leb_spec (from + 8) (s_endp s)); cbn [negb]; [| done].
  do 8 step_rd.
  rewrite dec64
    by (repeat (apply Forall_cons_2; [apply byte_at_u8; auto; lia |]); apply Forall_nil_2).
  cbn [bytes_at]. rewrite <- !Z.add_assoc. reflexivity.
Qed.

(** ** Functional behaviour of the writers *)

(** A writer of [n] bytes: without room nothing changes and 0 is returned,
    otherwise the big-endian bytes are appended. *)
Definition write_spec (n : nat) (wtr : stream → Z → res (Z * stream)) : Prop := ∀ s v,
  sane s →
  wtr s v = if s_size s - s_endp s <? Z.of_nat n then Ok (0, s)
            else Ok (Z.of_nat n, pushed s (be_bytes n v)).

Ltac step_push :=
  rewrite push_byte_spec by solve_sane; rewrite bind_Ok;
  rewrite ?pushed_pushed by solve_sane; cbn [app].

Ltac write_start s n :=
  rewrite WRITEABLE_sane by done;
  let k := eval cbv in (Z.of_nat n) in change (Z.of_nat n) with k;
  destruct (Z.ltb_spec (s_size s - s_endp s) k); [reflexivity |].

Lemma stream_putc_spec : write_spec 1 stream_putc.
Proof.
  intros s v Hs. unfold stream_putc. write_start s 1%nat. pose proof Hs as (?&?&_).
  step_push. cbn [be_bytes]. rewrite Z.shiftr_0_r. reflexivity.
Qed.

Lemma stream_putw_spec : write_spec 2 stream_putw.
Proof.
  intros s v Hs. unfold stream_putw. write_start s 2%nat. pose proof Hs as (?&?&_).
  do 2 step_push. cbn [be_bytes]. rewrite Z.shiftr_0_r. reflexivity.
Qed.

Lemma stream_putl_spec : write_spec 4 stream_putl.
Proof.
  intros s v Hs. unfold stream_putl. write_start s 4%nat. pose proof Hs as (?&?&_).
  do 4 step_push. cbn [be_bytes]. rewrite Z.shiftr_0_r. reflexivity.
Qed.

Lemma stream_putq_spec : write_spec 8 stream_putq.
Proof.
  intros s v Hs. unfold stream_putq. write_start s 8%nat. pose proof Hs as (?&?&_).
  do 8 step_push. cbn [be_bytes]. rewrite Z.shiftr_0_r. reflexivity.
Qed.

(** The writers at a position overwrite valid bytes only and move nothing. *)
Definition write_at_spec (n : nat) (wtr : stream → Z → Z → res (Z * stream)) : Prop :=
  ∀ s putp v, sane s → 0 ≤ putp → putp + Z.of_nat n < 2 ^ 64 →
  wtr s putp v = if putp + Z.of_nat n <=? s_endp s
                 then Ok (Z.of_nat n, poked s putp (be_bytes n v)) else Ok (0, s).

Ltac step_poke :=
  rewrite ?u64_small by (unfold_ranges; lia);
  rewrite poke_byte_spec by solve_sane; rewrite bind_Ok;
  rewrite ?poked_poked by solve_sane; cbn [app].

Ltac write_at_start s putp n :=
  unfold PUT_AT_VALID, GETP_VALID;
  let k := eval cbv in (Z.of_nat n) in change (Z.of_nat n) with k in *;
  rewrite u64_small by (unfold_ranges; lia);
  destruct (Z.leb_spec (putp + k) (s_endp s)); cbn [negb]; [| reflexivity].

Lemma stream_putc_at_spec : write_at_spec 1 stream_putc_at.
Proof.
  intros s putp v Hs ? ?. unfold stream_putc_at. write_at_start s putp 1%nat.
  pose proof Hs as (?&?&?&_). step_poke. cbn [be_bytes]. rewrite Z.shiftr_0_r. reflexivity.
Qed.

Lemma stream_putw_at_spec : write_at_spec 2 stream_putw_at.
Proof.
  intros s putp v Hs ? ?. unfold stream_putw_at. write_at_start s putp 2%nat.
  pose proof Hs as (?&?&?&_). do 2 step_poke. cbn [be_bytes]. rewrite Z.shiftr_0_r. reflexivity.
Qed.

Lemma stream_putl_at_spec : write_at_spec 4 stream_putl_at.
Proof.
  intros s putp v Hs ? ?. unfold stream_putl_at. write_at_start s putp 4%nat.
  pose proof Hs as (?&?&?&_). do 4 step_poke. cbn [be_bytes]. rewrite Z.shiftr_0_r. reflexivity.
Qed.

Lemma stream_putq_at_spec : write_at_spec 8 stream_putq_at.
Proof.
  intros s putp v Hs ? ?. unfold stream_putq_at. write_at_start s putp 8%nat.
  pose proof Hs as (?&?&?&_). do 8 step_poke. cbn [be_bytes]. rewrite Z.shiftr_0_r. reflexivity.
Qed.

(** ** Blocks *)

Lemma CHECK_SIZE_sane s n :
  sane s → is_u64 n →
  CHECK_SIZE s n = if 2 ^ 64 <=? s_endp s + n then n else Z.min n (s_size s - s_endp s).
Proof.
  intros Hs Hn. pose proof Hs as (?&?&?&_). unfold CHECK_SIZE.
  rewrite Z.gtb_ltb. unfold_ranges.
  destruct (Z.leb_spec (2 ^ 64) (s_endp s + n)).
  - assert (u64 (s_endp s + n) = s_endp s + n - 2 ^ 64) as ->.
    { unfold u64. rewrite <- (Z.mod_add _ (-1)), Z.mod_small by lia. lia. }
    destruct (Z.ltb_spec (s_size s) (s_endp s + n - 2 ^ 64)); [| done].
    assert (s_endp s + n - 2 ^ 64 < s_endp s) by lia. lia.
  - rewrite u64_small by (unfold_ranges; lia).
    destruct (Z.ltb_spec (s_size s) (s_endp s + n)); [| lia].
    rewrite u64_small by (unfold_ranges; lia). lia.
Qed.

(** [stream_put] writes as much of the source as fits: a request that does not
    wrap is truncated to the free space, one that wraps writes nothing. *)
Lemma stream_put_spec s bs n :
  sane s → is_u64 n → n ≤ Z.of_nat (length bs) →
  stream_put s (Some bs) n =
    if 2 ^ 64 <=? s_endp s + n then Ok s
    else Ok (pushed s (take (Z.to_nat (Z.min n (s_size s - s_endp s))) bs)).
Proof.
  intros Hs Hn Hl. pose proof Hs as (?&?&?&_). unfold stream_put; cbv zeta.
  rewrite CHECK_SIZE_sane, WRITEABLE_sane by done. unfold_ranges.
  destruct (Z.leb_spec (2 ^ 64) (s_endp s + n)).
  - destruct (Z.ltb_spec (s_size s - s_endp s) n); [done | lia].
  - case_cmp; [lia |]. apply push_block_spec; auto; lia.
Qed.

Lemma stream_put_null_spec s n :
  sane s → is_u64 n →
  stream_put s None n =
    if 2 ^ 64 <=? s_endp s + n then Ok s
    else Ok (pushed s (replicate (Z.to_nat (Z.min n (s_size s - s_endp s))) 0)).
Proof.
  intros Hs Hn. pose proof Hs as (?&?&?&_). unfold stream_put; cbv zeta.
  rewrite CHECK_SIZE_sane, WRITEABLE_sane by done. unfold_ranges.
  destruct (Z.leb_spec (2 ^ 64) (s_endp s + n)).
  - destruct (Z.ltb_spec (s_size s - s_endp s) n); [done | lia].
  - case_cmp; [lia |]. rewrite push_block_spec; rewrite ?length_replicate; auto; try lia.
    rewrite take_ge by (rewrite length_replicate; lia). reflexivity.
Qed.

Lemma stream_write_spec s bs n :
  sane s → is_u64 n → n ≤ Z.of_nat (length bs) → s_endp s + n < 2 ^ 64 →
  let k := Z.min n (s_size s - s_endp s) in
  stream_write s bs n = Ok (k, pushed s (take (Z.to_nat k) bs)).
Proof.
  intros Hs Hn Hl Hw k. pose proof Hs as (?&?&?&_). unfold stream_write; cbv zeta.
  rewrite CHECK_SIZE_sane, WRITEABLE_sane by done. unfold_ranges.
  destruct (Z.leb_spec (2 ^ 64) (s_endp s + n)); [lia |].
  fold k. case_cmp; [lia |]. rewrite push_block_spec by (auto; lia). reflexivity.
Qed.

(** [stream_get] copies out the next [n] unread bytes, or nothing. *)
Lemma stream_get_spec s n :
  sane s → 0 ≤ n →
  stream_get s n = if s_endp s - s_getp s <? n then Ok (None, s)
                   else Ok (Some (take (Z.to_nat n) (unread s)), set_getp (s_getp s + n) s).
Proof.
  intros Hs Hn. pose proof Hs as (?&?&?&?&_). unfold stream_get.
  rewrite READABLE_sane by done. case_cmp; [done |].
  rewrite rd_block_Ok by lia. rewrite bind_Ok, u64_small by (unfold_ranges; lia).
  do 3 f_equal. unfold slice, unread, content. rewrite skipn_firstn_comm, take_take.
  f_equal. lia.
Qed.

(** ** Abstract buffers

    What a stream promises its users: a sequence of bytes with a read position
    and a capacity.  [buf_step] is the behaviour of each operation on it. *)

Record buf := mkBuf { b_bytes : list Z; b_pos : Z; b_cap : Z }.

Inductive width := W1 | W2 | W4 | W8.

Definition bytes_of (w : width) : nat :=
  match w with W1 => 1 | W2 => 2 | W4 => 4 | W8 => 8 end.

Inductive stream_op :=
| OpGet (w : width)                     (* stream_getc/w/l/q *)
| OpGetFrom (w : width) (from : Z)      (* stream_getc/w/l/q_from *)
| OpGetBlock (n : Z)                    (* stream_get *)
| OpPut (w : width) (v : Z)             (* stream_putc/w/l/q *)
| OpPutAt (w : width) (putp v : Z)      (* stream_putc/w/l/q_at *)
| OpPutBlock (src : option (list Z)) (n : Z)  (* stream_put *)
| OpSetGetp (pos : Z)
| OpForwardGetp (n : Z)
| OpForwardEndp (n : Z)
| OpReset
| OpResize (n : Z) (tail : option (list Z)).

Inductive out := OutVal (z : Z) | OutBlock (b : option (list Z)) | OutUnit.

Definition get_width (w : width) : stream → res (Z * stream) :=
  match w with W1 => stream_getc | W2 => stream_getw | W4 => stream_getl | W8 => stream_getq end.
Definition get_from_width (w : width) : stream → Z → res Z :=
  match w with W1 => stream_getc_from | W2 => stream_getw_from
             | W4 => stream_getl_from | W8 => stream_getq_from end.
Definition put_width (w : width) : stream → Z → res (Z * stream) :=
  match w with W1 => stream_putc | W2 => stream_putw | W4 => stream_putl | W8 => stream_putq end.
Definition put_at_width (w : width) : stream → Z → Z → res (Z * stream) :=
  match w with W1 => stream_putc_at | W2 => stream_putw_at
             | W4 => stream_putl_at | W8 => stream_putq_at end.

(** The stream operation behind each constructor. *)
Definition stream_exec (o : stream_op) (s : stream) : res (out * stream) :=
  match o with
  | OpGet w => '(v, s) ← get_width w s; Ok (OutVal v, s)
  | OpGetFrom w from => v ← get_from_width w s from; Ok (OutVal v, s)
  | OpGetBlock n => '(b, s) ← stream_get s n; Ok (OutBlock b, s)
  | OpPut w v => '(r, s) ← put_width w s v; Ok (OutVal r, s)
  | OpPutAt w putp v => '(r, s) ← put_at_width w s putp v; Ok (OutVal r, s)
  | OpPutBlock src n => s ← stream_put s src n; Ok (OutUnit, s)
  | OpSetGetp pos => Ok (OutUnit, stream_set_getp s pos)
  | OpForwardGetp n => Ok (OutUnit, stream_forward_getp s n)
  | OpForwardEndp n => Ok (OutUnit, stream_forward_endp s n)
  | OpReset => Ok (OutUnit, stream_reset s)
  | OpResize n tail => let '(r, s) := stream_resize s n tail in Ok (OutVal r, s)
  end.

(** The arguments a caller may pass: positions and sizes that do not wrap
    around when the operation adds them up, and enough source bytes. *)
Definition op_ok (o : stream_op) (s : stream) : Prop :=
  match o with
  | OpGet _ | OpReset => True
  | OpPut _ _ => True
  | OpGetFrom w p | OpPutAt w p _ => 0 ≤ p ∧ p + Z.of_nat (bytes_of w) < 2 ^ 64
  | OpGetBlock n => 0 ≤ n
  | OpPutBlock (Some bs) n =>
      is_u64 n ∧ n ≤ Z.of_nat (length bs) ∧ Forall is_u8 bs ∧ s_endp s + n < 2 ^ 64
  | OpPutBlock None n => is_u64 n ∧ s_endp s + n < 2 ^ 64
  | OpSetGetp p => is_u64 p
  | OpForwardGetp n => is_u64 n ∧ s_getp s + n < 2 ^ 64
  | OpForwardEndp n => is_u64 n ∧ s_endp s + n < 2 ^ 64
  | OpResize n tail =>
      0 < n < 2 ^ 31 ∧
      match tail with
      | Some t => Forall is_u8 t ∧ n ≤ s_size s + Z.of_nat (length t)
      | None => True
      end
  end.

Definition b_len (b : buf) : Z := Z.of_nat (length (b_bytes b)).

Definition buf_append (b : buf) (bs : list Z) : buf :=
  mkBuf (b_bytes b ++ bs) (b_pos b) (b_cap b).

(** What each operation does to a buffer: [buf_step b o r b'] when it may
    return [r] and leave [b']. *)
Definition buf_step (b : buf) (o : stream_op) (r : out) (b' : buf) : Prop :=
  match o with
  | OpGet w =>
      let n := Z.of_nat (bytes_of w) in
      if b_len b - b_pos b <? n then r = OutVal 0 ∧ b' = b
      else r = OutVal (be_value (slice (b_bytes b) (b_pos b) n)) ∧
           b' = mkBuf (b_bytes b) (b_pos b + n) (b_cap b)
  | OpGetFrom w p =>
      let n := Z.of_nat (bytes_of w) in
      b' = b ∧
      r = OutVal (if p + n <=? b_len b then be_value (slice (b_bytes b) p n) else 0)
  | OpGetBlock n =>
      if b_len b - b_pos b <? n then r = OutBlock None ∧ b' = b
      else r = OutBlock (Some (slice (b_bytes b) (b_pos b) n)) ∧
           b' = mkBuf (b_bytes b) (b_pos b + n) (b_cap b)
  | OpPut w v =>
      let n := bytes_of w in
      if b_cap b - b_len b <? Z.of_nat n then r = OutVal 0 ∧ b' = b
      else r = OutVal (Z.of_nat n) ∧ b' = buf_append b (be_bytes n v)
  | OpPutAt w p v =>
      let n := bytes_of w in
      if p + Z.of_nat n <=? b_len b
      then r = OutVal (Z.of_nat n) ∧
           b' = mkBuf (splice (b_bytes b) p (be_bytes n v)) (b_pos b) (b_cap b)
      else r = OutVal 0 ∧ b' = b
  | OpPutBlock src n =>
      let k := Z.to_nat (Z.min n (b_cap b - b_len b)) in
      r = OutUnit ∧
      b' = buf_append b (match src with Some bs => take k bs | None => replicate k 0 end)
  | OpSetGetp p =>
      r = OutUnit ∧ b' = mkBuf (b_bytes b) (Z.min p (b_len b)) (b_cap b)
  | OpForwardGetp n =>
      r = OutUnit ∧
      b' = if b_pos b + n <=? b_len b then mkBuf (b_bytes b) (b_pos b + n) (b_cap b) else b
  | OpForwardEndp n =>
      r = OutUnit ∧
      if b_len b + n <=? b_cap b
      then ∃ xs, Z.of_nat (length xs) = n ∧ b' = buf_append b xs else b' = b
  | OpReset => r = OutUnit ∧ b' = mkBuf [] 0 (b_cap b)
  | OpResize n None => r = OutVal (b_cap b) ∧ b' = b
  | OpResize n (Some _) =>
      r = OutVal n ∧ b' = mkBuf (take (Z.to_nat n) (b_bytes b)) (Z.min (b_pos b) n) n
  end.

Definition abs (s : stream) : buf := mkBuf (content s) (s_getp s) (s_size s).

Lemma abs_len s : sane s → b_len (abs s) = s_endp s.
Proof. apply length_content. Qed.

Lemma slice_content s i n :
  sane s → 0 ≤ i → 0 ≤ n → i + n ≤ s_endp s → slice (content s) i n = slice (s_data s) i n.
Proof.
  intros. unfold slice, content. rewrite skipn_firstn_comm, take_take. f_equal. lia.
Qed.

Lemma bytes_at_content s i n :
  sane s → 0 ≤ i → i + Z.of_nat n ≤ s_endp s →
  bytes_at s i n = slice (content s) i (Z.of_nat n).
Proof.
  intros Hs ? ?. pose proof Hs as (?&?&_).
  rewrite slice_content by (auto; lia). apply bytes_at_slice; auto; lia.
Qed.

Lemma poked_content s p bs :
  sane s → 0 ≤ p → p + Z.of_nat (length bs) ≤ s_endp s →
  content (poked s p bs) = splice (content s) p bs.
Proof.
  intros Hs ? ?. pose proof Hs as (?&?&?&?&_). unfold content, poked; simpl.
  unfold splice. rewrite take_take, Nat.min_l by lia.
  rewrite skipn_firstn_comm. rewrite app_assoc, take_app, length_app, length_take.
  rewrite take_ge by (rewrite length_app, length_take; lia).
  rewrite <- app_assoc. do 3 f_equal. lia.
Qed.

Lemma get_width_spec w : read_spec (bytes_of w) (get_width w).
Proof.
  destruct w; [apply stream_getc_spec | apply stream_getw_spec
              | apply stream_getl_spec | apply stream_getq_spec].
Qed.

Lemma get_from_width_spec w : read_from_spec (bytes_of w) (get_from_width w).
Proof.
  destruct w; [apply stream_getc_from_spec | apply stream_getw_from_spec
              | apply stream_getl_from_spec | apply stream_getq_from_spec].
Qed.

Lemma put_width_spec w : write_spec (bytes_of w) (put_width w).
Proof.
  destruct w; [apply stream_putc_spec | apply stream_putw_spec
              | apply stream_putl_spec | apply stream_putq_spec].
Qed.

Lemma put_at_width_spec w : write_at_spec (bytes_of w) (put_at_width w).
Proof.
  destruct w; [apply stream_putc_at_spec | apply stream_putw_at_spec
              | apply stream_putl_at_spec | apply stream_putq_at_spec].
Qed.

(** The statement every operation satisfies; one lemma per group below. *)
Definition refines (o : stream_op) (s : stream) : Prop :=
  ∃ r s', stream_exec o s = Ok (r, s') ∧ sane s' ∧ buf_step (abs s) o r (abs s').

Lemma refines_get w s : sane s → refines (OpGet w) s.
Proof.
  intros Hs. pose proof Hs as (?&?&_). unfold refines; cbn [stream_exec buf_step]; cbv zeta.
  rewrite (get_width_spec w s Hs), abs_len by done. simpl b_pos.
  destruct (Z.ltb_spec (s_endp s - s_getp s) (Z.of_nat (bytes_of w))).
  - eauto 10.
  - eexists _, _. split; [reflexivity |]. split; [solve_sane |].
    rewrite bytes_at_content by (auto; lia). split; reflexivity.
Qed.

Lemma refines_get_from w p s : sane s → op_ok (OpGetFrom w p) s → refines (OpGetFrom w p) s.
Proof.
  intros Hs [Hp Hw]. unfold refines; cbn [stream_exec buf_step]; cbv zeta.
  rewrite (get_from_width_spec w s p Hs Hp Hw), abs_len by done.
  destruct (Z.leb_spec (p + Z.of_nat (bytes_of w)) (s_endp s)).
  - rewrite bytes_at_content by (auto; lia). eauto 10.
  - eauto 10.
Qed.

Lemma refines_put w v s : sane s → refines (OpPut w v) s.
Proof.
  intros Hs. pose proof Hs as (?&?&_). unfold refines; cbn [stream_exec buf_step]; cbv zeta.
  rewrite (put_width_spec w s v Hs), abs_len by done. simpl b_cap.
  pose proof (length_be_bytes (bytes_of w) v) as Hl.
  destruct (Z.ltb_spec (s_size s - s_endp s) (Z.of_nat (bytes_of w))).
  - eauto 10.
  - eexists _, _. split; [reflexivity |]. split.
    + apply pushed_sane; auto using be_bytes_u8. lia.
    + split; [done |]. unfold abs, buf_append. rewrite pushed_content by (auto; lia). done.
Qed.

Lemma refines_put_at w p v s :
  sane s → op_ok (OpPutAt w p v) s → refines (OpPutAt w p v) s.
Proof.
  intros Hs [Hp Hw]. pose proof Hs as (?&?&_).
  unfold refines; cbn [stream_exec buf_step]; cbv zeta.
  rewrite (put_at_width_spec w s p v Hs Hp Hw), abs_len by done.
  pose proof (length_be_bytes (bytes_of w) v) as Hl.
  destruct (Z.leb_spec (p + Z.of_nat (bytes_of w)) (s_endp s)); [| eauto 10].
  eexists _, _. split; [reflexivity |]. split.
  - apply poked_sane; auto using be_bytes_u8; lia.
  - split; [done |]. unfold abs. rewrite poked_content by (auto; lia). done.
Qed.

Lemma refines_blocks n src s :
  sane s →
  (op_ok (OpGetBlock n) s → refines (OpGetBlock n) s) ∧
  (op_ok (OpPutBlock src n) s → refines (OpPutBlock src n) s).
Proof.
  intros Hs. pose proof Hs as (?&?&?&_). unfold refines; cbn [stream_exec buf_step op_ok].
  rewrite abs_len by done. simpl b_pos; simpl b_cap. split.
  - intros Hn. rewrite stream_get_spec by done.
    destruct (Z.ltb_spec (s_endp s - s_getp s) n); [eauto 10 |].
    eexists _, _. split; [reflexivity |]. split; [solve_sane | split; reflexivity].
  - destruct src as [bs|].
    + intros (Hn & Hl & Hb & Hw). rewrite stream_put_spec by done.
      destruct (Z.leb_spec (2 ^ 64) (s_endp s + n)); [lia |].
      eexists _, _. split; [reflexivity |].
      assert (Z.of_nat (length (take (Z.to_nat (Z.min n (s_size s - s_endp s))) bs)) ≤
              s_size s - s_endp s) by (rewrite length_take; lia).
      split; [apply pushed_sane; auto using Forall_take; lia |].
      split; [done |]. unfold abs, buf_append. rewrite pushed_content by (auto; lia). done.
    + intros (Hn & Hw). rewrite stream_put_null_spec by done.
      destruct (Z.leb_spec (2 ^ 64) (s_endp s + n)); [lia |].
      eexists _, _. split; [reflexivity |]. unfold_ranges. split.
      * apply pushed_sane; auto; [apply Forall_replicate; unfold is_u8; lia |].
        rewrite length_replicate. lia.
      * split; [done |]. unfold abs, buf_append.
        rewrite pushed_content by (rewrite ?length_replicate; auto; lia). done.
Qed.

Lemma refines_positions n s :
  sane s →
  (op_ok (OpSetGetp n) s → refines (OpSetGetp n) s) ∧
  (op_ok (OpForwardGetp n) s → refines (OpForwardGetp n) s) ∧
  refines OpReset s.
Proof.
  intros Hs. pose proof Hs as (?&?&?&?&?). unfold refines; cbn [stream_exec buf_step op_ok].
  rewrite abs_len by done. split; [| split].
  - intros Hn. eexists _, _. split; [reflexivity |].
    unfold stream_set_getp, GETP_VALID. unfold_ranges.
    destruct (Z.leb_spec n (s_endp s)); (split; [solve_sane |]);
      (split; [done |]); unfold abs; simpl; f_equal; lia.
  - intros [Hn Hw]. eexists _, _. split; [reflexivity |].
    unfold stream_forward_getp, GETP_VALID. unfold_ranges.
    rewrite u64_small by (unfold_ranges; lia). simpl b_pos.
    destruct (Z.leb_spec (s_getp s + n) (s_endp s)); (split; [solve_sane |]); done.
  - eexists _, _. split; [reflexivity |]. split; [| done].
    repeat split; simpl; auto; lia.
Qed.

Lemma refines_forward_endp n s :
  sane s → op_ok (OpForwardEndp n) s → refines (OpForwardEndp n) s.
Proof.
  intros Hs [Hn Hw]. pose proof Hs as (?&?&?&?&?).
  unfold refines; cbn [stream_exec buf_step]. rewrite abs_len by done. simpl b_cap.
  eexists _, _. split; [reflexivity |]. unfold stream_forward_endp, ENDP_VALID. unfold_ranges.
  rewrite u64_small by (unfold_ranges; lia).
  destruct (Z.leb_spec (s_endp s + n) (s_size s)); [| done]. split.
  - repeat split; simpl; auto; lia.
  - split; [done |]. exists (slice (s_data s) (s_endp s) n). split.
    + apply length_slice; lia.
    + unfold abs, buf_append, content, slice; simpl. f_equal.
      rewrite Z2Nat.inj_add by lia.
      rewrite <- (take_drop (Z.to_nat (s_endp s)) (s_data s)) at 1.
      rewrite take_app, take_take, length_take. f_equal.
      * f_equal. lia.
      * f_equal. lia.
Qed.

Lemma refines_resize n tail s :
  sane s → op_ok (OpResize n tail) s → refines (OpResize n tail) s.
Proof.
  intros Hs [Hn Ht]. pose proof Hs as (?&?&?&?&?). unfold refines; cbn [stream_exec].
  destruct tail as [t|]; [destruct Ht as [Hb Hl] | by eexists _, _; split; [reflexivity | split; [done | split]]].
  assert (alloc_size n = n) as Ha.
  { unfold alloc_size. rewrite s32_small, u64_small; unfold_ranges; lia. }
  unfold stream_resize; rewrite Ha.
  set (d := realloc_block (s_data s) n t).
  assert (Z.of_nat (length d) = n)
    by (subst d; unfold realloc_block; rewrite length_take, length_app; lia).
  assert (Forall is_u8 d) by (subst d; apply Forall_take, Forall_app_2; done).
  assert (∀ k, 0 ≤ k ≤ n → k ≤ s_size s → take (Z.to_nat k) d = take (Z.to_nat k) (s_data s)).
  { intros k ? ?. subst d. unfold realloc_block. rewrite take_take, take_app_le by lia.
    f_equal. lia. }
  cbn [s_endp s_size s_getp set_data set_size]. rewrite !Z.gtb_ltb.
  destruct (Z.ltb_spec n (s_endp s)); cbn [s_endp s_getp set_endp set_data set_size];
    case_cmp; eexists _, _; (split; [reflexivity |]);
    (split; [repeat split; simpl; auto; lia |]);
    (split; [done |]); unfold abs, content; simpl; f_equal; try lia;
    match goal with Hk : ∀ k, _ → _ → _ |- _ => rewrite Hk by lia end;
    rewrite take_take; f_equal; lia.
Qed.

(** [stream] implements [buf]: on a sane stream and acceptable arguments every
    operation returns, keeps the invariant and does what [buf_step] says. *)
Lemma stream_refines o s : sane s → op_ok o s → refines o s.
Proof.
  intros Hs Ho. destruct o.
  - by apply refines_get.
  - by apply refines_get_from.
  - by apply (refines_blocks n None).
  - by apply refines_put.
  - by apply refines_put_at.
  - by apply (refines_blocks n src).
  - by apply refines_positions.
  - by apply (refines_positions n).
  - by apply refines_forward_endp.
  - by apply (refines_positions 0).
  - by apply refines_resize.
Qed.

(** A stream of [n] free bytes, for concrete runs. *)
Definition blank_stream (n : nat) : stream :=
  let su := mkSockunion 0 0 0 in
  mkStream None 0 0 0 su su 0 0 0 0 0 0 0 0 0 0 0 [] 0 0 (Z.of_nat n) (replicate n 0).

Lemma blank_stream_sane n : Z.of_nat n < 2 ^ 63 → sane (blank_stream n).
Proof.
  intros. repeat split; simpl; rewrite ?length_replicate; try lia.
  apply Forall_replicate. unfold is_u8. lia.
Qed.

(** ** Round trip of typed values *)

(** A value with its width, as the put/get pairs exchange them. *)
Definition item : Type := width * Z.

Definition item_ok (i : item) : Prop := 0 ≤ i.2 < 2 ^ (8 * Z.of_nat (bytes_of i.1)).

Definition items_size (l : list item) : Z :=
  Z.of_nat (sum_list_with (λ i, bytes_of i.1) l).

Lemma items_size_cons w v l :
  items_size ((w, v) :: l) = Z.of_nat (bytes_of w) + items_size l.
Proof. unfold items_size. cbn [sum_list_with fst]. lia. Qed.

Fixpoint put_items (l : list item) (s : stream) : res stream :=
  match l with
  | [] => Ok s
  | (w, v) :: l => '(_, s) ← put_width w s v; put_items l s
  end.

Fixpoint get_items (ws : list width) (s : stream) : res (list item * stream) :=
  match ws with
  | [] => Ok ([], s)
  | w :: ws =>
      '(v, s) ← get_width w s;
      '(l, s) ← get_items ws s;
      Ok ((w, v) :: l, s)
  end.

Definition items_bytes (l : list item) : list Z := l ≫= λ i, be_bytes (bytes_of i.1) i.2.

Lemma length_items_bytes l : Z.of_nat (length (items_bytes l)) = items_size l.
Proof.
  unfold items_size, items_bytes. f_equal.
  induction l as [|[w v] l IH]; simpl; rewrite ?length_app, ?length_be_bytes; auto.
Qed.

Lemma items_bytes_u8 l : Forall is_u8 (items_bytes l).
Proof.
  induction l as [|[w v] l IH]; [constructor |].
  apply Forall_app_2; auto using be_bytes_u8.
Qed.

Lemma put_items_spec l s :
  sane s → s_endp s + items_size l ≤ s_size s →
  put_items l s = Ok (pushed s (items_bytes l)).
Proof.
  revert s. induction l as [|[w v] l IH]; intros s Hs Hl.
  - cbn. unfold pushed, set_endp, set_data, splice; simpl. destruct s; simpl.
    rewrite Z.add_0_r, Nat.add_0_r, take_drop. reflexivity.
  - cbn [put_items]. pose proof (length_be_bytes (bytes_of w) v) as Hb.
    rewrite items_size_cons in Hl.
    assert (0 ≤ items_size l) by (unfold items_size; lia).
    rewrite (put_width_spec w s v Hs). case_cmp; [lia |]. rewrite bind_Ok.
    assert (sane (pushed s (be_bytes (bytes_of w) v)))
      by (apply pushed_sane; auto using be_bytes_u8; lia).
    rewrite IH by (auto; cbn [s_endp s_size pushed set_endp set_data]; lia).
    rewrite pushed_pushed; auto.
    rewrite length_app, Nat2Z.inj_add, length_items_bytes. lia.
Qed.

Lemma get_items_spec l s p rest :
  sane s → 0 ≤ p → Forall item_ok l → drop (Z.to_nat p) (content s) = items_bytes l ++ rest →
  s_getp s = p → get_items (l.*1) s = Ok (l, set_getp (p + items_size l) s).
Proof.
  revert s p. induction l as [|[w v] l IH]; intros s p Hs Hp Hok Hc Hg.
  - cbn. rewrite Z.add_0_r, <- Hg. destruct s; reflexivity.
  - apply Forall_cons_1 in Hok as [Hv Hok]. cbn [fmap list_fmap fst get_items].
    pose proof (length_content s Hs) as Hlen. pose proof Hs as (?&?&_).
    pose proof (length_be_bytes (bytes_of w) v) as Hb.
    change (items_bytes ((w, v) :: l)) with (be_bytes (bytes_of w) v ++ items_bytes l) in Hc.
    rewrite <- app_assoc in Hc. pose proof (f_equal length Hc) as Hl.
    rewrite length_drop, length_app, Hb in Hl.
    rewrite (get_width_spec w s Hs). case_cmp; [lia |]. rewrite bind_Ok.
    rewrite bytes_at_content by (auto; lia). rewrite Hg. unfold slice at 1.
    rewrite Hc, Nat2Z.id, (take_app_length' _ _ _ (eq_sym Hb)), be_value_bytes.
    rewrite Z.mod_small by exact Hv.
    rewrite (IH (set_getp (p + Z.of_nat (bytes_of w)) s) (p + Z.of_nat (bytes_of w))).
    + rewrite bind_Ok, items_size_cons, set_getp_set_getp, Z.add_assoc. reflexivity.
    + solve_sane.
    + lia.
    + done.
    + change (content (set_getp _ s)) with (content s).
      rewrite Z2Nat.inj_add, Nat2Z.id, <- drop_drop, Hc by lia. by apply drop_app_length'.
    + reflexivity.
Qed.

(** C33: any sequence of 1, 2, 4 and 8 byte values that fits, written with
    stream_putc/w/l/q, is read back unchanged by stream_getc/w/l/q from the
    position where the first one was written. *)
Theorem stream_items_roundtrip s l :
  sane s → Forall item_ok l → s_endp s + items_size l ≤ s_size s →
  ∃ s', put_items l s = Ok s' ∧ sane s' ∧ content s' = content s ++ items_bytes l ∧
    get_items (l.*1) (set_getp (s_endp s) s') =
      Ok (l, set_getp (s_endp s + items_size l) s').
Proof.
  intros Hs Hok Hfit. pose proof Hs as (?&?&_). pose proof (length_items_bytes l).
  assert (0 ≤ items_size l) by (unfold items_size; lia).
  exists (pushed s (items_bytes l)).
  assert (sane (pushed s (items_bytes l)))
    by (apply pushed_sane; auto using items_bytes_u8; lia).
  split; [by apply put_items_spec |]. split; [done |].
  assert (content (pushed s (items_bytes l)) = content s ++ items_bytes l) as Hc
    by (apply pushed_content; auto; lia).
  split; [done |].
  rewrite (get_items_spec l _ (s_endp s) []); auto; try lia.
  - apply set_getp_sane; auto. cbn [s_endp pushed set_endp set_data]. lia.
  - change (content (set_getp _ ?x)) with (content x). rewrite Hc, app_nil_r.
    apply drop_app_length'. pose proof (length_content s Hs). lia.
Qed.

Lemma stream_items_roundtrip_witness :
  let l := [(W1, 77); (W4, 305419896); (W2, 65535); (W8, 2 ^ 63)] in
  ∃ s', put_items l (blank_stream 16) = Ok s' ∧ sane s' ∧
    content s' = content (blank_stream 16) ++ items_bytes l ∧
    get_items (l.*1) (set_getp 0 s') = Ok (l, set_getp (0 + items_size l) s').
Proof.
  apply (stream_items_roundtrip (blank_stream 16)
           [(W1, 77); (W4, 305419896); (W2, 65535); (W8, 2 ^ 63)]).
  - apply blank_stream_sane. lia.
  - repeat (constructor; [unfold item_ok; simpl; lia |]). constructor.
  - vm_compute. discriminate.
Defined.

(** ** Programs over the stream operations *)

(** Arguments that are acceptable whatever the stream holds. *)
Definition args_ok (o : stream_op) : Prop :=
  match o with
  | OpGet _ | OpReset | OpPut _ _ => True
  | OpGetFrom w p | OpPutAt w p _ => 0 ≤ p ∧ p + Z.of_nat (bytes_of w) < 2 ^ 64
  | OpGetBlock n => 0 ≤ n
  | OpPutBlock (Some bs) n =>
      0 ≤ n < 2 ^ 63 ∧ n ≤ Z.of_nat (length bs) ∧ Forall is_u8 bs
  | OpPutBlock None n | OpForwardGetp n | OpForwardEndp n => 0 ≤ n < 2 ^ 63
  | OpSetGetp p => is_u64 p
  | OpResize n tail =>
      0 < n < 2 ^ 31 ∧
      match tail with Some t => Forall is_u8 t ∧ n ≤ Z.of_nat (length t) | None => True end
  end.

Lemma args_ok_op_ok o s : sane s → args_ok o → op_ok o s.
Proof.
  intros (?&?&?&?&_). destruct o as [| | | | |[bs|]| | | | |n [t|]]; simpl; unfold_ranges;
    intuition lia.
Qed.

Fixpoint stream_run (os : list stream_op) (s : stream) : res (list out * stream) :=
  match os with
  | [] => Ok ([], s)
  | o :: os =>
      '(r, s) ← stream_exec o s;
      '(rs, s) ← stream_run os s;
      Ok (r :: rs, s)
  end.

Inductive buf_run : buf → list stream_op → list out → buf → Prop :=
| buf_run_nil b : buf_run b [] [] b
| buf_run_cons b o r b1 os rs b2 :
    buf_step b o r b1 → buf_run b1 os rs b2 → buf_run b (o :: os) (r :: rs) b2.



(** ** Copies *)

(** What a successful allocation of [n] bytes hands out. *)
Definition block_of (n : Z) (d : list Z) : Prop :=
  Z.of_nat (length d) = alloc_size n ∧ Forall is_u8 d.

Lemma alloc_size_small n : 0 ≤ n < 2 ^ 31 → alloc_size n = n.
Proof. intros. unfold alloc_size. rewrite s32_small, u64_small; unfold_ranges; lia. Qed.

Lemma stream_new_sane n obj d s :
  0 < n < 2 ^ 31 → block_of n d → stream_new n (Some obj) (Some d) = Some s →
  sane s ∧ content s = [] ∧ s_size s = n ∧ s_getp s = 0.
Proof.
  intros Hn [Hd Hb] He. rewrite alloc_size_small in Hd by lia. unfold stream_new in He.
  destruct (Z.eqb_spec n 0); [lia |]. simplify_eq. repeat split; simpl; auto; lia.
Qed.

Lemma stream_clone_one_spec from obj d :
  sane from → block_of MISAKA_MAX_PACKET_SIZE d →
  s_endp from - s_getp from ≤ MISAKA_MAX_PACKET_SIZE →
  ∃ to, stream_clone_one from (Some obj) (Some d) = Ok (Some to) ∧ sane to ∧
     content to = unread from ∧ unread to = unread from ∧ s_next to = None ∧
     (s_type to, s_src to, s_dst to, s_mark to) =
       (s_type from, s_src from, s_dst from, s_mark from) ∧
     (s_su to, s_dsu to, s_stype to) = (s_su from, s_dsu from, s_stype from).
Proof.
  intros Hs Hd Hfit. pose proof Hs as (?&?&?&Hlen&?).
  assert (sane (stream_color_one (set_size 256 (set_next None (set_mark 0 (set_type 0
            (set_endp 0 (set_getp 0 (set_data d obj)))))) ) from)) as Hto.
  { destruct Hd as [Hd Hb]. rewrite alloc_size_small in Hd by (unfold MISAKA_MAX_PACKET_SIZE; lia).
    repeat split; simpl; auto; lia. }
  unfold stream_clone_one, stream_new. cbn [Z.eqb MISAKA_MAX_PACKET_SIZE].
  rewrite u64_small by (unfold stream_get_endp, stream_get_getp; unfold_ranges; lia).
  rewrite stream_put_spec; auto; unfold stream_get_endp, stream_get_getp in *.
  + cbn [s_endp s_size stream_color_one set_type set_src set_dst set_mark set_su set_dsu
         set_stype set_size set_next set_endp set_getp set_data].
    unfold MISAKA_MAX_PACKET_SIZE in *.
    destruct (Z.leb_spec (2 ^ 64) (0 + (s_endp from - s_getp from))); [lia |].
    rewrite bind_Ok, Z.min_l by lia. eexists. split; [reflexivity |].
    set (bs := take _ (stream_pnt from)).
    assert (bs = unread from) as Hbs.
    { subst bs. unfold stream_pnt, unread, content. rewrite skipn_firstn_comm.
      f_equal. lia. }
    rewrite Hbs. pose proof (length_unread from Hs).
    match goal with |- sane (pushed ?x _) ∧ _ => assert (content (pushed x (unread from)) = unread from) as Hc end.
    { rewrite pushed_content; auto. cbn [s_endp s_size stream_color_one set_type set_src set_dst
        set_mark set_su set_dsu set_stype set_size set_next set_endp set_getp set_data]. lia. }
    split; [apply pushed_sane; auto |].
    * unfold unread. apply Forall_drop, content_u8. done.
    * cbn [s_endp s_size stream_color_one set_type set_src set_dst
        set_mark set_su set_dsu set_stype set_size set_next set_endp set_getp set_data]. lia.
    * split; [done |]. split; [unfold unread at 1; rewrite Hc; reflexivity |]. done.
  + unfold_ranges. lia.
  + unfold stream_pnt. rewrite length_drop. lia.
Qed.

(** Stream_clone_one of a stream whose unread bytes fit a packet gives a
    stream that starts with those bytes, unread from position 0, and carries the
    type, source, destination, mark, addresses and source type of the original;
    when either allocation fails it returns NULL. *)
Theorem stream_clone_one_copies from obj d :
  sane from → block_of MISAKA_MAX_PACKET_SIZE d →
  s_endp from - s_getp from ≤ MISAKA_MAX_PACKET_SIZE →
  (∃ to, stream_clone_one from (Some obj) (Some d) = Ok (Some to) ∧ sane to ∧
     content to = unread from ∧ unread to = unread from ∧ s_next to = None ∧
     (s_type to, s_src to, s_dst to, s_mark to) =
       (s_type from, s_src from, s_dst from, s_mark from) ∧
     (s_su to, s_dsu to, s_stype to) = (s_su from, s_dsu from, s_stype from)) ∧
  (∀ o b, o = None ∨ b = None → stream_clone_one from o b = Ok None).
Proof.
  intros Hs Hd Hfit. split; [by apply stream_clone_one_spec |].
  intros o b Hob. unfold stream_clone_one, stream_new. cbn [Z.eqb MISAKA_MAX_PACKET_SIZE].
  destruct Hob as [-> | ->]; [done | by destruct o].
Qed.

Lemma stream_clone_one_copies_witness :
  let from := stream_color_one (pushed (blank_stream 16) [1; 2; 3]) (blank_stream 1) in
  ∃ to, stream_clone_one from (Some (blank_stream 0)) (Some (replicate 256 7)) = Ok (Some to) ∧
    content to = [1; 2; 3].
Proof.
  edestruct (stream_clone_one_copies
    (stream_color_one (pushed (blank_stream 16) [1; 2; 3]) (blank_stream 1))
    (blank_stream 0) (replicate 256 7)) as [(to & He & _ & Hc & _) _].
  - repeat split; try (vm_compute; congruence).
    repeat (apply Forall_cons_2; [unfold is_u8; lia |]). apply Forall_nil_2.
  - split; [reflexivity |]. apply Forall_replicate. unfold is_u8. lia.
  - vm_compute. discriminate.
  - exists to. split; [exact He | exact Hc].
Defined.

(** [stream_put] writes [endp] and the block, nothing else. *)
Lemma stream_put_frame s src n s' :
  stream_put s src n = Ok s' → ∃ e d, s' = set_endp e (set_data d s).
Proof.
  assert (∀ bs k, push_block bs k s = Ok s' → ∃ e d, s' = set_endp e (set_data d s)) as Hb.
  { intros bs k H. unfold push_block in H. inv_bind. eauto. }
  unfold stream_put. cbv zeta. generalize (CHECK_SIZE s n). intros k H.
  destruct (STREAM_WRITEABLE s <? k).
  - injection H as <-. exists (s_endp s), (s_data s). by destruct s.
  - destruct src; eauto.
Qed.

Lemma clone_keeps_ids from obj d to :
  stream_clone_one from (Some obj) (Some d) = Ok (Some to) →
  (s_nid to, s_sid to, s_seq to, s_interval to) =
  (s_nid obj, s_sid obj, s_seq obj, s_interval obj).
Proof.
  unfold stream_clone_one. destruct (stream_new _ _ _) as [t|] eqn:Hn; [| discriminate].
  intros H. apply bind_Ok_inv in H as (to' & H & [= <-]).
  apply stream_put_frame in H as (e & d' & ->).
  unfold stream_new in Hn. simpl in Hn. injection Hn as <-. reflexivity.
Qed.

(** The clone does not inherit the node id, session and sequence number of
    the packet: they keep whatever the fresh allocation held, so every value of
    the node id is possible for the clone of one and the same packet. *)
Theorem stream_clone_one_node_id from obj d to :
  stream_clone_one from (Some obj) (Some d) = Ok (Some to) →
  (s_nid to, s_sid to, s_seq to, s_interval to) =
  (s_nid obj, s_sid obj, s_seq obj, s_interval obj).
Proof. apply clone_keeps_ids. Qed.

Lemma stream_clone_one_node_id_witness :
  match stream_clone_one (blank_stream 4) (Some (set_nid 41 (blank_stream 0)))
          (Some (replicate 256 0)) with
  | Ok (Some to) => s_nid (blank_stream 4) = 0 ∧ s_nid to = 41
  | _ => False
  end.
Proof.
  destruct (stream_clone_one (blank_stream 4) (Some (set_nid 41 (blank_stream 0)))
              (Some (replicate 256 0))) as [[to|]|e] eqn:E.
  - apply stream_clone_one_node_id in E. split; [done |]. exact (f_equal (λ x, x.1.1.1) E).
  - vm_compute in E. discriminate E.
  - vm_compute in E. discriminate E.
Defined.

(** Stream_dup gives a stream with the same valid bytes and read position in
    a block of exactly that size; an empty stream has no duplicate. *)
Theorem stream_dup_same s obj d :
  sane s → s_endp s < 2 ^ 31 → block_of (s_endp s) d →
  if s_endp s =? 0 then stream_dup s (Some obj) (Some d) = Ok None
  else ∃ s', stream_dup s (Some obj) (Some d) = Ok (Some s') ∧ sane s' ∧
         content s' = content s ∧ s_getp s' = s_getp s ∧ s_size s' = s_endp s.
Proof.
  intros Hs Hsmall [Hd Hb]. pose proof Hs as (?&?&?&?&?).
  rewrite alloc_size_small in Hd by lia. unfold stream_dup, stream_new.
  destruct (Z.eqb_spec (s_endp s) 0); [done |]. unfold stream_copy.
  rewrite rd_block_Ok by lia. rewrite bind_Ok.
  assert (slice (s_data s) 0 (s_endp s) = content s) as -> by reflexivity.
  pose proof (length_content s Hs).
  rewrite wr_block_Ok by (simpl; lia). simpl mbind. eexists. split; [reflexivity |].
  split; [| split; [| done]].
  - repeat split; simpl; try lia.
    + rewrite length_splice; lia.
    + apply Forall_splice; auto using content_u8.
  - unfold content at 1; simpl. unfold splice. simpl.
    rewrite take_app_length'; [done | lia].
Qed.

Lemma stream_dup_same_witness :
  ∃ s', stream_dup (pushed (blank_stream 4) [5; 6]) (Some (blank_stream 0)) (Some [0; 0])
        = Ok (Some s') ∧ content s' = [5; 6].
Proof.
  edestruct (stream_dup_same (pushed (blank_stream 4) [5; 6]) (blank_stream 0) [0; 0])
    as (s' & He & _ & Hc & _).
  - apply pushed_sane; [apply blank_stream_sane; lia | | simpl; lia].
    repeat (apply Forall_cons_2; [unfold is_u8; lia |]). apply Forall_nil_2.
  - simpl. lia.
  - split; [reflexivity |]. repeat (apply Forall_cons_2; [unfold is_u8; lia |]). apply Forall_nil_2.
  - exists s'. split; [exact He | exact Hc].
Defined.

Lemma at_check_wraps s p v :
  sane s → u64 (p + 1) = 0 → s_size s ≤ p →
  stream_getc_from s p = Fail OutOfBounds ∧ stream_putc_at s p v = Fail OutOfBounds.
Proof.
  intros (?&?&?&Hl&_) Hw Hp.
  unfold stream_getc_from, stream_putc_at, PUT_AT_VALID, GETP_VALID, poke_byte.
  rewrite Hw, rd_oob, wr_oob by lia. destruct (Z.leb_spec 0 (s_endp s)); [done | lia].
Qed.

(** C37: the bounds checks of the readers and writers at a position add the
    width to the position in size_t: the last position of the address space
    wraps to 0, passes the check of every sane stream and makes the byte access
    leave the block. *)
Theorem stream_at_checks_wrap s v :
  sane s →
  stream_getc_from s (2 ^ 64 - 1) = Fail OutOfBounds ∧
  stream_putc_at s (2 ^ 64 - 1) v = Fail OutOfBounds.
Proof. intros Hs. apply at_check_wraps; [done | done |]. destruct Hs as (?&?&?&_). lia. Qed.

Lemma stream_at_checks_wrap_witness :
  stream_getc_from (blank_stream 4) (2 ^ 64 - 1) = Fail OutOfBounds ∧
  stream_putc_at (blank_stream 4) (2 ^ 64 - 1) 0 = Fail OutOfBounds.
Proof. apply (stream_at_checks_wrap (blank_stream 4) 0). apply blank_stream_sane. lia. Defined.
