(* ===== verification/Fifo.v ===== *)
(** Packet fifos: [struct stream_fifo] and the operations of lib/stream.c on
    linked packets (stream_fifo_*, stream_clone, stream_color, stream_count),
    with misaka_packet_add, misaka_packet_delete, misaka_write_packet and
    misaka_write_proceed of lib/core.c, which are thin wrappers of them. *)

From S2P Require Import Prelude Sockunion Stream StreamFacts Memory.

Local Open Scope Z_scope.

#[export] Instance stream_linked : Linked stream := {
  link := s_next;
  set_link := set_next;
  link_set_link p n := eq_refl
}.

Record stream_fifo := mkFifo {
  f_count : Z;          (* size_t *)
  f_head : option loc;
  f_tail : option loc
}.

(** XCALLOC: all fields zero. *)
Definition stream_fifo_new : stream_fifo := mkFifo 0 None None.

Section fifo.
Implicit Types (h : gmap loc stream) (f : stream_fifo) (s : option loc).

Definition stream_free h s : res (gmap loc stream) := release h s.

Definition stream_fifo_push h f s : res (gmap loc stream * stream_fifo) :=
  '(h, head) ←
    match f_tail f with
    | Some t => h ← modify h (Some t) (set_next s); Ok (h, f_head f)
    | None => Ok (h, s)
    end;
  Ok (h, mkFifo (u64 (f_count f + 1)) head s).

Definition stream_fifo_pop h f : res (option loc * stream_fifo) :=
  let s := f_head f in
  '(head, tail) ←
    match s with
    | Some _ =>
        n ← load h s;
        let head := s_next n in
        Ok (head, match head with None => None | Some _ => f_tail f end)
    | None => Ok (f_head f, f_tail f)
    end;
  Ok (s, mkFifo (u64 (f_count f - 1)) head tail).

Definition stream_fifo_head f : option loc := f_head f.

(** The loop of stream_fifo_clean; every round frees one packet, so
    [S (size (dom h))] rounds are never exceeded. *)
Fixpoint clean_loop (k : nat) h s : res (gmap loc stream) :=
  match k with
  | O => Fail OutOfFuel
  | S k =>
      match s with
      | None => Ok h
      | Some _ => n ← load h s; h ← stream_free h s; clean_loop k h (s_next n)
      end
  end.

Definition stream_fifo_clean h f : res (gmap loc stream * stream_fifo) :=
  h ← clean_loop (S (size (dom h))) h (f_head f); Ok (h, mkFifo 0 None None).

Definition stream_fifo_free h f : res (gmap loc stream) :=
  '(h, _) ← stream_fifo_clean h f; Ok h.

(** lib/core.c *)
Definition misaka_packet_add h f s := stream_fifo_push h f s.

Definition misaka_packet_delete h f : res (gmap loc stream * stream_fifo) :=
  '(s, f) ← stream_fifo_pop h f; h ← stream_free h s; Ok (h, f).

Definition misaka_write_proceed f : bool :=
  match stream_fifo_head f with Some _ => true | None => false end.

Definition misaka_write_packet f : option loc :=
  match stream_fifo_head f with Some s => Some s | None => None end.

(** Lists of packets *)

Definition stream_count h s : res Z :=
  xs ← walk (S (size (dom h))) h s; Ok (s32 (Z.of_nat (length xs))).

Fixpoint color_loop (k : nat) h (t : option loc) (from : stream) : res (gmap loc stream) :=
  match k with
  | O => Fail OutOfFuel
  | S k =>
      match t with
      | None => Ok h
      | Some _ =>
          h ← modify h t (λ n, stream_color_one n from);
          n ← load h t;
          color_loop k h (s_next n) from
      end
  end.

Definition stream_color h (to : option loc) (from : stream) : res (gmap loc stream) :=
  color_loop (S (size (dom h))) h to from.

(** What the two XMALLOC calls of one stream_clone_one return: an address with
    the contents of the structure, and the contents of the block. *)
Definition allocation : Type := option (loc * stream) * option (list Z).

(** stream_clone_one on the heap: NULL, or the address of the clone. *)
Definition clone_at h (from : stream) (a : allocation) : res (option loc * gmap loc stream) :=
  to ← stream_clone_one from (snd <$> a.1) a.2;
  match to, a.1 with
  | Some n, Some (l, _) => Ok (Some l, <[l := n]> h)
  | _, _ => Ok (None, h)
  end.

(** The loop of stream_clone: [head] and [to] are the local pointers, [allocs]
    what the allocations of the successive rounds return. *)
Fixpoint clone_loop (allocs : list allocation) h (t head to : option loc)
    : res (option loc * gmap loc stream) :=
  match t with
  | None => Ok (head, h)
  | Some _ =>
      match allocs with
      | [] => Fail OutOfFuel
      | a :: allocs =>
          n ← load h t;
          '(c, h) ← clone_at h n a;
          match head with
          | None => n ← load h t; clone_loop allocs h (s_next n) c c
          | Some _ =>
              h ← modify h to (set_next c);
              n ← load h t; clone_loop allocs h (s_next n) head c
          end
      end
  end.

Definition stream_clone (allocs : list allocation) h (from : option loc)
    : res (option loc * gmap loc stream) :=
  clone_loop allocs h from None None.

End fifo.

(** ** Representation: a fifo is the list of the packets it holds *)

Definition fifo_rep (h : gmap loc stream) (f : stream_fifo) (xs : list loc) : Prop :=
  chain h xs None ∧ NoDup xs ∧ f_head f = first_ptr xs None ∧ f_tail f = last xs ∧
  f_count f = u64 (Z.of_nat (length xs)).

Lemma fifo_new_rep h : fifo_rep h stream_fifo_new [].
Proof. repeat split; constructor. Qed.

Lemma u64_succ n : u64 (u64 n + 1) = u64 (n + 1).
Proof. unfold u64. apply Z.add_mod_idemp_l. lia. Qed.

Lemma u64_pred n : u64 (u64 n - 1) = u64 (n - 1).
Proof. unfold u64. apply Zminus_mod_idemp_l. Qed.

(** A packet that is not linked anywhere: what a fresh or popped packet whose
    [next] was cleared is. *)
Definition unlinked (h : gmap loc stream) (s : loc) : Prop :=
  ∃ n, h !! s = Some n ∧ s_next n = None.

Lemma fifo_push_rep h f xs s :
  fifo_rep h f xs → s ∉ xs → unlinked h s →
  ∃ h' f', stream_fifo_push h f (Some s) = Ok (h', f') ∧ fifo_rep h' f' (xs ++ [s]) ∧
    dom h' = dom h ∧ (∀ y, y ∉ xs → h' !! y = h !! y).
Proof.
  intros (Hc & Hnd & Hh & Ht & Hn) Hs (n & Hsn & Hnext). unfold stream_fifo_push.
  assert (NoDup (xs ++ [s])) as Hnd'.
  { apply NoDup_app. repeat split; auto using NoDup_singleton.
    intros y Hy ->%list_elem_of_singleton. done. }
  destruct xs as [|x xs' _] using rev_ind.
  - rewrite Ht; simpl. eexists _, _. split; [reflexivity |]. split; [| done].
    repeat split; simpl; auto; [eauto |]. by rewrite Hn.
  - rewrite Ht, last_snoc.
    destruct (chain_lookup _ _ _ x Hc) as [nx Hx]; [set_solver |].
    rewrite (modify_Some _ _ _ _ Hx), !bind_Ok. eexists _, _. split; [reflexivity |].
    assert (s ≠ x) by set_solver. split.
    + repeat split; simpl; auto.
      * rewrite <- app_assoc. apply chain_app.
        apply (chain_snoc_relink h xs' x None (Some s) nx) in Hc; auto.
        apply chain_app in Hc as [Hc1 Hc2]. split; [done |]. simpl.
        destruct Hc2 as [Hc2 _]. split; [exact Hc2 |]. split; [| done].
        exists n. rewrite lookup_insert_ne by done. done.
      * rewrite Hh. by rewrite !first_ptr_app; destruct xs'.
      * by rewrite last_snoc.
      * rewrite Hn, u64_succ. f_equal. rewrite !length_app. simpl. lia.
    + split; [rewrite dom_insert_L; apply elem_of_dom_2 in Hx; set_solver |].
      intros y Hy. apply lookup_insert_ne. set_solver.
Qed.

Lemma fifo_pop_rep h f x xs :
  fifo_rep h f (x :: xs) →
  ∃ f', stream_fifo_pop h f = Ok (Some x, f') ∧ fifo_rep h f' xs.
Proof.
  intros ([(n & Hn & Hl) Hc] & Hnd & Hh & Ht & Hcnt). unfold stream_fifo_pop.
  rewrite Hh. cbn [first_ptr]. rewrite (load_Some _ _ _ Hn), !bind_Ok.
  change (s_next n = first_ptr xs None) in Hl. rewrite Hl.
  eexists. split; [reflexivity |]. apply NoDup_cons in Hnd as [_ Hnd].
  repeat split; simpl; auto.
  - rewrite Ht. destruct xs as [|y xs]; [done |]. simpl. done.
  - rewrite Hcnt, u64_pred. f_equal. simpl. lia.
Qed.

Lemma fifo_frame h h' f xs :
  (∀ x, x ∈ xs → h' !! x = h !! x) → fifo_rep h f xs → fifo_rep h' f xs.
Proof. intros Hf (Hc & Hr). split; [by eapply chain_frame | done]. Qed.

Lemma clean_loop_spec k h xs :
  chain h xs None → NoDup xs → (length xs < k)%nat →
  ∃ h', clean_loop k h (first_ptr xs None) = Ok h' ∧
    (∀ y, h' !! y = if decide (y ∈ xs) then None else h !! y).
Proof.
  revert k h. induction xs as [|x xs IH]; intros k h Hc Hnd Hk; simpl in Hk;
    (destruct k as [|k]; [lia |]).
  - exists h. split; [done |]. intros y. by rewrite decide_False by apply not_elem_of_nil.
  - destruct Hc as [(n & Hn & Hl) Hc]. apply NoDup_cons in Hnd as [Hx Hnd].
    destruct (IH k (delete x h)) as (h' & Hr & Hy); [by apply chain_delete | done | lia |].
    exists h'. split.
    + cbn [clean_loop first_ptr]. rewrite (load_Some _ _ _ Hn), bind_Ok.
      unfold stream_free. rewrite (release_Some _ _ _ Hn), bind_Ok.
      change (s_next n) with (link n). rewrite Hl. exact Hr.
    + intros y. rewrite Hy. destruct (decide (y = x)) as [-> | Hne].
      * rewrite lookup_delete_eq. by rewrite (decide_True (P := x ∈ x :: xs)) by left; case_decide.
      * rewrite lookup_delete_ne by done.
        destruct (decide (y ∈ xs)); destruct (decide (y ∈ x :: xs)); set_solver.
Qed.

(** ** Runs of fifo operations *)

Inductive fifo_op := FPush (s : loc) | FPop | FClean.

Definition fifo_exec (o : fifo_op) (h : gmap loc stream) (f : stream_fifo)
    : res (option loc * gmap loc stream * stream_fifo) :=
  match o with
  | FPush s => '(h, f) ← stream_fifo_push h f (Some s); Ok (None, h, f)
  | FPop => '(r, f) ← stream_fifo_pop h f; Ok (r, h, f)
  | FClean => '(h, f) ← stream_fifo_clean h f; Ok (None, h, f)
  end.

(** The queue of packets the operations implement. *)
Definition queue_step (o : fifo_op) (xs : list loc) : option loc * list loc :=
  match o with
  | FPush s => (None, xs ++ [s])
  | FPop => (head xs, tail xs)
  | FClean => (None, [])
  end.

(** What a caller must respect: push packets that are not linked, do not pop an
    empty fifo. *)
Definition fifo_op_ok (o : fifo_op) (h : gmap loc stream) (xs : list loc) : Prop :=
  match o with
  | FPush s => s ∉ xs ∧ unlinked h s
  | FPop => xs ≠ []
  | FClean => True
  end.

(** C31: stream_fifo_push, stream_fifo_pop and stream_fifo_clean on the linked
    packets implement a first-in first-out queue: the result and the new
    contents are those of the queue, head, tail and count stay consistent with
    the chain, clean frees exactly the packets of the fifo, and no operation
    faults. *)
Theorem fifo_refines_queue o h f xs :
  fifo_rep h f xs → fifo_op_ok o h xs →
  ∃ h' f', fifo_exec o h f = Ok ((queue_step o xs).1, h', f') ∧
    fifo_rep h' f' (queue_step o xs).2 ∧
    match o with
    | FClean => ∀ y, h' !! y = if decide (y ∈ xs) then None else h !! y
    | _ => dom h' = dom h
    end.
Proof.
  intros Hf Ho. destruct o as [s| |]; cbn [fifo_exec queue_step].
  - destruct Ho as [Hs Hu].
    destruct (fifo_push_rep h f xs s Hf Hs Hu) as (h' & f' & He & Hr & Hd & _).
    rewrite He, bind_Ok. eauto.
  - destruct xs as [|x xs]; [done |].
    destruct (fifo_pop_rep h f x xs Hf) as (f' & He & Hr). rewrite He, bind_Ok. eauto.
  - destruct Hf as (Hc & Hnd & Hh & _). unfold stream_fifo_clean. rewrite Hh.
    destruct (clean_loop_spec (S (size (dom h))) h xs) as (h' & He & Hy); auto.
    { pose proof (chain_length _ _ _ Hnd Hc). lia. }
    rewrite He, !bind_Ok. exists h', (mkFifo 0 None None).
    repeat split; auto; constructor.
Qed.

Lemma fifo_refines_queue_witness :
  let h := <[1%positive := blank_stream 4]> (<[2%positive := blank_stream 4]> ∅) in
  ∃ h' f', fifo_exec (FPush 2%positive) h (mkFifo 1 (Some 1%positive) (Some 1%positive)) =
             Ok (None, h', f') ∧ fifo_rep h' f' [1%positive; 2%positive].
Proof.
  edestruct (fifo_refines_queue (FPush 2%positive)
    (<[1%positive := blank_stream 4]> (<[2%positive := blank_stream 4]> ∅))
    (mkFifo 1 (Some 1%positive) (Some 1%positive)) [1%positive]) as (h' & f' & He & Hr & _).
  - repeat split; simpl; auto using NoDup_singleton. exists (blank_stream 4). split; reflexivity.
  - split; [set_solver |]. exists (blank_stream 4). split; reflexivity.
  - exists h', f'. split; [exact He | exact Hr].
Defined.

(** Stream_fifo_pop on an empty fifo returns NULL and leaves it empty, but
    still decrements the unsigned count, which becomes 2^64 - 1. *)
Theorem fifo_pop_empty_count h :
  stream_fifo_pop h stream_fifo_new = Ok (None, mkFifo (2 ^ 64 - 1) None None).
Proof. reflexivity. Qed.
