(* ===== verification/Linklist.v ===== *)
(** Doubly linked lists: [struct listnode], [struct list] and the operations of
    lib/linklist.c on the heap of nodes, and the iteration macro LIST_LOOP of
    include/linklist.h. *)

From S2P Require Import Prelude Memory.

Local Open Scope Z_scope.

Section linklist.
(** [D]: the user data a node points to, compared as pointers are. *)
Context {D : Type} `{EqDecision D}.

Record listnode := mkNode {
  n_next : option loc;
  n_prev : option loc;
  n_data : option D      (* NULL in a node just allocated *)
}.

Record clist := mkList {
  l_head : option loc;
  l_tail : option loc;
  l_count : Z;                          (* unsigned int *)
  l_cmp : option (D → D → Z);           (* comparison callback, may be NULL *)
  l_del : bool                          (* a del callback is set *)
}.

Definition set_n_next (v : option loc) (n : listnode) := mkNode v (n_prev n) (n_data n).
Definition set_n_prev (v : option loc) (n : listnode) := mkNode (n_next n) v (n_data n).
Definition set_head (v : option loc) (l : clist) :=
  mkList v (l_tail l) (l_count l) (l_cmp l) (l_del l).
Definition set_tail (v : option loc) (l : clist) :=
  mkList (l_head l) v (l_count l) (l_cmp l) (l_del l).
Definition set_count (v : Z) (l : clist) :=
  mkList (l_head l) (l_tail l) (u32 v) (l_cmp l) (l_del l).

Context {AN : Allocator listnode}.

Abbreviation heap := (gmap loc listnode).
Implicit Types (h : heap) (l : clist) (v : D) (p node current : option loc).

(** XCALLOC: a zeroed list without callbacks. *)
Definition list_new : clist := mkList None None 0 None false.

(** listnode_new and the stores to the fields of the new node; the result of
    XCALLOC is not checked. *)
Definition listnode_new h (next prev : option loc) v : res (loc * heap) :=
  match xalloc h with
  | None => Fail NullDeref
  | Some q => Ok (q, <[q := mkNode next prev (Some v)]> h)
  end.

Definition listnode_free h p : res heap := release h p.

(** [if (prev) prev->next = x; else list->head = x;] *)
Definition store_next h l (prev x : option loc) : res (heap * clist) :=
  match prev with
  | Some _ => h ← modify h prev (set_n_next x); Ok (h, l)
  | None => Ok (h, set_head x l)
  end.

(** [if (next) next->prev = x; else list->tail = x;] *)
Definition store_prev h l (next x : option loc) : res (heap * clist) :=
  match next with
  | Some _ => h ← modify h next (set_n_prev x); Ok (h, l)
  | None => Ok (h, set_tail x l)
  end.

Definition listnode_add h l v : res (heap * clist) :=
  '(q, h) ← listnode_new h None (l_tail l) v;
  '(h, l) ← match l_head l with
            | None => Ok (h, set_head (Some q) l)
            | Some _ => h ← modify h (l_tail l) (set_n_next (Some q)); Ok (h, l)
            end;
  let l := set_tail (Some q) l in
  Ok (h, set_count (l_count l + 1) l).

(** The search loop of listnode_add_sort: the first node that [v] precedes. *)
Fixpoint sort_loop (k : nat) h (cmp : D → D → Z) v p : res (option loc) :=
  match k with
  | O => Fail OutOfFuel
  | S k =>
      match p with
      | None => Ok None
      | Some _ =>
          n ← load h p;
          d ← from_option_or NullDeref (n_data n);
          if cmp v d <? 0 then Ok p else sort_loop k h cmp v (n_next n)
      end
  end.

Definition listnode_add_sort h l v : res (heap * clist) :=
  '(new, h) ← listnode_new h None None v;
  found ← match l_cmp l with
          | Some cmp => sort_loop (S (size (dom h))) h cmp v (l_head l)
          | None => Ok None
          end;
  match found with
  | Some _ =>
      n ← load h found;
      h ← modify h (Some new) (set_n_next found);
      h ← modify h (Some new) (set_n_prev (n_prev n));
      '(h, l) ← store_next h l (n_prev n) (Some new);
      h ← modify h found (set_n_prev (Some new));
      Ok (h, set_count (l_count l + 1) l)
  | None =>
      h ← modify h (Some new) (set_n_prev (l_tail l));
      '(h, l) ← store_next h l (l_tail l) (Some new);
      let l := set_tail (Some new) l in
      Ok (h, set_count (l_count l + 1) l)
  end.

Definition listnode_add_after h l (pp : option loc) v : res (heap * clist) :=
  '(nn, h) ← listnode_new h None None v;
  match pp with
  | None =>
      '(h, l) ← store_prev h l (l_head l) (Some nn);
      h ← modify h (Some nn) (set_n_next (l_head l));
      h ← modify h (Some nn) (set_n_prev pp);
      let l := set_head (Some nn) l in
      Ok (h, set_count (l_count l + 1) l)
  | Some _ =>
      n ← load h pp;
      '(h, l) ← store_prev h l (n_next n) (Some nn);
      h ← modify h (Some nn) (set_n_next (n_next n));
      h ← modify h (Some nn) (set_n_prev pp);
      h ← modify h pp (set_n_next (Some nn));
      Ok (h, set_count (l_count l + 1) l)
  end.

Definition list_delete_node h l node : res (heap * clist) :=
  n ← load h node;
  '(h, l) ← store_next h l (n_prev n) (n_next n);
  '(h, l) ← store_prev h l (n_next n) (n_prev n);
  let l := set_count (l_count l - 1) l in
  h ← listnode_free h node;
  Ok (h, l).

(** The search of listnode_delete and listnode_lookup by data pointer. *)
Fixpoint find_loop (k : nat) h v p : res (option loc) :=
  match k with
  | O => Fail OutOfFuel
  | S k =>
      match p with
      | None => Ok None
      | Some _ =>
          n ← load h p;
          if decide (n_data n = Some v) then Ok p else find_loop k h v (n_next n)
      end
  end.

Definition listnode_delete h l v : res (heap * clist) :=
  node ← find_loop (S (size (dom h))) h v (l_head l);
  match node with
  | Some _ => list_delete_node h l node
  | None => Ok (h, l)
  end.

Definition listnode_lookup h l v : res (option loc) :=
  find_loop (S (size (dom h))) h v (l_head l).

Definition listnode_get l : option loc := l_head l.

Definition listnode_head h l : res (option D) :=
  match l_head l with
  | Some _ => n ← load h (l_head l); Ok (n_data n)
  | None => Ok None
  end.

(** The loop of list_delete_all_node; the second result lists the data the del
    callback is called on, in order. *)
Fixpoint delete_all_loop (k : nat) h (del : bool) p : res (heap * list (option D)) :=
  match k with
  | O => Fail OutOfFuel
  | S k =>
      match p with
      | None => Ok (h, [])
      | Some _ =>
          n ← load h p;
          h ← listnode_free h p;
          '(h, ds) ← delete_all_loop k h del (n_next n);
          Ok (h, if del then n_data n :: ds else ds)
      end
  end.

Definition list_delete_all_node h l : res (heap * clist * list (option D)) :=
  '(h, ds) ← delete_all_loop (S (size (dom h))) h (l_del l) (l_head l);
  Ok (h, set_count 0 (set_tail None (set_head None l)), ds).

Definition list_delete h l : res (heap * list (option D)) :=
  '(h, _, ds) ← list_delete_all_node h l; Ok (h, ds).

Definition list_add_node_prev h l current v : res (heap * clist) :=
  '(node, h) ← listnode_new h current None v;
  c ← load h current;
  '(h, l) ← store_next h l (n_prev c) (Some node);
  c ← load h current;
  h ← modify h (Some node) (set_n_prev (n_prev c));
  h ← modify h current (set_n_prev (Some node));
  Ok (h, set_count (l_count l + 1) l).

Definition list_add_node_next h l current v : res (heap * clist) :=
  '(node, h) ← listnode_new h None current v;
  c ← load h current;
  '(h, l) ← store_prev h l (n_next c) (Some node);
  c ← load h current;
  h ← modify h (Some node) (set_n_next (n_next c));
  h ← modify h current (set_n_next (Some node));
  Ok (h, set_count (l_count l + 1) l).

(** LIST_LOOP: the data of the nodes, in the order the loop visits them.  The
    operations above take a [D] and so never store NULL; a body that got NULL
    would dereference it. *)
Fixpoint LIST_LOOP (k : nat) h p : res (list D) :=
  match k with
  | O => Fail OutOfFuel
  | S k =>
      match p with
      | None => Ok []
      | Some _ =>
          n ← load h p;
          d ← from_option_or NullDeref (n_data n);
          ds ← LIST_LOOP k h (n_next n);
          Ok (d :: ds)
      end
  end.

(** list_add_list: [l] and [m] share the heap of nodes. *)
Fixpoint add_list_loop (k : nat) h l p : res (heap * clist) :=
  match k with
  | O => Fail OutOfFuel
  | S k =>
      match p with
      | None => Ok (h, l)
      | Some _ =>
          n ← load h p;
          d ← from_option_or NullDeref (n_data n);
          '(h, l) ← listnode_add h l d;
          n ← load h p;
          add_list_loop k h l (n_next n)
      end
  end.

Definition list_add_list h l (m : clist) : res (heap * clist) :=
  add_list_loop (S (size (dom h))) h l (l_head m).

End linklist.

Global Arguments listnode : clear implicits.
Global Arguments clist : clear implicits.
