(* ===== verification/LinklistFacts.v ===== *)
(** Correctness of the doubly linked lists of Linklist.v: every operation on
    the nodes implements the operation on the sequence of the data. *)

From Stdlib Require Import Sorted.
From S2P Require Import Prelude Memory Linklist.

Local Open Scope Z_scope.

Section facts.
Context {D : Type} `{EqDecision D} {AN : Allocator (listnode D)}.

Abbreviation heap := (gmap loc (listnode D)).
Abbreviation cells := (list (loc * D)).
Implicit Types (h : heap) (l : clist D) (xs ys : cells) (v : D).

(** ** Segments *)

Definition dfirst xs (q : option loc) : option loc :=
  match xs with [] => q | (p, _) :: _ => Some p end.

Definition dlast xs (q : option loc) : option loc :=
  match last xs with Some (p, _) => Some p | None => q end.

(** The nodes of [xs] are linked both ways, [pp] before and [nn] after. *)
Fixpoint dseg h (pp : option loc) xs (nn : option loc) : Prop :=
  match xs with
  | [] => True
  | (p, v) :: xs' =>
      h !! p = Some (mkNode (dfirst xs' nn) pp (Some v)) ∧ dseg h (Some p) xs' nn
  end.

Lemma dfirst_app xs ys q : dfirst (xs ++ ys) q = dfirst xs (dfirst ys q).
Proof. by destruct xs as [|[]]. Qed.

Lemma dlast_cons p v xs q : dlast ((p, v) :: xs) q = dlast xs (Some p).
Proof. unfold dlast. rewrite last_cons. by destruct (last xs) as [[]|]. Qed.

Lemma dlast_app xs ys q : dlast (xs ++ ys) q = dlast ys (dlast xs q).
Proof.
  revert q. induction xs as [|[p v] xs IH]; intros q; [done |].
  simpl app. by rewrite !dlast_cons, IH.
Qed.

Lemma dseg_app h pp xs ys nn :
  dseg h pp (xs ++ ys) nn ↔ dseg h pp xs (dfirst ys nn) ∧ dseg h (dlast xs pp) ys nn.
Proof.
  revert pp. induction xs as [|[p v] xs IH]; intros pp; simpl; [tauto |].
  rewrite IH, dfirst_app, dlast_cons. tauto.
Qed.

Lemma dseg_frame h h' pp xs nn :
  (∀ p, p ∈ xs.*1 → h' !! p = h !! p) → dseg h pp xs nn → dseg h' pp xs nn.
Proof.
  revert pp. induction xs as [|[p v] xs IH]; intros pp Hf; simpl; [done |].
  intros [Hp Hs]. split; [rewrite Hf; [done | by left] |].
  apply IH; [| done]. intros q Hq. apply Hf. by right.
Qed.

Lemma dseg_insert h pp xs nn p n :
  p ∉ xs.*1 → dseg h pp xs nn → dseg (<[p := n]> h) pp xs nn.
Proof. intros Hp. apply dseg_frame. intros q Hq. apply lookup_insert_ne. by intros ->. Qed.

Lemma dseg_delete h pp xs nn p :
  p ∉ xs.*1 → dseg h pp xs nn → dseg (delete p h) pp xs nn.
Proof. intros Hp. apply dseg_frame. intros q Hq. apply lookup_delete_ne. by intros ->. Qed.

Lemma dseg_lookup h pp xs nn p : dseg h pp xs nn → p ∈ xs.*1 → is_Some (h !! p).
Proof.
  revert pp. induction xs as [|[q v] xs IH]; intros pp; simpl; [by intros _ ?%elem_of_nil |].
  intros [Hq Hs] [-> | Hp]%elem_of_cons; eauto.
Qed.

Lemma dseg_length h pp xs nn : NoDup xs.*1 → dseg h pp xs nn → (length xs ≤ size (dom h))%nat.
Proof.
  intros Hnd Hs. rewrite <- (length_fmap fst xs).
  rewrite <- (size_list_to_set (C := gset loc) xs.*1) by done.
  apply subseteq_size. intros p Hp. apply elem_of_list_to_set in Hp.
  apply elem_of_dom. eapply dseg_lookup; eauto.
Qed.

(** ** A list cut in two

    [cut h l xs a ys b]: the nodes [xs] from the head and [ys] up to the tail,
    while the link between them is being changed: forward it is [a], backward
    [b].  An operation on the links is a sequence of steps on [a] and [b]. *)

Definition cut h l xs (a : option loc) ys (b : option loc) : Prop :=
  dseg h None xs a ∧ dseg h b ys None ∧ NoDup (xs ++ ys).*1 ∧
  l_head l = dfirst xs a ∧ l_tail l = dlast ys b.

(** [l] holds the data of [xs] in order. *)
Definition list_rep h l xs : Prop :=
  dseg h None xs None ∧ NoDup xs.*1 ∧ l_head l = dfirst xs None ∧
  l_tail l = dlast xs None ∧ l_count l = u32 (Z.of_nat (length xs)).

Lemma list_rep_cut h l xs ys :
  list_rep h l (xs ++ ys) ↔
  cut h l xs (dfirst ys None) ys (dlast xs None) ∧
  l_count l = u32 (Z.of_nat (length (xs ++ ys))).
Proof. unfold list_rep, cut. rewrite dseg_app, dfirst_app, dlast_app. tauto. Qed.

Lemma cut_store_next h l xs a ys b x :
  cut h l xs a ys b →
  ∃ h' l', store_next h l (dlast xs None) x = Ok (h', l') ∧ cut h' l' xs x ys b ∧
    l_count l' = l_count l ∧ dom h' = dom h ∧ (∀ p, p ∉ xs.*1 → h' !! p = h !! p).
Proof.
  intros (Hx & Hy & Hnd & Hh & Ht). destruct xs as [|[p v] xs' _] using rev_ind.
  - exists h, (set_head x l). repeat split; simpl; auto.
  - rewrite dlast_app, dlast_cons. apply dseg_app in Hx as [Hx [Hp _]]. simpl in Hp.
    unfold store_next. change (dlast [] (Some p)) with (Some p). cbv iota.
    rewrite (modify_Some _ _ _ _ Hp), bind_Ok. eexists _, l. split; [reflexivity |].
    rewrite fmap_app, fmap_app in Hnd. simpl in Hnd. rewrite <- app_assoc in Hnd.
    apply NoDup_app in Hnd as Hnd'. destruct Hnd' as (_ & Hd & Hnd2).
    apply NoDup_cons in Hnd2 as [Hpy _].
    assert (p ∉ xs'.*1) as Hpx by (intros Hin; apply (Hd p Hin); by left).
    repeat split; auto.
    + apply dseg_app. split; [by apply dseg_insert |]. simpl.
      by rewrite lookup_insert_eq.
    + by apply dseg_insert.
    + rewrite !fmap_app. simpl. by rewrite <- app_assoc.
    + rewrite Hh, !dfirst_app. by destruct xs' as [|[]].
    + rewrite dom_insert_L. apply elem_of_dom_2 in Hp. set_solver.
    + intros q Hq. apply lookup_insert_ne. intros ->. apply Hq.
      rewrite fmap_app. apply elem_of_app. right. by left.
Qed.

Lemma cut_store_prev h l xs a ys b x :
  cut h l xs a ys b →
  ∃ h' l', store_prev h l (dfirst ys None) x = Ok (h', l') ∧ cut h' l' xs a ys x ∧
    l_count l' = l_count l ∧ dom h' = dom h ∧ (∀ p, p ∉ ys.*1 → h' !! p = h !! p).
Proof.
  intros (Hx & Hy & Hnd & Hh & Ht). destruct ys as [|[p v] ys].
  - exists h, (set_tail x l). repeat split; simpl; auto.
  - destruct Hy as [Hp Hy]. unfold store_prev. cbn [dfirst]. rewrite (modify_Some _ _ _ _ Hp), bind_Ok.
    eexists _, l. split; [reflexivity |].
    pose proof Hnd as Hnd'. rewrite fmap_app in Hnd'. apply NoDup_app in Hnd' as (_ & Hd & Hnd2).
    apply NoDup_cons in Hnd2 as [Hpy _].
    assert (p ∉ xs.*1) as Hpx by (intros Hin; apply (Hd p Hin); by left).
    repeat split; auto.
    + by apply dseg_insert.
    + by rewrite lookup_insert_eq.
    + by apply dseg_insert.
    + rewrite Ht, !dlast_cons. done.
    + rewrite dom_insert_L. apply elem_of_dom_2 in Hp. set_solver.
    + intros q Hq. apply lookup_insert_ne. intros ->. apply Hq. by left.
Qed.

Lemma cut_insert h l xs a ys b p n :
  p ∉ (xs ++ ys).*1 → cut h l xs a ys b → cut (<[p := n]> h) l xs a ys b.
Proof.
  intros Hp (Hx & Hy & Hnd & Hh & Ht). rewrite fmap_app in Hp.
  apply not_elem_of_app in Hp as [Hp1 Hp2].
  repeat split; auto using dseg_insert.
Qed.

Lemma cut_delete h l xs a ys b p :
  p ∉ (xs ++ ys).*1 → cut h l xs a ys b → cut (delete p h) l xs a ys b.
Proof.
  intros Hp (Hx & Hy & Hnd & Hh & Ht). rewrite fmap_app in Hp.
  apply not_elem_of_app in Hp as [Hp1 Hp2].
  repeat split; auto using dseg_delete.
Qed.

Lemma cut_count h l xs a ys b c : cut h l xs a ys b → cut h (set_count c l) xs a ys b.
Proof. done. Qed.

(** Closing the cut around a node that links to both sides. *)
Lemma cut_link h l xs ys p v :
  cut h l xs (Some p) ys (Some p) → p ∉ (xs ++ ys).*1 →
  h !! p = Some (mkNode (dfirst ys None) (dlast xs None) (Some v)) →
  l_count l = u32 (Z.of_nat (length (xs ++ ys)) + 1) →
  list_rep h l (xs ++ (p, v) :: ys).
Proof.
  intros (Hx & Hy & Hnd & Hh & Ht) Hp Hn Hc. apply list_rep_cut. split.
  - repeat split; auto.
    + rewrite fmap_app in *. simpl. apply NoDup_Permutation_proper
        with (p :: (xs.*1 ++ ys.*1)); [symmetry; apply Permutation_middle |].
      by apply NoDup_cons.
    + by rewrite dlast_cons.
  - rewrite Hc. f_equal. rewrite !length_app. simpl. lia.
Qed.

(** Opening the cut around a node. *)
Lemma list_rep_open h l xs p v ys :
  list_rep h l (xs ++ (p, v) :: ys) →
  cut h l xs (Some p) ys (Some p) ∧ p ∉ (xs ++ ys).*1 ∧
  h !! p = Some (mkNode (dfirst ys None) (dlast xs None) (Some v)) ∧
  l_count l = u32 (Z.of_nat (length (xs ++ ys)) + 1).
Proof.
  intros ((Hx & [Hn Hy] & Hnd & Hh & Ht) & Hc)%list_rep_cut. simpl in *.
  rewrite fmap_app in Hnd. simpl in Hnd. apply NoDup_Permutation_proper
    with (y := p :: (xs.*1 ++ ys.*1)) in Hnd; [| symmetry; apply Permutation_middle].
  apply NoDup_cons in Hnd as [Hp Hnd]. rewrite dlast_cons in Ht.
  rewrite !fmap_app. repeat split; auto.
  - by rewrite fmap_app.
  - rewrite Hc. f_equal. rewrite !length_app. simpl. lia.
Qed.

Lemma list_rep_fresh h l xs q : list_rep h l xs → xalloc h = Some q → q ∉ xs.*1.
Proof.
  intros (Hs & _) Hq%xalloc_fresh Hin. destruct (dseg_lookup _ _ _ _ _ Hs Hin). congruence.
Qed.

Lemma listnode_new_Ok h next prev v q :
  xalloc h = Some q → listnode_new h next prev v = Ok (q, <[q := mkNode next prev (Some v)]> h).
Proof. intros Hq. unfold listnode_new. by rewrite Hq. Qed.

Lemma set_count_link l c n :
  l_count l = u32 n → c = n + 1 → l_count (set_count (l_count l + 1) l) = u32 c.
Proof.
  intros Hl ->. simpl. rewrite Hl. unfold u32. apply Z.add_mod_idemp_l. lia.
Qed.

Lemma set_count_unlink l n : l_count l = u32 (n + 1) → l_count (set_count (l_count l - 1) l) = u32 n.
Proof.
  intros Hl. simpl. rewrite Hl. unfold u32. rewrite Zminus_mod_idemp_l. f_equal. lia.
Qed.

(** ** Adding *)

Lemma listnode_add_rep h l xs v q :
  list_rep h l xs → xalloc h = Some q →
  ∃ h' l', listnode_add h l v = Ok (h', l') ∧ list_rep h' l' (xs ++ [(q, v)]).
Proof.
  intros Hr Hq. pose proof (list_rep_fresh _ _ _ _ Hr Hq) as Hf.
  rewrite <- (app_nil_r xs) in Hr. apply list_rep_cut in Hr as [Hc Hn]. simpl in Hc.
  rewrite app_nil_r in Hn. assert (l_tail l = dlast xs None) as Ht by apply Hc.
  unfold listnode_add. rewrite (listnode_new_Ok _ _ _ _ _ Hq), bind_Ok.
  apply (cut_insert _ _ _ _ _ _ q (mkNode None (l_tail l) (Some v))) in Hc;
    [| by rewrite app_nil_r].
  destruct (cut_store_next _ _ _ _ _ _ (Some q) Hc) as (h' & l' & He & Hc' & Hn' & _ & Hfr).
  assert ((match l_head l with
           | None => Ok (<[q := mkNode None (l_tail l) (Some v)]> h, set_head (Some q) l)
           | Some _ => h0 ← modify (<[q := mkNode None (l_tail l) (Some v)]> h) (l_tail l)
                              (set_n_next (Some q)); Ok (h0, l)
           end) = Ok (h', l')) as ->.
  { rewrite <- He. destruct Hc as (_ & _ & _ & -> & _). rewrite Ht.
    destruct xs as [|[p d] xs]; [done |]. cbn [dfirst].
    unfold store_next. destruct (dlast ((p, d) :: xs) None) eqn:E; [done |].
    rewrite dlast_cons in E. unfold dlast in E. by destruct (last xs) as [[]|]. }
  rewrite bind_Ok. eexists _, _. split; [reflexivity |].
  apply (cut_link _ _ xs []).
  - destruct Hc' as (? & ? & ? & ? & ?). repeat split; auto.
  - by rewrite app_nil_r.
  - rewrite Hfr by done. rewrite lookup_insert_eq. simpl. by rewrite Ht.
  - rewrite app_nil_r. apply (set_count_link (set_tail (Some q) l') _ (Z.of_nat (length xs)));
      [| done]. simpl. congruence.
Qed.

(** The nodes before the first datum that satisfies a test, and from it on. *)
Fixpoint before (P : D → bool) xs : cells :=
  match xs with
  | [] => []
  | (p, d) :: xs => if P d then [] else (p, d) :: before P xs
  end.

Fixpoint from (P : D → bool) xs : cells :=
  match xs with
  | [] => []
  | (p, d) :: xs => if P d then (p, d) :: xs else from P xs
  end.

Lemma before_from P xs : before P xs ++ from P xs = xs.
Proof. induction xs as [|[p d] xs IH]; simpl; [done |]. destruct (P d); simpl; congruence. Qed.

Lemma sort_loop_spec k h pp cmp v xs :
  dseg h pp xs None → (length xs < k)%nat →
  sort_loop k h cmp v (dfirst xs None) = Ok (dfirst (from (λ d, cmp v d <? 0) xs) None).
Proof.
  revert k pp. induction xs as [|[p d] xs IH]; intros k pp Hs Hk; simpl in Hk;
    (destruct k; [lia |]); [done |].
  destruct Hs as [Hp Hs]. simpl. rewrite Hp. simpl. destruct (cmp v d <? 0); [done |].
  eapply IH; eauto. lia.
Qed.

Lemma find_loop_spec k h pp v xs :
  dseg h pp xs None → (length xs < k)%nat →
  find_loop k h v (dfirst xs None) = Ok (dfirst (from (λ d, bool_decide (d = v)) xs) None).
Proof.
  revert k pp. induction xs as [|[p d] xs IH]; intros k pp Hs Hk; simpl in Hk;
    (destruct k; [lia |]); [done |].
  destruct Hs as [Hp Hs]. simpl. rewrite Hp. simpl.
  destruct (decide (d = v)) as [-> | Hne].
  - rewrite decide_True by done. by rewrite bool_decide_eq_true_2.
  - rewrite decide_False by congruence. rewrite bool_decide_eq_false_2 by done.
    eapply IH; eauto. lia.
Qed.

(** ** Inserting a node between two parts

    [ins h l xs a ys b q n]: the list is cut and the new node [q], not yet
    reachable, holds [n]; the steps of an insertion transform it. *)

Definition ins h l xs (a : option loc) ys (b : option loc) (q : loc) (n : listnode D) : Prop :=
  cut h l xs a ys b ∧ q ∉ (xs ++ ys).*1 ∧ h !! q = Some n ∧
  l_count l = u32 (Z.of_nat (length (xs ++ ys))).

Lemma ins_start h l xs ys q n :
  list_rep h l (xs ++ ys) → xalloc h = Some q →
  ins (<[q := n]> h) l xs (dfirst ys None) ys (dlast xs None) q n.
Proof.
  intros Hr Hq. pose proof (list_rep_fresh _ _ _ _ Hr Hq) as Hf.
  apply list_rep_cut in Hr as [Hc Hn].
  split; [by apply cut_insert |]. split; [done |]. split; [apply lookup_insert_eq | done].
Qed.

Lemma ins_node h l xs a ys b q n f :
  ins h l xs a ys b q n →
  ∃ h', modify h (Some q) f = Ok h' ∧ ins h' l xs a ys b q (f n).
Proof.
  intros (Hc & Hf & Hn & Hl). rewrite (modify_Some _ _ _ _ Hn). eexists. split; [done |].
  split; [by apply cut_insert |]. split; [done |]. split; [apply lookup_insert_eq | done].
Qed.

Lemma ins_next h l xs a ys b q n x p :
  ins h l xs a ys b q n → p = dlast xs None →
  ∃ h' l', store_next h l p x = Ok (h', l') ∧ ins h' l' xs x ys b q n.
Proof.
  intros (Hc & Hf & Hn & Hl) ->.
  destruct (cut_store_next _ _ _ _ _ _ x Hc) as (h' & l' & He & Hc' & Hn' & _ & Hfr).
  eexists _, _. split; [exact He |]. split; [done |]. split; [done |]. split; [| congruence].
  rewrite Hfr; [done |]. rewrite fmap_app in Hf. by apply not_elem_of_app in Hf as [? _].
Qed.

Lemma ins_prev h l xs a ys b q n x p :
  ins h l xs a ys b q n → p = dfirst ys None →
  ∃ h' l', store_prev h l p x = Ok (h', l') ∧ ins h' l' xs a ys x q n.
Proof.
  intros (Hc & Hf & Hn & Hl) ->.
  destruct (cut_store_prev _ _ _ _ _ _ x Hc) as (h' & l' & He & Hc' & Hn' & _ & Hfr).
  eexists _, _. split; [exact He |]. split; [done |]. split; [done |]. split; [| congruence].
  rewrite Hfr; [done |]. rewrite fmap_app in Hf. by apply not_elem_of_app in Hf as [_ ?].
Qed.

Lemma ins_done h l xs ys q v :
  ins h l xs (Some q) ys (Some q) q (mkNode (dfirst ys None) (dlast xs None) (Some v)) →
  list_rep h (set_count (l_count l + 1) l) (xs ++ (q, v) :: ys).
Proof.
  intros (Hc & Hf & Hn & Hl). apply cut_link; auto.
  by apply set_count_link with (Z.of_nat (length (xs ++ ys))).
Qed.

(** The node [p] next to the cut, as the code reads it back. *)
Lemma ins_load_right h l xs a p d ys b q n :
  ins h l xs a ((p, d) :: ys) b q n → load h (Some p) = Ok (mkNode (dfirst ys None) b (Some d)).
Proof. intros ((_ & [Hp _] & _) & _). by apply load_Some. Qed.

Lemma ins_load_left h l xs p d a ys b q n :
  ins h l (xs ++ [(p, d)]) a ys b q n →
  load h (Some p) = Ok (mkNode a (dlast xs None) (Some d)).
Proof. intros ((Hx & _) & _). apply dseg_app in Hx as [_ [Hp _]]. by apply load_Some. Qed.

Lemma dlast_snoc xs p d q : dlast (xs ++ [(p, d)]) q = Some p.
Proof. by rewrite dlast_app, dlast_cons. Qed.

(** The test listnode_add_sort stops at. *)
Definition sort_test l v : D → bool :=
  match l_cmp l with Some cmp => λ d, cmp v d <? 0 | None => λ _, false end.

Lemma from_false xs : from (λ _, false) xs = [].
Proof. induction xs as [|[] xs IH]; auto. Qed.

Lemma listnode_add_sort_rep h l xs v q :
  list_rep h l xs → xalloc h = Some q →
  ∃ h' l', listnode_add_sort h l v = Ok (h', l') ∧
    list_rep h' l' (before (sort_test l v) xs ++ (q, v) :: from (sort_test l v) xs).
Proof.
  intros Hr Hq. rewrite <- (before_from (sort_test l v) xs) in Hr.
  pose proof (ins_start _ _ _ _ q (mkNode None None (Some v)) Hr Hq) as Hi.
  unfold listnode_add_sort. rewrite (listnode_new_Ok _ _ _ _ _ Hq), bind_Ok.
  set (h1 := <[q := _]> h) in *.
  assert (match l_cmp l with
          | Some cmp => sort_loop (S (size (dom h1))) h1 cmp v (l_head l)
          | None => Ok None
          end = Ok (dfirst (from (sort_test l v) xs) None)) as ->.
  { unfold sort_test in *. destruct (l_cmp l); [| by rewrite from_false].
    rewrite before_from in Hr. pose proof Hr as (Hs & Hnd & -> & _).
    apply (dseg_insert _ _ _ _ q (mkNode None None (Some v))) in Hs;
      [| by eapply list_rep_fresh].
    eapply sort_loop_spec; [exact Hs |]. pose proof (dseg_length _ _ _ _ Hnd Hs) as Hle. fold h1 in Hle. lia. }
  rewrite bind_Ok. destruct (from (sort_test l v) xs) as [|[p d] ys].
  - cbn [dfirst] in *. assert (l_tail l = dlast (before (sort_test l v) xs) None) as Ht
      by (destruct Hi as ((_ & _ & _ & _ & Ht) & _); exact Ht).
    destruct (ins_node _ _ _ _ _ _ _ _ (set_n_prev (l_tail l)) Hi) as (h2 & -> & Hi2).
    rewrite bind_Ok.
    destruct (ins_next _ _ _ _ _ _ _ _ (Some q) _ Hi2 Ht) as (h3 & l3 & -> & Hi3).
    rewrite bind_Ok. eexists _, _. split; [reflexivity |]. apply ins_done.
    rewrite Ht in Hi3. destruct Hi3 as ((?&?&?&?&?)&?&?&?). repeat split; auto.
  - cbn [dfirst] in *. rewrite (ins_load_right _ _ _ _ _ _ _ _ _ _ Hi), bind_Ok.
    destruct (ins_node _ _ _ _ _ _ _ _ (set_n_next (Some p)) Hi) as (h2 & -> & Hi2).
    rewrite bind_Ok. cbn [n_prev].
    destruct (ins_node _ _ _ _ _ _ _ _
      (set_n_prev (dlast (before (sort_test l v) xs) None)) Hi2) as (h3 & -> & Hi3).
    rewrite bind_Ok.
    destruct (ins_next _ _ _ _ _ _ _ _ (Some q) _ Hi3 eq_refl) as (h4 & l4 & -> & Hi4).
    rewrite bind_Ok.
    destruct (ins_prev _ _ _ _ _ _ _ _ (Some q) _ Hi4 eq_refl) as (h5 & l5 & He & Hi5).
    cbn [dfirst store_prev] in He. apply bind_Ok_inv in He as (h6 & -> & [= <- <-]).
    rewrite bind_Ok. eexists _, _. split; [reflexivity |]. by apply ins_done.
Qed.

Lemma ins_relink h l xs p d a ys b q n x :
  ins h l (xs ++ [(p, d)]) a ys b q n →
  ∃ h', modify h (Some p) (set_n_next x) = Ok h' ∧ ins h' l (xs ++ [(p, d)]) x ys b q n.
Proof.
  intros Hi. destruct (ins_next _ _ _ _ _ _ _ _ x (Some p) Hi) as (h' & l' & He & Hi');
    [by rewrite dlast_snoc |].
  simpl in He. apply bind_Ok_inv in He as (h2 & He & [= <- <-]). eauto.
Qed.

Lemma ins_relink_prev h l xs p d a ys b q n x :
  ins h l xs a ((p, d) :: ys) b q n →
  ∃ h', modify h (Some p) (set_n_prev x) = Ok h' ∧ ins h' l xs a ((p, d) :: ys) x q n.
Proof.
  intros Hi. destruct (ins_prev _ _ _ _ _ _ _ _ x (Some p) Hi eq_refl) as (h' & l' & He & Hi').
  simpl in He. apply bind_Ok_inv in He as (h2 & He & [= <- <-]). eauto.
Qed.

Lemma listnode_add_after_rep h l xs ys v q :
  list_rep h l (xs ++ ys) → xalloc h = Some q →
  ∃ h' l', listnode_add_after h l (dlast xs None) v = Ok (h', l') ∧
    list_rep h' l' (xs ++ (q, v) :: ys).
Proof.
  intros Hr Hq. pose proof (ins_start _ _ _ _ q (mkNode None None (Some v)) Hr Hq) as Hi.
  unfold listnode_add_after. rewrite (listnode_new_Ok _ _ _ _ _ Hq), bind_Ok.
  destruct xs as [|[p d] xs' _] using rev_ind.
  - cbn [dlast last] in *. assert (l_head l = dfirst ys None) as -> by apply Hr.
    destruct (ins_prev _ _ _ _ _ _ _ _ (Some q) _ Hi eq_refl) as (h2 & l2 & -> & Hi2).
    rewrite bind_Ok.
    replace (l_head l2) with (dfirst ys None) by (destruct Hi2 as ((_&_&_&->&_)&_); done).
    destruct (ins_node _ _ _ _ _ _ _ _ (set_n_next (dfirst ys None)) Hi2) as (h3 & -> & Hi3).
    rewrite bind_Ok.
    destruct (ins_node _ _ _ _ _ _ _ _ (set_n_prev None) Hi3) as (h4 & -> & Hi4).
    rewrite bind_Ok. eexists _, _. split; [reflexivity |].
    destruct (ins_next _ _ _ _ _ _ _ _ (Some q) None Hi4 eq_refl) as (h5 & l5 & [= <- <-] & Hi5).
    by apply (ins_done _ _ [] _ _ _ Hi5).
  - rewrite dlast_snoc in *. rewrite (ins_load_left _ _ _ _ _ _ _ _ _ _ Hi), bind_Ok. cbn [n_next].
    destruct (ins_prev _ _ _ _ _ _ _ _ (Some q) _ Hi eq_refl) as (h2 & l2 & -> & Hi2).
    rewrite bind_Ok.
    destruct (ins_node _ _ _ _ _ _ _ _ (set_n_next (dfirst ys None)) Hi2) as (h3 & -> & Hi3).
    rewrite bind_Ok.
    destruct (ins_node _ _ _ _ _ _ _ _ (set_n_prev (Some p)) Hi3) as (h4 & -> & Hi4).
    rewrite bind_Ok.
    destruct (ins_relink _ _ _ _ _ _ _ _ _ _ (Some q) Hi4) as (h5 & -> & Hi5).
    rewrite bind_Ok. eexists _, _. split; [reflexivity |]. apply ins_done.
    by rewrite dlast_snoc.
Qed.

Lemma list_add_node_next_rep h l xs p d ys v q :
  list_rep h l ((xs ++ [(p, d)]) ++ ys) → xalloc h = Some q →
  ∃ h' l', list_add_node_next h l (Some p) v = Ok (h', l') ∧
    list_rep h' l' ((xs ++ [(p, d)]) ++ (q, v) :: ys).
Proof.
  intros Hr Hq. pose proof (ins_start _ _ _ _ q (mkNode None (Some p) (Some v)) Hr Hq) as Hi.
  unfold list_add_node_next. rewrite (listnode_new_Ok _ _ _ _ _ Hq), bind_Ok.
  rewrite (ins_load_left _ _ _ _ _ _ _ _ _ _ Hi), bind_Ok. cbn [n_next].
  destruct (ins_prev _ _ _ _ _ _ _ _ (Some q) _ Hi eq_refl) as (h2 & l2 & -> & Hi2).
  rewrite bind_Ok, (ins_load_left _ _ _ _ _ _ _ _ _ _ Hi2), bind_Ok. cbn [n_next].
  destruct (ins_node _ _ _ _ _ _ _ _ (set_n_next (dfirst ys None)) Hi2) as (h3 & -> & Hi3).
  rewrite bind_Ok.
  destruct (ins_relink _ _ _ _ _ _ _ _ _ _ (Some q) Hi3) as (h5 & -> & Hi5).
  rewrite bind_Ok. eexists _, _. split; [reflexivity |]. apply ins_done.
  by rewrite dlast_snoc.
Qed.

Lemma list_add_node_prev_rep h l xs p d ys v q :
  list_rep h l (xs ++ (p, d) :: ys) → xalloc h = Some q →
  ∃ h' l', list_add_node_prev h l (Some p) v = Ok (h', l') ∧
    list_rep h' l' (xs ++ (q, v) :: (p, d) :: ys).
Proof.
  intros Hr Hq. pose proof (ins_start _ _ _ _ q (mkNode (Some p) None (Some v)) Hr Hq) as Hi.
  unfold list_add_node_prev. rewrite (listnode_new_Ok _ _ _ _ _ Hq), bind_Ok.
  rewrite (ins_load_right _ _ _ _ _ _ _ _ _ _ Hi), bind_Ok. cbn [n_prev].
  destruct (ins_next _ _ _ _ _ _ _ _ (Some q) _ Hi eq_refl) as (h2 & l2 & -> & Hi2).
  rewrite bind_Ok, (ins_load_right _ _ _ _ _ _ _ _ _ _ Hi2), bind_Ok. cbn [n_prev].
  destruct (ins_node _ _ _ _ _ _ _ _ (set_n_prev (dlast xs None)) Hi2) as (h3 & -> & Hi3).
  rewrite bind_Ok.
  destruct (ins_relink_prev _ _ _ _ _ _ _ _ _ _ (Some q) Hi3) as (h5 & -> & Hi5).
  rewrite bind_Ok. eexists _, _. split; [reflexivity |]. by apply ins_done.
Qed.

(** ** Deleting *)

Lemma list_delete_node_rep h l xs p v ys :
  list_rep h l (xs ++ (p, v) :: ys) →
  ∃ h' l', list_delete_node h l (Some p) = Ok (h', l') ∧ list_rep h' l' (xs ++ ys).
Proof.
  intros (Hc & Hp & Hn & Hl)%list_rep_open. unfold list_delete_node.
  rewrite (load_Some _ _ _ Hn), bind_Ok. cbn [n_prev n_next].
  destruct (cut_store_next _ _ _ _ _ _ (dfirst ys None) Hc)
    as (h2 & l2 & -> & Hc2 & Hl2 & Hd2 & _).
  rewrite bind_Ok.
  destruct (cut_store_prev _ _ _ _ _ _ (dlast xs None) Hc2)
    as (h3 & l3 & -> & Hc3 & Hl3 & Hd3 & _).
  rewrite bind_Ok. assert (p ∈ dom h3) as [n3 Hn3]%elem_of_dom.
  { rewrite Hd3, Hd2. by eapply elem_of_dom_2. }
  unfold listnode_free. rewrite (release_Some _ _ _ Hn3), bind_Ok.
  eexists _, _. split; [reflexivity |]. apply list_rep_cut.
  split; [by apply cut_count, cut_delete |]. apply set_count_unlink. congruence.
Qed.

Lemma listnode_lookup_rep h l xs v :
  list_rep h l xs →
  listnode_lookup h l v = Ok (dfirst (from (λ d, bool_decide (d = v)) xs) None).
Proof.
  intros (Hs & Hnd & Hh & _). unfold listnode_lookup. rewrite Hh.
  eapply find_loop_spec; [exact Hs |]. pose proof (dseg_length _ _ _ _ Hnd Hs). lia.
Qed.

Lemma listnode_delete_rep h l xs v :
  list_rep h l xs →
  ∃ h' l', listnode_delete h l v = Ok (h', l') ∧
    list_rep h' l' (before (λ d, bool_decide (d = v)) xs ++
                    tail (from (λ d, bool_decide (d = v)) xs)).
Proof.
  intros Hr. pose proof (listnode_lookup_rep _ _ _ v Hr) as Hf.
  unfold listnode_delete. unfold listnode_lookup in Hf. rewrite Hf, bind_Ok.
  rewrite <- (before_from (λ d, bool_decide (d = v)) xs) in Hr.
  destruct (from _ xs) as [|[p d] ys] eqn:E; cbn [dfirst tail] in *; [eauto |].
  by eapply list_delete_node_rep.
Qed.

Lemma delete_all_loop_spec k h pp del xs :
  dseg h pp xs None → NoDup xs.*1 → (length xs < k)%nat →
  ∃ h', delete_all_loop k h del (dfirst xs None) =
        Ok (h', if del then Some <$> xs.*2 else []).
Proof.
  revert k h pp. induction xs as [|[p d] xs IH]; intros k h pp Hs Hnd Hk; simpl in Hk;
    (destruct k; [lia |]).
  - exists h. by destruct del.
  - destruct Hs as [Hp Hs]. apply NoDup_cons in Hnd as [Hpx Hnd]. cbn [dfirst delete_all_loop].
    rewrite (load_Some _ _ _ Hp), bind_Ok. unfold listnode_free.
    rewrite (release_Some _ _ _ Hp), bind_Ok. cbn [n_next].
    destruct (IH k (delete p h) (Some p)) as [h' ->]; [by apply dseg_delete | done | lia |].
    rewrite bind_Ok. exists h'. by destruct del.
Qed.

(** list_delete_all_node empties the list and calls del on every datum once,
    in order. *)
Lemma list_delete_all_node_rep h l xs :
  list_rep h l xs →
  ∃ h' l', list_delete_all_node h l =
             Ok (h', l', if l_del l then Some <$> xs.*2 else []) ∧ list_rep h' l' [].
Proof.
  intros (Hs & Hnd & Hh & _). unfold list_delete_all_node. rewrite Hh.
  destruct (delete_all_loop_spec (S (size (dom h))) h None (l_del l) xs) as [h' ->]; auto.
  - pose proof (dseg_length _ _ _ _ Hnd Hs). lia.
  - rewrite bind_Ok. eexists _, _. split; [reflexivity |]. repeat split; constructor.
Qed.

Lemma LIST_LOOP_spec k h pp xs :
  dseg h pp xs None → (length xs < k)%nat → LIST_LOOP k h (dfirst xs None) = Ok xs.*2.
Proof.
  revert k pp. induction xs as [|[p d] xs IH]; intros k pp Hs Hk; simpl in Hk;
    (destruct k; [lia |]); [done |].
  destruct Hs as [Hp Hs]. cbn [dfirst LIST_LOOP]. rewrite (load_Some _ _ _ Hp), bind_Ok.
  cbn [n_data n_next from_option_or]. rewrite bind_Ok.
  rewrite (IH k (Some p)) by (auto; lia). done.
Qed.

(** ** The list as a sequence

    A client names the nodes by position.  [list_op] is one call; [lop_run]
    performs it on the nodes and [lop_spec] on the sequence of the data, where
    a position outside the sequence has no meaning. *)

Inductive list_op :=
| LAdd (v : D)                  (* listnode_add *)
| LAddSort (v : D)              (* listnode_add_sort *)
| LAddAfter (i : nat) (v : D)   (* listnode_add_after, NULL for 0 *)
| LAddPrev (i : nat) (v : D)    (* list_add_node_prev *)
| LAddNext (i : nat) (v : D)    (* list_add_node_next *)
| LDelete (v : D)               (* listnode_delete *)
| LDeleteNode (i : nat)         (* list_delete_node *)
| LDeleteAll.                   (* list_delete_all_node *)

Fixpoint node_at h (p : option loc) (i : nat) : res (option loc) :=
  match i with
  | O => Ok p
  | S i => n ← load h p; node_at h (n_next n) i
  end.

Definition lop_run (o : list_op) h l : res (heap * clist D) :=
  match o with
  | LAdd v => listnode_add h l v
  | LAddSort v => listnode_add_sort h l v
  | LAddAfter O v => listnode_add_after h l None v
  | LAddAfter (S i) v => p ← node_at h (l_head l) i; listnode_add_after h l p v
  | LAddPrev i v => p ← node_at h (l_head l) i; list_add_node_prev h l p v
  | LAddNext i v => p ← node_at h (l_head l) i; list_add_node_next h l p v
  | LDelete v => listnode_delete h l v
  | LDeleteNode i => p ← node_at h (l_head l) i; list_delete_node h l p
  | LDeleteAll => '(h, l, _) ← list_delete_all_node h l; Ok (h, l)
  end.

Definition insert_at (i : nat) (v : D) (ds : list D) : list D := take i ds ++ v :: drop i ds.

Fixpoint insert_sorted (P : D → bool) (v : D) (ds : list D) : list D :=
  match ds with
  | [] => [v]
  | d :: ds => if P d then v :: d :: ds else d :: insert_sorted P v ds
  end.

Fixpoint remove_first (v : D) (ds : list D) : list D :=
  match ds with
  | [] => []
  | d :: ds => if decide (d = v) then ds else d :: remove_first v ds
  end.

Definition lop_spec (test : D → D → bool) (o : list_op) (ds : list D) : option (list D) :=
  match o with
  | LAdd v => Some (ds ++ [v])
  | LAddSort v => Some (insert_sorted (test v) v ds)
  | LAddAfter i v => if decide (i ≤ length ds)%nat then Some (insert_at i v ds) else None
  | LAddPrev i v => if decide (i < length ds)%nat then Some (insert_at i v ds) else None
  | LAddNext i v => if decide (i < length ds)%nat then Some (insert_at (S i) v ds) else None
  | LDelete v => Some (remove_first v ds)
  | LDeleteNode i => if decide (i < length ds)%nat then Some (delete i ds) else None
  | LDeleteAll => Some []
  end.

Fixpoint lops_run (os : list list_op) h l : res (heap * clist D) :=
  match os with
  | [] => Ok (h, l)
  | o :: os => '(h, l) ← lop_run o h l; lops_run os h l
  end.

Fixpoint lops_spec (test : D → D → bool) (os : list list_op) (ds : list D) : option (list D) :=
  match os with
  | [] => Some ds
  | o :: os => ds ← lop_spec test o ds; lops_spec test os ds
  end.

Lemma insert_sorted_cells P v q xs :
  (before P xs ++ (q, v) :: from P xs).*2 = insert_sorted P v xs.*2.
Proof.
  induction xs as [|[p d] xs IH]; [done |]. cbn [before from]. destruct (P d) eqn:E; csimpl;
    rewrite E; [done |]. f_equal. apply IH.
Qed.

Lemma remove_first_cells v xs :
  (before (λ d, bool_decide (d = v)) xs ++ tail (from (λ d, bool_decide (d = v)) xs)).*2 =
  remove_first v xs.*2.
Proof.
  induction xs as [|[p d] xs IH]; [done |]. cbn [before from].
  destruct (decide (d = v)) as [Hd | Hd].
  - rewrite (bool_decide_eq_true_2 _ Hd). csimpl. by rewrite decide_True.
  - rewrite (bool_decide_eq_false_2 _ Hd). csimpl. rewrite decide_False by done. f_equal. apply IH.
Qed.

Lemma insert_at_cells q v xs ys :
  (xs ++ (q, v) :: ys).*2 = insert_at (length xs) v (xs ++ ys).*2.
Proof.
  unfold insert_at. rewrite !fmap_app. simpl.
  by rewrite take_app_length', drop_app_length' by (by rewrite length_fmap).
Qed.

Lemma node_at_spec h pp xs ys :
  dseg h pp (xs ++ ys) None →
  node_at h (dfirst (xs ++ ys) None) (length xs) = Ok (dfirst ys None).
Proof.
  revert pp. induction xs as [|[p d] xs IH]; intros pp Hs; [done |].
  destruct Hs as [Hp Hs]. cbn [app dfirst length node_at]. rewrite (load_Some _ _ _ Hp), bind_Ok.
  by apply (IH (Some p)).
Qed.

(** The node of a position, with the nodes on both sides. *)
Lemma node_at_cells h l xs i :
  list_rep h l xs → (i < length xs.*2)%nat →
  ∃ xs1 p d xs2, xs = xs1 ++ (p, d) :: xs2 ∧ length xs1 = i ∧
    node_at h (l_head l) i = Ok (Some p).
Proof.
  rewrite length_fmap. intros (Hs & _ & -> & _) Hi.
  destruct (lookup_lt_is_Some_2 xs i Hi) as [[p d] Hx].
  apply list_elem_of_split_length in Hx as (xs1 & xs2 & -> & ->).
  exists xs1, p, d, xs2. split; [done |]. split; [done |].
  by apply (node_at_spec _ None xs1 ((p, d) :: xs2)).
Qed.

Hypothesis alloc_total : ∀ h, is_Some (xalloc h).

(** No operation changes the callbacks. *)
Lemma store_next_cmp h l p x h' l' : store_next h l p x = Ok (h', l') → l_cmp l' = l_cmp l.
Proof. unfold store_next. destruct p; intros; inv_bind; by simplify_eq. Qed.

Lemma store_prev_cmp h l p x h' l' : store_prev h l p x = Ok (h', l') → l_cmp l' = l_cmp l.
Proof. unfold store_prev. destruct p; intros; inv_bind; by simplify_eq. Qed.

Ltac cmp_cases :=
  intros; repeat (inv_bind; match goal with
  | x : prod _ _ |- _ => destruct x; simpl in *
  | H : match ?x with _ => _ end = Ok _ |- _ => destruct x eqn:?
  | H : store_next _ _ _ _ = Ok _ |- _ => apply store_next_cmp in H
  | H : store_prev _ _ _ _ = Ok _ |- _ => apply store_prev_cmp in H
  end); inv_bind; simpl in *; simplify_eq; simpl in *; congruence.

Lemma lop_run_cmp o h l h' l' : lop_run o h l = Ok (h', l') → l_cmp l' = l_cmp l.
Proof.
  destruct o as [v|v|[|i] v|i v|i v|v|i|]; unfold lop_run, listnode_add, listnode_add_sort,
    listnode_add_after, list_add_node_prev, list_add_node_next, listnode_delete,
    list_delete_node, list_delete_all_node; cmp_cases.
Qed.

(** Where the sequence is split, as the positional insertions see it. *)
Lemma split_at xs i : (i ≤ length xs)%nat → ∃ xs1 xs2, xs = xs1 ++ xs2 ∧ length xs1 = i.
Proof.
  intros Hi. exists (take i xs), (drop i xs). rewrite take_drop, length_take. split; [done | lia].
Qed.

Lemma node_last_cells h l xs1 xs2 i :
  list_rep h l (xs1 ++ xs2) → length xs1 = S i →
  ∃ xs0 p d, xs1 = xs0 ++ [(p, d)] ∧ node_at h (l_head l) i = Ok (Some p).
Proof.
  intros Hr Hl. destruct xs1 as [|[p d] xs0 _] using rev_ind; [done |].
  exists xs0, p, d. split; [done |]. rewrite length_app in Hl. simpl in Hl.
  rewrite <- app_assoc in Hr. destruct Hr as (Hs & _ & -> & _).
  replace i with (length xs0) by lia. rewrite (node_at_spec _ None) by done. done.
Qed.

Lemma delete_middle {A} (xs ys : list A) x : delete (length xs) (xs ++ x :: ys) = xs ++ ys.
Proof. induction xs as [|y xs IH]; simpl; [done | by rewrite IH]. Qed.

Lemma lop_refines o h l xs ds' :
  list_rep h l xs → lop_spec (sort_test l) o xs.*2 = Some ds' →
  ∃ h' l' xs', lop_run o h l = Ok (h', l') ∧ list_rep h' l' xs' ∧ xs'.*2 = ds'.
Proof.
  intros Hr Hd. destruct (alloc_total h) as [q Hq].
  destruct o as [v|v|i v|i v|i v|v|i|]; simpl in Hd; try case_decide as Hi; simplify_eq.
  - destruct (listnode_add_rep _ _ _ v _ Hr Hq) as (h' & l' & He & Hr').
    eexists _, _, _. split; [exact He |]. split; [exact Hr' |]. by rewrite fmap_app.
  - destruct (listnode_add_sort_rep _ _ _ v _ Hr Hq) as (h' & l' & He & Hr').
    eexists _, _, _. split; [exact He |]. split; [exact Hr' | apply insert_sorted_cells].
  - rewrite length_fmap in Hi. destruct (split_at _ _ Hi) as (xs1 & xs2 & -> & <-).
    destruct (listnode_add_after_rep _ _ _ _ v _ Hr Hq) as (h' & l' & He & Hr').
    eexists _, _, _. split; [| split; [exact Hr' | apply insert_at_cells]].
    destruct (length xs1) as [|i] eqn:El; [by destruct xs1 |]. simpl.
    destruct (node_last_cells _ _ _ _ _ Hr El) as (xs0 & p & d & -> & ->).
    by rewrite dlast_snoc in He.
  - destruct (node_at_cells _ _ _ _ Hr Hi) as (xs1 & p & d & xs2 & -> & <- & Hn).
    destruct (list_add_node_prev_rep _ _ _ _ _ _ v _ Hr Hq) as (h' & l' & He & Hr').
    eexists _, _, _. split; [simpl; by rewrite Hn | split; [exact Hr' | apply insert_at_cells]].
  - destruct (node_at_cells _ _ _ _ Hr Hi) as (xs1 & p & d & xs2 & -> & <- & Hn).
    rewrite cons_middle, app_assoc in *.
    destruct (list_add_node_next_rep _ _ _ _ _ _ v _ Hr Hq) as (h' & l' & He & Hr').
    eexists _, _, _. split; [simpl; by rewrite Hn | split; [exact Hr' |]].
    rewrite insert_at_cells. f_equal. rewrite length_app. simpl. lia.
  - destruct (listnode_delete_rep _ _ _ v Hr) as (h' & l' & He & Hr').
    eexists _, _, _. split; [exact He |]. split; [exact Hr' | apply remove_first_cells].
  - destruct (node_at_cells _ _ _ _ Hr Hi) as (xs1 & p & d & xs2 & -> & <- & Hn).
    destruct (list_delete_node_rep _ _ _ _ _ _ Hr) as (h' & l' & He & Hr').
    eexists _, _, _. split; [simpl; by rewrite Hn | split; [exact Hr' |]].
    rewrite !fmap_app. simpl. by rewrite <- (length_fmap snd), delete_middle.
  - destruct (list_delete_all_node_rep _ _ _ Hr) as (h' & l' & He & Hr').
    exists h', l', []. split; [simpl; by rewrite He | done].
Qed.

Lemma lops_refine os h l xs ds' :
  list_rep h l xs → lops_spec (sort_test l) os xs.*2 = Some ds' →
  ∃ h' l' xs', lops_run os h l = Ok (h', l') ∧ list_rep h' l' xs' ∧ xs'.*2 = ds'.
Proof.
  revert h l xs. induction os as [|o os IH]; intros h l xs Hr Hd; simpl in Hd.
  - simplify_eq. eauto 6.
  - apply bind_Some in Hd as (ds & Hd & Hds).
    destruct (lop_refines _ _ _ _ _ Hr Hd) as (h1 & l1 & xs1 & He & Hr1 & <-).
    assert (sort_test l1 = sort_test l) as Ht.
    { unfold sort_test. by rewrite (lop_run_cmp _ _ _ _ _ He). }
    rewrite <- Ht in Hds. destruct (IH _ _ _ Hr1 Hds) as (h2 & l2 & xs2 & He2 & ?).
    exists h2, l2, xs2. simpl. by rewrite He.
Qed.

Lemma list_rep_new h cmp del : list_rep h (mkList None None 0 cmp del) [].
Proof. repeat split; constructor. Qed.

(** C14: Every sequence of calls of the list operations (append, sorted insert,
    insert after NULL or after, before and next to the node of a position,
    delete by datum, by node or all) on a new list runs without a bad pointer
    and leaves nodes, linked in both directions, whose data are what the same
    calls do to a sequence; LIST_LOOP then visits exactly that sequence and
    count is its length, modulo the width of unsigned int. *)
Theorem list_refines_sequence (cmp : option (D → D → Z)) (del : bool) (os : list list_op)
    (h : heap) (ds' : list D) :
  let l := mkList None None 0 cmp del in
  lops_spec (sort_test l) os [] = Some ds' →
  ∃ h' l', lops_run os h l = Ok (h', l') ∧
    LIST_LOOP (S (size (dom h'))) h' (l_head l') = Ok ds' ∧
    l_count l' = u32 (Z.of_nat (length ds')).
Proof.
  intros l Hd.
  destruct (lops_refine os h l [] ds' (list_rep_new _ _ _) Hd)
    as (h' & l' & xs' & He & (Hs & Hnd & Hh & Ht & Hc) & <-).
  exists h', l'. split; [done |]. split; [| by rewrite length_fmap].
  rewrite Hh. eapply LIST_LOOP_spec; [exact Hs |]. pose proof (dseg_length _ _ _ _ Hnd Hs). lia.
Qed.

(** ** Sorted insertion *)

(** [cmp] orders the data: what is not after is before. *)
Definition orders (cmp : D → D → Z) : Prop := ∀ a b, 0 ≤ cmp a b → cmp b a ≤ 0.

Lemma insert_sorted_perm P v ds : insert_sorted P v ds ≡ₚ v :: ds.
Proof.
  induction ds as [|d ds IH]; simpl; [done |]. destruct (P d); [done |].
  rewrite IH. apply perm_swap.
Qed.

Lemma insert_sorted_Sorted cmp v ds :
  orders cmp → Sorted (λ a b, cmp a b ≤ 0) ds →
  Sorted (λ a b, cmp a b ≤ 0) (insert_sorted (λ d, cmp v d <? 0) v ds).
Proof.
  intros Ho. induction 1 as [|d ds Hs IH Hd]; simpl; [by repeat constructor |].
  destruct (Z.ltb_spec (cmp v d) 0).
  - constructor; [by constructor |]. constructor. lia.
  - constructor; [done |]. destruct ds as [|e ds]; simpl in *.
    + constructor. by apply Ho.
    + apply HdRel_inv in Hd. destruct (cmp v e <? 0); constructor; auto.
Qed.

(** Inserting data one by one. *)
Lemma add_sort_run cmp vs ds :
  lops_spec (λ v d, cmp v d <? 0) (LAddSort <$> vs) ds =
  Some (foldl (λ ds v, insert_sorted (λ d, cmp v d <? 0) v ds) ds vs).
Proof. revert ds. induction vs as [|v vs IH]; intros ds; simpl; [done | apply IH]. Qed.

Lemma foldl_insert_sorted cmp vs ds :
  orders cmp → Sorted (λ a b, cmp a b ≤ 0) ds →
  let r := foldl (λ ds v, insert_sorted (λ d, cmp v d <? 0) v ds) ds vs in
  Sorted (λ a b, cmp a b ≤ 0) r ∧ r ≡ₚ ds ++ vs.
Proof.
  intros Ho. revert ds. induction vs as [|v vs IH]; intros ds Hs; simpl.
  - by rewrite app_nil_r.
  - destruct (IH (insert_sorted (λ d, cmp v d <? 0) v ds)) as [Hs' Hp];
      [by apply insert_sorted_Sorted |].
    split; [done |]. rewrite Hp, insert_sorted_perm. simpl. by rewrite Permutation_middle.
Qed.

(** A list with a comparison callback that orders its data, filled by
    listnode_add_sort alone, is sorted by that callback and holds exactly the
    data inserted: LIST_LOOP visits a sorted permutation of them. *)
Theorem listnode_add_sort_sorts (cmp : D → D → Z) (del : bool) (h : heap) (vs : list D) :
  orders cmp →
  ∃ h' l' ds, lops_run (LAddSort <$> vs) h (mkList None None 0 (Some cmp) del) = Ok (h', l') ∧
    LIST_LOOP (S (size (dom h'))) h' (l_head l') = Ok ds ∧
    Sorted (λ a b, cmp a b ≤ 0) ds ∧ ds ≡ₚ vs.
Proof.
  intros Ho. destruct (foldl_insert_sorted cmp vs [] Ho (Sorted_nil _)) as [Hs Hp].
  destruct (lops_refine (LAddSort <$> vs) h (mkList None None 0 (Some cmp) del) []
    _ (list_rep_new _ _ _) (add_sort_run cmp vs []))
    as (h' & l' & xs' & He & (Hg & Hnd & Hh & _) & Hx).
  exists h', l', xs'.*2. rewrite Hx. split; [done |]. split; [| done].
  rewrite Hh, <- Hx. eapply LIST_LOOP_spec; [exact Hg |].
  pose proof (dseg_length _ _ _ _ Hnd Hg). lia.
Qed.

End facts.

Lemma list_refines_sequence_witness :
  ∃ h' l', lops_run (AN := unbounded_allocator)
      [LAdd 5; LAdd 7; LAddAfter 1 6; LDelete 5; LAddPrev 0 9; LDeleteNode 1] ∅
      (mkList None None 0 None false) = Ok (h', l') ∧
    LIST_LOOP (S (size (dom h'))) h' (l_head l') = Ok [9; 7] ∧ l_count l' = 2.
Proof.
  apply (list_refines_sequence (AN := unbounded_allocator)); [| reflexivity].
  intros h. eexists. reflexivity.
Defined.

Lemma listnode_add_sort_sorts_witness :
  ∃ h' l' ds, lops_run (AN := unbounded_allocator) (LAddSort <$> [3; 1; 2]) ∅
      (mkList None None 0 (Some Z.sub) false) = Ok (h', l') ∧
    LIST_LOOP (S (size (dom h'))) h' (l_head l') = Ok ds ∧
    Sorted (λ a b, a - b ≤ 0) ds ∧ ds ≡ₚ [3; 1; 2].
Proof.
  apply (listnode_add_sort_sorts (AN := unbounded_allocator)).
  - intros h. eexists. reflexivity.
  - intros a b Hab. lia.
Defined.
