(* ===== verification/Hash.v ===== *)
(** The chained hash table of lib/hash.c, on a heap of backets. *)

From S2P Require Import Prelude Memory.

Local Open Scope Z_scope.

Definition HASHTABSIZE : Z := 1024 * 10.

Section hash.
(** [D]: the data pointers stored, [hash_key] and [hash_cmp] the callbacks of
    the table. *)
Context {D : Type} (hash_key : D → Z) (hash_cmp : D → D → bool).

Record hash_backet := mkBacket {
  hb_next : option loc;
  hb_key : Z;              (* unsigned int *)
  hb_data : D
}.

Record hash := mkHash {
  h_index : list (option loc);
  h_size : Z;              (* unsigned int *)
  h_count : Z              (* unsigned long *)
}.

Definition set_hb_next (p : option loc) (b : hash_backet) := mkBacket p (hb_key b) (hb_data b).

Context {AB : Allocator hash_backet}.

Abbreviation heap := (gmap loc hash_backet).
Implicit Types (h : heap) (t : hash) (data : D) (p : option loc).

(** [size] pointers, zeroed. *)
Definition hash_create_size (size : Z) : hash :=
  mkHash (replicate (Z.to_nat size) None) size 0.

Definition hash_create : hash := hash_create_size HASHTABSIZE.

Definition hash_alloc_intern (arg : D) : option D := Some arg.

(** [key % hash->size] *)
Definition hash_slot t (key : Z) : res Z :=
  if h_size t =? 0 then Fail DivByZero else Ok (key mod h_size t).

Definition hash_match (b : hash_backet) (key : Z) data : bool :=
  (hb_key b =? key) && hash_cmp (hb_data b) data.

(** The search loop of hash_get. *)
Fixpoint get_loop (k : nat) h (key : Z) data p : res (option D) :=
  match k with
  | O => Fail OutOfFuel
  | S k =>
      match p with
      | None => Ok None
      | Some _ =>
          b ← load h p;
          if hash_match b key data then Ok (Some (hb_data b)) else get_loop k h key data (hb_next b)
      end
  end.

(** [alloc_func] may be NULL, and may return NULL. *)
Definition hash_get h t data (alloc_func : option (D → option D)) : res (option D * heap * hash) :=
  let key := hash_key data in
  index ← hash_slot t key;
  first ← rd (h_index t) index;
  found ← get_loop (S (size (dom h))) h key data first;
  match found with
  | Some d => Ok (Some d, h, t)
  | None =>
      match alloc_func with
      | None => Ok (None, h, t)
      | Some alloc =>
          match alloc data with
          | None => Ok (None, h, t)
          | Some newdata =>
              backet ← from_option_or NullDeref (xalloc h);
              let h := <[backet := mkBacket first key newdata]> h in
              idx ← wr (h_index t) index (Some backet);
              Ok (Some newdata, h, mkHash idx (h_size t) (u64 (h_count t + 1)))
          end
      end
  end.

Definition hash_lookup h t data : res (option D) :=
  '(r, _, _) ← hash_get h t data None; Ok r.

(** [char] is signed; the conversion to unsigned int is modulo 2^32.  [str]
    are the characters before the terminating 0. *)
Fixpoint string_hash_loop (hash : Z) (str : list Z) : Z :=
  match str with
  | [] => hash
  | c :: str => string_hash_loop (Z.lxor (u32 (hash * 33)) (u32 c)) str
  end.

Definition string_hash_make (str : list Z) : Z := string_hash_loop 0 str.

(** The loop of hash_release; [pp] is the backet before, or the first one. *)
Fixpoint release_loop (k : nat) h t (index key : Z) data (backet pp : option loc) :
    res (option D * heap * hash) :=
  match k with
  | O => Fail OutOfFuel
  | S k =>
      match backet with
      | None => Ok (None, h, t)
      | Some _ =>
          b ← load h backet;
          if hash_match b key data then
            '(h, t) ← (if decide (backet = pp) then
                         idx ← wr (h_index t) index (hb_next b);
                         Ok (h, mkHash idx (h_size t) (h_count t))
                       else h ← modify h pp (set_hb_next (hb_next b)); Ok (h, t));
            h ← release h backet;
            Ok (Some (hb_data b), h, mkHash (h_index t) (h_size t) (u64 (h_count t - 1)))
          else release_loop k h t index key data (hb_next b) backet
      end
  end.

Definition hash_release h t data : res (option D * heap * hash) :=
  let key := hash_key data in
  index ← hash_slot t key;
  first ← rd (h_index t) index;
  release_loop (S (size (dom h))) h t index key data first first.

(** The data of one chain, in order: what [func] is called on when it does not
    change the table. *)
Fixpoint chain_data (k : nat) h p : res (list D) :=
  match k with
  | O => Fail OutOfFuel
  | S k =>
      match p with
      | None => Ok []
      | Some _ => b ← load h p; ds ← chain_data k h (hb_next b); Ok (hb_data b :: ds)
      end
  end.

(** hash_iterate with a callback that leaves the table alone; the result lists
    its calls. *)
Fixpoint iterate_loop h (index : list (option loc)) : res (list D) :=
  match index with
  | [] => Ok []
  | p :: index =>
      ds ← chain_data (S (size (dom h))) h p;
      ds' ← iterate_loop h index;
      Ok (ds ++ ds')
  end.

Definition hash_iterate h t : res (list D) := iterate_loop h (h_index t).

(** The inner loop of hash_clean: the data free_func is called on, and the
    number of backets freed. *)
Fixpoint clean_chain (k : nat) h p : res (heap * list D) :=
  match k with
  | O => Fail OutOfFuel
  | S k =>
      match p with
      | None => Ok (h, [])
      | Some _ =>
          b ← load h p;
          h ← release h p;
          '(h, ds) ← clean_chain k h (hb_next b);
          Ok (h, hb_data b :: ds)
      end
  end.

Fixpoint hash_clean_loop h (index : list (option loc)) : res (heap * list D) :=
  match index with
  | [] => Ok (h, [])
  | p :: index =>
      '(h, ds) ← clean_chain (S (size (dom h))) h p;
      '(h, ds') ← hash_clean_loop h index;
      Ok (h, ds ++ ds')
  end.

Definition hash_clean h t : res (heap * hash * list D) :=
  '(h, ds) ← hash_clean_loop h (h_index t);
  Ok (h, mkHash (replicate (length (h_index t)) None) (h_size t)
           (u64 (h_count t - Z.of_nat (length ds))), ds).

End hash.

Global Arguments hash_backet : clear implicits.
