(* ===== verification/HashFacts.v ===== *)
(** Correctness of the hash table of Hash.v: it is a finite map from the
    identity of the data to the data. *)

From S2P Require Import Prelude Memory Hash.

Local Open Scope Z_scope.

Section facts.
(** The callbacks: [hash_cmp] tells whether two data have the same identity,
    and [hash_key] depends on the identity only. *)
Context {D K : Type} `{Countable K} (ident : D → K) (code : K → Z).
Context (hash_key : D → Z) (hash_cmp : D → D → bool).
Hypothesis key_ident : ∀ d, hash_key d = code (ident d).
Hypothesis cmp_ident : ∀ a b, hash_cmp a b = true ↔ ident a = ident b.
Context {AB : Allocator (hash_backet D)}.

Abbreviation heap := (gmap loc (hash_backet D)).
Abbreviation cells := (list (loc * D)).
Implicit Types (h : heap) (t : hash) (xs ys : cells) (d : D).

(** ** Chains *)

Definition bfirst xs (q : option loc) : option loc := first_ptr xs.*1 q.

(** The backets of [xs], in order, the last one linked to [q]. *)
Fixpoint bseg h xs (q : option loc) : Prop :=
  match xs with
  | [] => True
  | (p, d) :: xs' => h !! p = Some (mkBacket (bfirst xs' q) (hash_key d) d) ∧ bseg h xs' q
  end.

Lemma bfirst_app xs ys q : bfirst (xs ++ ys) q = bfirst xs (bfirst ys q).
Proof. by destruct xs. Qed.

Lemma bseg_app h xs ys q : bseg h (xs ++ ys) q ↔ bseg h xs (bfirst ys q) ∧ bseg h ys q.
Proof.
  induction xs as [|[p d] xs IH]; simpl; [tauto |]. rewrite IH, bfirst_app. tauto.
Qed.

Lemma bseg_frame h h' xs q : (∀ p, p ∈ xs.*1 → h' !! p = h !! p) → bseg h xs q → bseg h' xs q.
Proof.
  induction xs as [|[p d] xs IH]; simpl; [done |]. intros Hf [Hp Hs].
  split; [rewrite Hf; [done | by left] |]. apply IH; [| done]. intros r Hr. apply Hf. by right.
Qed.

Lemma bseg_insert h xs q p b : p ∉ xs.*1 → bseg h xs q → bseg (<[p := b]> h) xs q.
Proof. intros Hp. apply bseg_frame. intros r Hr. apply lookup_insert_ne. by intros ->. Qed.

Lemma bseg_delete h xs q p : p ∉ xs.*1 → bseg h xs q → bseg (delete p h) xs q.
Proof. intros Hp. apply bseg_frame. intros r Hr. apply lookup_delete_ne. by intros ->. Qed.

Lemma bseg_lookup h xs q p d :
  bseg h xs q → (p, d) ∈ xs → ∃ n, h !! p = Some (mkBacket n (hash_key d) d).
Proof.
  induction xs as [|[p' d'] xs IH]; simpl; [by intros _ ?%elem_of_nil |].
  intros [Hp Hs] [[= <- <-] | Hx]%elem_of_cons; eauto.
Qed.

Lemma bseg_length h xs q : NoDup xs.*1 → bseg h xs q → (length xs ≤ size (dom h))%nat.
Proof.
  intros Hnd Hs. rewrite <- (length_fmap fst xs).
  rewrite <- (size_list_to_set (C := gset loc) xs.*1) by done.
  apply subseteq_size. intros p Hp. apply elem_of_list_to_set in Hp.
  apply list_elem_of_fmap in Hp as ([p' d] & -> & Hx).
  destruct (bseg_lookup _ _ _ _ _ Hs Hx). apply elem_of_dom. eauto.
Qed.

Lemma hash_match_spec n d data :
  hash_match hash_cmp (mkBacket n (hash_key d) d) (hash_key data) data = bool_decide (ident d = ident data).
Proof.
  unfold hash_match. cbn [hb_key hb_data]. destruct (bool_decide_reflect (ident d = ident data)) as [E | E].
  - apply andb_true_iff. split; [apply Z.eqb_eq; by rewrite !key_ident, E | by apply cmp_ident].
  - apply andb_false_iff. right. destruct (hash_cmp d data) eqn:Ec; [| done].
    by apply cmp_ident in Ec.
Qed.

Lemma get_loop_spec k h data xs :
  bseg h xs None → (length xs < k)%nat →
  get_loop hash_cmp k h (hash_key data) data (bfirst xs None) =
  Ok (find (λ d, bool_decide (ident d = ident data)) xs.*2).
Proof.
  revert k. induction xs as [|[p d] xs IH]; intros k Hs Hk; simpl in Hk; (destruct k; [lia |]); [done |].
  destruct Hs as [Hp Hs]. cbn [get_loop]. change (bfirst ((p, d) :: xs) None) with (Some p). cbv iota.
  rewrite (load_Some _ _ _ Hp), bind_Ok, hash_match_spec. csimpl.
  destruct (bool_decide (ident d = ident data)); [done |]. apply IH; [done | lia].
Qed.

Definition blast xs (q : option loc) : option loc :=
  match last xs with Some (p, _) => Some p | None => q end.

(** hash_release unlinks the first backet that matches; [pre] has been passed. *)
Lemma release_loop_spec k h t index data pre ys p d zs :
  let all := pre ++ ys ++ (p, d) :: zs in
  bseg h all None → NoDup all.*1 → Forall (λ x, ident x.2 ≠ ident data) ys → ident d = ident data →
  0 ≤ index → h_index t !! Z.to_nat index = Some (bfirst all None) → (length ys < k)%nat →
  ∃ h', release_loop hash_cmp k h t index (hash_key data) data (bfirst (ys ++ (p, d) :: zs) None)
          (blast pre (bfirst (ys ++ (p, d) :: zs) None)) =
        Ok (Some d, h', mkHash (<[Z.to_nat index := bfirst (pre ++ ys ++ zs) None]> (h_index t))
                          (h_size t) (u64 (h_count t - 1))) ∧
    bseg h' (pre ++ ys ++ zs) None ∧ (∀ r, r ∉ all.*1 → h' !! r = h !! r).
Proof.
  intros all Hs Hnd Hys Hd Hi Hidx. revert k pre all Hs Hnd Hidx.
  induction ys as [|[p' d'] ys IH]; intros k pre all Hs Hnd Hidx Hk; (destruct k; [simpl in Hk; lia |]).
  - cbn [release_loop app]. change (bfirst ((p, d) :: zs) None) with (Some p). cbv iota.
    unfold all in *. cbn [app] in *. pose proof Hs as [Hpre [Hp Hzs]]%bseg_app.
    rewrite (load_Some _ _ _ Hp), bind_Ok, hash_match_spec, bool_decide_eq_true_2 by done.
    cbn [hb_next hb_data].
    rewrite fmap_app in Hnd. cbn [fmap list_fmap fst] in Hnd.
    apply NoDup_app in Hnd as (Hndp & Hdis & [Hpz Hndz]%NoDup_cons).
    assert (p ∉ pre.*1) as Hpp by (intros Hin; apply (Hdis p Hin); by left).
    destruct pre as [|[q dq] pre' _] using rev_ind.
    + unfold blast. cbn [last]. rewrite decide_True by done.
      rewrite wr_Ok, !bind_Ok by (apply lookup_lt_Some in Hidx; lia).
      rewrite (release_Some _ _ _ Hp), bind_Ok. cbn [h_index h_size h_count app].
      eexists. split; [reflexivity |]. split; [by apply bseg_delete |].
      intros r Hr. apply lookup_delete_ne. intros ->. apply Hr. by left.
    + unfold blast. rewrite last_snoc. apply bseg_app in Hpre as [Hpre [Hq _]].
      cbn [fmap] in *. rewrite fmap_app in *. cbn [fmap list_fmap fst] in *.
      assert (q ≠ p) as Hqp by (intros ->; apply Hpp; set_solver).
      rewrite decide_False by congruence. rewrite (modify_Some _ _ _ _ Hq), !bind_Ok.
      erewrite release_Some by (rewrite lookup_insert_ne by done; exact Hp). rewrite bind_Ok.
      rewrite list_insert_id.
      2: { rewrite Hidx, !bfirst_app. by destruct pre'. }
      eexists. split; [reflexivity |]. apply NoDup_app in Hndp as (_ & Hdq & _).
      assert (q ∉ pre'.*1) as Hqp' by (intros Hin; apply (Hdq q Hin); set_solver).
      assert (q ∉ zs.*1) as Hqz by (intros Hin; apply (Hdis q); set_solver).
      split.
      * apply bseg_delete; [rewrite fmap_app; set_solver |]. apply bseg_app.
        split; [apply bseg_app; split |]; [by apply bseg_insert | | by apply bseg_insert].
        cbn [bseg]. rewrite lookup_insert_eq. done.
      * intros r Hr. rewrite lookup_delete_ne by set_solver. apply lookup_insert_ne. set_solver.
  - apply Forall_cons_1 in Hys as [Hd' Hys].
    assert (bfirst (((p', d') :: ys) ++ (p, d) :: zs) None = Some p') as -> by done.
    cbn [release_loop].
    pose proof Hs as Hs'. unfold all in Hs'. apply bseg_app in Hs' as [_ [Hp' _]].
    rewrite (load_Some _ _ _ Hp'), bind_Ok, hash_match_spec, bool_decide_eq_false_2 by done.
    cbn [hb_next]. specialize (IH Hys k (pre ++ [(p', d')])).
    rewrite <- !app_assoc in IH. cbn [app] in IH. unfold blast in IH. rewrite last_snoc in IH.
    apply IH; auto. simpl in Hk. lia.
Qed.

Lemma release_loop_none k h t index data xs pp :
  bseg h xs None → Forall (λ x, ident x.2 ≠ ident data) xs → (length xs < k)%nat →
  release_loop hash_cmp k h t index (hash_key data) data (bfirst xs None) pp = Ok (None, h, t).
Proof.
  revert k pp. induction xs as [|[p d] xs IH]; intros k pp Hs Hx Hk; simpl in Hk;
    (destruct k; [lia |]); [done |].
  destruct Hs as [Hp Hs]. apply Forall_cons_1 in Hx as [Hd Hx]. cbn [release_loop].
  change (bfirst ((p, d) :: xs) None) with (Some p). cbv iota.
  rewrite (load_Some _ _ _ Hp), bind_Ok, hash_match_spec, bool_decide_eq_false_2 by done.
  apply IH; auto. lia.
Qed.

(** ** The table *)

Definition entry (x : loc * D) : K * D := (ident x.2, x.2).

(** [bs]: the chains.  Each backet is in the chain of its key, no backet and
    no identity occurs twice. *)
Record table h t (bs : list cells) : Prop := {
  tb_size : h_size t = Z.of_nat (length bs);
  tb_index : length (h_index t) = length bs;
  tb_pos : (0 < length bs)%nat;
  tb_chain i xs : bs !! i = Some xs → bseg h xs None ∧ h_index t !! i = Some (bfirst xs None) ∧
    Forall (λ x, code (ident x.2) mod h_size t = Z.of_nat i) xs;
  tb_locs : NoDup (concat bs).*1;
  tb_ids : NoDup (entry <$> concat bs).*1;
  tb_count : h_count t = u64 (Z.of_nat (length (concat bs)))
}.

(** The map the table stands for. *)
Definition contents (bs : list cells) : gmap K D := list_to_map (entry <$> concat bs).

Lemma concat_split (bs : list cells) i xs xs' :
  bs !! i = Some xs →
  ∃ rest, concat bs ≡ₚ xs ++ rest ∧ concat (<[i := xs']> bs) ≡ₚ xs' ++ rest ∧
    ∀ j ys, j ≠ i → bs !! j = Some ys → ys ⊆ rest.
Proof.
  revert i. induction bs as [|b bs IH]; intros [|i] Hi; simplify_eq/=.
  - exists (concat bs). split; [done |]. split; [done |]. intros [|j] ys Hj Hys; [done |]. simpl in Hys.
    intros x Hx. clear -Hys Hx. revert j Hys. induction bs as [|b bs IH]; intros [|j] Hys; simplify_eq/=.
    + apply elem_of_app. by left.
    + apply elem_of_app. right. by eapply IH.
  - destruct (IH i Hi) as (rest & H1 & H2 & H3). exists (b ++ rest).
    rewrite H1, H2. split; [by rewrite !(Permutation_app_swap_app b) |].
    split; [by rewrite !(Permutation_app_swap_app b) |].
    intros [|j] ys Hj Hys x Hx; apply elem_of_app; simplify_eq/=; [by left | right].
    apply (H3 j ys); [congruence | done..].
Qed.

Lemma concat_member (bs : list cells) x : x ∈ concat bs → ∃ i xs, bs !! i = Some xs ∧ x ∈ xs.
Proof.
  induction bs as [|b bs IH]; simpl; [by intros ?%elem_of_nil |].
  intros [Hx | Hx]%elem_of_app; [by exists 0%nat, b |].
  destruct (IH Hx) as (i & xs & Hi & ?). by exists (S i), xs.
Qed.

Lemma contents_perm bs xs rest :
  concat bs ≡ₚ xs ++ rest → NoDup (entry <$> concat bs).*1 →
  contents bs = list_to_map ((entry <$> xs) ++ (entry <$> rest)).
Proof.
  intros Hp Hnd. unfold contents. rewrite <- fmap_app. apply list_to_map_proper; [done |].
  by rewrite Hp.
Qed.

Lemma find_in_chain xs k :
  match find (λ d, bool_decide (ident d = k)) xs.*2 with
  | Some d => ident d = k ∧ ∃ ys p zs, xs = ys ++ (p, d) :: zs ∧ Forall (λ x, ident x.2 ≠ k) ys
  | None => Forall (λ x, ident x.2 ≠ k) xs
  end.
Proof.
  induction xs as [|[p d] xs IH]; csimpl; [constructor |].
  destruct (bool_decide_reflect (ident d = k)) as [E | E].
  - split; [done |]. by exists [], p, xs.
  - destruct (find _ xs.*2) as [d'|].
    + destruct IH as (Hd & ys & q & zs & -> & Hys). split; [done |].
      exists ((p, d) :: ys), q, zs. split; [done |]. by constructor.
    + by constructor.
Qed.

(** The chain of a key. *)
Lemma table_slot h t bs data :
  table h t bs →
  let i := Z.to_nat (hash_key data mod h_size t) in
  ∃ xs, hash_slot t (hash_key data) = Ok (hash_key data mod h_size t) ∧ bs !! i = Some xs ∧
    rd (h_index t) (hash_key data mod h_size t) = Ok (bfirst xs None) ∧
    bseg h xs None ∧ (length xs ≤ size (dom h))%nat.
Proof.
  intros Ht i. pose proof Ht as [Hsz Hix Hpos Hch Hl _ _].
  assert (0 ≤ hash_key data mod h_size t < h_size t) as Hm by (apply Z.mod_pos_bound; lia).
  destruct (lookup_lt_is_Some_2 bs i) as [xs Hxs]; [unfold i; lia |].
  destruct (Hch i xs Hxs) as (Hs & Hi & _). exists xs. unfold hash_slot.
  rewrite (proj2 (Z.eqb_neq (h_size t) 0)) by lia. split; [done |]. split; [done |].
  split; [apply rd_Ok; split; [lia | done] |]. split; [done |].
  apply (bseg_length h xs None); [| done].
  destruct (concat_split bs i xs [] Hxs) as (rest & Hp & _ & _). rewrite Hp, fmap_app in Hl.
  by apply NoDup_app in Hl as (? & _).
Qed.

(** The search in the chain of an identity decides the whole map. *)
Lemma find_contents h t bs data xs :
  table h t bs → bs !! Z.to_nat (hash_key data mod h_size t) = Some xs →
  find (λ d, bool_decide (ident d = ident data)) xs.*2 = contents bs !! ident data.
Proof.
  intros Ht Hxs. pose proof Ht as [Hsz Hix Hpos Hch Hl Hids _].
  destruct (concat_split bs _ xs [] Hxs) as (rest & Hp & _ & _).
  pose proof (find_in_chain xs (ident data)) as Hf. symmetry. unfold contents.
  destruct (find _ xs.*2) as [d|].
  - destruct Hf as (Hd & ys & p & zs & -> & _). apply elem_of_list_to_map_1; [done |].
    rewrite Hp, fmap_app, fmap_app. apply elem_of_app. left. apply elem_of_app. right.
    csimpl. rewrite <- Hd. by left.
  - apply not_elem_of_list_to_map_1. intros Hin.
    apply list_elem_of_fmap in Hin as ([k d] & Hk & Hin). cbn [fst] in Hk. subst k.
    apply list_elem_of_fmap in Hin as ([p d'] & [= Hk ->] & Hin).
    apply concat_member in Hin as (j & ys & Hj & Hin). destruct (Hch j ys Hj) as (_ & _ & Hc).
    rewrite Forall_forall in Hc. pose proof (Hc _ Hin) as Hcode. cbn [snd] in Hcode.
    rewrite <- Hk, <- key_ident in Hcode.
    assert (j = Z.to_nat (hash_key data mod h_size t)) as -> by lia. simplify_eq.
    rewrite Forall_forall in Hf. by apply (Hf _ Hin).
Qed.

Lemma hash_lookup_spec h t bs data :
  table h t bs → hash_get hash_key hash_cmp h t data None = Ok (contents bs !! ident data, h, t).
Proof.
  intros Ht. unfold hash_get. cbv zeta.
  destruct (table_slot h t bs data Ht) as (xs & -> & Hxs & Hrd & Hs & Hlen). rewrite bind_Ok, Hrd, bind_Ok.
  rewrite get_loop_spec, bind_Ok, (find_contents h t bs data xs Ht Hxs) by (auto; lia).
  by destruct (contents bs !! ident data).
Qed.

(** The search depends on the callback only through the entries of the table. *)
Lemma get_loop_cmp_ext cmp' k h key data xs :
  bseg h xs None → (∀ x, x ∈ xs → cmp' x.2 data = hash_cmp x.2 data) →
  get_loop cmp' k h key data (bfirst xs None) = get_loop hash_cmp k h key data (bfirst xs None).
Proof.
  revert k. induction xs as [|[p d] xs IH]; intros k Hs Hc; (destruct k; [done |]); [done |].
  destruct Hs as [Hp Hs]. cbn [get_loop]. change (bfirst ((p, d) :: xs) None) with (Some p). cbv iota.
  rewrite (load_Some _ _ _ Hp), !bind_Ok. unfold hash_match. cbn [hb_data hb_key hb_next].
  pose proof (Hc (p, d) ltac:(left)) as Hd. cbn [snd] in Hd. rewrite Hd, IH; [done | done |].
  intros x Hx. apply Hc. by right.
Qed.

Lemma hash_lookup_cmp_ext cmp' h t bs data :
  table h t bs → (∀ x, x ∈ concat bs → cmp' x.2 data = hash_cmp x.2 data) →
  hash_lookup hash_key cmp' h t data = Ok (contents bs !! ident data).
Proof.
  intros Ht Hc. unfold hash_lookup. rewrite <- (bind_Ok (A := option D * heap * hash)
    (λ '(r, _, _), Ok r) (contents bs !! ident data, h, t)), <- (hash_lookup_spec _ _ _ data Ht).
  unfold hash_get. cbv zeta. destruct (table_slot h t bs data Ht) as (xs & -> & Hxs & Hrd & Hs & _).
  rewrite !bind_Ok, Hrd, !bind_Ok, get_loop_cmp_ext; [done | done |].
  intros x Hx. apply Hc. apply list_elem_of_In, in_concat. exists xs.
  split; apply list_elem_of_In; [by eapply list_elem_of_lookup_2 | done].
Qed.

(** Replacing one chain. *)
Lemma table_update h t bs i xs xs' rest h' t' :
  table h t bs → bs !! i = Some xs →
  (∀ j ys, j ≠ i → bs !! j = Some ys → ys ⊆ rest) → concat (<[i := xs']> bs) ≡ₚ xs' ++ rest →
  bseg h' xs' None → (∀ r, r ∈ rest.*1 → h' !! r = h !! r) →
  h_index t' = <[i := bfirst xs' None]> (h_index t) → h_size t' = h_size t →
  h_count t' = u64 (Z.of_nat (length (xs' ++ rest))) →
  Forall (λ x, code (ident x.2) mod h_size t = Z.of_nat i) xs' →
  NoDup (xs' ++ rest).*1 → NoDup (entry <$> (xs' ++ rest)).*1 →
  table h' t' (<[i := xs']> bs).
Proof.
  intros [Hsz Hix Hpos Hch _ _ _] Hi Hsub Hp Hs Hfr Hidx Hsize Hcnt Hcode Hl Hids.
  pose proof (lookup_lt_Some _ _ _ Hi) as Hlt.
  split.
  - by rewrite Hsize, length_insert.
  - by rewrite Hidx, !length_insert.
  - by rewrite length_insert.
  - intros j ys Hj. rewrite Hidx, Hsize. destruct (decide (j = i)) as [-> | Hne].
    + rewrite list_lookup_insert_eq in Hj by done. simplify_eq.
      rewrite list_lookup_insert_eq by lia. done.
    + rewrite list_lookup_insert_ne in Hj by done. rewrite list_lookup_insert_ne by done.
      destruct (Hch j ys Hj) as (Hys & Hj' & Hc). split; [| done].
      apply (bseg_frame h); [| done]. intros r Hr. apply Hfr.
      apply list_elem_of_fmap in Hr as (x & -> & Hx). apply list_elem_of_fmap. exists x.
      split; [done |]. by eapply Hsub.
  - by rewrite Hp.
  - by rewrite Hp.
  - by rewrite Hcnt, Hp.
Qed.

Lemma hash_intern_spec h t bs data q :
  table h t bs → xalloc h = Some q →
  ∃ h' t' bs', hash_get hash_key hash_cmp h t data (Some hash_alloc_intern) =
      Ok (Some (default data (contents bs !! ident data)), h', t') ∧ table h' t' bs' ∧
    contents bs' = match contents bs !! ident data with
                   | Some _ => contents bs
                   | None => <[ident data := data]> (contents bs)
                   end.
Proof.
  intros Ht Hq. unfold hash_get. cbv zeta. set (i := Z.to_nat (hash_key data mod h_size t)).
  destruct (table_slot h t bs data Ht) as (xs & -> & Hxs & Hrd & Hs & Hlen). rewrite bind_Ok, Hrd, bind_Ok.
  rewrite get_loop_spec, bind_Ok, (find_contents h t bs data xs Ht Hxs) by (auto; lia).
  destruct (contents bs !! ident data) as [d|] eqn:Ec; [by exists h, t, bs |].
  cbn [hash_alloc_intern]. rewrite Hq. cbn [from_option_or]. rewrite bind_Ok.
  pose proof Ht as [Hsz Hix Hpos Hch Hl Hids Hcnt].
  assert (0 ≤ hash_key data mod h_size t < h_size t) as Hm by (apply Z.mod_pos_bound; lia).
  rewrite wr_Ok, bind_Ok by lia.
  destruct (concat_split bs i xs ((q, data) :: xs) Hxs) as (rest & Hp & Hp' & Hsub).
  assert (q ∉ (concat bs).*1) as Hqf.
  { intros Hin%list_elem_of_fmap. destruct Hin as ([p d] & -> & Hin).
    apply concat_member in Hin as (j & ys & Hj & Hin). destruct (Hch j ys Hj) as (Hys & _).
    destruct (bseg_lookup _ _ _ _ _ Hys Hin). apply xalloc_fresh in Hq. simpl in Hq. congruence. }
  rewrite Hp in Hqf. assert (NoDup (entry <$> (q, data) :: xs ++ rest).*1) as Hids'.
  { csimpl. apply NoDup_cons. split; [| by rewrite <- Hp].
    apply not_elem_of_list_to_map_2 in Ec. by rewrite Hp in Ec. }
  eexists _, _, (<[i := (q, data) :: xs]> bs). split; [reflexivity |].
  split; [eapply (table_update h t bs i xs ((q, data) :: xs) rest); eauto |].
  - split; [by rewrite lookup_insert_eq |]. apply bseg_insert; [| done].
    rewrite fmap_app in Hqf. set_solver.
  - intros r Hr. apply lookup_insert_ne. intros ->. apply Hqf. rewrite fmap_app. set_solver.
  - cbn [h_count]. rewrite Hcnt, Hp. unfold u64. rewrite Zplus_mod_idemp_l. f_equal. simpl length. lia.
  - apply Forall_cons. split; [| by apply Hch in Hxs as (_ & _ & ?)].
    cbn [snd]. rewrite <- key_ident. unfold i. lia.
  - cbn [app]. csimpl. apply NoDup_cons. split; [done |]. by rewrite <- Hp.
  - rewrite (contents_perm _ _ _ Hp') by (by rewrite Hp').
    csimpl. rewrite (contents_perm _ _ _ Hp) by done. done.
Qed.

Lemma hash_release_spec h t bs data :
  table h t bs →
  ∃ h' t' bs', hash_release hash_key hash_cmp h t data = Ok (contents bs !! ident data, h', t') ∧
    table h' t' bs' ∧ contents bs' = delete (ident data) (contents bs).
Proof.
  intros Ht. unfold hash_release. cbv zeta. set (i := Z.to_nat (hash_key data mod h_size t)).
  destruct (table_slot h t bs data Ht) as (xs & -> & Hxs & Hrd & Hs & Hlen). rewrite bind_Ok, Hrd, bind_Ok.
  pose proof (find_contents h t bs data xs Ht Hxs) as Hfc. pose proof (find_in_chain xs (ident data)) as Hf.
  rewrite Hfc in Hf. destruct (contents bs !! ident data) as [d|] eqn:Ec.
  - destruct Hf as (Hd & ys & p & zs & -> & Hys).
    pose proof Ht as [Hsz Hix Hpos Hch Hl Hids Hcnt].
    assert (0 ≤ hash_key data mod h_size t < h_size t) as Hm by (apply Z.mod_pos_bound; lia).
    destruct (concat_split bs i _ (ys ++ zs) Hxs) as (rest & Hp & Hp' & Hsub).
    assert (ys ++ (p, d) :: zs ≡ₚ (p, d) :: ys ++ zs) as Hmid by (symmetry; apply Permutation_middle).
    rewrite Hmid in Hp. cbn [app] in Hp.
    destruct (release_loop_spec (S (size (dom h))) h t (hash_key data mod h_size t) data [] ys p d zs)
      as (h' & He & Hs' & Hfr); auto; try lia.
    { rewrite Hp in Hl. cbn [app]. rewrite Hmid. csimpl. csimpl in Hl.
      rewrite fmap_app in Hl. apply NoDup_cons in Hl as [Hn Hl]. apply NoDup_app in Hl as (Hl & _).
      apply NoDup_cons. split; [| done]. set_solver. }
    { by apply rd_Ok in Hrd as [_ ?]. }
    { rewrite length_app in Hlen. simpl in Hlen. lia. }
    eexists h', _, (<[i := ys ++ zs]> bs). cbn [app] in *. unfold blast in He. cbn [last] in He.
    split; [exact He |]. rewrite Hp in Hids, Hl. csimpl in Hids. csimpl in Hl.
    apply NoDup_cons in Hids as [Hn Hids]. apply NoDup_cons in Hl as [Hn' Hl].
    split; [eapply (table_update h t bs i _ (ys ++ zs) rest); eauto |].
    + intros r Hr. apply Hfr. rewrite Hmid. csimpl. intros [-> | Hin]%elem_of_cons.
      * apply Hn'. rewrite fmap_app. set_solver.
      * rewrite fmap_app in Hl. apply NoDup_app in Hl as (_ & Hdis & _). by apply (Hdis r).
    + cbn [h_count]. rewrite Hcnt, Hp. unfold u64. rewrite Zminus_mod_idemp_l. f_equal. simpl length. lia.
    + apply Hch in Hxs as (_ & _ & Hc). rewrite Hmid in Hc. by apply Forall_cons_1 in Hc as [_ ?].
    + rewrite (contents_perm _ (ys ++ zs) rest Hp') by (by rewrite Hp').
      rewrite (contents_perm bs ((p, d) :: ys ++ zs) rest) by (rewrite ?Hp; auto; csimpl; by apply NoDup_cons).
      csimpl. unfold entry at 2. cbn [snd]. rewrite Hd, delete_insert_eq.
      rewrite delete_id; [done |]. rewrite <- fmap_app. apply not_elem_of_list_to_map_1. by rewrite <- Hd.
  - rewrite release_loop_none by (auto; lia). exists h, t, bs. split; [done |]. split; [done |].
    by rewrite delete_id.
Qed.

(** ** Sequences of calls *)

Inductive hash_op := HGet (d : D) | HLookup (d : D) | HRelease (d : D).

Definition hop_run (o : hash_op) h t : res (option D * heap * hash) :=
  match o with
  | HGet d => hash_get hash_key hash_cmp h t d (Some hash_alloc_intern)
  | HLookup d => r ← hash_lookup hash_key hash_cmp h t d; Ok (r, h, t)
  | HRelease d => hash_release hash_key hash_cmp h t d
  end.

(** What is already there stays: hash_get does not replace. *)
Definition hop_spec (o : hash_op) (m : gmap K D) : option D * gmap K D :=
  match o with
  | HGet d => (Some (default d (m !! ident d)),
               match m !! ident d with Some _ => m | None => <[ident d := d]> m end)
  | HLookup d => (m !! ident d, m)
  | HRelease d => (m !! ident d, delete (ident d) m)
  end.

Fixpoint hops_run (os : list hash_op) h t : res (list (option D) * heap * hash) :=
  match os with
  | [] => Ok ([], h, t)
  | o :: os => '(r, h, t) ← hop_run o h t; '(rs, h, t) ← hops_run os h t; Ok (r :: rs, h, t)
  end.

Fixpoint hops_spec (os : list hash_op) (m : gmap K D) : list (option D) * gmap K D :=
  match os with
  | [] => ([], m)
  | o :: os => let '(r, m) := hop_spec o m in let '(rs, m) := hops_spec os m in (r :: rs, m)
  end.

Hypothesis alloc_total : ∀ h, is_Some (xalloc h).

Lemma hop_refines o h t bs :
  table h t bs →
  ∃ h' t' bs', hop_run o h t = Ok (fst (hop_spec o (contents bs)), h', t') ∧ table h' t' bs' ∧
    contents bs' = snd (hop_spec o (contents bs)).
Proof.
  intros Ht. destruct o as [d|d|d]; cbn [hop_run hop_spec fst snd].
  - destruct (alloc_total h) as [q Hq]. by eapply hash_intern_spec.
  - unfold hash_lookup. rewrite (hash_lookup_spec _ _ _ d Ht), !bind_Ok. by exists h, t, bs.
  - by apply hash_release_spec.
Qed.

Lemma hops_refine os h t bs :
  table h t bs →
  ∃ h' t' bs', hops_run os h t = Ok (fst (hops_spec os (contents bs)), h', t') ∧ table h' t' bs' ∧
    contents bs' = snd (hops_spec os (contents bs)).
Proof.
  revert h t bs. induction os as [|o os IH]; intros h t bs Ht; cbn [hops_run hops_spec].
  - by exists h, t, bs.
  - destruct (hop_refines o _ _ _ Ht) as (h1 & t1 & bs1 & -> & Ht1 & Hc1). rewrite bind_Ok.
    destruct (IH _ _ _ Ht1) as (h2 & t2 & bs2 & -> & Ht2 & Hc2). rewrite bind_Ok.
    exists h2, t2, bs2. rewrite Hc1 in *. destruct (hop_spec o (contents bs)) as [r m1]. cbn [fst snd] in *.
    by destruct (hops_spec os m1).
Qed.

Lemma concat_empty m : concat (replicate m ([] : cells)) = [].
Proof. induction m; simpl; auto. Qed.

Lemma create_table size h : 0 < size → table h (hash_create_size size) (replicate (Z.to_nat size) []).
Proof.
  intros Hs. pose proof (concat_empty (Z.to_nat size)) as Hc.
  split; cbn [hash_create_size h_size h_index h_count]; rewrite ?length_replicate, ?Hc;
    auto; [lia | lia | | constructor | constructor].
  intros i xs Hi. apply lookup_replicate in Hi as [-> Hi]. split; [done |].
  split; [| constructor]. apply lookup_replicate. split; [done | lia].
Qed.

Lemma table_count h t bs : table h t bs → h_count t = u64 (Z.of_nat (size (contents bs))).
Proof.
  intros [_ _ _ _ _ Hids ->]. do 2 f_equal. unfold contents. rewrite <- (length_fmap entry).
  generalize dependent (entry <$> concat bs). induction l as [|[k d] l IH]; intros Hnd; [done |].
  csimpl in Hnd. apply NoDup_cons in Hnd as [Hn Hnd]. csimpl.
  rewrite map_size_insert_None by (by apply not_elem_of_list_to_map_1). by rewrite IH.
Qed.


End facts.

