(* ===== verification/Vector.v ===== *)
(** The growing arrays of lib/vector.c, and the proof that a vector is a
    finite map from indexes to pointers. *)

From S2P Require Import Prelude.

Local Open Scope Z_scope.

Section vector.
(** [D]: a pointer that is not NULL; a NULL slot is [None]. *)
Context {D : Type}.

Record vector := mkVector {
  v_active : Z;                 (* unsigned int *)
  v_alloced : Z;                (* unsigned int *)
  v_index : list (option D)
}.

Implicit Types (v : vector) (val : option D).

(** XCALLOC and XREALLOC of [n] pointers may fail; the results are used
    without a test. *)
Context (malloc_ok : Z → bool).

Definition vector_init (size : Z) : res vector :=
  let size := if size =? 0 then 1 else size in
  if malloc_ok (8 * size) then Ok (mkVector 0 size (replicate (Z.to_nat size) None))
  else Fail NullDeref.

(** [size] is an unsigned int: the byte count wraps around. *)
Definition vector_copy v : res vector :=
  let size := u32 (8 * v_alloced v) in
  if malloc_ok size then
    src ← rd_block (v_index v) 0 (size / 8);
    Ok (mkVector (v_active v) (v_alloced v) src)
  else Fail NullDeref.

(** One doubling of vector_ensure.  [v->alloced * 2] is an unsigned int: the
    memset leaves the new block when it wraps around. *)
Definition vector_double v : res vector :=
  let n := u32 (v_alloced v * 2) in
  if malloc_ok (8 * n) then
    let index := take (Z.to_nat n) (v_index v) ++ replicate (Z.to_nat n - length (v_index v)) None in
    index ← wr_block index (v_alloced v) (replicate (Z.to_nat (v_alloced v)) None);
    Ok (mkVector (v_active v) n index)
  else Fail NullDeref.

Fixpoint vector_ensure (k : nat) v (num : Z) : res vector :=
  match k with
  | O => Fail OutOfFuel
  | S k =>
      if num <? v_alloced v then Ok v
      else
        v ← vector_double v;
        if v_alloced v <=? num then vector_ensure k v num else Ok v
  end.

(** 32 doublings exhaust an unsigned int. *)
Definition ensure v (num : Z) : res vector := vector_ensure 33 v num.

Fixpoint empty_loop (k : nat) v (i : Z) : res Z :=
  match k with
  | O => Ok i
  | S k => x ← rd (v_index v) i; match x with None => Ok i | Some _ => empty_loop k v (i + 1) end
  end.

Definition vector_empty_slot v : res Z :=
  if v_active v =? 0 then Ok 0 else empty_loop (Z.to_nat (v_active v)) v 0.

Definition vector_set_index v (i : Z) val : res (Z * vector) :=
  v ← ensure v i;
  index ← wr (v_index v) i val;
  let active := if v_active v <=? i then u32 (i + 1) else v_active v in
  Ok (i, mkVector active (v_alloced v) index).

Definition vector_set v val : res (Z * vector) :=
  i ← vector_empty_slot v;
  vector_set_index v i val.

Definition vector_lookup v (i : Z) : res (option D) :=
  if v_active v <=? i then Ok None else rd (v_index v) i.

Definition vector_lookup_ensure v (i : Z) : res (option D * vector) :=
  v ← ensure v i;
  x ← rd (v_index v) i;
  Ok (x, v).

(** [while (i && v->index[--i] == NULL && v->active--) ;] *)
Fixpoint unset_loop (k : nat) (index : list (option D)) (i active : Z) : res Z :=
  match k with
  | O => Fail OutOfFuel
  | S k =>
      if i =? 0 then Ok active
      else
        x ← rd index (i - 1);
        match x with
        | Some _ => Ok active
        | None => if active =? 0 then Ok (u32 (active - 1)) else unset_loop k index (i - 1) (active - 1)
        end
  end.

Definition vector_unset v (i : Z) : res vector :=
  if v_alloced v <=? i then Ok v
  else
    index ← wr (v_index v) i None;
    if u32 (i + 1) =? v_active v then
      active ← unset_loop (S (Z.to_nat i)) index i (u32 (v_active v - 1));
      Ok (mkVector active (v_alloced v) index)
    else Ok (mkVector (v_active v) (v_alloced v) index).

Fixpoint count_loop (k : nat) v (i count : Z) : res Z :=
  match k with
  | O => Ok count
  | S k => x ← rd (v_index v) i;
           count_loop k v (i + 1) (match x with Some _ => u32 (count + 1) | None => count end)
  end.

Definition vector_count v : res Z := count_loop (Z.to_nat (v_active v)) v 0 0.

(** ** The vector as a map *)

Hypothesis memory : ∀ n, malloc_ok n = true.

Definition slot v (i : nat) : option D := mjoin (v_index v !! i).

(** Only the first [active] slots are used, the last of them is. *)
Record vector_ok v : Prop := {
  vo_len : Z.of_nat (length (v_index v)) = v_alloced v;
  vo_alloced : 0 < v_alloced v < 2 ^ 32;
  vo_active : 0 ≤ v_active v ≤ v_alloced v;
  vo_free i : v_active v ≤ Z.of_nat i → slot v i = None;
  vo_last : v_active v ≠ 0 → slot v (Z.to_nat (v_active v - 1)) ≠ None
}.

Lemma slot_rd v i : 0 ≤ i < Z.of_nat (length (v_index v)) → rd (v_index v) i = Ok (slot v (Z.to_nat i)).
Proof.
  intros Hi. destruct (rd_is_Ok (v_index v) i Hi) as [x Hx]. rewrite Hx. apply rd_Ok in Hx as [_ Hx].
  unfold slot. by rewrite Hx.
Qed.

Lemma vector_double_spec v :
  vector_ok v → v_alloced v < 2 ^ 31 →
  ∃ v', vector_double v = Ok v' ∧ vector_ok v' ∧ v_alloced v' = 2 * v_alloced v ∧
    v_active v' = v_active v ∧ ∀ i, slot v' i = slot v i.
Proof.
  intros [Hl Ha Hac Hf Hla] Hlt. unfold vector_double. cbv zeta. rewrite memory.
  rewrite u32_small by (unfold_ranges; lia).
  rewrite take_ge by lia.
  replace (Z.to_nat (v_alloced v * 2) - length (v_index v))%nat with (Z.to_nat (v_alloced v)) by lia.
  rewrite wr_block_Ok, bind_Ok by (rewrite ?length_app, ?length_replicate; lia).
  assert (splice (v_index v ++ replicate (Z.to_nat (v_alloced v)) None) (v_alloced v)
            (replicate (Z.to_nat (v_alloced v)) None) =
          v_index v ++ replicate (Z.to_nat (v_alloced v)) None) as ->.
  { unfold splice. rewrite take_app_length' by lia. f_equal.
    rewrite drop_ge by (rewrite length_app, !length_replicate; lia). apply app_nil_r. }
  assert (∀ i, mjoin ((v_index v ++ replicate (Z.to_nat (v_alloced v)) None) !! i) = slot v i) as Hs.
  { intros i. unfold slot. destruct (decide (i < length (v_index v))%nat).
    - by rewrite lookup_app_l by lia.
    - rewrite lookup_app_r, (lookup_ge_None_2 (v_index v)) by lia.
      destruct (replicate _ None !! _) eqn:E; [| done]. by apply lookup_replicate in E as [-> _]. }
  eexists. split; [reflexivity |]. split; [| split; [cbn; lia |]; split; [done | exact Hs]].
  split; cbn [v_index v_alloced v_active]; [rewrite length_app, length_replicate; lia | lia | lia | |].
  - intros i Hi. unfold slot. cbn [v_index]. rewrite Hs. by apply Hf.
  - intros H0. unfold slot. cbn [v_index]. rewrite Hs. by apply Hla.
Qed.

Lemma vector_ensure_spec k v num :
  vector_ok v → 0 ≤ num < 2 ^ 31 → num < v_alloced v * 2 ^ Z.of_nat k →
  ∃ v', vector_ensure (S k) v num = Ok v' ∧ vector_ok v' ∧ num < v_alloced v' ∧
    v_active v' = v_active v ∧ ∀ i, slot v' i = slot v i.
Proof.
  revert v. induction k as [|k IH]; intros v Hv Hn Hk; cbn [vector_ensure].
  - rewrite Z.mul_1_r in Hk. rewrite (proj2 (Z.ltb_lt _ _) Hk). by exists v.
  - destruct (Z.ltb_spec num (v_alloced v)); [by exists v |].
    destruct (vector_double_spec v Hv) as (v1 & -> & Hv1 & Ha & Hac & Hs); [lia |]. rewrite bind_Ok.
    destruct (Z.leb_spec (v_alloced v1) num); [| by exists v1].
    destruct (IH v1 Hv1 Hn) as (v' & He & Hv' & ? & ? & Hs').
    { rewrite Ha. rewrite Nat2Z.inj_succ, Z.pow_succ_r in Hk by lia. lia. }
    exists v'. split; [exact He |]. split; [done |]. split; [done |]. split; [lia |].
    intros i. by rewrite Hs'.
Qed.

Lemma ensure_spec v num :
  vector_ok v → 0 ≤ num < 2 ^ 31 →
  ∃ v', ensure v num = Ok v' ∧ vector_ok v' ∧ num < v_alloced v' ∧
    v_active v' = v_active v ∧ ∀ i, slot v' i = slot v i.
Proof.
  intros Hv Hn. apply (vector_ensure_spec 32); auto. destruct Hv as [_ [? _] _ _ _].
  change (Z.of_nat 32) with 32. lia.
Qed.

Definition vector_rep v (m : gmap nat D) : Prop := vector_ok v ∧ ∀ i, m !! i = slot v i.

Lemma vector_init_rep size :
  0 ≤ size < 2 ^ 32 → ∃ v, vector_init size = Ok v ∧ vector_rep v ∅.
Proof.
  intros Hs. unfold vector_init. rewrite memory. eexists. split; [reflexivity |].
  set (n := if size =? 0 then 1 else size).
  assert (0 < n < 2 ^ 32) as Hn by (unfold n; destruct (Z.eqb_spec size 0); lia).
  assert (∀ i, slot (mkVector 0 n (replicate (Z.to_nat n) None)) i = None) as Hsl.
  { intros i. unfold slot. cbn [v_index]. destruct (replicate _ _ !! i) eqn:E; [| done].
    by apply lookup_replicate in E as [-> _]. }
  split; [| intros i; by rewrite Hsl, lookup_empty].
  split; cbn [v_index v_alloced v_active]; [rewrite length_replicate; lia | lia | lia | by auto | lia].
Qed.

Lemma empty_loop_spec k v i :
  Z.of_nat (k + i) ≤ Z.of_nat (length (v_index v)) →
  ∃ j, empty_loop k v (Z.of_nat i) = Ok (Z.of_nat j) ∧ (i ≤ j ≤ i + k)%nat ∧
    (∀ l, (i ≤ l < j)%nat → slot v l ≠ None) ∧ (j < i + k → slot v j = None)%nat.
Proof.
  revert i. induction k as [|k IH]; intros i Hl; cbn [empty_loop].
  - exists i. split; [done |]. split; [lia |]. split; intros; lia.
  - rewrite slot_rd, bind_Ok, Nat2Z.id by lia. destruct (slot v i) eqn:E.
    + destruct (IH (S i)) as (j & He & Hj & Hlt & Hjn); [lia |].
      exists j. replace (Z.of_nat i + 1) with (Z.of_nat (S i)) by lia. split; [done |]. split; [lia |].
      split; [| intros; apply Hjn; lia]. intros l Hl'. destruct (decide (l = i)) as [-> |]; [congruence |].
      apply Hlt. lia.
    + exists i. split; [done |]. split; [lia |]. split; [intros; lia | done].
Qed.

(** vector_empty_slot finds the least index that is free. *)
Lemma empty_slot_spec v m :
  vector_rep v m →
  ∃ i, vector_empty_slot v = Ok (Z.of_nat i) ∧ m !! i = None ∧ ∀ j, (j < i)%nat → is_Some (m !! j).
Proof.
  intros [[Hl Ha Hac Hf Hla] Hm]. unfold vector_empty_slot.
  destruct (Z.eqb_spec (v_active v) 0) as [H0 | H0].
  - exists 0%nat. split; [done |]. split; [rewrite Hm; apply Hf; lia | lia].
  - destruct (empty_loop_spec (Z.to_nat (v_active v)) v 0) as (j & He & Hj & Hlt & Hjn); [lia |].
    exists j. split; [exact He |]. split.
    + rewrite Hm. destruct (decide (j < Z.to_nat (v_active v))%nat); [by apply Hjn | apply Hf; lia].
    + intros l Hl'. rewrite Hm. apply not_eq_None_Some, Hlt. lia.
Qed.

Lemma set_index_rep v m i d :
  vector_rep v m → Z.of_nat i < 2 ^ 31 →
  ∃ v', vector_set_index v (Z.of_nat i) (Some d) = Ok (Z.of_nat i, v') ∧ vector_rep v' (<[i := d]> m).
Proof.
  intros [Hv Hm] Hi. unfold vector_set_index.
  destruct (ensure_spec v (Z.of_nat i) Hv) as (v1 & -> & [Hl Ha Hac Hf Hla] & Hlt & Hac1 & Hs); [lia |].
  rewrite bind_Ok, wr_Ok, bind_Ok by lia. rewrite Nat2Z.id. eexists. split; [reflexivity |].
  set (active := if v_active v1 <=? Z.of_nat i then u32 (Z.of_nat i + 1) else v_active v1).
  assert (active = Z.max (v_active v1) (Z.of_nat i + 1)) as Hact.
  { unfold active. rewrite u32_small by (unfold_ranges; lia). destruct (Z.leb_spec (v_active v1) (Z.of_nat i)); lia. }
  assert (∀ j, slot (mkVector active (v_alloced v1) (<[i := Some d]> (v_index v1))) j =
               if decide (j = i) then Some d else slot v1 j) as Hsl.
  { intros j. unfold slot. cbn [v_index]. case_decide as Hj.
    - subst j. by rewrite list_lookup_insert_eq by lia.
    - by rewrite list_lookup_insert_ne by congruence. }
  split.
  - split; cbn [v_index v_alloced v_active]; [by rewrite length_insert | done | lia | |].
    + intros j Hj. rewrite Hsl. rewrite decide_False by lia. apply Hf. lia.
    + intros _. rewrite Hsl. case_decide; [done |]. rewrite Hact in *.
      replace (Z.max (v_active v1) (Z.of_nat i + 1)) with (v_active v1) by lia. apply Hla. lia.
  - intros j. rewrite Hsl. case_decide as Hj; [subst; apply lookup_insert_eq |].
    rewrite lookup_insert_ne by congruence. by rewrite Hm, Hs.
Qed.

Lemma unset_loop_spec k v i :
  (∀ j, Z.of_nat i ≤ Z.of_nat j → slot v j = None) → Z.of_nat i ≤ Z.of_nat (length (v_index v)) →
  (i < k)%nat →
  ∃ a, unset_loop k (v_index v) (Z.of_nat i) (Z.of_nat i) = Ok (Z.of_nat a) ∧ (a ≤ i)%nat ∧
    (∀ j, Z.of_nat a ≤ Z.of_nat j → slot v j = None) ∧ (a ≠ 0%nat → slot v (a - 1) ≠ None).
Proof.
  revert i. induction k as [|k IH]; intros i Hf Hl Hk; [lia |]. cbn [unset_loop].
  destruct i as [|i]; [by exists 0%nat |].
  rewrite (proj2 (Z.eqb_neq _ 0)) by lia.
  replace (Z.of_nat (S i) - 1) with (Z.of_nat i) by lia. rewrite slot_rd, bind_Ok, Nat2Z.id by lia.
  destruct (slot v i) eqn:E.
  - exists (S i). split; [done |]. split; [lia |]. split; [done |].
    intros _. replace (S i - 1)%nat with i by lia. congruence.
  - destruct (IH i) as (a & He & Ha & Hfa & Hla); [| lia | lia |].
    { intros j Hj. destruct (decide (j = i)) as [-> |]; [done |]. apply Hf. lia. }
    exists a. split; [done |]. split; [lia |]. by split.
Qed.

Lemma unset_rep v m i :
  vector_rep v m → Z.of_nat i < 2 ^ 31 →
  ∃ v', vector_unset v (Z.of_nat i) = Ok v' ∧ vector_rep v' (delete i m).
Proof.
  intros [[Hl Ha Hac Hf Hla] Hm] Hi. unfold vector_unset.
  destruct (Z.leb_spec (v_alloced v) (Z.of_nat i)).
  { exists v. split; [done |]. split; [by split |]. intros j. rewrite lookup_delete.
    case_decide; [subst; rewrite Hf by lia; done | apply Hm]. }
  rewrite wr_Ok, bind_Ok, Nat2Z.id by lia. set (index := <[i := None]> (v_index v)).
  assert (∀ a j, slot (mkVector a (v_alloced v) index) j = if decide (j = i) then None else slot v j) as Hsl.
  { intros a j. unfold slot, index. cbn [v_index]. case_decide as Hj.
    - subst j. by rewrite list_lookup_insert_eq by lia.
    - by rewrite list_lookup_insert_ne by congruence. }
  assert (∀ a j, delete i m !! j = slot (mkVector a (v_alloced v) index) j) as Hm'.
  { intros a j. rewrite Hsl, lookup_delete. case_decide; [by rewrite decide_True by congruence |].
    rewrite decide_False by congruence. apply Hm. }
  assert (Z.of_nat (length index) = v_alloced v) as Hl' by (unfold index; by rewrite length_insert).
  rewrite u32_small by (unfold_ranges; lia).
  destruct (Z.eqb_spec (Z.of_nat i + 1) (v_active v)) as [Heq | Hne].
  - rewrite u32_small by (unfold_ranges; lia).
    replace (v_active v - 1) with (Z.of_nat i) by lia.
    destruct (unset_loop_spec (S i) (mkVector 0 (v_alloced v) index) i) as (a & He & Hai & Hfa & Hla').
    { intros j Hj. rewrite Hsl. case_decide; [done |]. apply Hf. lia. }
    { cbn [v_index]. lia. } { lia. }
    cbn [v_index] in He. rewrite He, bind_Ok. eexists. split; [reflexivity |].
    split; [| apply Hm'].
    split; cbn [v_index v_alloced v_active]; [done | done | lia | exact Hfa |].
    intros H0. replace (Z.to_nat (Z.of_nat a - 1)) with (a - 1)%nat by lia. apply Hla'. lia.
  - eexists. split; [reflexivity |]. split; [| apply Hm'].
    split; cbn [v_index v_alloced v_active]; [done | done | done | |].
    + intros j Hj. rewrite Hsl. case_decide; [done |]. by apply Hf.
    + intros H0. rewrite Hsl, decide_False by lia. by apply Hla.
Qed.

Lemma lookup_rep v m i :
  vector_rep v m → vector_lookup v (Z.of_nat i) = Ok (m !! i).
Proof.
  intros [[Hl Ha Hac Hf Hla] Hm]. unfold vector_lookup. rewrite Hm.
  destruct (Z.leb_spec (v_active v) (Z.of_nat i)); [by rewrite Hf |].
  by rewrite slot_rd, Nat2Z.id by lia.
Qed.

(** The number of used slots of a list of slots. *)
Lemma size_slots (l : list (option D)) (m : gmap nat D) :
  (∀ i, m !! i = mjoin (l !! i)) → size m = length (omap id l).
Proof.
  revert m. induction l as [|x l IH] using rev_ind; intros m Hm.
  - replace m with (∅ : gmap nat D); [done |]. apply map_eq. intros i. by rewrite Hm, lookup_empty.
  - rewrite omap_app, length_app. rewrite <- (IH (delete (length l) m)).
    + assert (m !! length l = x) as Hx.
      { rewrite Hm, lookup_app_r, Nat.sub_diag by lia. by destruct x. }
      destruct x as [d|]; cbn.
      * rewrite map_size_delete, Hx. cbn.
        assert (size m ≠ 0%nat); [| lia]. intros E%map_size_empty_iff. by rewrite E, lookup_empty in Hx.
      * by rewrite delete_id, Nat.add_0_r.
    + intros i. rewrite lookup_delete. case_decide as Hi.
      * subst i. by rewrite lookup_ge_None_2.
      * rewrite Hm. destruct (decide (i < length l)%nat).
        { by rewrite lookup_app_l by lia. }
        rewrite !lookup_ge_None_2 by (rewrite ?length_app; cbn; lia). done.
Qed.

Lemma count_loop_spec k v i c :
  Z.of_nat (k + i) ≤ Z.of_nat (length (v_index v)) → 0 ≤ c → c + Z.of_nat k < 2 ^ 32 →
  count_loop k v (Z.of_nat i) c = Ok (c + Z.of_nat (length (omap id (take k (drop i (v_index v)))))).
Proof.
  revert i c. induction k as [|k IH]; intros i c Hl Hc Hk; cbn [count_loop].
  - cbn. by rewrite Z.add_0_r.
  - rewrite slot_rd, bind_Ok, Nat2Z.id by lia.
    destruct (lookup_lt_is_Some_2 (v_index v) i) as [x Hx]; [lia |].
    rewrite (drop_S _ x i Hx). cbn [take omap list_omap]. unfold slot. rewrite Hx.
    replace (Z.of_nat i + 1) with (Z.of_nat (S i)) by lia. destruct x as [d|]; cbn [mjoin option_join id].
    + rewrite u32_small by (unfold_ranges; lia). rewrite IH by lia. f_equal.
      change (omap id (Some d :: ?l)) with (d :: omap id l). cbn [length]. lia.
    + rewrite IH by lia. done.
Qed.

Lemma count_rep v m :
  vector_rep v m → v_active v < 2 ^ 32 → vector_count v = Ok (Z.of_nat (size m)).
Proof.
  intros [[Hl Ha Hac Hf Hla] Hm] Hlt. unfold vector_count.
  pose proof (count_loop_spec (Z.to_nat (v_active v)) v 0 0) as Hc. rewrite drop_0 in Hc.
  change (Z.of_nat 0) with 0 in Hc. rewrite Hc by lia. rewrite Z.add_0_l. f_equal. f_equal. symmetry.
  apply size_slots. intros i. rewrite Hm. destruct (decide (i < Z.to_nat (v_active v))%nat).
  - by rewrite lookup_take_lt.
  - rewrite lookup_take_ge by lia. apply Hf. lia.
Qed.

(** ** Sequences of calls *)

Inductive vector_op :=
| VSet (d : D)
| VSetIndex (i : nat) (d : D)
| VUnset (i : nat)
| VLookup (i : nat)
| VCount.

Inductive vector_result := RIndex (i : Z) | RPtr (x : option D) | RCount (n : Z) | RVoid.

Definition vop_run (o : vector_op) v : res (vector_result * vector) :=
  match o with
  | VSet d => '(i, v) ← vector_set v (Some d); Ok (RIndex i, v)
  | VSetIndex i d => '(i, v) ← vector_set_index v (Z.of_nat i) (Some d); Ok (RIndex i, v)
  | VUnset i => v ← vector_unset v (Z.of_nat i); Ok (RVoid, v)
  | VLookup i => x ← vector_lookup v (Z.of_nat i); Ok (RPtr x, v)
  | VCount => n ← vector_count v; Ok (RCount n, v)
  end.

(** The same calls on a finite map. *)
Inductive vop_spec : vector_op → gmap nat D → vector_result → gmap nat D → Prop :=
| spec_set d m i : m !! i = None → (∀ j, (j < i)%nat → is_Some (m !! j)) →
    vop_spec (VSet d) m (RIndex (Z.of_nat i)) (<[i := d]> m)
| spec_set_index i d m : vop_spec (VSetIndex i d) m (RIndex (Z.of_nat i)) (<[i := d]> m)
| spec_unset i m : vop_spec (VUnset i) m RVoid (delete i m)
| spec_lookup i m : vop_spec (VLookup i) m (RPtr (m !! i)) m
| spec_count m : vop_spec VCount m (RCount (Z.of_nat (size m))) m.

Inductive vops_spec : list vector_op → gmap nat D → list vector_result → gmap nat D → Prop :=
| specs_nil m : vops_spec [] m [] m
| specs_cons o os m r m1 rs m2 :
    vop_spec o m r m1 → vops_spec os m1 rs m2 → vops_spec (o :: os) m (r :: rs) m2.

Fixpoint vops_run (os : list vector_op) v : res (list vector_result * vector) :=
  match os with
  | [] => Ok ([], v)
  | o :: os => '(r, v) ← vop_run o v; '(rs, v) ← vops_run os v; Ok (r :: rs, v)
  end.

(** Indexes for which the doubling stays within an unsigned int. *)
Definition vop_ok (o : vector_op) : Prop :=
  match o with VSetIndex i _ | VUnset i | VLookup i => Z.of_nat i < 2 ^ 31 | _ => True end.

(** All indexes below a free one being used, there are at least as many. *)
Lemma least_free_bound (m : gmap nat D) i : (∀ j, (j < i)%nat → is_Some (m !! j)) → (i ≤ size m)%nat.
Proof.
  intros Hj. assert (size (list_to_set (seq 0 i) : gset nat) = i) as E
    by (rewrite size_list_to_set by apply NoDup_seq; apply length_seq).
  rewrite <- E, <- size_dom. apply subseteq_size. intros j Hin%elem_of_list_to_set%elem_of_seq.
  apply elem_of_dom, Hj. lia.
Qed.

Lemma vop_refines o v m :
  vector_rep v m → vop_ok o → Z.of_nat (size m) < 2 ^ 31 →
  ∃ r v' m', vop_run o v = Ok (r, v') ∧ vop_spec o m r m' ∧ vector_rep v' m' ∧ (size m' ≤ S (size m))%nat.
Proof.
  intros Hr Ho Hsz. destruct o as [d|i d|i|i|]; cbn [vop_run vop_ok] in *.
  - destruct (empty_slot_spec v m Hr) as (i & He & Hi & Hlt). unfold vector_set. rewrite He, bind_Ok.
    pose proof (least_free_bound m i Hlt) as Hb.
    destruct (set_index_rep v m i d Hr) as (v' & -> & Hr'); [lia |]. rewrite bind_Ok.
    eexists _, v', _. split; [reflexivity |]. split; [by constructor |]. split; [done |].
    rewrite map_size_insert, Hi. cbn. lia.
  - destruct (set_index_rep v m i d Hr Ho) as (v' & -> & Hr'). rewrite bind_Ok.
    eexists _, v', _. split; [reflexivity |]. split; [by constructor |]. split; [done |].
    rewrite map_size_insert. destruct (m !! i); cbn; lia.
  - destruct (unset_rep v m i Hr Ho) as (v' & -> & Hr'). rewrite bind_Ok.
    eexists _, v', _. split; [reflexivity |]. split; [by constructor |]. split; [done |].
    rewrite map_size_delete. destruct (m !! i); cbn; lia.
  - rewrite (lookup_rep v m i Hr), bind_Ok. eexists _, v, m. split; [reflexivity |].
    split; [by constructor |]. split; [done | lia].
  - rewrite (count_rep v m Hr), bind_Ok by (destruct Hr as [[] _]; lia).
    eexists _, v, m. split; [reflexivity |]. split; [by constructor |]. split; [done | lia].
Qed.


End vector.

