(* ===== verification/Blocks.v ===== *)
(** The memory of the containers: the constructors and destructors of lib/vector.c,
    lib/hash.c, lib/linklist.c and lib/sockunion.c on the blocks of Alloc.v, with
    the layout of their structures.  Vector.v, Hash.v and Linklist.v treat the
    contents; here is what is allocated, of what size, and what freeing leaves. *)

From Stdlib Require Ascii String.
From S2P Require Import Prelude Alloc Cstring Kmem KmemFacts Sockunion SockunionFacts.

Import String.StringSyntax.
Local Open Scope Z_scope.

(** ** include/memtypes.h *)

Definition MTYPE_VECTOR : Z := 0.
Definition MTYPE_VECTOR_INDEX : Z := 1.
Definition MTYPE_LINK_LIST : Z := 2.
Definition MTYPE_HASH : Z := 4.
Definition MTYPE_HASH_INDEX : Z := 6.
Definition MTYPE_SOCKUNION : Z := 8.

(** ** Fields of [n] bytes at an offset of a block *)

Implicit Types (m : blocks) (p off v : Z).

Definition block_at m p : res (list Z) :=
  if p =? 0 then Fail NullDeref else from_option_or BadPointer (m !! p).

Definition st_field m p off (n : nat) v : res blocks :=
  d ← block_at m p;
  d ← wr_block d off (le_bytes n v);
  Ok (<[p := d]> m).

Definition ld_field m p off (n : nat) : res Z :=
  d ← block_at m p;
  bs ← rd_block d off (Z.of_nat n);
  Ok (le_value bs).

Section containers.
Context {L : Libc}.

(** ** lib/vector.c *)

(** struct _vector: [active] at 0, [alloced] at 4, [index] at 8.  The product is a
    [size_t]; misakacalloc takes an [int]. *)
Definition sizeof_vector : Z := 16.

Definition vector_init_mem (size : Z) m : res (Z * blocks) :=
  let '(v, m) := misakacalloc MTYPE_VECTOR sizeof_vector m in
  let size := if size =? 0 then 1 else size in
  m ← st_field m v 4 4 size;
  m ← st_field m v 0 4 0;
  let '(ix, m) := misakacalloc MTYPE_VECTOR_INDEX (s32 (8 * size)) m in
  m ← st_field m v 8 8 ix;
  Ok (v, m).

Definition vector_only_wrapper_free v m : res blocks :=
  '(_, m) ← XFREE MTYPE_VECTOR v m; Ok m.

Definition vector_only_index_free (index : Z) m : res blocks :=
  '(_, m) ← XFREE MTYPE_VECTOR_INDEX index m; Ok m.

Definition vector_free v m : res blocks :=
  ix ← ld_field m v 8 8;
  '(ix, m) ← XFREE MTYPE_VECTOR_INDEX ix m;
  m ← st_field m v 8 8 ix;
  '(_, m) ← XFREE MTYPE_VECTOR v m;
  Ok m.

(** ** lib/hash.c *)

(** struct hash: [index] at 0, [size] at 8, [hash_key] at 16, [hash_cmp] at 24,
    [count] at 32 *)
Definition sizeof_hash : Z := 40.

Definition hash_create_mem (size hash_key hash_cmp : Z) m : res (Z * blocks) :=
  let '(hash, _, m) := misakamalloc MTYPE_HASH sizeof_hash m in
  let '(ix, m) := misakacalloc MTYPE_HASH_INDEX (s32 (8 * size)) m in
  m ← st_field m hash 0 8 ix;
  m ← st_field m hash 8 4 size;
  m ← st_field m hash 16 8 hash_key;
  m ← st_field m hash 24 8 hash_cmp;
  m ← st_field m hash 32 8 0;
  Ok (hash, m).

Definition hash_free (hash : Z) m : res blocks :=
  ix ← ld_field m hash 0 8;
  '(ix, m) ← XFREE MTYPE_HASH_INDEX ix m;
  m ← st_field m hash 0 8 ix;
  '(_, m) ← XFREE MTYPE_HASH hash m;
  Ok m.

(** ** lib/linklist.c *)

(** struct list: [head] at 0, [tail] at 8, [count] at 16, [cmp] at 24, [del] at
    32 *)
Definition sizeof_list : Z := 40.

Definition list_new_mem m : Z * blocks := misakacalloc MTYPE_LINK_LIST sizeof_list m.

Definition list_free (l : Z) m : res blocks :=
  '(_, m) ← XFREE MTYPE_LINK_LIST l m; Ok m.

(** ** lib/sockunion.c *)

(** The 16 bytes of the union: the family, the port and the address of
    [sockaddr_in], and the 8 bytes [pad] behind them *)
Definition su_bytes (su : sockunion) (pad : list Z) : list Z :=
  le_bytes 2 (sa_family su) ++ le_bytes 2 (sin_port su) ++ le_bytes 4 (sin_addr su) ++ pad.

Definition sockunion_dup_mem (su : sockunion) (pad : list Z) m : res (Z * blocks) :=
  let '(dup, m) := misakacalloc MTYPE_SOCKUNION sizeof_sockaddr_in m in
  d ← block_at m dup;
  d ← wr_block d 0 (su_bytes su pad);
  Ok (dup, <[dup := d]> m).

Definition sockunion_free (su : Z) m : res blocks :=
  '(_, m) ← XFREE MTYPE_SOCKUNION su m; Ok m.

(** XSTRDUP is strdup: room for the string and its 0, or NULL *)
Definition strdup (s : list Z) m : Z * blocks :=
  match c_malloc m (Z.of_nat (length s) + 1) with
  | Some (a, _) => (a, <[a := s ++ [0]]> m)
  | None => (0, m)
  end.

(** The text is made in a static array of SU_ADDRSTRLEN bytes. *)
Definition sockunion_log (su : sockunion) m : Z * blocks :=
  strdup (snprintf SU_ADDRSTRLEN
    (if sa_family su =? AF_INET then inet_ntoa (sin_addr su)
     else chars "af_unknown " ++ decimal (sa_family su) ++ [32])) m.
End containers.

(** printf; [None] is NULL.  AF_LINK is not defined on Linux. *)
Definition sockunion_print (su : option sockunion) : list Z :=
  match su with
  | None => []
  | Some su =>
      if sa_family su =? AF_INET then inet_ntoa (sin_addr su) ++ [10]
      else chars "af_unknown " ++ decimal (sa_family su) ++ [10]
  end.

(** ** Fields *)

Lemma block_at_Some m p d : 0 < p → m !! p = Some d → block_at m p = Ok d.
Proof. intros Hp Hm. unfold block_at. rewrite (proj2 (Z.eqb_neq _ _)) by lia. by rewrite Hm. Qed.

Lemma st_field_spec m p d off n v :
  0 < p → m !! p = Some d → 0 ≤ off → off + Z.of_nat n ≤ Z.of_nat (length d) →
  st_field m p off n v = Ok (<[p := splice d off (le_bytes n v)]> m).
Proof.
  intros Hp Hm Ho Hl. unfold st_field. rewrite (block_at_Some m p d), bind_Ok by done.
  rewrite wr_block_Ok, bind_Ok by (rewrite ?length_le_bytes; lia). done.
Qed.

Lemma ld_field_spec m p d off n v :
  0 < p → m !! p = Some d → slice d off (Z.of_nat n) = le_bytes n v → 0 ≤ off →
  off + Z.of_nat n ≤ Z.of_nat (length d) → ld_field m p off n = Ok (v mod 2 ^ (8 * Z.of_nat n)).
Proof.
  intros Hp Hm Hs Ho Hl. unfold ld_field. rewrite (block_at_Some m p d), bind_Ok by done.
  unfold rd_block. rewrite (proj2 (in_range_spec _ _ _)) by lia.
  by rewrite bind_Ok, Hs, le_value_bytes.
Qed.

(** A field that was just written, and the fields beside it *)
Lemma slice_written d off n v :
  0 ≤ off → off + Z.of_nat n ≤ Z.of_nat (length d) →
  slice (splice d off (le_bytes n v)) off (Z.of_nat n) = le_bytes n v.
Proof.
  intros Ho Hl. pose proof (slice_splice d off (le_bytes n v)) as Hs. rewrite length_le_bytes in Hs. by apply Hs.
Qed.

Lemma slice_beside d off n v j k :
  0 ≤ off → off + Z.of_nat n ≤ Z.of_nat (length d) → 0 ≤ j → 0 ≤ k →
  j + k ≤ off ∨ off + Z.of_nat n ≤ j →
  slice (splice d off (le_bytes n v)) j k = slice d j k.
Proof. intros. apply slice_splice_apart; rewrite ?length_le_bytes; lia. Qed.

Lemma length_written d off n v :
  0 ≤ off → off + Z.of_nat n ≤ Z.of_nat (length d) → length (splice d off (le_bytes n v)) = length d.
Proof. intros. apply length_splice; rewrite ?length_le_bytes; lia. Qed.

Section facts.
Context {L : Libc}.

Lemma XFREE_live mtype p m d : 0 < p → m !! p = Some d → XFREE mtype p m = Ok (0, delete p m).
Proof.
  intros Hp Hm. unfold XFREE, misakafree. rewrite (proj2 (Z.eqb_neq _ _)) by lia. by rewrite Hm.
Qed.

(** What calloc hands out *)
Lemma misakacalloc_spec mtype size m p m1 :
  misakacalloc mtype size m = (p, m1) →
  (p = 0 ∧ m1 = m) ∨
  (0 < p < 2 ^ 64 ∧ m !! p = None ∧ m1 = <[p := replicate (Z.to_nat (u64 size)) 0]> m).
Proof.
  unfold misakacalloc. destruct (c_calloc m (u64 size)) as [a |] eqn:E; intros [= <- <-]; [right | by left].
  apply c_calloc_fresh in E as [? ?]. done.
Qed.

(** A structure [p] whose field at [off] holds the block [ix]: freeing both, the
    field cleared in between, gives the memory without them back. *)
Lemma free_both m0 m1 p d off ix t1 t2 :
  0 < p → m0 !! p = None → 0 ≤ off → off + 8 ≤ Z.of_nat (length d) → slice d off 8 = le_bytes 8 ix →
  (ix = 0 ∧ m1 = <[p := d]> m0 ∨
   0 < ix < 2 ^ 64 ∧ ix ≠ p ∧ m0 !! ix = None ∧ ∃ b, m1 = <[p := d]> (<[ix := b]> m0)) →
  ld_field m1 p off 8 = Ok ix ∧
  ('(ix, m) ← XFREE t1 ix m1; m ← st_field m p off 8 ix; '(_, m) ← XFREE t2 p m; Ok m) = Ok m0.
Proof.
  intros Hp Hp0 Ho Hl Hs Hm1.
  assert (m1 !! p = Some d ∧ 0 ≤ ix < 2 ^ 64) as [Hm Hix].
  { destruct Hm1 as [[-> ->] | (? & ? & ? & b & ->)]; (split; [by rewrite lookup_insert_eq | lia]). }
  split.
  { rewrite (ld_field_spec m1 p d off 8 ix) by done. by rewrite Z.mod_small. }
  destruct Hm1 as [[-> ->] | (Hi & Hne & Hi0 & b & ->)].
  - change (XFREE t1 0 ?m) with (Ok (0, m)). rewrite bind_Ok. cbv beta iota.
    erewrite st_field_spec, bind_Ok by (done || lia).
    erewrite XFREE_live, bind_Ok by (done || by rewrite lookup_insert_eq).
    by rewrite insert_insert_eq, delete_insert_id.
  - erewrite XFREE_live, bind_Ok by (lia || by rewrite lookup_insert_ne, lookup_insert_eq). cbv beta iota.
    erewrite st_field_spec, bind_Ok by (done || lia || by rewrite lookup_delete_ne).
    erewrite XFREE_live, bind_Ok by (done || by rewrite lookup_insert_eq). cbv beta iota. f_equal.
    apply map_eq. intros a. destruct (decide (a = p)) as [-> | Hap]; [by rewrite lookup_delete_eq |].
    rewrite lookup_delete_ne, lookup_insert_ne by done.
    destruct (decide (a = ix)) as [-> | Hai]; [by rewrite lookup_delete_eq |].
    by rewrite lookup_delete_ne, !lookup_insert_ne.
Qed.
End facts.

Section lifetime.
Context {L : Libc}.

(** The structure [p] in front of a block that calloc made or not *)
Lemma insert_front m p d d' ix b :
  ix ≠ p → <[p := d']> (<[ix := b]> (<[p := d]> m)) = <[p := d']> (<[ix := b]> m).
Proof.
  intros Hne. rewrite (insert_insert_ne m ix p) by done. by rewrite insert_insert_eq.
Qed.

Lemma vector_init_shape size m v m1 :
  vector_init_mem size m = Ok (v, m1) →
  let n := if size =? 0 then 1 else size in
  ∃ d ix, 0 < v < 2 ^ 64 ∧ m !! v = None ∧ length d = 16%nat ∧
    slice d 4 4 = le_bytes 4 n ∧ slice d 8 8 = le_bytes 8 ix ∧
    (ix = 0 ∧ m1 = <[v := d]> m ∨
     0 < ix < 2 ^ 64 ∧ ix ≠ v ∧ m !! ix = None ∧
     m1 = <[v := d]> (<[ix := replicate (Z.to_nat (u64 (s32 (8 * n)))) 0]> m)).
Proof.
  unfold vector_init_mem. destruct (misakacalloc MTYPE_VECTOR sizeof_vector m) as [v0 ma] eqn:Ev.
  set (n := if size =? 0 then 1 else size). apply misakacalloc_spec in Ev as [[-> ->] | (Hv & Hf & ->)]; [done |].
  change (Z.to_nat (u64 sizeof_vector)) with 16%nat. set (d0 := replicate 16 0).
  set (d1 := splice d0 4 (le_bytes 4 n)). set (d2 := splice d1 0 (le_bytes 4 0)).
  assert (length d1 = 16%nat) as H1 by (by apply length_written).
  assert (length d2 = 16%nat) as H2 by (rewrite <- H1; apply length_written; lia).
  rewrite (st_field_spec _ v0 d0) by (first [lia | by rewrite lookup_insert_eq | cbn; lia]).
  rewrite bind_Ok, insert_insert_eq. fold d1.
  rewrite (st_field_spec _ v0 d1) by (first [lia | by rewrite lookup_insert_eq]).
  rewrite bind_Ok, insert_insert_eq. fold d2.
  destruct (misakacalloc MTYPE_VECTOR_INDEX (s32 (8 * n)) _) as [ix mb] eqn:Ei. cbv beta iota.
  assert (mb !! v0 = Some d2 ∧ (<[v0 := splice d2 8 (le_bytes 8 ix)]> mb = <[v0 := splice d2 8 (le_bytes 8 ix)]> m ∧ ix = 0 ∨
    0 < ix < 2 ^ 64 ∧ ix ≠ v0 ∧ m !! ix = None ∧ <[v0 := splice d2 8 (le_bytes 8 ix)]> mb =
    <[v0 := splice d2 8 (le_bytes 8 ix)]> (<[ix := replicate (Z.to_nat (u64 (s32 (8 * n)))) 0]> m))) as [Hb Hcase].
  { apply misakacalloc_spec in Ei as [[-> ->] | (Hi & [Hif Hne]%lookup_insert_None & ->)].
    - rewrite lookup_insert_eq. split; [done |]. left. by rewrite insert_insert_eq.
    - rewrite lookup_insert_ne, lookup_insert_eq by done. split; [done |]. right. by rewrite insert_front. }
  rewrite (st_field_spec mb v0 d2), bind_Ok by (done || lia). intros [= <- <-].
  exists (splice d2 8 (le_bytes 8 ix)), ix. rewrite length_written by lia. do 3 (split; [done |]).
  rewrite slice_beside by lia. split.
  { subst d2. rewrite slice_beside by lia. subst d1. by apply (slice_written d0 4 4). }
  split; [apply (slice_written d2 8 8); lia |]. naive_solver.
Qed.

(** The product of the constructors as an int *)
Lemma int_product n : 1 ≤ n < 2 ^ 32 → u64 (s32 (8 * n)) = 8 * n ↔ n < 2 ^ 28.
Proof.
  intros Hn. pose proof (s32_range (8 * n)) as Hr. unfold_ranges. split.
  - intros E. destruct (decide (0 ≤ s32 (8 * n))) as [Hp | Hp].
    + rewrite u64_small in E by (unfold_ranges; lia). lia.
    + unfold u64 in E. rewrite <- (Z.mod_add _ 1), Z.mod_small in E by lia. lia.
  - intros Hs. rewrite s32_small by (unfold_ranges; lia). apply u64_small. unfold_ranges. lia.
Qed.

(** C34: the memory of a vector.  vector_init that returns has allocated the
    structure, its number of slots is [size], at least 1, and vector_free gives
    the memory back as it was.  The block of the slots, when it was allocated,
    has 8 bytes for every slot exactly when there are fewer than 2^28 of them:
    from there on the size is lost in an int. *)
Theorem vector_init_free size m v m1 :
  is_u32 size → vector_init_mem size m = Ok (v, m1) →
  let n := if size =? 0 then 1 else size in
  ld_field m1 v 4 4 = Ok n ∧ vector_free v m1 = Ok m ∧
  ∃ ix, ld_field m1 v 8 8 = Ok ix ∧
    (ix ≠ 0 → ∃ slots, m1 !! ix = Some slots ∧
       (Z.of_nat (length slots) = 8 * n ↔ n < 2 ^ 28)).
Proof.
  intros Hsz E n. destruct (vector_init_shape _ _ _ _ E) as (d & ix & Hv & Hf & Hd & Hs & Hs8 & Hm1). fold n in Hs, Hm1.
  assert (1 ≤ n < 2 ^ 32) as Hn by (subst n; unfold is_u32 in Hsz; case_cmp; lia).
  destruct (free_both m m1 v d 8 ix MTYPE_VECTOR_INDEX MTYPE_VECTOR) as [Hix Hfree]; [lia | done | lia | lia | done | |].
  { destruct Hm1 as [? | (? & ? & ? & ?)]; [by left | right; eauto]. }
  split.
  { rewrite (ld_field_spec m1 v d 4 4 n), Z.mod_small by
      (first [done | lia | destruct Hm1 as [[_ ->] | (_ & _ & _ & ->)]; by rewrite lookup_insert_eq]). done. }
  split; [unfold vector_free; by rewrite Hix, bind_Ok |].
  exists ix. split; [done |]. intros Hne. destruct Hm1 as [[-> _] | (Hi & Hiv & _ & ->)]; [done |].
  eexists. rewrite lookup_insert_ne, lookup_insert_eq by done. split; [done |].
  rewrite length_replicate, Z2Nat.id by apply u64_range. by apply int_product.
Qed.

(** Five stores into the structure, the slots allocated before or not *)
Lemma hash_create_shape size key cmp m hash m1 :
  hash_create_mem size key cmp m = Ok (hash, m1) →
  ∃ d ix, 0 < hash < 2 ^ 64 ∧ m !! hash = None ∧ length d = 40%nat ∧
    slice d 0 8 = le_bytes 8 ix ∧ slice d 8 4 = le_bytes 4 size ∧
    (ix = 0 ∧ m1 = <[hash := d]> m ∨
     0 < ix < 2 ^ 64 ∧ ix ≠ hash ∧ m !! ix = None ∧
     m1 = <[hash := d]> (<[ix := replicate (Z.to_nat (u64 (s32 (8 * size)))) 0]> m)).
Proof.
  unfold hash_create_mem, misakamalloc. change (u64 sizeof_hash) with 40.
  destruct (c_malloc m 40) as [[h0 d0] |] eqn:E.
  2:{ destruct (misakacalloc _ _ _) as [ix mb]. done. }
  apply c_malloc_block in E as (Hf & Hh & Hd).
  destruct (misakacalloc MTYPE_HASH_INDEX (s32 (8 * size)) _) as [ix mb] eqn:Ei. cbv beta iota.
  assert (mb !! h0 = Some d0 ∧ ∀ d, <[h0 := d]> mb = <[h0 := d]> m ∧ ix = 0 ∨
    0 < ix < 2 ^ 64 ∧ ix ≠ h0 ∧ m !! ix = None ∧
    <[h0 := d]> mb = <[h0 := d]> (<[ix := replicate (Z.to_nat (u64 (s32 (8 * size)))) 0]> m)) as [Hb Hcase].
  { apply misakacalloc_spec in Ei as [[-> ->] | (Hi & [Hif Hne]%lookup_insert_None & ->)].
    - rewrite lookup_insert_eq. split; [done |]. intros d. left. by rewrite insert_insert_eq.
    - rewrite lookup_insert_ne, lookup_insert_eq by done. split; [done |]. intros d. right. by rewrite insert_front. }
  set (d1 := splice d0 0 (le_bytes 8 ix)). set (d2 := splice d1 8 (le_bytes 4 size)).
  set (d3 := splice d2 16 (le_bytes 8 key)). set (d4 := splice d3 24 (le_bytes 8 cmp)).
  set (d5 := splice d4 32 (le_bytes 8 0)).
  assert (length d1 = 40%nat) as H1 by (subst d1; rewrite length_written; lia).
  assert (length d2 = 40%nat) as H2 by (subst d2; rewrite length_written; lia).
  assert (length d3 = 40%nat) as H3 by (subst d3; rewrite length_written; lia).
  assert (length d4 = 40%nat) as H4 by (subst d4; rewrite length_written; lia).
  rewrite (st_field_spec mb h0 d0), bind_Ok by (done || lia). fold d1.
  rewrite (st_field_spec _ h0 d1), bind_Ok, insert_insert_eq by (by rewrite ?lookup_insert_eq || lia). fold d2.
  rewrite (st_field_spec _ h0 d2), bind_Ok, insert_insert_eq by (by rewrite ?lookup_insert_eq || lia). fold d3.
  rewrite (st_field_spec _ h0 d3), bind_Ok, insert_insert_eq by (by rewrite ?lookup_insert_eq || lia). fold d4.
  rewrite (st_field_spec _ h0 d4), bind_Ok, insert_insert_eq by (by rewrite ?lookup_insert_eq || lia). fold d5.
  intros [= <- <-]. exists d5, ix. split; [lia |]. split; [done |].
  split; [subst d5; rewrite length_written; lia |].
  subst d5 d4 d3. rewrite !slice_beside by lia. split; [| split].
  - subst d2. rewrite slice_beside by lia. apply (slice_written d0 0 8); lia.
  - apply (slice_written d1 8 4); lia.
  - specialize (Hcase (splice (splice (splice d2 16 (le_bytes 8 key)) 24 (le_bytes 8 cmp)) 32 (le_bytes 8 0))).
    naive_solver.
Qed.

(** The memory of a hash table and of copies of addresses.  What hash_create
    returns holds the number of buckets and hash_free gives the memory back;
    sockunion_dup makes one block with the bytes of the address, and
    sockunion_free removes it; list_new and list_free are inverses where memory
    was left. *)
Theorem hash_create_free size key cmp m hash m1 :
  is_u32 size → hash_create_mem size key cmp m = Ok (hash, m1) →
  ld_field m1 hash 8 4 = Ok size ∧ hash_free hash m1 = Ok m.
Proof.
  intros Hsz E. destruct (hash_create_shape _ _ _ _ _ _ E) as (d & ix & Hh & Hf & Hd & Hs & Hs8 & Hm1).
  destruct (free_both m m1 hash d 0 ix MTYPE_HASH_INDEX MTYPE_HASH) as [Hix Hfree]; [lia | done | lia | lia | done | |].
  { destruct Hm1 as [? | (? & ? & ? & ?)]; [by left | right; eauto]. }
  split; [| unfold hash_free; by rewrite Hix, bind_Ok].
  rewrite (ld_field_spec m1 hash d 8 4 size), Z.mod_small by
    (first [done | lia | destruct Hm1 as [[_ ->] | (_ & _ & _ & ->)]; by rewrite lookup_insert_eq]). done.
Qed.

Lemma su_bytes_length su pad : length pad = 8%nat → length (su_bytes su pad) = 16%nat.
Proof. intros Hp. unfold su_bytes. rewrite !length_app, !length_le_bytes, Hp. done. Qed.

Theorem sockunion_dup_free su pad m p m1 :
  length pad = 8%nat → sockunion_dup_mem su pad m = Ok (p, m1) →
  m !! p = None ∧ m1 = <[p := su_bytes su pad]> m ∧ sockunion_free p m1 = Ok m.
Proof.
  intros Hp. unfold sockunion_dup_mem. destruct (misakacalloc MTYPE_SOCKUNION sizeof_sockaddr_in m) as [dup ma] eqn:E.
  apply misakacalloc_spec in E as [[-> ->] | (Hd & Hf & ->)]; [done |].
  rewrite (block_at_Some _ dup (replicate 16 0)), bind_Ok by (by rewrite ?lookup_insert_eq || lia).
  pose proof (su_bytes_length su pad Hp) as Hl.
  rewrite wr_block_Ok, bind_Ok by (rewrite ?Hl; cbn; lia). intros [= <- <-]. split; [done |].
  rewrite insert_insert_eq. unfold splice. rewrite Hl. cbn [Z.to_nat take app].
  rewrite drop_ge by (cbn; lia). rewrite app_nil_r. split; [done |].
  unfold sockunion_free. erewrite XFREE_live, bind_Ok by (lia || by rewrite lookup_insert_eq).
  cbv beta iota. by rewrite delete_insert_id.
Qed.

Theorem list_new_free m : let '(l, m1) := list_new_mem m in list_free l m1 = Ok m.
Proof.
  unfold list_new_mem. destruct (misakacalloc _ _ m) as [l m1] eqn:E. apply misakacalloc_spec in E as [[-> ->] | (Hl & Hf & ->)]; [done |].
  unfold list_free. erewrite XFREE_live, bind_Ok by (lia || by rewrite lookup_insert_eq).
  cbv beta iota. by rewrite delete_insert_id.
Qed.

(** What sockunion_log returns is a block of its own, with the text of the address:
    the callers in sockunion_connect only print it, so each call leaves one block
    more. *)
Theorem sockunion_log_leaks su m p m1 :
  sa_family su = AF_INET → sockunion_log su m = (p, m1) → p ≠ 0 →
  m !! p = None ∧ m1 = <[p := inet_ntoa (sin_addr su) ++ [0]]> m ∧ size (dom m1) = S (size (dom m)).
Proof.
  intros Hf. unfold sockunion_log, strdup. rewrite Hf, Z.eqb_refl.
  assert (snprintf SU_ADDRSTRLEN (inet_ntoa (sin_addr su)) = inet_ntoa (sin_addr su)) as ->.
  { unfold snprintf. apply take_ge. unfold inet_ntoa.
    pose proof (length_dotted _ (length_be_bytes 4 (ntohl (sin_addr su))) (be_bytes_u8 4 (ntohl (sin_addr su)))).
    change (Z.to_nat (SU_ADDRSTRLEN - 1)) with 45%nat. lia. }
  generalize (inet_ntoa (sin_addr su)) as txt. intros txt.
  destruct (c_malloc m (Z.of_nat (length txt) + 1)) as [[a d] |] eqn:E; intros Heq Hp; injection Heq as <- <-;
    [| by destruct Hp].
  apply c_malloc_block in E as (Ha & _ & _). split; [done |]. split; [done |].
  rewrite dom_insert_L, size_union, size_singleton; [done |].
  apply disjoint_singleton_l, not_elem_of_dom, Ha.
Qed.
End lifetime.

(** A C library that places a block at 4096 times one more than the number of
    blocks, while that address is free *)
Definition row_at (m : blocks) : Z := 4096 * (1 + Z.of_nat (size m)).

Definition row_free (m : blocks) : bool := bool_decide (m !! row_at m = None) && (row_at m <? 2 ^ 64).

Lemma row_free_spec m : row_free m = true → m !! row_at m = None ∧ 0 < row_at m < 2 ^ 64.
Proof.
  unfold row_free. rewrite andb_true_iff, bool_decide_eq_true, Z.ltb_lt. unfold row_at. intros [? ?].
  repeat split; (done || lia).
Qed.

Program Definition libc_rows : Libc :=
  {| c_malloc m n := if row_free m && (0 <=? n) then Some (row_at m, replicate (Z.to_nat n) 0) else None;
     c_calloc m n := if row_free m then Some (row_at m) else None;
     c_realloc m p n := None |}.
Next Obligation.
  intros m n a d E. cbv beta in E. destruct (row_free m && (0 <=? n)) eqn:Hr; [| done].
  apply andb_true_iff in Hr as [Hr%row_free_spec Hn%Z.leb_le]. injection E as <- <-.
  rewrite length_replicate. repeat split; (apply Hr || lia).
Qed.
Next Obligation.
  intros m n a E. cbv beta in E. destruct (row_free m) eqn:Hr; [| done].
  injection E as <-. by apply row_free_spec.
Qed.
Next Obligation. done. Qed.

(** A vector of five slots, and one of 2^29, whose slots have no memory at all *)
Lemma vector_init_free_witness :
  let L := libc_rows in
  (∃ v m1, vector_init_mem 5 ∅ = Ok (v, m1) ∧ ld_field m1 v 4 4 = Ok 5 ∧ vector_free v m1 = Ok ∅ ∧
     (m1 !! 8192 = Some (replicate 40 0))) ∧
  (∃ v m1, vector_init_mem (2 ^ 29) ∅ = Ok (v, m1) ∧ ld_field m1 v 4 4 = Ok (2 ^ 29) ∧
     m1 !! 8192 = Some []).
Proof.
  intros L. split.
  - destruct (vector_init_mem 5 ∅) as [[v m1] |] eqn:E; [| by vm_compute in E].
    exists v, m1. destruct (vector_init_free 5 ∅ v m1) as (H1 & H2 & _); [unfold is_u32; lia | done |].
    split; [done |]. split; [exact H1 |]. split; [exact H2 |]. vm_compute in E. injection E as <- <-. reflexivity.
  - destruct (vector_init_mem (2 ^ 29) ∅) as [[v m1] |] eqn:E; [| by vm_compute in E].
    exists v, m1. destruct (vector_init_free (2 ^ 29) ∅ v m1) as (H1 & _); [unfold is_u32; lia | done |].
    split; [done |]. split; [exact H1 |]. vm_compute in E. injection E as <- <-. reflexivity.
Defined.
