(* ===== verification/IdMaker.v ===== *)
(** The pool of peer ids: lib/idmaker.c, a counter and a list of ids given
    back.

    The ids given back are [int] objects on a heap of their own; an [int] that
    was allocated and never stored to is [None].  So is the counter of a pool
    just created, which idmaker_new does not set. *)

From S2P Require Import Prelude Memory Linklist LinklistFacts.

Local Open Scope Z_scope.

(** The list of the pool stores pointers to [int] objects. *)
Record idmaker := mkIdmaker {
  im_start : Z;
  im_stop : Z;
  im_store : clist loc;
  im_curr : option Z
}.

Definition set_im_store (l : clist loc) (m : idmaker) : idmaker :=
  mkIdmaker (im_start m) (im_stop m) l (im_curr m).
Definition set_im_curr (c : option Z) (m : idmaker) : idmaker :=
  mkIdmaker (im_start m) (im_stop m) (im_store m) c.

(** A pool with the list nodes and the [int] objects it owns. *)
Record pool := mkPool {
  po_mid : idmaker;
  po_nodes : gmap loc (listnode loc);
  po_ints : gmap loc (option Z)
}.

Section idmaker.
Context {AN : Allocator (listnode loc)} {AI : Allocator (option Z)}.
Implicit Types (st : pool) (m : idmaker).

(** The pool after the two allocations; [got_mid] and [got_list] tell whether
    they succeeded. *)
Definition idmaker_new (start stop : Z) (got_mid got_list : bool) : option idmaker :=
  if negb got_mid then None else
  if negb got_list then None else
  Some (mkIdmaker start stop list_new None).

(** The id and the value stored in [*flag]. *)
Definition idmaker_get st : res (Z * Z * pool) :=
  let m := po_mid st in
  curr ← from_option_or Uninitialised (im_curr m);
  if negb (curr =? im_stop m) then
    next ← int_op (curr + 1);
    Ok (curr, 1, mkPool (set_im_curr (Some next) m) (po_nodes st) (po_ints st))
  else
    let node := l_head (im_store m) in
    match node with
    | None => Ok (0, 0, st)
    | Some _ =>
        n ← load (po_nodes st) node;
        data ← from_option_or NullDeref (n_data n);
        cell ← load (po_ints st) (Some data);
        ret ← from_option_or Uninitialised cell;
        '(nodes, store) ← list_delete_node (po_nodes st) (im_store m) node;
        ints ← release (po_ints st) (Some data);
        Ok (ret, 1, mkPool (set_im_store store m) nodes ints)
    end.

(** Nothing is stored in the new [int]. *)
Definition idmaker_put st (i : Z) : res (Z * pool) :=
  let m := po_mid st in
  match xalloc (po_ints st) with
  | None => Ok (-1, st)
  | Some data =>
      let ints := <[data := None]> (po_ints st) in
      '(nodes, store) ← listnode_add (po_nodes st) (im_store m) data;
      Ok (0, mkPool (set_im_store store m) nodes ints)
  end.

(** ** Correctness *)

(** The pool holds [ps], the objects of the ids given back. *)
Definition pool_rep st (ps : list loc) : Prop :=
  (∃ cells, list_rep (po_nodes st) (im_store (po_mid st)) cells ∧ cells.*2 = ps) ∧
  ∀ p, p ∈ ps → po_ints st !! p = Some None.

Inductive id_op := IGet | IPut (i : Z).

Definition id_exec st (o : id_op) : res (option (Z * Z) * pool) :=
  match o with
  | IGet => '(id, flag, st) ← idmaker_get st; Ok (Some (id, flag), st)
  | IPut i => '(_, st) ← idmaker_put st i; Ok (None, st)
  end.

(** A sequence of calls; the result lists what the gets returned. *)
Fixpoint id_run st (os : list id_op) : res (list (Z * Z) * pool) :=
  match os with
  | [] => Ok ([], st)
  | o :: os =>
      '(r, st) ← id_exec st o;
      '(rs, st) ← id_run st os;
      Ok (option_list r ++ rs, st)
  end.

Fixpoint gets (os : list id_op) : nat :=
  match os with [] => 0 | IGet :: os => S (gets os) | IPut _ :: os => gets os end.

Hypothesis memory : ∀ h : gmap loc (listnode loc), is_Some (xalloc h).

Lemma idmaker_get_counter st ps c :
  pool_rep st ps → im_curr (po_mid st) = Some c → c < im_stop (po_mid st) < 2 ^ 31 →
  - 2 ^ 31 ≤ c →
  ∃ st', idmaker_get st = Ok (c, 1, st') ∧ pool_rep st' ps ∧
    im_curr (po_mid st') = Some (c + 1) ∧ im_stop (po_mid st') = im_stop (po_mid st).
Proof using.
  clear memory. intros Hr Hc Hlt Hge. unfold idmaker_get. rewrite Hc. cbn [from_option_or].
  rewrite bind_Ok. destruct (Z.eqb_spec c (im_stop (po_mid st))); [lia |]. cbn [negb].
  rewrite int_op_Ok, bind_Ok by lia. eexists. split; [reflexivity |]. by split.
Qed.

Lemma idmaker_put_rep st ps i :
  pool_rep st ps →
  ∃ r st' ps', idmaker_put st i = Ok (r, st') ∧ pool_rep st' (ps ++ ps') ∧
    im_curr (po_mid st') = im_curr (po_mid st) ∧ im_stop (po_mid st') = im_stop (po_mid st) ∧
    (is_Some (xalloc (po_ints st)) → ps' ≠ []).
Proof using memory.
  intros [(cells & Hl & Hps) Hints]. unfold idmaker_put.
  destruct (xalloc (po_ints st)) as [data|] eqn:Ha.
  2:{ exists (-1), st, []. rewrite app_nil_r. split; [done |]. split; [by split; eauto |].
      split; [done |]. split; [done |]. by intros [? ?]. }
  destruct (memory (po_nodes st)) as [q Hq].
  destruct (listnode_add_rep (po_nodes st) (im_store (po_mid st)) cells data q Hl Hq)
    as (nodes & store & -> & Hl').
  rewrite bind_Ok. eexists _, _, [data]. split; [reflexivity |]. split; [| done].
  split.
  - exists (cells ++ [(q, data)]). split; [done |]. by rewrite fmap_app, Hps.
  - intros p [Hp | ->%list_elem_of_singleton]%elem_of_app; cbn [po_ints].
    + destruct (decide (p = data)) as [-> | Hne]; [by rewrite lookup_insert_eq |].
      rewrite lookup_insert_ne by done. by apply Hints.
    + by rewrite lookup_insert_eq.
Qed.

(** Until the counter reaches its end, whatever ids are given back in
    between, the gets return consecutive ids, each with the flag 1, so no id is
    ever handed out twice. *)
Theorem idmaker_ids_consecutive os st ps c :
  pool_rep st ps → im_curr (po_mid st) = Some c →
  - 2 ^ 31 ≤ c → c + Z.of_nat (gets os) ≤ im_stop (po_mid st) < 2 ^ 31 →
  ∃ st' ps', id_run st os = Ok ((λ i, (i, 1)) <$> seqZ c (Z.of_nat (gets os)), st') ∧
    pool_rep st' ps' ∧ im_curr (po_mid st') = Some (c + Z.of_nat (gets os)).
Proof using memory.
  revert st ps c. induction os as [|o os IH]; intros st ps c Hr Hc Hge Hstop.
  { exists st, ps. cbn [gets id_run]. rewrite Z.add_0_r. by split. }
  destruct o as [|i]; cbn [id_run id_exec gets] in *.
  - destruct (idmaker_get_counter st ps c) as (st1 & -> & Hr1 & Hc1 & Hs1);
      [done | done | lia | done |].
    rewrite !bind_Ok. destruct (IH st1 ps (c + 1)) as (st2 & ps2 & -> & Hr2 & Hc2);
      [done | done | lia | rewrite Hs1; lia |].
    rewrite bind_Ok. exists st2, ps2. split; [| split; [done |]].
    + rewrite (seqZ_cons c) by lia. cbn [option_list app fmap list_fmap].
      rewrite <- Z.add_1_r. do 4 f_equal. f_equal. lia.
    + rewrite Hc2. f_equal. lia.
  - destruct (idmaker_put_rep st ps i Hr) as (r & st1 & ps1 & -> & Hr1 & Hc1 & Hs1 & _).
    rewrite !bind_Ok. destruct (IH st1 (ps ++ ps1) c) as (st2 & ps2 & -> & Hr2 & Hc2);
      [done | congruence | done | by rewrite Hs1 |].
    rewrite bind_Ok. exists st2, ps2. by split.
Qed.

(** An id given back is forgotten: idmaker_put stores a pointer to an [int]
    it never assigns, so once the counter is used up the next get reads an
    indeterminate value instead of the id. *)
Theorem idmaker_put_forgets st i :
  pool_rep st [] → im_curr (po_mid st) = Some (im_stop (po_mid st)) →
  is_Some (xalloc (po_ints st)) →
  ∃ st', idmaker_put st i = Ok (0, st') ∧ idmaker_get st' = Fail Uninitialised.
Proof using memory.
  intros Hr Hc [data Ha].
  destruct Hr as [(cells & Hl & Hps) Hints].
  apply fmap_nil_inv in Hps as ->. unfold idmaker_put. rewrite Ha.
  destruct (memory (po_nodes st)) as [q Hq].
  destruct (listnode_add_rep (po_nodes st) (im_store (po_mid st)) [] data q Hl Hq)
    as (nodes & store & -> & Hl').
  rewrite bind_Ok. eexists. split; [reflexivity |]. unfold idmaker_get.
  cbn [po_mid po_nodes po_ints im_curr im_stop im_store set_im_store]. rewrite Hc.
  cbn [from_option_or]. rewrite bind_Ok, Z.eqb_refl. cbn [negb].
  destruct Hl' as ([Hn _] & _ & -> & _). cbn [app dfirst].
  rewrite (load_Some _ _ _ Hn), bind_Ok. cbn [n_data from_option_or]. rewrite bind_Ok.
  rewrite (load_Some _ _ None) by apply lookup_insert_eq. by rewrite bind_Ok.
Qed.

End idmaker.

(** A new pool cannot be used: idmaker_new does not set the counter, and
    the first get reads it. *)
Theorem idmaker_new_counter_unset start stop m nodes ints :
  idmaker_new start stop true true = Some m →
  idmaker_get (mkPool m nodes ints) = Fail Uninitialised.
Proof. intros [= <-]. reflexivity. Qed.

Lemma idmaker_new_counter_unset_witness :
  idmaker_get (mkPool (mkIdmaker 100 99999 list_new None) ∅ ∅) = Fail Uninitialised.
Proof. exact (idmaker_new_counter_unset 100 99999 _ ∅ ∅ eq_refl). Defined.

(** A pool whose counter was set. *)
Definition pool_at (c stop : Z) : pool := mkPool (mkIdmaker 100 stop list_new (Some c)) ∅ ∅.

Lemma pool_at_rep c stop : pool_rep (pool_at c stop) [].
Proof.
  split; [| by intros p Hp%elem_of_nil]. exists []. split; [| done].
  repeat split; constructor.
Qed.

Lemma idmaker_ids_consecutive_witness :
  ∃ st' ps', id_run (AN := unbounded_allocator) (AI := unbounded_allocator) (pool_at 100 104)
      [IGet; IPut 100; IGet; IGet] = Ok ([(100, 1); (101, 1); (102, 1)], st') ∧
    pool_rep st' ps' ∧ im_curr (po_mid st') = Some 103.
Proof.
  apply (idmaker_ids_consecutive (AN := unbounded_allocator) (AI := unbounded_allocator)
           ltac:(eauto) [IGet; IPut 100; IGet; IGet] (pool_at 100 104) [] 100).
  - apply pool_at_rep.
  - reflexivity.
  - lia.
  - cbn. lia.
Defined.

Lemma idmaker_put_forgets_witness :
  ∃ st', idmaker_put (AN := unbounded_allocator) (AI := unbounded_allocator)
           (pool_at 104 104) 100 = Ok (0, st') ∧ idmaker_get st' = Fail Uninitialised.
Proof.
  apply (idmaker_put_forgets (AN := unbounded_allocator) (AI := unbounded_allocator)
           ltac:(eauto) (pool_at 104 104) 100).
  - apply pool_at_rep.
  - reflexivity.
  - eauto.
Defined.
