(* ===== verification/Mq.v ===== *)
(** Message queues: the ring buffers of lib/skynet_mq.c, one per event type,
    and the global queue of the queues that have work.

    A lock covers the whole body of each operation, so an operation is one
    atomic step; SPIN_LOCK and SPIN_UNLOCK leave no trace in the state. *)

From S2P Require Import Prelude Memory.

Local Open Scope Z_scope.

Definition DEFAULT_QUEUE_SIZE : Z := 64.
Definition MQ_IN_GLOBAL : Z := 1.
Definition MQ_OVERLOAD : Z := 1024.

Section mq.
(** [M]: the [struct stream *] a slot holds. *)
Context {M : Type}.

Record message_queue := mkMq {
  mq_handle : Z;                          (* uint32_t *)
  mq_cap : Z;                             (* int *)
  mq_head : Z;
  mq_tail : Z;
  mq_release : Z;
  mq_in_global : Z;
  mq_overload : Z;
  mq_overload_threshold : Z;
  mq_queue : option (list (option M));    (* NULL when malloc failed; a slot
                                             never stored to is None *)
  mq_next : option loc
}.

Record global_queue := mkGq { gq_head : option loc; gq_tail : option loc }.

(** The heap of the queues and the global [Q], NULL before skynet_mq_init. *)
Record mq_state := mkSt { st_mqs : gmap loc message_queue; st_Q : option global_queue }.

Implicit Types (q : message_queue) (st : mq_state) (p : option loc).

Definition set_mq_head v q := mkMq (mq_handle q) (mq_cap q) v (mq_tail q) (mq_release q)
  (mq_in_global q) (mq_overload q) (mq_overload_threshold q) (mq_queue q) (mq_next q).
Definition set_mq_tail v q := mkMq (mq_handle q) (mq_cap q) (mq_head q) v (mq_release q)
  (mq_in_global q) (mq_overload q) (mq_overload_threshold q) (mq_queue q) (mq_next q).
Definition set_mq_release v q := mkMq (mq_handle q) (mq_cap q) (mq_head q) (mq_tail q) v
  (mq_in_global q) (mq_overload q) (mq_overload_threshold q) (mq_queue q) (mq_next q).
Definition set_mq_in_global v q := mkMq (mq_handle q) (mq_cap q) (mq_head q) (mq_tail q)
  (mq_release q) v (mq_overload q) (mq_overload_threshold q) (mq_queue q) (mq_next q).
Definition set_mq_overload v q := mkMq (mq_handle q) (mq_cap q) (mq_head q) (mq_tail q)
  (mq_release q) (mq_in_global q) v (mq_overload_threshold q) (mq_queue q) (mq_next q).
Definition set_mq_threshold v q := mkMq (mq_handle q) (mq_cap q) (mq_head q) (mq_tail q)
  (mq_release q) (mq_in_global q) (mq_overload q) v (mq_queue q) (mq_next q).
Definition set_mq_queue v q := mkMq (mq_handle q) (mq_cap q) (mq_head q) (mq_tail q)
  (mq_release q) (mq_in_global q) (mq_overload q) (mq_overload_threshold q) v (mq_next q).
Definition set_mq_cap v q := mkMq (mq_handle q) v (mq_head q) (mq_tail q)
  (mq_release q) (mq_in_global q) (mq_overload q) (mq_overload_threshold q) (mq_queue q)
  (mq_next q).
Definition set_mq_next v q := mkMq (mq_handle q) (mq_cap q) (mq_head q) (mq_tail q)
  (mq_release q) (mq_in_global q) (mq_overload q) (mq_overload_threshold q) (mq_queue q) v.

#[export] Instance mq_linked : Linked message_queue :=
  {| link := mq_next; set_link := set_mq_next; link_set_link _ _ := eq_refl |}.

(** malloc of an array of [n] pointers: it may fail, and the slots are
    indeterminate. *)
Context (malloc_ok : Z → bool).
Context {AQ : Allocator message_queue}.

Definition malloc_slots (n : Z) : option (list (option M)) :=
  if malloc_ok (8 * n) then Some (replicate (Z.to_nat n) None) else None.

(** ** The global queue *)

Definition skynet_globalmq_push st (queue : loc) : res mq_state :=
  g ← from_option_or NullDeref (st_Q st);
  match gq_tail g with
  | Some _ =>
      mqs ← modify (st_mqs st) (gq_tail g) (set_mq_next (Some queue));
      Ok (mkSt mqs (Some (mkGq (gq_head g) (Some queue))))
  | None => Ok (mkSt (st_mqs st) (Some (mkGq (Some queue) (Some queue))))
  end.

Definition skynet_globalmq_pop st : res (option loc * mq_state) :=
  g ← from_option_or NullDeref (st_Q st);
  match gq_head g with
  | None => Ok (None, st)
  | Some mq =>
      n ← load (st_mqs st) (Some mq);
      tail ← match mq_next n with
             | None => if decide (gq_tail g = Some mq) then Ok None else Fail AssertFailed
             | Some _ => Ok (gq_tail g)
             end;
      mqs ← modify (st_mqs st) (Some mq) (set_mq_next None);
      Ok (Some mq, mkSt mqs (Some (mkGq (mq_next n) tail)))
  end.

Definition skynet_mq_init st : mq_state := mkSt (st_mqs st) (Some (mkGq None None)).

(** ** One queue *)

(** The fields skynet_mq_create stores. *)
Definition new_queue (handle : Z) : message_queue :=
  mkMq handle DEFAULT_QUEUE_SIZE 0 0 0 0 0 MQ_OVERLOAD (malloc_slots DEFAULT_QUEUE_SIZE) None.

Definition skynet_mq_create st (handle : Z) : res (loc * mq_state) :=
  match xalloc (st_mqs st) with
  | None => Fail NullDeref
  | Some p =>
      Ok (p, mkSt (<[p := new_queue handle]> (st_mqs st)) (st_Q st))
  end.

Definition mq_free_all st (p : loc) : res mq_state :=
  q ← load (st_mqs st) (Some p);
  if decide (mq_next q = None)
  then Ok (mkSt (delete p (st_mqs st)) (st_Q st)) else Fail AssertFailed.

Definition skynet_mq_handle q : Z := mq_handle q.

Definition skynet_mq_length q : Z :=
  if mq_head q <=? mq_tail q then mq_tail q - mq_head q
  else mq_tail q + mq_cap q - mq_head q.

Definition skynet_mq_overload q : Z * message_queue :=
  if negb (mq_overload q =? 0) then (mq_overload q, set_mq_overload 0 q) else (0, q).

(** [while (length > q->overload_threshold) ...] *)
Fixpoint overload_loop (k : nat) (length : Z) q : res message_queue :=
  match k with
  | O => Fail OutOfFuel
  | S k =>
      if mq_overload_threshold q <? length then
        t ← int_op (mq_overload_threshold q * 2);
        overload_loop k length (set_mq_threshold t (set_mq_overload length q))
      else Ok q
  end.

(** The ring part of skynet_mq_pop; [None] is the return value 1. *)
Definition mq_take q : res (option M * message_queue) :=
  if negb (mq_head q =? mq_tail q) then
    arr ← from_option_or NullDeref (mq_queue q);
    slot ← rd arr (mq_head q);
    message ← from_option_or Uninitialised slot;
    head ← int_op (mq_head q + 1);
    let tail := mq_tail q in
    let cap := mq_cap q in
    let head := if cap <=? head then 0 else head in
    let q := set_mq_head head q in
    let length := tail - head in
    let length := if length <? 0 then length + cap else length in
    q ← overload_loop 32 length q;
    Ok (Some message, q)
  else
    Ok (None, set_mq_in_global 0 (set_mq_threshold MQ_OVERLOAD q)).

Definition skynet_mq_pop st (p : loc) : res (option M * mq_state) :=
  q ← load (st_mqs st) (Some p);
  '(m, q) ← mq_take q;
  Ok (m, mkSt (<[p := q]> (st_mqs st)) (st_Q st)).

(** The copy loop of expand_queue, [i] from [i] for [k] iterations. *)
Fixpoint expand_copy (k : nat) (i : Z) q (arr new : list (option M)) :
    res (list (option M)) :=
  match k with
  | O => Ok new
  | S k =>
      j ← int_op (mq_head q + i);
      x ← rd arr (Z.rem j (mq_cap q));
      new ← wr new i x;
      expand_copy k (i + 1) q arr new
  end.

Definition expand_queue q : res message_queue :=
  new ← from_option_or NullDeref (malloc_slots (mq_cap q * 2));
  arr ← from_option_or NullDeref (mq_queue q);
  new ← expand_copy (Z.to_nat (mq_cap q)) 0 q arr new;
  cap2 ← int_op (mq_cap q * 2);
  Ok (set_mq_queue (Some new) (set_mq_cap cap2 (set_mq_tail (mq_cap q) (set_mq_head 0 q)))).

(** The ring part of skynet_mq_push. *)
Definition mq_store q (m : M) : res message_queue :=
  arr ← from_option_or NullDeref (mq_queue q);
  arr ← wr arr (mq_tail q) (Some m);
  let q := set_mq_queue (Some arr) q in
  t ← int_op (mq_tail q + 1);
  let q := set_mq_tail (if mq_cap q <=? t then 0 else t) q in
  if mq_head q =? mq_tail q then expand_queue q else Ok q.

(** [message] is a pointer to the message, NULL for [None]. *)
Definition skynet_mq_push st (p : loc) (message : option M) : res mq_state :=
  m ← from_option_or AssertFailed message;
  q ← load (st_mqs st) (Some p);
  q ← mq_store q m;
  if mq_in_global q =? 0 then
    skynet_globalmq_push
      (mkSt (<[p := set_mq_in_global MQ_IN_GLOBAL q]> (st_mqs st)) (st_Q st)) p
  else Ok (mkSt (<[p := q]> (st_mqs st)) (st_Q st)).

Definition skynet_mq_mark_release st (p : loc) : res mq_state :=
  q ← load (st_mqs st) (Some p);
  if negb (mq_release q =? 0) then Fail AssertFailed else
  let st := mkSt (<[p := set_mq_release 1 q]> (st_mqs st)) (st_Q st) in
  if negb (mq_in_global q =? MQ_IN_GLOBAL) then skynet_globalmq_push st p else Ok st.

(** The loop of _drop_queue; the result lists what drop_func is called on. *)
Fixpoint drop_loop (k : nat) st (p : loc) : res (list M * mq_state) :=
  match k with
  | O => Fail OutOfFuel
  | S k =>
      '(m, st) ← skynet_mq_pop st p;
      match m with
      | Some m => '(ms, st) ← drop_loop k st p; Ok (m :: ms, st)
      | None => Ok ([], st)
      end
  end.

Definition drop_queue st (p : loc) : res (list M * mq_state) :=
  q ← load (st_mqs st) (Some p);
  '(ms, st) ← drop_loop (S (Z.to_nat (mq_cap q))) st p;
  st ← mq_free_all st p;
  Ok (ms, st).

Definition skynet_mq_release st (p : loc) : res (list M * mq_state) :=
  q ← load (st_mqs st) (Some p);
  if negb (mq_release q =? 0) then drop_queue st p
  else st ← skynet_globalmq_push st p; Ok ([], st).

Definition skynet_mq_global st (p : loc) (val : Z) : res mq_state :=
  mqs ← modify (st_mqs st) (Some p) (set_mq_in_global val);
  Ok (mkSt mqs (st_Q st)).

End mq.

Global Arguments message_queue : clear implicits.
Global Arguments mq_state : clear implicits.
