(* ===== verification/MqFacts.v ===== *)
(** Correctness of the ring buffers of Mq.v: each queue is an unbounded fifo
    of messages; its doubling is invisible. *)

From S2P Require Import Prelude Memory Mq.

Local Open Scope Z_scope.

(** ** Positions of a ring *)

Lemma ring_step h c : 0 ≤ h < c → (if c <=? h + 1 then 0 else h + 1) = (h + 1) mod c.
Proof.
  intros H. destruct (Z.leb_spec c (h + 1)).
  - replace (h + 1) with c by lia. by rewrite Z.mod_same by lia.
  - by rewrite Z.mod_small by lia.
Qed.

Lemma ring_distinct h c i j :
  0 < c → 0 ≤ i < c → 0 ≤ j < c → (h + i) mod c = (h + j) mod c → i = j.
Proof.
  intros Hc Hi Hj He. destruct (Z.le_ge_cases i j).
  - symmetry in He. apply mod_eq_close in He; lia.
  - apply mod_eq_close in He; lia.
Qed.

Lemma ring_length h c n :
  0 ≤ h < c → 0 ≤ n < c →
  let d := (h + n) mod c - h in (if d <? 0 then d + c else d) = n.
Proof.
  intros Hh Hn d. unfold d.
  destruct (Z.lt_ge_cases (h + n) c).
  - rewrite Z.mod_small by lia. destruct (Z.ltb_spec (h + n - h) 0); lia.
  - replace ((h + n) mod c) with (h + n - c).
    + destruct (Z.ltb_spec (h + n - c - h) 0); lia.
    + apply (Z.mod_unique_pos _ _ 1); lia.
Qed.

Set Default Proof Using "Type*".

Section facts.
Context {M : Type} (malloc_ok : Z → bool).
Hypothesis memory : ∀ n, malloc_ok n = true.
Abbreviation mqueue := (message_queue M).
Implicit Types (q : mqueue) (ms : list M) (arr : list (option M)).

(** The overload threshold is 1024 doubled at most 20 times. *)
Definition threshold_ok q : Prop :=
  ∃ k, (k ≤ 20)%nat ∧ mq_overload_threshold q = 1024 * 2 ^ Z.of_nat k.

(** The slots from [head] on hold [ms]. *)
Definition slots arr (head cap : Z) ms : Prop :=
  ∀ i m, ms !! i = Some m → arr !! Z.to_nat ((head + Z.of_nat i) mod cap) = Some (Some m).

Definition ring arr (cap head tail : Z) ms : Prop :=
  Z.of_nat (length arr) = cap ∧ 0 < cap ≤ 2 ^ 30 ∧ 0 ≤ head < cap ∧
  Z.of_nat (length ms) < cap ∧ tail = (head + Z.of_nat (length ms)) mod cap ∧
  slots arr head cap ms.

Definition ring_rep q ms : Prop :=
  threshold_ok q ∧
  ∃ arr, mq_queue q = Some arr ∧ ring arr (mq_cap q) (mq_head q) (mq_tail q) ms.

(** What the operations on the ring leave alone. *)
Definition same_ids q q' : Prop :=
  mq_handle q' = mq_handle q ∧ mq_release q' = mq_release q ∧
  mq_in_global q' = mq_in_global q ∧ mq_next q' = mq_next q.

Lemma same_ids_trans q1 q2 q3 : same_ids q1 q2 → same_ids q2 q3 → same_ids q1 q3.
Proof. unfold same_ids. intros (?&?&?&?) (?&?&?&?). repeat split; congruence. Qed.

Lemma ring_head_tail arr cap head tail ms :
  ring arr cap head tail ms → head = tail ↔ ms = [].
Proof.
  intros (_ & Hc & Hh & Hn & -> & _). split; [| intros ->; simpl; rewrite Z.mod_small; lia].
  intros He. destruct ms as [|m ms]; [done |]. exfalso.
  rewrite <- (Z.mod_small head cap), <- (Z.add_0_r head) in He at 1 by lia.
  apply ring_distinct in He; simpl in *; lia.
Qed.

(** ** skynet_mq_length, skynet_mq_overload *)

Lemma mq_length_spec q ms : ring_rep q ms → skynet_mq_length q = Z.of_nat (length ms).
Proof.
  intros (_ & arr & _ & _ & Hc & Hh & Hn & Ht & _). unfold skynet_mq_length. rewrite Ht.
  pose proof (ring_length (mq_head q) (mq_cap q) (Z.of_nat (length ms)) Hh) as Hl.
  simpl in Hl. repeat case_cmp; lia.
Qed.

Lemma overload_loop_spec k f length q :
  mq_overload_threshold q = 1024 * 2 ^ Z.of_nat k → (k ≤ 20)%nat → (20 - k < f)%nat →
  length ≤ 2 ^ 30 →
  ∃ q', overload_loop f length q = Ok q' ∧ threshold_ok q' ∧ same_ids q q' ∧
    length ≤ mq_overload_threshold q' ∧
    mq_overload q' = (if mq_overload_threshold q <? length then length else mq_overload q) ∧
    mq_queue q' = mq_queue q ∧ mq_cap q' = mq_cap q ∧ mq_head q' = mq_head q ∧
    mq_tail q' = mq_tail q.
Proof.
  revert f q. remember (20 - k)%nat as d eqn:Hd. revert k Hd.
  induction d as [|d IH]; intros k Hd f q Ht Hk Hf Hl; (destruct f as [|f]; [lia |]);
    cbn [overload_loop].
  - assert (k = 20%nat) as -> by lia. change (1024 * 2 ^ Z.of_nat 20) with (2 ^ 30) in Ht.
    destruct (Z.ltb_spec (mq_overload_threshold q) length); [lia |].
    exists q. split; [done |]. split; [exists 20%nat; rewrite Ht; auto |].
    repeat split; auto; lia.
  - destruct (Z.ltb_spec (mq_overload_threshold q) length).
    + assert (2 ^ Z.of_nat k ≤ 2 ^ 19) by (apply Z.pow_le_mono_r; lia).
      rewrite int_op_Ok, bind_Ok by lia.
      edestruct (IH (S k) ltac:(lia) f (set_mq_threshold (mq_overload_threshold q * 2)
        (set_mq_overload length q))) as (q' & He & H1 & H2 & H3 & H4 & H5); try lia.
      { cbn [set_mq_threshold mq_overload_threshold]. rewrite Ht, Nat2Z.inj_succ, Z.pow_succ_r; lia. }
      exists q'. split; [done |]. split; [done |]. split; [exact H2 |]. split; [done |].
      split; [| exact H5]. rewrite H4. simpl. by destruct (_ <? _).
    + exists q. split; [done |]. split; [exists k; auto |]. repeat split; auto; lia.
Qed.

(** ** skynet_mq_pop *)

Lemma mq_take_empty q :
  ring_rep q [] →
  ∃ q', mq_take q = Ok (None, q') ∧ ring_rep q' [] ∧ mq_in_global q' = 0 ∧
    mq_handle q' = mq_handle q ∧ mq_release q' = mq_release q ∧ mq_next q' = mq_next q ∧
    mq_overload_threshold q' = MQ_OVERLOAD.
Proof.
  intros (Hth & arr & Hq & Hr). unfold mq_take.
  rewrite (proj2 (Z.eqb_eq (mq_head q) (mq_tail q))) by (by apply (ring_head_tail _ _ _ _ _ Hr)).
  cbn [negb]. eexists. split; [reflexivity |]. repeat split; auto.
  - exists 0%nat. split; [lia | done].
  - by exists arr.
Qed.

Lemma slots_tail arr head cap m ms :
  0 < cap → slots arr head cap (m :: ms) → slots arr ((head + 1) mod cap) cap ms.
Proof.
  intros Hc Hs i x Hi. rewrite Zplus_mod_idemp_l.
  replace (head + 1 + Z.of_nat i) with (head + Z.of_nat (S i)) by lia. by apply Hs.
Qed.

Lemma mq_take_cons q m ms :
  ring_rep q (m :: ms) →
  ∃ q', mq_take q = Ok (Some m, q') ∧ ring_rep q' ms ∧ same_ids q q' ∧
    mq_overload q' = (if mq_overload_threshold q <? Z.of_nat (length ms)
                      then Z.of_nat (length ms) else mq_overload q).
Proof.
  intros ((k & Hk & Hth) & arr & Hq & Hr). unfold mq_take.
  assert (mq_head q ≠ mq_tail q) as Hne by (by intros E; apply (ring_head_tail _ _ _ _ _ Hr) in E).
  apply Z.eqb_neq in Hne. rewrite Hne. cbn [negb]. rewrite Hq.
  destruct Hr as (Hla & Hc & Hh & Hn & Ht & Hs). simpl length in *.
  pose proof (Hs 0%nat m eq_refl) as H0. rewrite Z.add_0_r, Z.mod_small in H0 by lia.
  cbn [from_option_or]. rewrite bind_Ok, (proj2 (rd_Ok _ _ _) (conj (proj1 Hh) H0)), bind_Ok.
  cbn [from_option_or]. rewrite bind_Ok, int_op_Ok, bind_Ok by lia. cbv zeta.
  rewrite ring_step by lia.
  replace (mq_tail q) with (((mq_head q + 1) mod mq_cap q + Z.of_nat (length ms)) mod mq_cap q)
    by (rewrite Ht, Zplus_mod_idemp_l; f_equal; lia).
  pose proof (Z.mod_pos_bound (mq_head q + 1) (mq_cap q) ltac:(lia)) as Hb.
  rewrite ring_length by lia.
  destruct (overload_loop_spec k 32 (Z.of_nat (length ms))
    (set_mq_head ((mq_head q + 1) mod mq_cap q) q)) as (q' & -> & H1 & H2 & _ & H4 & H5 & H6 & H7 & H8);
    auto; try lia.
  rewrite bind_Ok. exists q'. split; [done |]. split; [| split; [exact H2 | exact H4]].
  split; [done |]. exists arr. rewrite H5, H6, H7, H8. split; [done |].
  cbn [set_mq_head mq_cap mq_head mq_tail]. split; [done |]. split; [done |]. split; [done |].
  split; [lia |]. split; [rewrite Ht, Zplus_mod_idemp_l; f_equal; lia |].
  eapply slots_tail; [lia | exact Hs].
Qed.

(** ** skynet_mq_push *)

(** The copy of expand_queue unrolls the ring from its head. *)
Lemma expand_copy_spec k i q arr new :
  0 < mq_cap q ≤ 2 ^ 30 → 0 ≤ mq_head q < mq_cap q → Z.of_nat (length arr) = mq_cap q →
  0 ≤ i → i + Z.of_nat k ≤ mq_cap q → mq_cap q ≤ Z.of_nat (length new) →
  ∃ new', expand_copy k i q arr new = Ok new' ∧ length new' = length new ∧
    (∀ j : nat, Z.of_nat j < i → new' !! j = new !! j) ∧
    (∀ j : nat, i ≤ Z.of_nat j < i + Z.of_nat k →
       new' !! j = arr !! Z.to_nat ((mq_head q + Z.of_nat j) mod mq_cap q)).
Proof.
  intros Hc Hh Ha. revert i new. induction k as [|k IH]; intros i new Hi Hk Hn; cbn [expand_copy].
  - exists new. split; [done |]. split; [done |]. split; [done | lia].
  - rewrite int_op_Ok, bind_Ok by lia. rewrite Z.rem_mod_nonneg by lia.
    pose proof (Z.mod_pos_bound (mq_head q + i) (mq_cap q) ltac:(lia)) as Hb.
    destruct (rd_is_Ok arr ((mq_head q + i) mod mq_cap q)) as [x Hx]; [lia |].
    rewrite Hx, bind_Ok, wr_Ok, bind_Ok by lia. apply rd_Ok in Hx as [_ Hx].
    destruct (IH (i + 1) (<[Z.to_nat i := x]> new)) as (new' & He & Hl & Hlo & Hhi);
      rewrite ?length_insert; try lia.
    exists new'. split; [done |]. split; [by rewrite Hl, length_insert |]. split.
    + intros j Hj. rewrite Hlo by lia. apply list_lookup_insert_ne. lia.
    + intros j Hj. destruct (decide (Z.of_nat j = i)) as [Hji | Hji]; [| apply Hhi; lia].
      rewrite Hlo by lia. subst i. rewrite Nat2Z.id, list_lookup_insert_eq by lia. done.
Qed.

Lemma expand_queue_spec q arr ms :
  threshold_ok q → mq_queue q = Some arr → Z.of_nat (length arr) = mq_cap q →
  0 < mq_cap q ≤ 2 ^ 29 → 0 ≤ mq_head q < mq_cap q → Z.of_nat (length ms) = mq_cap q →
  slots arr (mq_head q) (mq_cap q) ms →
  ∃ q', expand_queue malloc_ok q = Ok q' ∧ ring_rep q' ms ∧ same_ids q q'.
Proof.
  intros Hth Hq Ha Hc Hh Hn Hs. unfold expand_queue, malloc_slots. rewrite memory, Hq.
  cbn [from_option_or]. rewrite !bind_Ok.
  destruct (expand_copy_spec (Z.to_nat (mq_cap q)) 0 q arr
    (replicate (Z.to_nat (mq_cap q * 2)) None)) as (new & -> & Hl & _ & Hnew);
    rewrite ?length_replicate in *; try lia.
  rewrite bind_Ok, int_op_Ok, bind_Ok by lia. eexists. split; [reflexivity |].
  split; [| by repeat split]. split; [exact Hth |]. exists new. split; [done |].
  cbn [set_mq_queue set_mq_cap set_mq_tail set_mq_head mq_cap mq_head mq_tail].
  split; [lia |]. split; [lia |]. split; [lia |]. split; [lia |].
  split; [rewrite Z.mod_small; lia |].
  intros i m Hi. pose proof (lookup_lt_Some _ _ _ Hi) as Hlt.
  rewrite Z.add_0_l, Z.mod_small, Nat2Z.id, Hnew by lia. by apply Hs.
Qed.

Lemma slots_snoc arr head cap ms m :
  0 < cap → Z.of_nat (length ms) < cap → Z.of_nat (length arr) = cap →
  slots arr head cap ms →
  slots (<[Z.to_nat ((head + Z.of_nat (length ms)) mod cap) := Some m]> arr) head cap (ms ++ [m]).
Proof.
  intros Hc Hn Ha Hs i x Hi. pose proof (Z.mod_pos_bound (head + Z.of_nat i) cap Hc).
  pose proof (Z.mod_pos_bound (head + Z.of_nat (length ms)) cap Hc).
  apply lookup_app_Some in Hi as [Hi | [Hge Hi]].
  - rewrite list_lookup_insert_ne; [by apply Hs |].
    pose proof (lookup_lt_Some _ _ _ Hi). intros He%Z2Nat.inj; [| lia | lia].
    apply ring_distinct in He; lia.
  - apply list_lookup_singleton_Some in Hi as [Hi ->].
    replace i with (length ms) by lia. apply list_lookup_insert_eq. lia.
Qed.

Lemma mq_store_spec q ms m :
  ring_rep q ms → Z.of_nat (length ms) < 2 ^ 29 →
  ∃ q', mq_store malloc_ok q m = Ok q' ∧ ring_rep q' (ms ++ [m]) ∧ same_ids q q'.
Proof.
  intros (Hth & arr & Hq & Ha & Hc & Hh & Hn & Ht & Hs) Hsz. unfold mq_store. rewrite Hq.
  cbn [from_option_or]. rewrite bind_Ok.
  pose proof (Z.mod_pos_bound (mq_head q + Z.of_nat (length ms)) (mq_cap q) ltac:(lia)) as Hb.
  rewrite wr_Ok, bind_Ok by lia. cbv zeta. cbn [set_mq_queue mq_tail mq_cap].
  rewrite int_op_Ok, bind_Ok, ring_step by lia. cbn [set_mq_queue set_mq_tail mq_head mq_tail mq_cap].
  rewrite Ht, Zplus_mod_idemp_l.
  replace (mq_head q + Z.of_nat (length ms) + 1) with (mq_head q + Z.of_nat (length (ms ++ [m])))
    by (rewrite length_app; simpl; lia).
  apply (slots_snoc _ _ _ _ m) in Hs; [| lia..].
  assert (Z.of_nat (length (ms ++ [m])) = Z.of_nat (length ms) + 1) as Hl
    by (rewrite length_app; simpl; lia).
  destruct (Z.eqb_spec (mq_head q) ((mq_head q + Z.of_nat (length (ms ++ [m]))) mod mq_cap q))
    as [He | He].
  - assert (Z.of_nat (length (ms ++ [m])) = mq_cap q) as Hfull.
    { destruct (Z.lt_ge_cases (Z.of_nat (length (ms ++ [m]))) (mq_cap q)); [| lia].
      rewrite <- (Z.mod_small (mq_head q) (mq_cap q)), <- (Z.add_0_r (mq_head q)) in He at 1 by lia.
      apply ring_distinct in He; lia. }
    match goal with |- context [expand_queue _ ?q1] =>
      destruct (expand_queue_spec q1 (<[Z.to_nat ((mq_head q + Z.of_nat (length ms)) mod mq_cap q)
        := Some m]> arr) (ms ++ [m])) as (q' & -> & Hr & Hi) end;
      cbn [set_mq_tail set_mq_queue mq_cap mq_head mq_queue]; rewrite ?length_insert; auto; try lia.
    exists q'. split; [done |]. split; [done |]. eapply same_ids_trans; [| exact Hi].
    by repeat split.
  - eexists. split; [reflexivity |]. split; [| by repeat split].
    split; [exact Hth |]. eexists. split; [reflexivity |].
    cbn [set_mq_tail set_mq_queue mq_cap mq_head mq_tail]. split; [by rewrite length_insert |].
    split; [done |]. split; [done |].
    assert (Z.of_nat (length (ms ++ [m])) ≠ mq_cap q) as Hnf.
    { intros Hf. apply He. rewrite Hf. replace (mq_head q + mq_cap q) with (mq_head q + 1 * mq_cap q)
        by lia. rewrite Z.mod_add, Z.mod_small; lia. }
    split; [lia |]. by split.
Qed.

(** ** The global queue

    The links of the global queue and the contents of the queues are
    independent: [core] is a queue without its link. *)

Definition core (st : mq_state M) (p : loc) : option mqueue :=
  set_mq_next None <$> st_mqs st !! p.

(** The global queue holds the queues [gl], the first to be popped first. *)
Definition gq_rep (st : mq_state M) (gl : list loc) : Prop :=
  st_Q st = Some (mkGq (first_ptr gl None) (last gl)) ∧ chain (st_mqs st) gl None ∧
  NoDup gl ∧ ∀ p q, st_mqs st !! p = Some q → p ∉ gl → mq_next q = None.

Lemma core_Some st p q : core st p = Some q → ∃ q0, st_mqs st !! p = Some q0 ∧ q = set_mq_next None q0.
Proof. unfold core. intros (q0 & ? & ?)%fmap_Some. eauto. Qed.

Lemma core_insert st Q p q r :
  core (mkSt (<[p := q]> (st_mqs st)) Q) r =
  if decide (r = p) then Some (set_mq_next None q) else core st r.
Proof.
  unfold core. simpl. case_decide as Hr.
  - subst. by rewrite lookup_insert_eq.
  - by rewrite lookup_insert_ne by congruence.
Qed.

Lemma ring_rep_next q x ms : ring_rep (set_mq_next x q) ms ↔ ring_rep q ms.
Proof. done. Qed.

Lemma globalmq_push_spec st gl p q :
  gq_rep st gl → core st p = Some q → p ∉ gl →
  ∃ st', skynet_globalmq_push st p = Ok st' ∧ gq_rep st' (gl ++ [p]) ∧
    ∀ r, core st' r = core st r.
Proof.
  clear memory. intros (HQ & Hc & Hnd & Hnx) (q0 & Hp & _)%core_Some Hpn. unfold skynet_globalmq_push. rewrite HQ.
  cbn [from_option_or gq_tail gq_head]. rewrite bind_Ok.
  assert (NoDup (gl ++ [p])) as Hnd'.
  { apply NoDup_app. split; [done |]. split; [| apply NoDup_singleton]. set_solver. }
  destruct gl as [|x gl' _] using rev_ind; cbn [last].
  - eexists. split; [reflexivity |]. split; [| done].
    split; [done |]. split; [| split; [done |]].
    + simpl. split; [| done]. exists q0. split; [done | by apply (Hnx p)].
    + intros r qr Hr Hrn. apply (Hnx r qr Hr). set_solver.
  - rewrite last_snoc. pose proof Hc as [_ [(n & Hn & Hl) _]]%chain_app.
    rewrite (modify_Some _ _ _ _ Hn), bind_Ok. eexists. split; [reflexivity |].
    assert (x ≠ p) as Hxp by set_solver. split.
    + split; [| split; [| split; [done |]]]; cbn [st_Q st_mqs].
      * rewrite last_snoc. f_equal. f_equal. by rewrite !first_ptr_app; destruct gl'.
      * apply chain_app. split.
        { exact (chain_snoc_relink (st_mqs st) gl' x None (Some p) n Hnd Hc Hn). }
        simpl. split; [| done]. exists q0.
        rewrite lookup_insert_ne by done. split; [done | by apply (Hnx p)].
      * intros r qr Hr Hrn. rewrite lookup_insert_ne in Hr by set_solver.
        apply (Hnx r qr Hr). set_solver.
    + intros r. unfold core. cbn [st_mqs]. destruct (decide (r = x)) as [-> | Hr].
      * by rewrite lookup_insert_eq, Hn.
      * by rewrite lookup_insert_ne by congruence.
Qed.

Lemma globalmq_pop_spec st p gl :
  gq_rep st (p :: gl) →
  ∃ st', skynet_globalmq_pop st = Ok (Some p, st') ∧ gq_rep st' gl ∧
    ∀ r, core st' r = core st r.
Proof.
  clear memory. intros (HQ & [(q & Hq & Hl) Hc] & [Hp Hnd]%NoDup_cons & Hnx). unfold skynet_globalmq_pop.
  rewrite HQ. cbn [from_option_or]. rewrite bind_Ok. cbn [gq_tail gq_head first_ptr].
  rewrite (load_Some _ _ _ Hq), bind_Ok. change (mq_next q) with (link q). rewrite Hl.
  assert ((match first_ptr gl None with
           | Some _ => Ok (last (p :: gl))
           | None => if decide (last (p :: gl) = Some p) then Ok None else Fail AssertFailed
           end) = Ok (last gl)) as ->.
  { destruct gl as [|r gl]; [by rewrite decide_True | done]. }
  rewrite bind_Ok, (modify_Some _ _ _ _ Hq), bind_Ok. eexists. split; [reflexivity |].
  split; [split; [done |]; split; [by apply chain_insert |]; split; [done |] |]; cbn [st_mqs].
  - intros r qr Hr Hrn. destruct (decide (r = p)) as [-> | Hrp].
    + rewrite lookup_insert_eq in Hr. by simplify_eq.
    + rewrite lookup_insert_ne in Hr by done. apply (Hnx r qr Hr). set_solver.
  - intros r. unfold core. cbn [st_mqs]. destruct (decide (r = p)) as [-> | Hr].
    + by rewrite lookup_insert_eq, Hq.
    + by rewrite lookup_insert_ne by congruence.
Qed.

Lemma globalmq_pop_empty st : gq_rep st [] → skynet_globalmq_pop st = Ok (None, st).
Proof. intros (HQ & _). unfold skynet_globalmq_pop. by rewrite HQ. Qed.

(** Storing a queue with the link it had. *)
Lemma gq_rep_insert st gl p q0 q :
  gq_rep st gl → st_mqs st !! p = Some q0 → mq_next q = mq_next q0 →
  gq_rep (mkSt (<[p := q]> (st_mqs st)) (st_Q st)) gl.
Proof.
  intros (HQ & Hc & Hnd & Hnx) Hp Hn. split; [done |]. split; [| split; [done |]]; cbn [st_mqs].
  - clear HQ Hnx Hnd. induction gl as [|x gl IH]; [done |]. destruct Hc as [(n & Hx & Hl) Hc].
    split; [| by apply IH]. destruct (decide (x = p)) as [-> | Hxp].
    + exists q. rewrite lookup_insert_eq. split; [done |]. simplify_eq. simpl in *. congruence.
    + exists n. by rewrite lookup_insert_ne.
  - intros r qr Hr Hrn. destruct (decide (r = p)) as [-> | Hrp].
    + rewrite lookup_insert_eq in Hr. simplify_eq. rewrite Hn. by apply (Hnx p).
    + rewrite lookup_insert_ne in Hr by done. by apply (Hnx r).
Qed.

(** ** The operations on a queue of the heap *)

Lemma mq_push_spec st gl p q ms m :
  gq_rep st gl → core st p = Some q → ring_rep q ms → Z.of_nat (length ms) < 2 ^ 29 →
  (mq_in_global q = 0 → p ∉ gl) →
  ∃ st' q', skynet_mq_push malloc_ok st p (Some m) = Ok st' ∧
    (∀ r, core st' r = if decide (r = p) then Some q' else core st r) ∧
    ring_rep q' (ms ++ [m]) ∧ mq_handle q' = mq_handle q ∧
    mq_in_global q' = (if mq_in_global q =? 0 then 1 else mq_in_global q) ∧
    gq_rep st' (if mq_in_global q =? 0 then gl ++ [p] else gl).
Proof.
  intros Hg (q0 & Hp & ->)%core_Some Hr Hsz Hpn. unfold skynet_mq_push.
  cbn [from_option_or]. rewrite bind_Ok, (load_Some _ _ _ Hp), bind_Ok.
  destruct (mq_store_spec q0 ms m Hr Hsz) as (q1 & -> & Hr1 & Hh & _ & Hi & Hn).
  rewrite bind_Ok. cbn [set_mq_next mq_in_global mq_handle] in *. rewrite Hi.
  destruct (Z.eqb_spec (mq_in_global q0) 0) as [H0 | H0].
  - pose proof (gq_rep_insert _ _ _ _ (set_mq_in_global MQ_IN_GLOBAL q1) Hg Hp Hn) as Hg1.
    destruct (globalmq_push_spec _ _ p (set_mq_next None (set_mq_in_global MQ_IN_GLOBAL q1)) Hg1)
      as (st' & He & Hg' & Hcore).
    { unfold core. cbn [st_mqs]. by rewrite lookup_insert_eq. }
    { by apply Hpn. }
    eexists st', _. split; [exact He |]. split; [intros r; rewrite Hcore; apply core_insert |].
    split; [exact Hr1 |]. split; [done |]. split; [done |]. exact Hg'.
  - eexists _, _. split; [reflexivity |]. split; [intros r; apply core_insert |].
    split; [exact Hr1 |]. split; [done |]. split; [done |]. by eapply gq_rep_insert.
Qed.

Lemma mq_pop_spec st gl p q ms :
  gq_rep st gl → core st p = Some q → ring_rep q ms →
  ∃ st' q', skynet_mq_pop st p = Ok (head ms, st') ∧
    (∀ r, core st' r = if decide (r = p) then Some q' else core st r) ∧
    ring_rep q' (tail ms) ∧ mq_handle q' = mq_handle q ∧
    mq_in_global q' = (match ms with [] => 0 | _ => mq_in_global q end) ∧ gq_rep st' gl.
Proof.
  intros Hg (q0 & Hp & ->)%core_Some Hr. unfold skynet_mq_pop.
  rewrite (load_Some _ _ _ Hp), bind_Ok. cbn [set_mq_next mq_in_global mq_handle] in *.
  destruct ms as [|m ms]; cbn [head tail].
  - destruct (mq_take_empty q0 Hr) as (q' & -> & Hr' & Hi & Hh & _ & Hn & _). rewrite bind_Ok.
    eexists _, _. split; [reflexivity |]. split; [intros r; apply core_insert |].
    split; [exact Hr' |]. split; [done |]. split; [done |]. by eapply gq_rep_insert.
  - destruct (mq_take_cons q0 m ms Hr) as (q' & -> & Hr' & (Hh & _ & Hi & Hn) & _). rewrite bind_Ok.
    eexists _, _. split; [reflexivity |]. split; [intros r; apply core_insert |].
    split; [exact Hr' |]. split; [done |]. split; [done |]. by eapply gq_rep_insert.
Qed.

(** ** A queue over time *)

Lemma new_queue_rep handle : ring_rep (new_queue malloc_ok handle) [].
Proof.
  split; [exists 0%nat; split; [lia | done] |]. unfold new_queue, malloc_slots. rewrite memory.
  eexists. split; [reflexivity |]. cbn [mq_cap mq_head mq_tail]. unfold DEFAULT_QUEUE_SIZE.
  split; [by rewrite length_replicate |]. split; [lia |]. split; [lia |]. split; [simpl; lia |].
  split; [done |]. intros i m Hi. by rewrite lookup_nil in Hi.
Qed.

Inductive ring_op := RPush (m : M) | RPop.

Fixpoint ring_run (os : list ring_op) q : res (list (option M) * mqueue) :=
  match os with
  | [] => Ok ([], q)
  | RPush m :: os => q ← mq_store malloc_ok q m; ring_run os q
  | RPop :: os => '(r, q) ← mq_take q; '(rs, q) ← ring_run os q; Ok (r :: rs, q)
  end.

(** The same operations on a sequence of messages. *)
Fixpoint fifo_run (os : list ring_op) ms : list (option M) * list M :=
  match os with
  | [] => ([], ms)
  | RPush m :: os => fifo_run os (ms ++ [m])
  | RPop :: os => let '(rs, ms') := fifo_run os (tail ms) in (head ms :: rs, ms')
  end.

Lemma ring_run_spec os q ms :
  ring_rep q ms → Z.of_nat (length ms + length os) < 2 ^ 29 →
  ∃ q', ring_run os q = Ok (fst (fifo_run os ms), q') ∧ ring_rep q' (snd (fifo_run os ms)).
Proof.
  revert q ms. induction os as [|[m|] os IH]; intros q ms Hr Hsz; cbn [ring_run fifo_run].
  - by exists q.
  - cbn [length] in Hsz. destruct (mq_store_spec q ms m Hr) as (q1 & -> & Hr1 & _); [lia |].
    rewrite bind_Ok. apply IH; [done |]. rewrite length_app. cbn [length]. lia.
  - cbn [length] in Hsz. assert (∃ q1, mq_take q = Ok (head ms, q1) ∧ ring_rep q1 (tail ms))
      as (q1 & -> & Hr1).
    { destruct ms as [|m ms].
      - destruct (mq_take_empty q Hr) as (q1 & ? & ? & _). eauto.
      - destruct (mq_take_cons q m ms Hr) as (q1 & ? & ? & _). eauto. }
    rewrite bind_Ok. destruct (IH q1 (tail ms) Hr1) as (q' & -> & Hr').
    { destruct ms; cbn [tail length] in *; lia. }
    rewrite bind_Ok. destruct (fifo_run os (tail ms)) as [rs ms']. by exists q'.
Qed.

(** C10: Whatever the sequence of pushes and pops on a new queue, no access
    leaves the ring, no slot is read before it is written, and the pops return
    exactly what a first-in first-out sequence returns, through every wrap of
    head and tail and every doubling of the ring; skynet_mq_length is the
    number of messages left. *)
Theorem mq_refines_fifo (os : list ring_op) (handle : Z) :
  Z.of_nat (length os) < 2 ^ 29 →
  ∃ q', ring_run os (new_queue malloc_ok handle) = Ok (fst (fifo_run os []), q') ∧
    skynet_mq_length q' = Z.of_nat (length (snd (fifo_run os []))).
Proof.
  intros Hsz. destruct (ring_run_spec os _ [] (new_queue_rep handle)) as (q' & He & Hr); [done |].
  exists q'. split; [done |]. by apply mq_length_spec.
Qed.

End facts.

(** 150 pushes double the ring of 64 twice. *)
Lemma mq_refines_fifo_witness :
  ∃ q', ring_run (λ _, true) ([RPush 7; RPop; RPop] ++ replicate 150 (RPush 8) ++ [RPop])
          (new_queue (λ _, true) 1) = Ok ([Some 7; None; Some 8], q') ∧
    skynet_mq_length q' = 149.
Proof.
  apply (mq_refines_fifo (λ _, true) (λ _, eq_refl)
    ([RPush 7; RPop; RPop] ++ replicate 150 (RPush 8) ++ [RPop]) 1).
  vm_compute. reflexivity.
Defined.
