(* ===== verification/Sched.v ===== *)
(** Scheduling of the message queues over the worker threads of lib/core.c:
    misaka_packet_task_route, misaka_packet_net_route, the packet loops of the
    main thread, and worker, interleaved at the operations that hold a lock.

    A message is the [struct stream *] pushed.  [sc_in] and [sc_out] record
    what was pushed on and popped from each queue; the code keeps no such
    record, they only let theorems speak of the past. *)

From S2P Require Import Prelude Memory Mq.

Local Open Scope Z_scope.

Definition MISAKA_TASK_SANDS : Z := 100.

Section sched.
Context {M : Type} (malloc_ok : Z → bool).

(** A thread inside worker: what is left of its sands, the queue it holds. *)
Record worker_state := mkWorker { w_sands : Z; w_hold : option loc }.

Record sched := mkSched {
  sc_st : mq_state M;
  sc_jobs : nat;                         (* jobs of the pool not started *)
  sc_threads : gmap nat worker_state;    (* pool threads that run a job *)
  sc_in : list (loc * M);
  sc_out : list (loc * M)
}.

Implicit Types (s : sched) (p : loc) (m : M).

(** misaka_packet_task_route: push on the queue of the type and add a job. *)
Definition misaka_packet_task_route s p m : res sched :=
  st ← skynet_mq_push malloc_ok (sc_st s) p (Some m);
  Ok (mkSched st (S (sc_jobs s)) (sc_threads s) (sc_in s ++ [(p, m)]) (sc_out s)).

(** misaka_packet_net_route: in_global is set first, so that the queue does
    not enter the global queue. *)
Definition misaka_packet_net_route s p m : res sched :=
  st ← skynet_mq_global (sc_st s) p 1;
  st ← skynet_mq_push malloc_ok st p (Some m);
  Ok (mkSched st (sc_jobs s) (sc_threads s) (sc_in s ++ [(p, m)]) (sc_out s)).

(** One iteration of misaka_packet_loop_route and misaka_packet_loop_timer:
    the main thread pops a queue itself. *)
Definition loop_pop s p : res (option M * sched) :=
  '(m, st) ← skynet_mq_pop (sc_st s) p;
  let out := match m with Some m => [(p, m)] | None => [] end in
  Ok (m, mkSched st (sc_jobs s) (sc_threads s) (sc_in s) (sc_out s ++ out)).

(** The loop of misaka_packet_loop_route, [sands] times at most; the result
    lists the packets routed, in order. *)
Fixpoint packet_loop (sands : nat) s p : res (list M * sched) :=
  match sands with
  | O => Ok ([], s)
  | S sands =>
      '(m, s) ← loop_pop s p;
      match m with
      | Some m => '(ms, s) ← packet_loop sands s p; Ok (m :: ms, s)
      | None => Ok ([], s)
      end
  end.

(** A pool thread takes a job and enters worker. *)
Definition start_worker s (t : nat) : sched :=
  match sc_jobs s, sc_threads s !! t with
  | S j, None => mkSched (sc_st s) j (<[t := mkWorker MISAKA_TASK_SANDS None]> (sc_threads s))
                   (sc_in s) (sc_out s)
  | _, _ => s
  end.

(** The next locked operation of the thread [t] in worker. *)
Definition worker_step s (t : nat) : res sched :=
  match sc_threads s !! t with
  | None => Ok s
  | Some w =>
      match w_hold w with
      | None =>
          '(q, st) ← skynet_globalmq_pop (sc_st s);
          match q with
          | None => Ok (mkSched st (sc_jobs s) (delete t (sc_threads s)) (sc_in s) (sc_out s))
          | Some p => Ok (mkSched st (sc_jobs s)
                            (<[t := mkWorker (w_sands w) (Some p)]> (sc_threads s))
                            (sc_in s) (sc_out s))
          end
      | Some p =>
          if w_sands w =? 0 then
            st ← skynet_globalmq_push (sc_st s) p;
            Ok (mkSched st (sc_jobs s) (delete t (sc_threads s)) (sc_in s) (sc_out s))
          else
            '(m, st) ← skynet_mq_pop (sc_st s) p;
            match m with
            | Some m => Ok (mkSched st (sc_jobs s)
                              (<[t := mkWorker (w_sands w - 1) (Some p)]> (sc_threads s))
                              (sc_in s) (sc_out s ++ [(p, m)]))
            | None => Ok (mkSched st (sc_jobs s)
                            (<[t := mkWorker (w_sands w) None]> (sc_threads s))
                            (sc_in s) (sc_out s))
            end
      end
  end.

Inductive event :=
| EvTask (p : loc) (m : M)
| EvNet (p : loc) (m : M)
| EvLoopPop (p : loc)
| EvStart (t : nat)
| EvWorker (t : nat).

Definition sched_step s (e : event) : res sched :=
  match e with
  | EvTask p m => misaka_packet_task_route s p m
  | EvNet p m => misaka_packet_net_route s p m
  | EvLoopPop p => '(_, s) ← loop_pop s p; Ok s
  | EvStart t => Ok (start_worker s t)
  | EvWorker t => worker_step s t
  end.

Fixpoint sched_run s (es : list event) : res sched :=
  match es with
  | [] => Ok s
  | e :: es => s ← sched_step s e; sched_run s es
  end.

(** ** core_init: the global queue and a queue per event type *)

Definition EVENT_NONE : Z := 0.
Definition EVENT_ECHO : Z := 1.
Definition EVENT_SYS : Z := 2.
Definition EVENT_NET : Z := 3.
Definition EVENT_MAX : Z := 4.

Context {AQ : Allocator (message_queue M)}.

(** [for (i = 0; i < EVENT_MAX; i++) queues[i] = skynet_mq_create(i);] *)
Fixpoint create_queues (k : nat) (i : Z) (st : mq_state M) : res (list loc * mq_state M) :=
  match k with
  | O => Ok ([], st)
  | S k =>
      '(p, st) ← skynet_mq_create malloc_ok st i;
      '(ps, st) ← create_queues k (i + 1) st;
      Ok (p :: ps, st)
  end.

Definition init_queues : res (list loc * sched) :=
  '(ps, st) ← create_queues (Z.to_nat EVENT_MAX) 0 (skynet_mq_init (mkSt ∅ None));
  Ok (ps, mkSched st 0 ∅ [] []).

End sched.

Global Arguments sched : clear implicits.
Global Arguments event : clear implicits.
