(* ===== verification/SchedFacts.v ===== *)
(** Correctness of the scheduling of Sched.v, whatever the interleaving: each
    queue is in the global queue once or held by one worker exactly while it
    may have messages, and no message is lost, duplicated or reordered within
    its queue. *)

From S2P Require Import Prelude Memory Mq MqFacts Sched.

Local Open Scope Z_scope.

Set Default Proof Using "Type*".

Section facts.
Context {M : Type} (malloc_ok : Z → bool).
Hypothesis memory : ∀ n, malloc_ok n = true.
(** The queues that tasks are routed to; the others are popped by the main
    thread only. *)
Context (task : loc → bool).
Implicit Types (st : mq_state M) (gl : list loc) (H : gset loc) (c : loc → list M).
Implicit Types (th : gmap nat worker_state) (p r : loc) (m : M).

(** ** The queues: [gl] in the global queue, [H] held, contents [c] *)

(** A task queue is out, and then empty, or is in the global queue or held. *)
Definition placed (q : message_queue M) (inside : Prop) (ms : list M) : Prop :=
  (mq_in_global q = 1 ∧ inside) ∨ (mq_in_global q = 0 ∧ ¬ inside ∧ ms = []).

Record queues_inv st gl H c : Prop := {
  qi_gq : gq_rep st gl;
  qi_ring p q : core st p = Some q → ring_rep q (c p);
  qi_task p q : task p = true → core st p = Some q → placed q (p ∈ gl ∨ p ∈ H) (c p);
  qi_main p : task p = false → p ∉ gl ∧ p ∉ H;
  qi_excl p : p ∈ H → p ∉ gl;
  qi_alloc p : p ∈ H → is_Some (core st p)
}.

Definition upd c p (ms : list M) : loc → list M := λ r, if decide (r = p) then ms else c r.

Lemma upd_eq c p ms : upd c p ms p = ms.
Proof. unfold upd. by rewrite decide_True. Qed.
Lemma upd_ne c p ms r : r ≠ p → upd c p ms r = c r.
Proof. intros. unfold upd. by rewrite decide_False. Qed.

Definition core_upd st st' p (q' : message_queue M) : Prop :=
  ∀ r, core st' r = if decide (r = p) then Some q' else core st r.

(** Changing one queue: what is to be shown of it, the others follow. *)
Lemma queues_inv_upd st st' gl gl' H H' c p q' ms' :
  queues_inv st gl H c → core_upd st st' p q' → gq_rep st' gl' → ring_rep q' ms' →
  (∀ r, r ≠ p → (r ∈ gl' ↔ r ∈ gl)) → (∀ r, r ≠ p → (r ∈ H' ↔ r ∈ H)) →
  (task p = true → placed q' (p ∈ gl' ∨ p ∈ H') ms') →
  (task p = false → p ∉ gl' ∧ p ∉ H') → (p ∈ H' → p ∉ gl') →
  queues_inv st' gl' H' (upd c p ms').
Proof.
  intros [Qg Qr Qt Qm Qe Qa] Hc Hg Hr Hgl HH Ht Hm Hex.
  assert (∀ r, r ≠ p → core st' r = core st r) as Hne
    by (intros r Hrp; rewrite Hc; by apply decide_False).
  assert (core st' p = Some q') as Heq by (rewrite Hc; by apply decide_True).
  split; [done | | | | |]; intros r; destruct (decide (r = p)) as [-> | Hrp];
    rewrite ?upd_eq, ?(upd_ne c p ms' r), ?Hne, ?Hgl, ?HH, ?Heq by done; auto.
  - intros q [= <-]. done.
  - intros q Ht' [= <-]. auto.
  - intros q Ht' Hcr. unfold placed. rewrite Hgl, HH by done. by apply Qt.
Qed.

Lemma queues_push st gl H c p q m :
  queues_inv st gl H c → core st p = Some q → Z.of_nat (length (c p)) < 2 ^ 29 →
  task p = true ∨ mq_in_global q = 1 →
  ∃ st' q', skynet_mq_push malloc_ok st p (Some m) = Ok st' ∧ core_upd st st' p q' ∧
    queues_inv st' (if mq_in_global q =? 0 then gl ++ [p] else gl) H (upd c p (c p ++ [m])).
Proof.
  intros Hq Hp Hsz Hor. pose proof (qi_gq _ _ _ _ Hq) as Hg.
  assert (mq_in_global q = 0 → p ∉ gl) as Hpn.
  { intros H0. destruct Hor as [Ht | ?]; [| lia].
    destruct (qi_task _ _ _ _ Hq p q Ht Hp) as [[? _] | (_ & Hn & _)]; [lia | tauto]. }
  destruct (mq_push_spec malloc_ok memory st gl p q (c p) m Hg Hp (qi_ring _ _ _ _ Hq _ _ Hp) Hsz Hpn)
    as (st' & q' & He & Hc & Hr & _ & Hi & Hg').
  exists st', q'. split; [exact He |]. split; [exact Hc |].
  eapply queues_inv_upd; eauto.
  - intros r Hr'. destruct (mq_in_global q =? 0); [| done]. set_solver.
  - intros Ht. left. rewrite Hi. destruct (qi_task _ _ _ _ Hq p q Ht Hp) as [[-> Hin] | (-> & _ & _)].
    + split; [done | exact Hin].
    + split; [done |]. left. simpl. set_solver.
  - intros Ht. destruct Hor as [? | Hi1]; [congruence |]. rewrite Hi1. simpl.
    by apply (qi_main _ _ _ _ Hq).
  - intros HpH. destruct (Z.eqb_spec (mq_in_global q) 0) as [H0 | H0].
    + exfalso. destruct Hor as [Ht | ?]; [| lia].
      destruct (qi_task _ _ _ _ Hq p q Ht Hp) as [[? _] | (_ & Hn & _)]; [lia | tauto].
    + by apply (qi_excl _ _ _ _ Hq).
Qed.

(** Popping a queue that is held, or that is not a task queue. *)
Lemma queues_pop st gl H c p q :
  queues_inv st gl H c → core st p = Some q → task p = false ∨ p ∈ H →
  ∃ st' q', skynet_mq_pop st p = Ok (head (c p), st') ∧ core_upd st st' p q' ∧
    queues_inv st' gl (match c p with [] => H ∖ {[p]} | _ => H end) (upd c p (tail (c p))).
Proof.
  clear memory malloc_ok. intros Hq Hp Hor. pose proof (qi_gq _ _ _ _ Hq) as Hg.
  destruct (mq_pop_spec st gl p q (c p) Hg Hp (qi_ring _ _ _ _ Hq _ _ Hp))
    as (st' & q' & He & Hc & Hr & _ & Hi & Hg').
  eexists st', q'. split; [exact He |]. split; [exact Hc |].
  eapply queues_inv_upd; eauto.
  - intros r Hrp. destruct (c p); [set_solver | done].
  - intros Ht. destruct Hor as [? | HpH]; [congruence |].
    pose proof (qi_excl _ _ _ _ Hq p HpH) as Hpg. unfold placed. rewrite Hi.
    destruct (qi_task _ _ _ _ Hq p q Ht Hp) as [[Hi1 _] | (_ & Hn & _)]; [| tauto].
    destruct (c p) as [|m ms]; [right; set_solver | left]. auto.
  - intros Ht. destruct (qi_main _ _ _ _ Hq p Ht). destruct (c p); set_solver.
  - intros HpH. apply (qi_excl _ _ _ _ Hq). destruct (c p); set_solver.
Qed.

Lemma queues_same_core st st' gl gl' H H' c :
  queues_inv st gl H c → (∀ r, core st' r = core st r) → gq_rep st' gl' →
  (∀ r, r ∈ gl' ∨ r ∈ H' ↔ r ∈ gl ∨ r ∈ H) → (∀ r, r ∈ H' → r ∉ gl' ∧ is_Some (core st r)) →
  queues_inv st' gl' H' c.
Proof.
  intros [] Hc Hg Hin Hex. split; intros; rewrite ?Hc in *; auto.
  - specialize (qi_task0 p q). unfold placed in *. rewrite Hin. auto.
  - destruct (qi_main0 p); [done |]. specialize (Hin p). tauto.
  - by apply Hex.
  - by apply Hex.
Qed.

Lemma gq_rep_alloc st gl p : gq_rep st gl → p ∈ gl → is_Some (core st p).
Proof.
  intros (_ & Hc & _) Hp. destruct (chain_lookup _ _ _ _ Hc Hp) as [n Hn].
  exists (set_mq_next None n). unfold core. by rewrite Hn.
Qed.

Lemma queues_gpop st p gl H c :
  queues_inv st (p :: gl) H c →
  ∃ st', skynet_globalmq_pop st = Ok (Some p, st') ∧ (∀ r, core st' r = core st r) ∧
    queues_inv st' gl ({[p]} ∪ H) c.
Proof.
  clear memory malloc_ok. intros Hq. pose proof (qi_gq _ _ _ _ Hq) as Hg.
  destruct (globalmq_pop_spec st p gl Hg) as (st' & He & Hg' & Hc).
  exists st'. split; [done |]. split; [done |]. eapply queues_same_core; eauto; [set_solver |].
  intros r [Hr%elem_of_singleton | Hr]%elem_of_union.
  - subst. split; [by destruct Hg as (_ & _ & [? _]%NoDup_cons & _) |].
    eapply gq_rep_alloc; eauto. by left.
  - pose proof (qi_excl _ _ _ _ Hq r Hr). split; [set_solver | by apply (qi_alloc _ _ _ _ Hq)].
Qed.

Lemma queues_gpush st gl H c p :
  queues_inv st gl H c → p ∈ H →
  ∃ st', skynet_globalmq_push st p = Ok st' ∧ (∀ r, core st' r = core st r) ∧
    queues_inv st' (gl ++ [p]) (H ∖ {[p]}) c.
Proof.
  clear memory malloc_ok. intros Hq Hp. pose proof (qi_gq _ _ _ _ Hq) as Hg.
  destruct (qi_alloc _ _ _ _ Hq p Hp) as [q Hpq].
  destruct (globalmq_push_spec st gl p q Hg Hpq (qi_excl _ _ _ _ Hq p Hp))
    as (st' & He & Hg' & Hc).
  exists st'. split; [done |]. split; [done |]. eapply queues_same_core; eauto.
  - intros r. rewrite elem_of_app, list_elem_of_singleton, elem_of_difference, elem_of_singleton.
    destruct (decide (r = p)) as [-> |]; tauto.
  - intros r [Hr Hrp]%elem_of_difference. pose proof (qi_excl _ _ _ _ Hq r Hr).
    split; [set_solver | by apply (qi_alloc _ _ _ _ Hq)].
Qed.

(** ** The threads *)

(** Exactly the queues of [H] are held, each by one thread; [sands] stay in
    range. *)
Record threads_inv th H : Prop := {
  ti_held p : p ∈ H ↔ ∃ t n, th !! t = Some (mkWorker n (Some p));
  ti_uniq p t1 t2 n1 n2 : th !! t1 = Some (mkWorker n1 (Some p)) →
    th !! t2 = Some (mkWorker n2 (Some p)) → t1 = t2;
  ti_sands t w : th !! t = Some w → 0 ≤ w_sands w ≤ MISAKA_TASK_SANDS ∧
    (w_hold w = None → 0 < w_sands w)
}.

Definition sands_ok (w : worker_state) : Prop :=
  0 ≤ w_sands w ≤ MISAKA_TASK_SANDS ∧ (w_hold w = None → 0 < w_sands w).

(** Every change of a thread: it gives back what it held and takes what is
    free. *)
Definition held_by th (t : nat) : gset loc :=
  match th !! t with Some (mkWorker _ (Some p)) => {[p]} | _ => ∅ end.

Definition hold_set (w : worker_state) : gset loc :=
  match w_hold w with Some p => {[p]} | None => ∅ end.

Lemma held_by_spec th t p : p ∈ held_by th t ↔ ∃ n, th !! t = Some (mkWorker n (Some p)).
Proof.
  clear memory malloc_ok.
  unfold held_by. split.
  - destruct (th !! t) as [[n [r|]]|]; [| set_solver..]. intros ->%elem_of_singleton. eauto.
  - intros [n ->]. set_solver.
Qed.

Lemma threads_delete th H t : threads_inv th H → threads_inv (delete t th) (H ∖ held_by th t).
Proof.
  intros [Hh Hu Hs]. split.
  - intros p. rewrite elem_of_difference, Hh, held_by_spec. split.
    + intros [(t' & n & Hp) Hn]. exists t', n. rewrite lookup_delete_ne; [done |].
      intros ->. eauto.
    + intros (t' & n & Hp). apply lookup_delete_Some in Hp as [Hne Hp]. split; [eauto |].
      intros [n' Hp']. apply Hne. eauto.
  - intros p t1 t2 n1 n2 [_ H1]%lookup_delete_Some [_ H2]%lookup_delete_Some. eauto.
  - intros t' w [_ Hw]%lookup_delete_Some. eauto.
Qed.

Lemma threads_insert th H t w :
  threads_inv th H → sands_ok w → hold_set w ## H ∖ held_by th t →
  threads_inv (<[t := w]> th) (hold_set w ∪ (H ∖ held_by th t)).
Proof.
  clear memory malloc_ok task.
  intros HT Hw Hd. pose proof (threads_delete th H t HT) as [Hh Hu Hs].
  rewrite <- (insert_delete_eq th). set (th' := delete t th) in *.
  assert (th' !! t = None) as Hnone by apply lookup_delete_eq.
  assert (∀ p, p ∈ hold_set w ↔ w_hold w = Some p) as Hw'.
  { intros p. unfold hold_set. destruct (w_hold w); set_solver. }
  split.
  - intros p. rewrite elem_of_union, Hh, Hw'. split.
    + intros [Hp | (t' & n & Hp)].
      * exists t, (w_sands w). rewrite lookup_insert_eq. destruct w. simpl in *. by subst.
      * exists t', n. rewrite lookup_insert_ne; [done |]. congruence.
    + intros (t' & n & Hp). apply lookup_insert_Some in Hp as [[-> ->] | [_ Hp]]; eauto.
  - assert (∀ t' p n, th' !! t' = Some (mkWorker n (Some p)) → w_hold w ≠ Some p) as Hx.
    { intros t' p n Hp Hwp. apply (Hd p); [by apply Hw' |]. apply Hh. eauto. }
    intros p t1 t2 n1 n2 [[<- ->] | [? H1]]%lookup_insert_Some [[<- E] | [? H2]]%lookup_insert_Some;
      auto; [by apply Hx in H2 | subst w; by apply Hx in H1 | eauto].
  - intros t' w' [[<- <-] | [_ H']]%lookup_insert_Some; eauto.
Qed.

(** ** The whole scheduler *)

Definition on p (l : list (loc * M)) : list M := (filter (λ x, x.1 = p) l).*2.

Lemma on_snoc p l r m : on p (l ++ [(r, m)]) = if decide (r = p) then on p l ++ [m] else on p l.
Proof.
  unfold on. rewrite filter_app, fmap_app. case_decide as Hd.
  - by rewrite filter_cons_True.
  - rewrite filter_cons_False by done. apply app_nil_r.
Qed.

Record sched_inv (qs : gset loc) (s : sched M) gl H c : Prop := {
  si_queues : queues_inv (sc_st s) gl H c;
  si_threads : threads_inv (sc_threads s) H;
  si_hist p : on p (sc_in s) = on p (sc_out s) ++ c p;
  si_alloc p : p ∈ qs → is_Some (core (sc_st s) p)
}.

Lemma contents_bound qs s gl H c p :
  sched_inv qs s gl H c → (length (c p) ≤ length (sc_in s))%nat.
Proof.
  intros Hs. pose proof (si_hist _ _ _ _ _ Hs p) as Hp. apply (f_equal length) in Hp.
  rewrite length_app in Hp. unfold on in Hp. rewrite !length_fmap in Hp.
  pose proof (length_filter (λ x : loc * M, x.1 = p) (sc_in s)). lia.
Qed.

Lemma core_upd_alloc st st' p q r :
  core_upd st st' p q → is_Some (core st r) → is_Some (core st' r).
Proof. intros Hc Hr. rewrite Hc. case_decide; eauto. Qed.

(** What the roles of the queues allow. *)
Definition event_ok (qs : gset loc) (e : event M) : Prop :=
  match e with
  | EvTask p _ => task p = true ∧ p ∈ qs
  | EvNet p _ | EvLoopPop p => task p = false ∧ p ∈ qs
  | EvStart _ | EvWorker _ => True
  end.

#[export] Instance event_ok_dec qs e : Decision (event_ok qs e).
Proof. destruct e; simpl; apply _. Defined.

Lemma task_route_inv qs s gl H c p m :
  sched_inv qs s gl H c → task p = true → p ∈ qs → Z.of_nat (length (sc_in s)) < 2 ^ 29 →
  ∃ s' gl', misaka_packet_task_route malloc_ok s p m = Ok s' ∧
    sched_inv qs s' gl' H (upd c p (c p ++ [m])) ∧ sc_in s' = sc_in s ++ [(p, m)].
Proof.
  intros Hs Ht Hp Hsz. pose proof (contents_bound _ _ _ _ _ p Hs) as Hb.
  destruct (si_alloc _ _ _ _ _ Hs p Hp) as [q Hq].
  destruct (queues_push _ _ _ _ p q m (si_queues _ _ _ _ _ Hs) Hq) as (st' & q' & He & Hc & Hi);
    [lia | by left |].
  unfold misaka_packet_task_route. rewrite He, bind_Ok. eexists _, _. split; [reflexivity |].
  split; [| done]. split; cbn [sc_st sc_threads sc_in sc_out]; [done | apply Hs | |].
  - intros r. rewrite on_snoc, (si_hist _ _ _ _ _ Hs). unfold upd.
    destruct (decide (p = r)) as [-> |]; [by rewrite decide_True, app_assoc by done |].
    by rewrite decide_False by congruence.
  - intros r Hr. eapply core_upd_alloc; [exact Hc |]. by apply (si_alloc _ _ _ _ _ Hs).
Qed.

Lemma queues_inv_ext st gl H c c' :
  (∀ r, c r = c' r) → queues_inv st gl H c → queues_inv st gl H c'.
Proof. intros Hc []. split; intros; rewrite <- ?Hc; auto. Qed.

Lemma threads_inv_eq th H H' : H ≡ H' → threads_inv th H → threads_inv th H'.
Proof. intros He%leibniz_equiv. by rewrite He. Qed.

Lemma mq_global_upd st gl H c p q :
  queues_inv st gl H c → task p = false → core st p = Some q →
  ∃ st', skynet_mq_global st p 1 = Ok st' ∧ core_upd st st' p (set_mq_in_global 1 q) ∧
    queues_inv st' gl H c.
Proof.
  intros Hi Ht Hp. pose proof Hp as (q0 & Hp0 & ->)%core_Some. unfold skynet_mq_global.
  rewrite (modify_Some _ _ _ _ Hp0), bind_Ok. eexists. split; [reflexivity |].
  assert (core_upd st (mkSt (<[p := set_mq_in_global 1 q0]> (st_mqs st)) (st_Q st)) p
    (set_mq_in_global 1 (set_mq_next None q0))) as Hc
    by (intros r; exact (core_insert st (st_Q st) p (set_mq_in_global 1 q0) r)).
  split; [done |]. eapply (queues_inv_ext _ _ _ (upd c p (c p))).
  { intros r. unfold upd. by case_decide as Hr; [subst |]. }
  eapply queues_inv_upd; eauto.
  - eapply gq_rep_insert; [apply Hi | exact Hp0 | done].
  - exact (qi_ring _ _ _ _ Hi p _ Hp).
  - congruence.
  - intros _. by apply (qi_main _ _ _ _ Hi).
  - apply (qi_excl _ _ _ _ Hi).
Qed.

Lemma net_route_inv qs s gl H c p m :
  sched_inv qs s gl H c → task p = false → p ∈ qs → Z.of_nat (length (sc_in s)) < 2 ^ 29 →
  ∃ s', misaka_packet_net_route malloc_ok s p m = Ok s' ∧
    sched_inv qs s' gl H (upd c p (c p ++ [m])) ∧ sc_in s' = sc_in s ++ [(p, m)] ∧
    sc_out s' = sc_out s ∧ sc_threads s' = sc_threads s.
Proof.
  intros Hs Ht Hp Hsz. pose proof (contents_bound _ _ _ _ _ p Hs) as Hb.
  destruct (si_alloc _ _ _ _ _ Hs p Hp) as [q Hq].
  destruct (mq_global_upd _ _ _ _ p q (si_queues _ _ _ _ _ Hs) Ht Hq) as (st1 & He1 & Hc1 & Hi1).
  destruct (queues_push st1 gl H c p (set_mq_in_global 1 q) m Hi1) as (st' & q' & He & Hc & Hi).
  { rewrite Hc1. by rewrite decide_True. } { lia. } { by right. }
  unfold misaka_packet_net_route. rewrite He1, bind_Ok, He, bind_Ok.
  eexists. split; [reflexivity |].
  split; [| done]. split; cbn [sc_st sc_threads sc_in sc_out]; [exact Hi | apply Hs | |].
  - intros r. rewrite on_snoc, (si_hist _ _ _ _ _ Hs). unfold upd.
    destruct (decide (p = r)) as [-> |]; [by rewrite decide_True, app_assoc by done |].
    by rewrite decide_False by congruence.
  - intros r Hr. eapply core_upd_alloc; [exact Hc |]. eapply core_upd_alloc; [exact Hc1 |].
    by apply (si_alloc _ _ _ _ _ Hs).
Qed.

(** The record of a pop. *)
Definition popped p (ms : list M) : list (loc * M) :=
  match ms with [] => [] | m :: _ => [(p, m)] end.

Lemma pop_hist qs s gl H c p :
  sched_inv qs s gl H c →
  ∀ r, on r (sc_in s) = on r (sc_out s ++ popped p (c p)) ++ upd c p (tail (c p)) r.
Proof.
  intros Hs r. rewrite (si_hist _ _ _ _ _ Hs). unfold popped, upd.
  destruct (c p) as [|m ms] eqn:E; cbn [tail].
  - rewrite app_nil_r. case_decide as Hr; [by subst; rewrite E | done].
  - rewrite on_snoc. destruct (decide (p = r)) as [-> | Hr].
    + rewrite decide_True by done. rewrite E, <- app_assoc. done.
    + by rewrite decide_False by congruence.
Qed.

Lemma loop_pop_inv qs s gl H c p :
  sched_inv qs s gl H c → task p = false → p ∈ qs →
  ∃ s', loop_pop s p = Ok (head (c p), s') ∧ sc_in s' = sc_in s ∧
    sched_inv qs s' gl H (upd c p (tail (c p))).
Proof.
  clear memory malloc_ok.
  intros Hs Ht Hp. destruct (si_alloc _ _ _ _ _ Hs p Hp) as [q Hq].
  destruct (queues_pop _ _ _ _ p q (si_queues _ _ _ _ _ Hs) Hq) as (st' & q' & He & Hc & Hi);
    [by left |].
  unfold loop_pop. rewrite He, bind_Ok. eexists. split; [reflexivity |]. split; [done |].
  pose proof (pop_hist _ _ _ _ _ p Hs) as Hh.
  split; cbn [sc_st sc_threads sc_in sc_out].
  - destruct (qi_main _ _ _ _ (si_queues _ _ _ _ _ Hs) p Ht) as [_ HpH].
    destruct (c p); [| done]. by replace (H ∖ {[p]}) with H in Hi by set_solver.
  - apply Hs.
  - intros r. rewrite Hh. by destruct (c p).
  - intros r Hr. eapply core_upd_alloc; [exact Hc |]. by apply (si_alloc _ _ _ _ _ Hs).
Qed.

Lemma held_by_hold th t w : th !! t = Some w → held_by th t = hold_set w.
Proof. intros E. unfold held_by, hold_set. rewrite E. by destruct w. Qed.

Lemma held_by_None th t : th !! t = None → held_by th t = ∅.
Proof. intros E. unfold held_by. by rewrite E. Qed.

Lemma start_worker_inv qs s gl H c t :
  sched_inv qs s gl H c → sched_inv qs (start_worker s t) gl H c.
Proof.
  clear memory malloc_ok.
  intros Hs. unfold start_worker. destruct (sc_jobs s); [done |].
  destruct (sc_threads s !! t) eqn:E; [done |]. destruct Hs as [Hq HT Hh Ha].
  split; cbn [sc_st sc_threads sc_in sc_out]; auto.
  pose proof (threads_insert _ _ t (mkWorker MISAKA_TASK_SANDS None) HT) as HT'.
  rewrite (held_by_None _ _ E) in HT'. unfold hold_set in HT'. cbn [w_hold] in HT'.
  eapply threads_inv_eq; [| apply HT']; [set_solver | | set_solver].
  by unfold sands_ok, MISAKA_TASK_SANDS; simpl; lia.
Qed.

(** The thread [t] holds [p]. *)
Lemma thread_holds th H t n p :
  threads_inv th H → th !! t = Some (mkWorker n (Some p)) → p ∈ H ∧ held_by th t = {[p]}.
Proof.
  intros HT Ht. split; [apply (ti_held _ _ HT); eauto |]. by rewrite (held_by_hold _ _ _ Ht).
Qed.

Lemma worker_acquire_inv qs s gl H c t n :
  sched_inv qs s gl H c → sc_threads s !! t = Some (mkWorker n None) →
  ∃ s' gl' H', worker_step s t = Ok s' ∧ sc_in s' = sc_in s ∧ sched_inv qs s' gl' H' c.
Proof.
  clear memory malloc_ok. intros [Hq HT Hh Ha] Ht. unfold worker_step. rewrite Ht. cbn [w_hold].
  destruct (ti_sands _ _ HT _ _ Ht) as [Hn Hpos]. cbn [w_sands w_hold] in *.
  destruct gl as [|p gl].
  - rewrite (globalmq_pop_empty _ (qi_gq _ _ _ _ Hq)), bind_Ok.
    eexists _, [], H. split; [reflexivity |]. split; [done |].
    split; cbn [sc_st sc_threads sc_in sc_out]; auto.
    apply (threads_inv_eq _ (H ∖ held_by (sc_threads s) t)); [| by apply threads_delete].
    rewrite (held_by_hold _ _ _ Ht). unfold hold_set. cbn [w_hold]. set_solver.
  - destruct (queues_gpop _ _ _ _ _ Hq) as (st' & -> & Hc & Hq'). rewrite bind_Ok.
    eexists _, gl, _. split; [reflexivity |]. split; [done |].
    split; cbn [sc_st sc_threads sc_in sc_out w_sands]; [exact Hq' | | done |].
    + assert (p ∉ H) as HpH by (intros Hp; apply (qi_excl _ _ _ _ Hq p Hp); by left).
      pose proof (threads_insert _ _ t (mkWorker n (Some p)) HT) as HT'.
      rewrite (held_by_hold _ _ _ Ht) in HT'. unfold hold_set in HT'. cbn [w_hold] in HT'.
      eapply threads_inv_eq; [| apply HT']; [set_solver | | set_solver].
      split; [done | discriminate].
    + intros r Hr. rewrite Hc. by apply Ha.
Qed.

Lemma worker_giveback_inv qs s gl H c t p :
  sched_inv qs s gl H c → sc_threads s !! t = Some (mkWorker 0 (Some p)) →
  ∃ s' gl' H', worker_step s t = Ok s' ∧ sc_in s' = sc_in s ∧ sched_inv qs s' gl' H' c.
Proof.
  intros [Hq HT Hh Ha] Ht. destruct (thread_holds _ _ _ _ _ HT Ht) as [HpH Hb].
  unfold worker_step. rewrite Ht. cbn [w_hold w_sands]. rewrite Z.eqb_refl.
  destruct (queues_gpush _ _ _ _ _ Hq HpH) as (st' & -> & Hc & Hq'). rewrite bind_Ok.
  eexists _, _, _. split; [reflexivity |]. split; [done |].
  split; cbn [sc_st sc_threads sc_in sc_out]; [exact Hq' | | done |].
  - rewrite <- Hb. by apply threads_delete.
  - intros r Hr. rewrite Hc. by apply Ha.
Qed.

Lemma worker_pop_inv qs s gl H c t n p :
  sched_inv qs s gl H c → sc_threads s !! t = Some (mkWorker n (Some p)) → n ≠ 0 →
  ∃ s' H', worker_step s t = Ok s' ∧ sc_in s' = sc_in s ∧
    sched_inv qs s' gl H' (upd c p (tail (c p))).
Proof.
  clear memory malloc_ok. intros Hs Ht Hn. pose proof (pop_hist _ _ _ _ _ p Hs) as Hout.
  destruct Hs as [Hq HT Hh Ha].
  destruct (thread_holds _ _ _ _ _ HT Ht) as [HpH Hb].
  destruct (ti_sands _ _ HT _ _ Ht) as [Hr _]. cbn [w_sands] in Hr.
  unfold worker_step. rewrite Ht. cbn [w_hold w_sands]. rewrite (proj2 (Z.eqb_neq n 0) Hn).
  destruct (qi_alloc _ _ _ _ Hq p HpH) as [q Hp].
  destruct (queues_pop _ _ _ _ p q Hq Hp) as (st' & q' & -> & Hc & Hq'); [by right |]. rewrite bind_Ok.
  destruct (c p) as [|m ms]; cbn [head tail popped] in *.
  - rewrite app_nil_r in Hout. eexists _, _. split; [reflexivity |]. split; [done |].
    split; cbn [sc_st sc_threads sc_in sc_out]; [exact Hq' | | done |].
    + pose proof (threads_insert _ _ t (mkWorker n None) HT) as HT'.
      rewrite Hb in HT'. unfold hold_set in HT'. cbn [w_hold] in HT'.
      eapply threads_inv_eq; [| apply HT']; [set_solver | | set_solver].
      split; cbn [w_sands w_hold]; lia.
    + intros r Hr'. eapply core_upd_alloc; [exact Hc |]. by apply Ha.
  - eexists _, _. split; [reflexivity |]. split; [done |].
    split; cbn [sc_st sc_threads sc_in sc_out]; [exact Hq' | | done |].
    + pose proof (threads_insert _ _ t (mkWorker (n - 1) (Some p)) HT) as HT'.
      rewrite Hb in HT'. unfold hold_set in HT'. cbn [w_hold] in HT'.
      eapply threads_inv_eq; [| apply HT']; [| | set_solver].
      * intros r. destruct (decide (r = p)); set_solver.
      * split; cbn [w_sands w_hold]; [lia | discriminate].
    + intros r Hr'. eapply core_upd_alloc; [exact Hc |]. by apply Ha.
Qed.

Lemma sched_step_inv qs s gl H c e :
  sched_inv qs s gl H c → event_ok qs e → Z.of_nat (length (sc_in s)) < 2 ^ 29 →
  ∃ s' gl' H' c', sched_step malloc_ok s e = Ok s' ∧ sched_inv qs s' gl' H' c' ∧
    (length (sc_in s') ≤ S (length (sc_in s)))%nat.
Proof.
  intros Hs He Hsz. destruct e as [p m|p m|p|t|t]; cbn [sched_step event_ok] in *.
  - destruct He as [Ht Hp]. destruct (task_route_inv _ _ _ _ _ p m Hs Ht Hp Hsz)
      as (s' & gl' & -> & Hi & Hin). eexists _, _, _, _. split; [done |]. split; [exact Hi |].
    rewrite Hin, length_app. simpl. lia.
  - destruct He as [Ht Hp]. destruct (net_route_inv _ _ _ _ _ p m Hs Ht Hp Hsz)
      as (s' & -> & Hi & Hin & _). eexists _, _, _, _. split; [done |]. split; [exact Hi |].
    rewrite Hin, length_app. simpl. lia.
  - destruct He as [Ht Hp]. destruct (loop_pop_inv _ _ _ _ _ p Hs Ht Hp) as (s' & -> & Hin & Hi).
    rewrite bind_Ok. eexists _, _, _, _. split; [done |]. split; [exact Hi |]. rewrite Hin. lia.
  - eexists _, gl, H, c. split; [done |]. split; [by apply start_worker_inv |].
    unfold start_worker. destruct (sc_jobs s), (sc_threads s !! t); simpl; lia.
  - destruct (sc_threads s !! t) as [[n [p|]]|] eqn:Et.
    + destruct (decide (n = 0)) as [-> | Hn].
      * destruct (worker_giveback_inv _ _ _ _ _ _ _ Hs Et) as (s' & gl' & H' & -> & Hin & Hi).
        eexists _, _, _, _. split; [done |]. split; [exact Hi |]. rewrite Hin. lia.
      * destruct (worker_pop_inv _ _ _ _ _ _ _ _ Hs Et Hn) as (s' & H' & -> & Hin & Hi).
        eexists _, _, _, _. split; [done |]. split; [exact Hi |]. rewrite Hin. lia.
    + destruct (worker_acquire_inv _ _ _ _ _ _ _ Hs Et) as (s' & gl' & H' & -> & Hin & Hi).
      eexists _, _, _, _. split; [done |]. split; [exact Hi |]. rewrite Hin. lia.
    + unfold worker_step. rewrite Et. eauto 10.
Qed.

Lemma sched_run_inv qs s gl H c es :
  sched_inv qs s gl H c → Forall (event_ok qs) es →
  Z.of_nat (length (sc_in s) + length es) < 2 ^ 29 →
  ∃ s' gl' H' c', sched_run malloc_ok s es = Ok s' ∧ sched_inv qs s' gl' H' c'.
Proof.
  revert s gl H c. induction es as [|e es IH]; intros s gl H c Hs Hes Hsz; cbn [sched_run].
  - eauto 10.
  - apply Forall_cons_1 in Hes as [He Hes]. cbn [length] in Hsz.
    destruct (sched_step_inv _ _ _ _ _ _ Hs He) as (s1 & gl1 & H1 & c1 & -> & Hs1 & Hl); [lia |].
    rewrite bind_Ok. eapply IH; eauto. lia.
Qed.

(** ** From core_init on *)

Context {AQ : Allocator (message_queue M)}.

Lemma create_queues_inv k i st ps st' :
  queues_inv st [] ∅ (λ _, []) → create_queues malloc_ok k i st = Ok (ps, st') →
  queues_inv st' [] ∅ (λ _, []) ∧ (∀ p, is_Some (core st p) ∨ p ∈ ps → is_Some (core st' p)).
Proof.
  revert i st ps. induction k as [|k IH]; intros i st ps Hi Hc; cbn [create_queues] in Hc.
  - inv_bind. split; [done |]. intros p [Hp | Hp]; [done | by apply elem_of_nil in Hp].
  - apply bind_Ok_inv in Hc as ([p st1] & Hp & Hc). unfold skynet_mq_create in Hp.
    destruct (xalloc (st_mqs st)) as [p'|] eqn:Ex; [| done]. injection Hp as -> <-.
    apply bind_Ok_inv in Hc as ([ps1 st2] & Hc & [= <- <-]).
    assert (core_upd st (mkSt (<[p := new_queue malloc_ok i]> (st_mqs st)) (st_Q st)) p
      (new_queue malloc_ok i)) as Hcu
      by (intros r; exact (core_insert st (st_Q st) p (new_queue malloc_ok i) r)).
    destruct (IH (i + 1) (mkSt (<[p := new_queue malloc_ok i]> (st_mqs st)) (st_Q st)) ps1) as [Hi' Ha];
      [| done |].
    + eapply (queues_inv_ext _ _ _ (upd (λ _, []) p [])).
      { intros r. unfold upd. by case_decide. }
      eapply queues_inv_upd; eauto using new_queue_rep.
      * destruct (qi_gq _ _ _ _ Hi) as (HQ & _ & Hnd & Hnx). split; [done |]. split; [done |].
        split; [done |]. intros r q Hr _. cbn [st_mqs] in Hr.
        apply lookup_insert_Some in Hr as [[_ <-] | [_ Hr]]; [done |].
        eapply Hnx; [exact Hr | apply not_elem_of_nil].
      * intros _. right. split; [done |]. split; [| done]. set_solver.
      * set_solver.
      * set_solver.
    + split; [done |]. intros r [Hr | Hr].
      * apply Ha. left. by eapply core_upd_alloc.
      * apply elem_of_cons in Hr as [-> | Hr]; [| apply Ha; by right].
        apply Ha. left. rewrite Hcu. by rewrite decide_True.
Qed.

Lemma init_queues_inv ps s :
  init_queues malloc_ok = Ok (ps, s) → sched_inv (list_to_set ps) s [] ∅ (λ _, []).
Proof.
  unfold init_queues. intros Hc. apply bind_Ok_inv in Hc as ([ps1 st] & Hc & [= <- <-]).
  apply create_queues_inv in Hc as [Hi Ha].
  - split; cbn [sc_st sc_threads sc_in sc_out]; [done | | done |].
    + split; [set_solver |..]; intros *; rewrite lookup_empty; discriminate.
    + intros p Hp%elem_of_list_to_set. apply Ha. by right.
  - split; try set_solver.
    + split; [done |]. split; [done |]. split; [constructor |]. intros p q Hq. cbn in Hq.
      by rewrite lookup_empty in Hq.
Qed.


End facts.

(** ** Concrete schedules *)

Section runs.
#[local] Instance queue_allocator : Allocator (message_queue Z) := unbounded_allocator.

Definition mem_ok : Z → bool := λ _, true.

(** The queues of EVENT_ECHO, EVENT_SYS and EVENT_NET as core_init allocates
    them here. *)
Definition echo_queue : loc := 2%positive.
Definition sys_queue : loc := 3%positive.
Definition net_queue : loc := 4%positive.

Definition run_from_init (es : list (event Z)) : res (sched Z) :=
  '(_, s) ← init_queues mem_ok; sched_run mem_ok s es.

(** What an observer sees: jobs left, threads at work, packets popped, and
    the state of the echo queue. *)
Definition observe (m : res (sched Z)) : option (nat * nat * list (loc * Z) * option (Z * Z)) :=
  match m with
  | Ok s => Some (sc_jobs s, size (sc_threads s), sc_out s,
              match st_mqs (sc_st s) !! echo_queue with
              | Some q => Some (mq_in_global q, skynet_mq_length q)
              | None => None
              end)
  | Fail _ => None
  end.


(** 101 packets for one queue: a worker holds the queue while the other 100
    jobs find the global queue empty and end; after 100 packets the worker
    gives the queue back and ends. *)
Definition strand_schedule : list (event Z) :=
  replicate 101 (EvTask echo_queue 7) ++ [EvStart 0; EvWorker 0] ++
  concat (replicate 100 [EvStart 1; EvWorker 1]) ++ replicate 101 (EvWorker 0).


(** The main thread pops the queue of EVENT_SYS, which tasks also route to. *)
Definition sys_schedule : list (event Z) :=
  [EvTask sys_queue 1; EvTask echo_queue 2; EvLoopPop sys_queue; EvLoopPop sys_queue;
   EvTask sys_queue 3; EvLoopPop sys_queue; EvLoopPop sys_queue; EvTask sys_queue 4] ++
  concat (replicate 4 (EvStart 0 :: replicate 6 (EvWorker 0))) ++
  [EvTask echo_queue 5] ++ EvStart 0 :: replicate 6 (EvWorker 0).


End runs.
