(* ===== verification/Thpool.v ===== *)
(** The thread pool of lib/thpool.c: the job queue, the binary semaphore and
    the steps of a pool thread, of thpool_add_work, of thpool_wait and of
    thpool_destroy, interleaved at the sections a mutex protects.

    A thread blocked in pthread_cond_wait is a thread whose next step is not
    enabled; a signal makes nothing happen by itself, because bsem_wait tests
    the value again, so only [v] matters.  [tp_added], [tp_started] and
    [tp_done] record the jobs added, pulled and finished; the code keeps no
    such record. *)

From S2P Require Import Prelude Memory.

Local Open Scope Z_scope.

Section thpool.
(** [W]: the function and the argument of a job. *)
Context {W : Type}.

Record job := mkJob { j_prev : option loc; j_work : W }.

Definition set_j_prev (p : option loc) (j : job) := mkJob p (j_work j).

#[export] Instance job_linked : Linked job :=
  {| link := j_prev; set_link := set_j_prev; link_set_link _ _ := eq_refl |}.

Record jobqueue := mkJq {
  jq_front : option loc;
  jq_rear : option loc;
  jq_len : Z;                (* int *)
  jq_v : Z                   (* has_jobs->v *)
}.

(** Where a thread is in thread_do. *)
Inductive thread_at :=
| AtStart                                  (* before it is counted as alive *)
| AtLoop                                   (* at the test of the loop *)
| AtWait                                   (* in bsem_wait *)
| AtWoken                                  (* past bsem_wait *)
| AtCounted                                (* num_threads_working incremented *)
| AtRunning (job_p : option (loc * W))     (* the job pulled, None for NULL *)
| AtRan.                                   (* the job has returned *)

Record thpool := mkPool {
  tp_jobs : gmap loc job;
  tp_queue : jobqueue;
  tp_keepalive : bool;               (* threads_keepalive *)
  tp_alive : Z;                      (* num_threads_alive *)
  tp_working : Z;                    (* num_threads_working *)
  tp_threads : gmap nat thread_at;
  tp_added : list W;
  tp_started : list W;
  tp_done : list W
}.

Context {AJ : Allocator job}.
Implicit Types (q : jobqueue) (P : thpool) (h : gmap loc job).

(** ** The semaphore *)

Definition bsem_post q : jobqueue := mkJq (jq_front q) (jq_rear q) (jq_len q) 1.
Definition bsem_post_all q : jobqueue := mkJq (jq_front q) (jq_rear q) (jq_len q) 1.
Definition bsem_reset q : jobqueue := mkJq (jq_front q) (jq_rear q) (jq_len q) 0.

(** [None]: the caller blocks. *)
Definition bsem_wait q : option jobqueue :=
  if jq_v q =? 1 then Some (mkJq (jq_front q) (jq_rear q) (jq_len q) 0) else None.

(** ** The job queue *)

Definition jobqueue_init : jobqueue := mkJq None None 0 0.

Definition jobqueue_push h q (newjob : loc) : res (gmap loc job * jobqueue) :=
  h ← modify h (Some newjob) (set_j_prev None);
  '(h, q) ← (if jq_len q =? 0 then Ok (h, mkJq (Some newjob) (Some newjob) (jq_len q) (jq_v q))
             else
               h ← modify h (jq_rear q) (set_j_prev (Some newjob));
               Ok (h, mkJq (jq_front q) (Some newjob) (jq_len q) (jq_v q)));
  len ← int_op (jq_len q + 1);
  Ok (h, bsem_post (mkJq (jq_front q) (jq_rear q) len (jq_v q))).

Definition jobqueue_pull h q : res (option loc * jobqueue) :=
  let job_p := jq_front q in
  if jq_len q =? 0 then Ok (job_p, q)
  else if jq_len q =? 1 then Ok (job_p, mkJq None None 0 (jq_v q))
  else
    j ← load h job_p;
    Ok (job_p, bsem_post (mkJq (j_prev j) (jq_rear q) (jq_len q - 1) (jq_v q))).

(** [while (len) free(jobqueue_pull(...));] *)
Fixpoint clear_jobs (k : nat) h q : res (gmap loc job * jobqueue) :=
  match k with
  | O => Fail OutOfFuel
  | S k =>
      if jq_len q =? 0 then Ok (h, q)
      else
        '(p, q) ← jobqueue_pull h q;
        h ← release h p;
        clear_jobs k h q
  end.

Definition jobqueue_clear h q : res (gmap loc job * jobqueue) :=
  '(h, q) ← clear_jobs (S (Z.to_nat (jq_len q))) h q;
  Ok (h, mkJq None None 0 0).

(** ** thpool_add_work *)

(** The return value is -1 when the job cannot be allocated. *)
Definition thpool_add_work P (w : W) : res (Z * thpool) :=
  match xalloc (tp_jobs P) with
  | None => Ok (-1, P)
  | Some newjob =>
      '(h, q) ← jobqueue_push (<[newjob := mkJob None w]> (tp_jobs P)) (tp_queue P) newjob;
      Ok (0, mkPool h q (tp_keepalive P) (tp_alive P) (tp_working P) (tp_threads P)
               (tp_added P ++ [w]) (tp_started P) (tp_done P))
  end.

(** ** thread_do *)

Definition set_thread P (t : nat) (a : thread_at) : thpool :=
  mkPool (tp_jobs P) (tp_queue P) (tp_keepalive P) (tp_alive P) (tp_working P)
    (<[t := a]> (tp_threads P)) (tp_added P) (tp_started P) (tp_done P).
Definition set_counts P (alive working : Z) : thpool :=
  mkPool (tp_jobs P) (tp_queue P) (tp_keepalive P) alive working (tp_threads P)
    (tp_added P) (tp_started P) (tp_done P).
Definition set_queue P q : thpool :=
  mkPool (tp_jobs P) q (tp_keepalive P) (tp_alive P) (tp_working P) (tp_threads P)
    (tp_added P) (tp_started P) (tp_done P).

(** The thread leaves the loop: it is no longer alive. *)
Definition thread_exit P (t : nat) : thpool :=
  mkPool (tp_jobs P) (tp_queue P) (tp_keepalive P) (tp_alive P - 1) (tp_working P)
    (delete t (tp_threads P)) (tp_added P) (tp_started P) (tp_done P).

(** The next step of the thread [t]; a blocked thread stays where it is. *)
Definition thread_do P (t : nat) : res thpool :=
  match tp_threads P !! t with
  | None => Ok P
  | Some AtStart => Ok (set_thread (set_counts P (tp_alive P + 1) (tp_working P)) t AtLoop)
  | Some AtLoop => if tp_keepalive P then Ok (set_thread P t AtWait) else Ok (thread_exit P t)
  | Some AtWait =>
      match bsem_wait (tp_queue P) with
      | Some q => Ok (set_thread (set_queue P q) t AtWoken)
      | None => Ok P
      end
  | Some AtWoken =>
      if tp_keepalive P
      then Ok (set_thread (set_counts P (tp_alive P) (tp_working P + 1)) t AtCounted)
      else Ok (set_thread P t AtLoop)
  | Some AtCounted =>
      '(job_p, q) ← jobqueue_pull (tp_jobs P) (tp_queue P);
      match job_p with
      | None => Ok (set_thread (set_queue P q) t (AtRunning None))
      | Some p =>
          j ← load (tp_jobs P) job_p;
          Ok (mkPool (tp_jobs P) q (tp_keepalive P) (tp_alive P) (tp_working P)
                (<[t := AtRunning (Some (p, j_work j))]> (tp_threads P))
                (tp_added P) (tp_started P ++ [j_work j]) (tp_done P))
      end
  | Some (AtRunning None) => Ok (set_thread P t AtRan)
  | Some (AtRunning (Some (p, w))) =>
      h ← release (tp_jobs P) (Some p);
      Ok (mkPool h (tp_queue P) (tp_keepalive P) (tp_alive P) (tp_working P)
            (<[t := AtRan]> (tp_threads P)) (tp_added P) (tp_started P) (tp_done P ++ [w]))
  | Some AtRan => Ok (set_thread (set_counts P (tp_alive P) (tp_working P - 1)) t AtLoop)
  end.

(** ** thpool_init, thpool_wait, thpool_destroy *)

(** The pool with [n] threads created, none of which has run. *)
Definition thpool_init (num_threads : Z) : thpool :=
  let n := if num_threads <? 0 then 0 else num_threads in
  mkPool ∅ jobqueue_init true 0 0
    (list_to_map ((λ t, (t, AtStart)) <$> seq 0 (Z.to_nat n))) [] [] [].

(** The condition under which thpool_wait returns. *)
Definition thpool_idle P : bool := (jq_len (tp_queue P) =? 0) && (tp_working P =? 0).

(** The two kinds of step of thpool_destroy before the threads are gone. *)
Definition destroy_begin P : thpool :=
  mkPool (tp_jobs P) (tp_queue P) false (tp_alive P) (tp_working P) (tp_threads P)
    (tp_added P) (tp_started P) (tp_done P).
Definition destroy_poll P : thpool := set_queue P (bsem_post_all (tp_queue P)).

(** The semaphore of the queue is freed with the jobs that were not pulled. *)
Definition jobqueue_destroy h q : res (gmap loc job) := '(h, _) ← jobqueue_clear h q; Ok h.

(** The end of thpool_destroy: the jobs that are left, once no thread is alive;
    before that it polls. *)
Definition destroy_end P : res (option (gmap loc job)) :=
  if tp_alive P =? 0 then Some <$> jobqueue_destroy (tp_jobs P) (tp_queue P) else Ok None.

Inductive pool_event :=
| PAdd (w : W)
| PThread (t : nat)
| PDestroy
| PPoll.

Definition pool_step P (e : pool_event) : res thpool :=
  match e with
  | PAdd w => '(_, P) ← thpool_add_work P w; Ok P
  | PThread t => thread_do P t
  | PDestroy => Ok (destroy_begin P)
  | PPoll => Ok (if tp_keepalive P then P else destroy_poll P)
  end.

Fixpoint pool_run P (es : list pool_event) : res thpool :=
  match es with
  | [] => Ok P
  | e :: es => P ← pool_step P e; pool_run P es
  end.

End thpool.

Global Arguments job : clear implicits.
Global Arguments thpool : clear implicits.
Global Arguments thread_at : clear implicits.
Global Arguments pool_event : clear implicits.
