(* ===== verification/ThpoolFacts.v ===== *)
(** Correctness of the thread pool of Thpool.v for every interleaving: jobs
    start in the order they were added, run once, are not forgotten while
    threads sleep, and thpool_wait returns only when all of them are done. *)

From S2P Require Import Prelude Memory Thpool.

Local Open Scope Z_scope.

Section facts.
Context {W : Type} {AJ : Allocator (job W)}.
Implicit Types (P : thpool W) (h : gmap loc (job W)) (q : jobqueue) (js : list loc).

(** ** The job queue *)

(** The queue links the jobs [js], whose work is [ws]. *)
Definition queue_rep h q js (ws : list W) : Prop :=
  NoDup js ∧ chain h js None ∧ jq_front q = first_ptr js None ∧ jq_rear q = last js ∧
  jq_len q = Z.of_nat (length js) ∧ Forall2 (λ p w, ∃ n, h !! p = Some (mkJob n w)) js ws.

Lemma queue_rep_frame h h' q js ws :
  (∀ p, p ∈ js → h' !! p = h !! p) → queue_rep h q js ws → queue_rep h' q js ws.
Proof.
  intros Hf (Hnd & Hc & Hfr & Hr & Hl & Hw). split; [done |]. split; [by eapply chain_frame |].
  split; [done |]. split; [done |]. split; [done |].
  clear -Hf Hw. induction Hw as [|p w js ws Hp Hw IH]; constructor.
  - rewrite Hf by (by left). done.
  - apply IH. intros r Hr. apply Hf. by right.
Qed.

Lemma works_insert h js ws p j :
  p ∉ js → Forall2 (λ p w, ∃ n, h !! p = Some (mkJob n w)) js ws →
  Forall2 (λ r w, ∃ n, <[p := j]> h !! r = Some (mkJob n w)) js ws.
Proof.
  intros Hp Hw. induction Hw as [|r w js ws [n Hr] Hw IH]; constructor.
  - exists n. rewrite lookup_insert_ne by set_solver. done.
  - apply IH. set_solver.
Qed.

Lemma jobqueue_push_rep h q js ws p w n :
  queue_rep h q js ws → h !! p = Some (mkJob n w) → p ∉ js → Z.of_nat (length js) < 2 ^ 31 - 1 →
  ∃ h' q', jobqueue_push h q p = Ok (h', q') ∧ queue_rep h' q' (js ++ [p]) (ws ++ [w]) ∧ jq_v q' = 1 ∧
    (∀ r, r ∉ p :: js → h' !! r = h !! r).
Proof.
  intros (Hnd & Hc & Hf & Hr & Hl & Hw) Hp Hpn Hsz. unfold jobqueue_push.
  rewrite (modify_Some _ _ _ _ Hp), bind_Ok. set (h1 := <[p := _]> h).
  assert (NoDup (js ++ [p])) as Hnd'.
  { apply NoDup_app. split; [done |]. split; [set_solver | apply NoDup_singleton]. }
  assert (chain h1 js None) as Hc1 by (by apply chain_insert).
  assert (h1 !! p = Some (mkJob None w)) as Hp1 by (unfold h1; by rewrite lookup_insert_eq).
  pose proof (works_insert h js ws p (mkJob None w) Hpn Hw) as Hw1. change (<[p := mkJob None w]> h) with h1 in Hw1.
  destruct js as [|x js' _] using rev_ind.
  - apply Forall2_nil_inv_l in Hw as ->. rewrite Hl. cbn [length Z.of_nat]. rewrite Z.eqb_refl, bind_Ok.
    cbn [jq_len jq_front jq_rear jq_v]. rewrite int_op_Ok, bind_Ok by lia.
    eexists _, _. split; [reflexivity |]. split; [| split; [done |]].
    + split; [done |]. split; [by split; [eauto |] |]. split; [done |]. split; [done |]. split; [done |].
      constructor; [eauto | constructor].
    + intros r Hr'. apply lookup_insert_ne. set_solver.
  - rewrite length_app in Hl. cbn [length] in Hl.
    rewrite (proj2 (Z.eqb_neq (jq_len q) 0)) by lia. rewrite Hr, last_snoc.
    pose proof Hc1 as [_ [(nx & Hx & _) _]]%chain_app.
    rewrite (modify_Some _ _ _ _ Hx), !bind_Ok. cbn [jq_len jq_front jq_rear jq_v].
    rewrite length_app in Hsz. cbn [length] in Hsz. rewrite int_op_Ok, bind_Ok by lia.
    assert (x ≠ p) as Hxp by set_solver. eexists _, _. split; [reflexivity |]. split; [| split; [done |]].
    + split; [done |]. split.
      { apply chain_app. split.
        - exact (chain_snoc_relink h1 js' x None (Some p) nx Hnd Hc1 Hx).
        - split; [| done]. exists (mkJob None w). by rewrite lookup_insert_ne. }
      cbn [bsem_post jq_front jq_rear jq_len jq_v].
      split; [rewrite Hf, !first_ptr_app; by destruct js' |]. split; [by rewrite last_snoc |].
      split; [rewrite !length_app; cbn [length]; lia |]. apply Forall2_app.
      * apply Forall2_app_inv_l in Hw1 as (ws1 & ws2 & Hw1 & Hw2 & ->). apply Forall2_app.
        { apply works_insert; [| done]. apply NoDup_app in Hnd as (_ & Hd & _). intros Hin.
          apply (Hd x Hin). set_solver. }
        inversion_clear Hw2 as [|? wx ? ? [m Hm] Hw3]. inversion_clear Hw3. constructor; [| constructor].
        simplify_eq. exists (Some p). by rewrite lookup_insert_eq.
      * constructor; [| constructor]. exists None. by rewrite lookup_insert_ne.
    + intros r Hr'. rewrite lookup_insert_ne by set_solver. apply lookup_insert_ne. set_solver.
Qed.

Lemma jobqueue_pull_empty h q ws : queue_rep h q [] ws → jobqueue_pull h q = Ok (None, q).
Proof.
  intros (_ & _ & Hf & _ & Hl & _). unfold jobqueue_pull. by rewrite Hl, Hf.
Qed.

Lemma jobqueue_pull_rep h q p js ws :
  queue_rep h q (p :: js) ws →
  ∃ q' w ws' n, ws = w :: ws' ∧ jobqueue_pull h q = Ok (Some p, q') ∧ queue_rep h q' js ws' ∧
    h !! p = Some (mkJob n w) ∧ jq_v q' = (if decide (js = []) then jq_v q else 1).
Proof.
  intros ([Hp Hnd]%NoDup_cons & [(n & Hn & Hl) Hc] & Hf & Hr & Hlen & Hw).
  inversion Hw as [|? w ? ws' [m Hm] Hw']; subst. unfold jobqueue_pull. rewrite Hlen, Hf.
  rewrite Hn in Hm. simplify_eq. cbn [link j_prev job_linked] in Hl. subst m.
  destruct js as [|r js].
  - apply Forall2_nil_inv_l in Hw' as ->. cbn. eexists _, w, [], _. split; [done |]. split; [reflexivity |].
    split; [| done]. split; [constructor |]. split; [done |]. by repeat split.
  - cbn [length]. rewrite (proj2 (Z.eqb_neq _ 0)), (proj2 (Z.eqb_neq _ 1)) by lia.
    cbn [first_ptr]. rewrite (load_Some _ _ _ Hn), bind_Ok. cbn [j_prev].
    eexists _, w, ws', _. split; [done |]. split; [reflexivity |]. split; [| split; [exact Hn | done]].
    split; [done |]. split; [done |]. cbn [bsem_post jq_front jq_rear jq_len]. split; [done |].
    split; [by rewrite Hr |]. split; [cbn [length]; lia | done].
Qed.

(** ** The pool *)

Implicit Types (th : gmap nat (thread_at W)).

(** The job a thread runs, its object, whether the thread counts as working. *)
Definition running (a : thread_at W) : list W :=
  match a with AtRunning (Some (_, w)) => [w] | _ => [] end.
Definition holding (a : thread_at W) : list loc :=
  match a with AtRunning (Some (p, _)) => [p] | _ => [] end.
Definition busy (a : thread_at W) : list unit :=
  match a with AtCounted | AtRunning _ | AtRan => [tt] | _ => [] end.

(** Some thread is past the semaphore and will look at the queue. *)
Definition awake th : Prop := ∃ t, th !! t = Some AtWoken ∨ th !! t = Some AtCounted.

Record pool_inv P js (ws : list W) : Prop := {
  pi_queue : queue_rep (tp_jobs P) (tp_queue P) js ws;
  pi_order : tp_added P = tp_started P ++ ws;
  pi_done : tp_started P ≡ₚ tp_done P ++ total running (tp_threads P);
  pi_busy : tp_working P = Z.of_nat (length (total busy (tp_threads P)));
  pi_wake : tp_keepalive P = true → js ≠ [] → jq_v (tp_queue P) = 1 ∨ awake (tp_threads P);
  pi_objects : NoDup (js ++ total holding (tp_threads P));
  pi_alloc p : p ∈ total holding (tp_threads P) → is_Some (tp_jobs P !! p)
}.

Lemma awake_insert th t a b :
  th !! t = Some a → a ≠ AtWoken → a ≠ AtCounted → awake th → awake (<[t := b]> th).
Proof.
  intros Ht H1 H2 [t' Ht']. exists t'. destruct (decide (t' = t)) as [-> | Hne].
  - rewrite Ht in Ht'. destruct Ht' as [[= ->] | [= ->]]; done.
  - by rewrite lookup_insert_ne.
Qed.

Lemma jobs_bound P js ws : pool_inv P js ws → (length js ≤ length (tp_added P))%nat.
Proof.
  intros [Hq Ho _ _ _ _ _]. destruct Hq as (_ & _ & _ & _ & _ & Hw). rewrite Ho, length_app.
  apply Forall2_length in Hw. lia.
Qed.

(** A step of a thread that neither touches the queue nor a job. *)
Lemma pool_inv_move P js ws t a b alive :
  pool_inv P js ws → tp_threads P !! t = Some a →
  running b = running a → holding b = holding a →
  (tp_keepalive P = true → a ≠ AtWoken ∧ a ≠ AtCounted ∨ b = AtCounted) →
  pool_inv (set_thread (set_counts P alive
    (tp_working P + Z.of_nat (length (busy b)) - Z.of_nat (length (busy a)))) t b) js ws.
Proof.
  intros [Hq Ho Hd Hb Hw Hob Hal] Ht Hr Hh Hk.
  split; cbn [set_thread set_counts tp_jobs tp_queue tp_keepalive tp_working tp_threads tp_added
    tp_started tp_done]; auto.
  - by rewrite (total_step running _ t a b Ht Hr).
  - rewrite (total_insert busy), length_app. rewrite Hb, (total_delete busy _ t a Ht), length_app. lia.
  - intros Hka Hjs. destruct (Hw Hka Hjs) as [? | Haw]; [by left | right].
    destruct (Hk Hka) as [[H1 H2] | ->]; [by eapply awake_insert |].
    exists t. right. apply lookup_insert_eq.
  - by rewrite (total_step holding _ t a b Ht Hh).
  - intros p. rewrite (total_step holding _ t a b Ht Hh). auto.
Qed.

Lemma pool_inv_queue P js ws q' :
  pool_inv P js ws → jq_front q' = jq_front (tp_queue P) → jq_rear q' = jq_rear (tp_queue P) →
  jq_len q' = jq_len (tp_queue P) →
  (tp_keepalive P = true → js ≠ [] → jq_v q' = 1 ∨ awake (tp_threads P)) →
  pool_inv (set_queue P q') js ws.
Proof.
  intros [Hq Ho Hd Hb Hw Hob Hal] Hf Hr Hl Hv.
  split; cbn [set_queue tp_jobs tp_queue tp_keepalive tp_working tp_threads tp_added
    tp_started tp_done]; auto.
  unfold queue_rep in *. by rewrite Hf, Hr, Hl.
Qed.

(** The thread takes the semaphore. *)
Lemma wait_inv P js ws t :
  pool_inv P js ws → tp_threads P !! t = Some AtWait →
  ∃ P', thread_do P t = Ok P' ∧ pool_inv P' js ws ∧ tp_added P' = tp_added P.
Proof.
  intros Hi Ht. unfold thread_do. rewrite Ht. unfold bsem_wait.
  destruct (jq_v (tp_queue P) =? 1); [| by exists P].
  eexists. split; [reflexivity |]. split; [| done]. destruct Hi as [Hq Ho Hd Hb Hw Hob Hal].
  split; cbn [set_thread set_queue tp_jobs tp_queue tp_keepalive tp_working tp_threads tp_added
    tp_started tp_done]; auto.
  - by rewrite (total_step running _ t _ AtWoken Ht).
  - rewrite Hb. f_equal. apply Permutation_length. symmetry. by apply (total_step busy _ t _ AtWoken Ht).
  - intros _ _. right. exists t. left. apply lookup_insert_eq.
  - by rewrite (total_step holding _ t _ AtWoken Ht).
  - intros p. rewrite (total_step holding _ t _ AtWoken Ht); auto.
Qed.

Lemma pull_inv P js ws t :
  pool_inv P js ws → tp_threads P !! t = Some AtCounted →
  ∃ P' js' ws', thread_do P t = Ok P' ∧ pool_inv P' js' ws' ∧ tp_added P' = tp_added P.
Proof.
  intros [Hq Ho Hd Hb Hw Hob Hal] Ht. unfold thread_do. rewrite Ht. destruct js as [|p js].
  - rewrite (jobqueue_pull_empty _ _ _ Hq), bind_Ok. eexists _, [], ws. split; [reflexivity |]. split; [| done].
    split; cbn [set_thread set_queue tp_jobs tp_queue tp_keepalive tp_working tp_threads tp_added
      tp_started tp_done]; auto.
    + by rewrite (total_step running _ t _ (AtRunning None) Ht).
    + rewrite Hb. f_equal. apply Permutation_length. symmetry. by apply (total_step busy _ t _ _ Ht).
    + done.
    + by rewrite (total_step holding _ t _ (AtRunning None) Ht).
    + intros p. rewrite (total_step holding _ t _ (AtRunning None) Ht); auto.
  - destruct (jobqueue_pull_rep _ _ _ _ _ Hq) as (q' & w & ws' & n & -> & -> & Hq' & Hp & Hv).
    rewrite bind_Ok, (load_Some _ _ _ Hp), bind_Ok. cbn [j_work].
    eexists _, js, ws'. split; [reflexivity |]. split; [| done].
    pose proof (total_insert holding (tp_threads P) t (AtRunning (Some (p, w)))) as Hho.
    pose proof (total_delete holding (tp_threads P) t _ Ht) as Hho'. cbn [holding app] in Hho, Hho'.
    split; cbn [tp_jobs tp_queue tp_keepalive tp_working tp_threads tp_added tp_started tp_done]; auto.
    + by rewrite Ho, <- app_assoc.
    + rewrite (total_insert running), Hd, (total_delete running _ t _ Ht). cbn [running app].
      rewrite <- app_assoc. apply Permutation_app_head. apply Permutation_app_comm.
    + rewrite Hb. f_equal. apply Permutation_length. symmetry. by apply (total_step busy _ t _ _ Ht).
    + intros _ Hjs. left. by rewrite Hv, decide_False.
    + rewrite Hho. rewrite Hho' in Hob. by rewrite <- Permutation_middle.
    + intros r. rewrite Hho. intros [-> | Hr]%elem_of_cons; [eauto |]. apply Hal. by rewrite Hho'.
Qed.

Lemma finish_inv P js ws t p w :
  pool_inv P js ws → tp_threads P !! t = Some (AtRunning (Some (p, w))) →
  ∃ P', thread_do P t = Ok P' ∧ pool_inv P' js ws ∧ tp_added P' = tp_added P.
Proof.
  intros [Hq Ho Hd Hb Hw Hob Hal] Ht. unfold thread_do. rewrite Ht.
  pose proof (total_delete holding (tp_threads P) t _ Ht) as Hho'.
  pose proof (total_insert holding (tp_threads P) t AtRan) as Hho. cbn [holding app] in Hho, Hho'.
  destruct (Hal p) as [j Hj]; [rewrite Hho'; by left |].
  rewrite (release_Some _ _ _ Hj), bind_Ok. eexists. split; [reflexivity |]. split; [| done].
  rewrite Hho', <- Permutation_middle in Hob. apply NoDup_cons in Hob as [Hpn Hob].
  rewrite elem_of_app in Hpn.
  split; cbn [tp_jobs tp_queue tp_keepalive tp_working tp_threads tp_added tp_started tp_done]; auto.
  - apply (queue_rep_frame (tp_jobs P)); [| done]. intros r Hr. apply lookup_delete_ne. intros ->. tauto.
  - rewrite (total_insert running), Hd, (total_delete running _ t _ Ht). cbn [running app].
    rewrite <- app_assoc. done.
  - rewrite Hb. f_equal. apply Permutation_length. symmetry. by apply (total_step busy _ t _ _ Ht).
  - intros Hka Hjs. destruct (Hw Hka Hjs) as [? | Haw]; [by left | right]. by eapply awake_insert.
  - by rewrite Hho.
  - intros r. rewrite Hho. intros Hr. rewrite lookup_delete_ne by (intros ->; tauto).
    apply Hal. rewrite Hho'. by right.
Qed.

Lemma add_inv P js ws w :
  pool_inv P js ws → Z.of_nat (length (tp_added P)) < 2 ^ 31 - 1 →
  ∃ r P' js' ws', thpool_add_work P w = Ok (r, P') ∧ pool_inv P' js' ws' ∧
    (length (tp_added P') ≤ S (length (tp_added P)))%nat.
Proof.
  intros Hi Hsz. pose proof (jobs_bound _ _ _ Hi) as Hb'. unfold thpool_add_work.
  destruct (xalloc (tp_jobs P)) as [p|] eqn:Hx; [| exists (-1), P, js, ws; auto].
  apply xalloc_fresh in Hx. destruct Hi as [Hq Ho Hd Hb Hw Hob Hal].
  assert (p ∉ js) as Hpj.
  { destruct Hq as (_ & Hc & _). intros Hin. destruct (chain_lookup _ _ _ _ Hc Hin). congruence. }
  assert (p ∉ total holding (tp_threads P)) as Hph by (intros Hin; destruct (Hal p Hin); congruence).
  destruct (jobqueue_push_rep (<[p := mkJob None w]> (tp_jobs P)) (tp_queue P) js ws p w None)
    as (h' & q' & -> & Hq' & Hv & Hfr).
  { apply (queue_rep_frame (tp_jobs P)); [| done]. intros r Hr. apply lookup_insert_ne. set_solver. }
  { apply lookup_insert_eq. } { done. } { lia. }
  rewrite bind_Ok. eexists 0, _, (js ++ [p]), (ws ++ [w]). split; [reflexivity |].
  split; [| cbn [tp_added]; rewrite length_app; cbn [length]; lia].
  split; cbn [tp_jobs tp_queue tp_keepalive tp_working tp_threads tp_added tp_started tp_done]; auto.
  - by rewrite Ho, app_assoc.
  - rewrite <- app_assoc. cbn [app]. rewrite <- Permutation_middle. apply NoDup_cons.
    split; [| done]. rewrite elem_of_app. tauto.
  - intros r Hr. rewrite Hfr.
    + rewrite lookup_insert_ne by set_solver. auto.
    + apply NoDup_app in Hob as (_ & Hdis & _). intros [-> | Hin]%elem_of_cons; [done |].
      by apply (Hdis r Hin).
Qed.

Lemma thread_inv P js ws t :
  pool_inv P js ws →
  ∃ P' js' ws', thread_do P t = Ok P' ∧ pool_inv P' js' ws' ∧ tp_added P' = tp_added P.
Proof.
  intros Hi. destruct (tp_threads P !! t) as [a|] eqn:Ht;
    [| unfold thread_do; rewrite Ht; by exists P, js, ws].
  destruct a as [| | | | |[[p w]|]|].
  - pose proof (pool_inv_move P js ws t _ AtLoop (tp_alive P + 1) Hi Ht eq_refl eq_refl) as Hm.
    unfold thread_do. rewrite Ht. cbn [busy length Z.of_nat] in Hm. rewrite Z.add_0_r, Z.sub_0_r in Hm.
    eexists _, js, ws. split; [reflexivity |]. split; [apply Hm; by left | done].
  - unfold thread_do. rewrite Ht. destruct (tp_keepalive P) eqn:Hk.
    + pose proof (pool_inv_move P js ws t _ AtWait (tp_alive P) Hi Ht eq_refl eq_refl) as Hm.
      cbn [busy length Z.of_nat] in Hm. rewrite Z.add_0_r, Z.sub_0_r in Hm.
      eexists _, js, ws. split; [reflexivity |]. split; [apply Hm; by left | done].
    + destruct Hi as [Hq Ho Hd Hb Hw Hob Hal]. eexists _, js, ws. split; [reflexivity |]. split; [| done].
      split; cbn [thread_exit tp_jobs tp_queue tp_keepalive tp_working tp_threads tp_added tp_started
        tp_done]; auto.
      * by rewrite Hd, (total_delete running _ t _ Ht).
      * by rewrite Hb, (total_delete busy _ t _ Ht).
      * congruence.
      * by rewrite (total_delete holding _ t _ Ht) in Hob.
      * intros p Hp. apply Hal. by rewrite (total_delete holding _ t _ Ht).
  - destruct (wait_inv P js ws t Hi Ht) as (P' & ? & ? & ?). eauto 10.
  - unfold thread_do. rewrite Ht. destruct (tp_keepalive P) eqn:Hk.
    + pose proof (pool_inv_move P js ws t _ AtCounted (tp_alive P) Hi Ht eq_refl eq_refl) as Hm.
      cbn [busy length Z.of_nat] in Hm. rewrite Z.sub_0_r in Hm.
      eexists _, js, ws. split; [reflexivity |]. split; [apply Hm; by right | done].
    + pose proof (pool_inv_move P js ws t _ AtLoop (tp_alive P) Hi Ht eq_refl eq_refl) as Hm.
      cbn [busy length Z.of_nat] in Hm. rewrite Z.add_0_r, Z.sub_0_r in Hm.
      eexists _, js, ws. split; [reflexivity |]. split; [apply Hm; congruence | done].
  - by eapply pull_inv.
  - destruct (finish_inv P js ws t p w Hi Ht) as (P' & ? & ? & ?). eauto 10.
  - pose proof (pool_inv_move P js ws t _ AtRan (tp_alive P) Hi Ht eq_refl eq_refl) as Hm.
    unfold thread_do. rewrite Ht. cbn [busy length Z.of_nat] in Hm. rewrite Z.add_simpl_r in Hm.
    eexists _, js, ws. split; [reflexivity |]. split; [apply Hm; by left | done].
  - pose proof (pool_inv_move P js ws t _ AtLoop (tp_alive P) Hi Ht eq_refl eq_refl) as Hm.
    unfold thread_do. rewrite Ht. cbn [busy length Z.of_nat] in Hm. rewrite Z.add_0_r in Hm.
    eexists _, js, ws. split; [reflexivity |]. split; [apply Hm; by left | done].
Qed.

Lemma pool_step_inv P js ws e :
  pool_inv P js ws → Z.of_nat (length (tp_added P)) < 2 ^ 31 - 1 →
  ∃ P' js' ws', pool_step P e = Ok P' ∧ pool_inv P' js' ws' ∧
    (length (tp_added P') ≤ S (length (tp_added P)))%nat.
Proof.
  intros Hi Hsz. destruct e as [w|t| |]; cbn [pool_step].
  - destruct (add_inv P js ws w Hi Hsz) as (r & P' & js' & ws' & -> & ? & ?). rewrite bind_Ok. eauto 10.
  - destruct (thread_inv P js ws t Hi) as (P' & js' & ws' & -> & ? & Ha). exists P', js', ws'.
    rewrite Ha. auto with lia.
  - eexists _, js, ws. split; [reflexivity |]. split; [| cbn; lia].
    destruct Hi. split; cbn [destroy_begin tp_jobs tp_queue tp_keepalive tp_working tp_threads tp_added
      tp_started tp_done]; auto. congruence.
  - destruct (tp_keepalive P) eqn:Hk; [exists P, js, ws; auto |].
    eexists _, js, ws. split; [reflexivity |]. split; [| cbn; lia].
    apply pool_inv_queue; auto.
Qed.

Lemma pool_run_inv P js ws es :
  pool_inv P js ws → Z.of_nat (length (tp_added P) + length es) < 2 ^ 31 - 1 →
  ∃ P' js' ws', pool_run P es = Ok P' ∧ pool_inv P' js' ws'.
Proof.
  revert P js ws. induction es as [|e es IH]; intros P js ws Hi Hsz; cbn [pool_run]; [eauto |].
  cbn [length] in Hsz. destruct (pool_step_inv P js ws e Hi) as (P1 & js1 & ws1 & -> & Hi1 & Hl); [lia |].
  rewrite bind_Ok. eapply IH; [exact Hi1 | lia].
Qed.

Lemma init_inv n : pool_inv (thpool_init n) [] [].
Proof.
  unfold thpool_init. generalize (if n <? 0 then 0 else n). clear n. intros n.
  assert (∀ X (f : thread_at W → list X) , f AtStart = [] → total f
    (list_to_map ((λ t, (t, AtStart)) <$> seq 0 (Z.to_nat n))) = []) as Ht.
  { intros X f Hf. destruct (total f _) as [|x l] eqn:E; [done |].
    destruct (total_elem f (list_to_map ((λ t, (t, AtStart)) <$> seq 0 (Z.to_nat n))) x)
      as (t & a & Hta & Hx); [rewrite E; by left |].
    apply elem_of_list_to_map_2, list_elem_of_fmap in Hta as (t' & [= -> ->] & _).
    rewrite Hf in Hx. by apply elem_of_nil in Hx. }
  split; cbn [tp_jobs tp_queue tp_keepalive tp_working tp_threads tp_added tp_started tp_done];
    rewrite ?Ht by done; auto.
  - split; [constructor |]. split; [done |]. by repeat split.
  - done.
  - constructor.
  - intros p Hp. by apply elem_of_nil in Hp.
Qed.

(** C11: For a pool of any number of threads and any interleaving of
    thpool_add_work, thread steps and thpool_destroy: no step faults; jobs are
    started in the order they were added and none twice; while the pool is
    kept alive, a waiting job means the semaphore is up or a thread is on its
    way to the queue, so no wake-up is lost; and whenever the condition
    thpool_wait waits for holds, every job added has finished. *)
Theorem thpool_runs_every_job (n : Z) (es : list (pool_event W)) :
  Z.of_nat (length es) < 2 ^ 31 - 1 →
  ∃ P ws, pool_run (thpool_init n) es = Ok P ∧ tp_added P = tp_started P ++ ws ∧
    tp_started P ≡ₚ tp_done P ++ total running (tp_threads P) ∧
    jq_len (tp_queue P) = Z.of_nat (length ws) ∧
    (tp_keepalive P = true → 0 < jq_len (tp_queue P) →
       jq_v (tp_queue P) = 1 ∨ awake (tp_threads P)) ∧
    (thpool_idle P = true → tp_done P ≡ₚ tp_added P).
Proof.
  intros Hsz. destruct (pool_run_inv _ _ _ es (init_inv n)) as (P & js & ws & He & [Hq Ho Hd Hb Hw _ _]);
    [cbn [thpool_init tp_added length]; lia |].
  destruct Hq as (_ & _ & _ & _ & Hlen & Hworks). apply Forall2_length in Hworks.
  exists P, ws. split; [done |]. split; [done |]. split; [done |]. split; [lia |]. split.
  - intros Hk Hl. apply Hw; [done |]. intros ->. cbn in Hlen. lia.
  - unfold thpool_idle. rewrite andb_true_iff, !Z.eqb_eq. intros [H0 H1].
    assert (ws = []) as -> by (apply length_zero_iff_nil; lia).
    rewrite Ho, app_nil_r, Hd. replace (total running (tp_threads P)) with ([] : list W);
      [by rewrite app_nil_r |].
    destruct (total running (tp_threads P)) as [|w l] eqn:E; [done |].
    destruct (total_elem running (tp_threads P) w) as (t & a & Ht & Hx); [rewrite E; by left |].
    exfalso. assert (tt ∈ total busy (tp_threads P)) as Hin.
    { eapply total_member; [exact Ht |]. destruct a as [| | | | |[[]|]|]; cbn in Hx |- *; by apply elem_of_nil in Hx || left. }
    destruct (total busy (tp_threads P)); [by apply elem_of_nil in Hin |]. cbn in Hb. lia.
Qed.

End facts.

Lemma thpool_runs_every_job_witness :
  ∃ P ws, pool_run (AJ := unbounded_allocator) (thpool_init 2)
      [PThread 0; PThread 1; PThread 0; PAdd 7; PThread 1; PThread 1; PAdd 8; PThread 1; PThread 0; PThread 1;
       PThread 1; PThread 1] = Ok P ∧ tp_added P = tp_started P ++ ws ∧
    tp_started P ≡ₚ tp_done P ++ total running (tp_threads P) ∧
    jq_len (tp_queue P) = Z.of_nat (length ws) ∧
    (tp_keepalive P = true → 0 < jq_len (tp_queue P) →
       jq_v (tp_queue P) = 1 ∨ awake (tp_threads P)) ∧
    (thpool_idle P = true → tp_done P ≡ₚ tp_added P).
Proof.
  apply (thpool_runs_every_job (AJ := unbounded_allocator) 2). reflexivity.
Defined.
