(* ===== verification/ThpoolEnd.v ===== *)
(** The end of a thread pool: after thpool_destroy has cleared threads_keepalive,
    polling the semaphore lets every thread leave its loop, and the jobs that were
    never pulled are freed. *)

From S2P Require Import Prelude Memory Thpool ThpoolFacts.

Local Open Scope Z_scope.

Section ending.
Context {W : Type} {AJ : Allocator (job W)}.
Implicit Types (P : thpool W) (h : gmap loc (job W)) (q : jobqueue) (js : list loc) (t : nat).

(** ** What the counters count *)

Definition started (a : thread_at W) : list unit := match a with AtStart => [] | _ => [tt] end.

(** The threads that are alive, and the job objects: one for each job that was
    added and has not finished. *)
Record counted P : Prop := {
  co_alive : tp_alive P = Z.of_nat (length (total started (tp_threads P)));
  co_jobs : (size (tp_jobs P) + length (tp_done P) = length (tp_added P))%nat
}.

Lemma modify_size h x f h' : modify h x f = Ok h' → size h' = size h.
Proof.
  unfold modify. destruct x as [x |]; [| done]. destruct (h !! x) as [j |] eqn:Hx; [| done].
  cbn. intros [= <-]. by rewrite map_size_insert_Some.
Qed.

Lemma release_size h x h' : release h (Some x) = Ok h' → size h = S (size h').
Proof.
  unfold release. destruct (h !! x) as [j |] eqn:Hx; [| done]. cbn. intros [= <-].
  rewrite map_size_delete_Some by done. pose proof (map_size_ne_0_lookup_2 h x ltac:(done)). lia.
Qed.

Lemma push_size h q p h' q' : jobqueue_push h q p = Ok (h', q') → size h' = size h.
Proof.
  unfold jobqueue_push. intros H. apply bind_Ok_inv in H as (h1 & H1%modify_size & H).
  apply bind_Ok_inv in H as ([h2 q2] & H2 & H). apply bind_Ok_inv in H as (len & _ & H). injection H as <- _.
  destruct (jq_len q =? 0); [injection H2 as <- _; done |].
  apply bind_Ok_inv in H2 as (h3 & H3%modify_size & H2). injection H2 as <- _. congruence.
Qed.

(** A thread that stays alive *)
Lemma alive_step P t a b :
  tp_threads P !! t = Some a → started a = [tt] → started b = [tt] →
  length (total started (<[t := b]> (tp_threads P))) = length (total started (tp_threads P)).
Proof. intros Ht Ha Hb. by rewrite (total_step started (tp_threads P) t a b) by congruence. Qed.

Lemma thread_counted P P' t : thread_do P t = Ok P' → counted P → counted P'.
Proof.
  unfold thread_do. intros H [Ha Hj]. destruct (tp_threads P !! t) as [a |] eqn:Ht; [| by injection H as <-].
  destruct a as [| | | | | [[p w] |] |].
  - injection H as <-. constructor; [| done]. cbn [tp_alive tp_threads set_thread set_counts].
    rewrite total_insert, Ha, (total_delete started _ t _ Ht). cbn. lia.
  - destruct (tp_keepalive P); injection H as <-; (constructor; [| done]); cbn [tp_alive tp_threads set_thread thread_exit].
    + by rewrite (alive_step P t AtLoop).
    + rewrite Ha, (total_delete started _ t _ Ht). cbn. lia.
  - destruct (bsem_wait (tp_queue P)); injection H as <-; [| done]. constructor; [| done].
    cbn [tp_alive tp_threads set_thread set_queue]. by rewrite (alive_step P t AtWait).
  - destruct (tp_keepalive P); injection H as <-; (constructor; [| done]); cbn [tp_alive tp_threads set_thread set_counts];
      by rewrite (alive_step P t AtWoken).
  - apply bind_Ok_inv in H as ([job_p q] & _ & H). destruct job_p as [p |].
    + apply bind_Ok_inv in H as (j & _ & H). injection H as <-. constructor; [| done]. cbn [tp_alive tp_threads].
      by rewrite (alive_step P t AtCounted).
    + injection H as <-. constructor; [| done]. cbn [tp_alive tp_threads set_thread set_queue].
      by rewrite (alive_step P t AtCounted).
  - apply bind_Ok_inv in H as (h & Hh%release_size & H). injection H as <-. constructor; cbn [tp_alive tp_threads tp_jobs tp_done tp_added].
    + by rewrite (alive_step P t (AtRunning (Some (p, w)))).
    + rewrite length_app. cbn [length]. lia.
  - injection H as <-. constructor; [| done]. cbn [tp_alive tp_threads set_thread]. by rewrite (alive_step P t (AtRunning None)).
  - injection H as <-. constructor; [| done]. cbn [tp_alive tp_threads set_thread set_counts]. by rewrite (alive_step P t AtRan).
Qed.

Lemma step_counted P P' e : pool_step P e = Ok P' → counted P → counted P'.
Proof.
  intros H HP. destruct e as [w | t | |]; cbn [pool_step] in H.
  - apply bind_Ok_inv in H as ([r P1] & H1 & H). injection H as <-. unfold thpool_add_work in H1.
    destruct (xalloc (tp_jobs P)) as [x |] eqn:Hx; [| by injection H1 as _ <-].
    apply bind_Ok_inv in H1 as ([h q] & Hp%push_size & H1). injection H1 as _ <-. destruct HP as [Ha Hj].
    constructor; [done |]. cbn [tp_jobs tp_done tp_added].
    rewrite Hp, map_size_insert_None by (by apply xalloc_fresh). rewrite length_app. cbn [length]. lia.
  - by eapply thread_counted.
  - injection H as <-. by destruct HP.
  - destruct (tp_keepalive P); injection H as <-; by destruct HP.
Qed.

Lemma run_counted es : ∀ P P', pool_run P es = Ok P' → counted P → counted P'.
Proof.
  induction es as [| e es IH]; intros P P' H HP; cbn [pool_run] in H; [by injection H as <- |].
  apply bind_Ok_inv in H as (P1 & H1 & H). eapply IH, step_counted; eauto.
Qed.

Lemma init_counted n : counted (thpool_init n).
Proof.
  constructor; [| done]. cbn [tp_alive tp_threads thpool_init].
  destruct (total started _) as [| u l] eqn:E; [done |].
  destruct (total_elem started (list_to_map ((λ t, (t, AtStart)) <$> seq 0 (Z.to_nat (if n <? 0 then 0 else n)))) u)
    as (t & a & Ht & Hu); [rewrite E; by left |].
  apply elem_of_list_to_map_2, list_elem_of_fmap in Ht as (t' & [= -> ->] & _). by apply elem_of_nil in Hu.
Qed.

(** ** Leaving the loop *)

(** The steps a thread still makes when the pool ends *)
Definition rank (a : thread_at W) : nat :=
  match a with
  | AtLoop => 1 | AtStart | AtWoken | AtRan => 2 | AtWait | AtRunning _ => 3 | AtCounted => 4
  end.

Lemma dying_step P P' t :
  tp_keepalive P = false → jq_v (tp_queue P) = 1 → thread_do P t = Ok P' →
  tp_keepalive P' = false ∧ (∀ t', t' ≠ t → tp_threads P' !! t' = tp_threads P !! t') ∧
  ∀ a', tp_threads P' !! t = Some a' → ∃ a, tp_threads P !! t = Some a ∧ rank a = S (rank a').
Proof.
  unfold thread_do. intros Hk Hv H. rewrite Hk in H.
  destruct (tp_threads P !! t) as [a |] eqn:Ht; [| injection H as <-; by rewrite Ht].
  assert (∀ b, rank a = S (rank b) → ∀ th, th = <[t := b]> (tp_threads P) →
    (∀ t', t' ≠ t → th !! t' = tp_threads P !! t') ∧
    ∀ a', th !! t = Some a' → ∃ a0, Some a = Some a0 ∧ rank a0 = S (rank a')) as Hmove.
  { intros b Hb th ->. split; [intros t' Hne; by rewrite lookup_insert_ne |].
    intros a'. rewrite lookup_insert_eq. intros [= <-]. by exists a. }
  destruct a as [| | | | | [[p w] |] |].
  - injection H as <-. split; [done |]. by apply (Hmove AtLoop).
  - injection H as <-. split; [done |]. cbn [tp_threads thread_exit].
    split; [intros t' Hne; by rewrite lookup_delete_ne | by rewrite lookup_delete_eq].
  - unfold bsem_wait in H. rewrite Hv in H. injection H as <-. split; [done |]. by apply (Hmove AtWoken).
  - injection H as <-. split; [done |]. by apply (Hmove AtLoop).
  - apply bind_Ok_inv in H as ([[p |] q] & _ & H).
    + apply bind_Ok_inv in H as (j & _ & H). injection H as <-. split; [done |]. by apply (Hmove (AtRunning (Some (p, j_work j)))).
    + injection H as <-. split; [done |]. by apply (Hmove (AtRunning None)).
  - apply bind_Ok_inv in H as (h & _ & H). injection H as <-. split; [done |]. by apply (Hmove AtRan).
  - injection H as <-. split; [done |]. by apply (Hmove AtRan).
  - injection H as <-. split; [done |]. by apply (Hmove AtLoop).
Qed.

Definition ending P : Prop := tp_keepalive P = false ∧ ∃ js ws, pool_inv P js ws.

(** thpool_destroy polls the semaphore, then the thread makes a step. *)
Lemma turn_ends P t :
  ending P →
  ∃ P', pool_run P [PPoll; PThread t] = Ok P' ∧ ending P' ∧
    (∀ t', t' ≠ t → tp_threads P' !! t' = tp_threads P !! t') ∧
    ∀ a', tp_threads P' !! t = Some a' → ∃ a, tp_threads P !! t = Some a ∧ rank a = S (rank a').
Proof.
  intros (Hk & js & ws & Hi). cbn [pool_run pool_step]. rewrite Hk, bind_Ok.
  assert (pool_inv (destroy_poll P) js ws) as Hi1 by (apply pool_inv_queue; auto).
  destruct (thread_inv (destroy_poll P) js ws t Hi1) as (P' & js' & ws' & Hdo & Hi' & _).
  destruct (dying_step (destroy_poll P) P' t Hk eq_refl Hdo) as (Hk' & Ho & Hr).
  exists P'. rewrite Hdo, bind_Ok. split; [done |]. split; [by split; [| eauto] |]. done.
Qed.

Definition turns (ts : list nat) : list (pool_event W) := ts ≫= λ t, [PPoll; PThread t].

Lemma pool_run_app es1 es2 P : pool_run P (es1 ++ es2) = (P ← pool_run P es1; pool_run P es2).
Proof.
  revert P. induction es1 as [| e es1 IH]; intros P; [done |]. cbn [app pool_run].
  destruct (pool_step P e); [rewrite !bind_Ok; apply IH | done].
Qed.

(** A round in which every thread has its turn *)
Lemma round_ends k ts : ∀ P,
  ending P →
  (∀ t a, tp_threads P !! t = Some a → (rank a ≤ if decide (t ∈ ts) then S k else k)%nat) →
  ∃ P', pool_run P (turns ts) = Ok P' ∧ ending P' ∧
    ∀ t a, tp_threads P' !! t = Some a → (rank a ≤ k)%nat ∧ is_Some (tp_threads P !! t).
Proof.
  induction ts as [| t ts IH]; intros P He Hr.
  - exists P. split; [done |]. split; [done |]. intros t a Ht. by specialize (Hr t a Ht).
  - destruct (turn_ends P t He) as (P1 & H1 & He1 & Ho & Ht1).
    destruct (IH P1 He1) as (P' & H' & He' & Hr').
    { intros t' a Ha. destruct (decide (t' = t)) as [-> | Hne].
      - destruct (Ht1 a Ha) as (a0 & Ha0 & Hrk). specialize (Hr t a0 Ha0).
        rewrite decide_True in Hr by by left. case_decide; lia.
      - rewrite Ho in Ha by done. specialize (Hr t' a Ha). repeat case_decide; set_solver. }
    exists P'. split; [| split; [done |]; intros t' a Ha; destruct (Hr' t' a Ha) as [? [a1 Ha1]]; split; [done |];
      destruct (decide (t' = t)) as [-> | Hne]; [destruct (Ht1 a1 Ha1) as (a0 & -> & _); done | by rewrite <- Ho]].
    change (turns (t :: ts)) with ([PPoll; PThread t] ++ turns ts).
    by rewrite pool_run_app, H1, bind_Ok.
Qed.

Lemma rounds_end k ts : ∀ P,
  ending P → (∀ t a, tp_threads P !! t = Some a → t ∈ ts ∧ (rank a ≤ k)%nat) →
  ∃ P', pool_run P (concat (replicate k (turns ts))) = Ok P' ∧ ending P' ∧ tp_threads P' = ∅.
Proof.
  induction k as [| k IH]; intros P He Hr.
  - exists P. split; [done |]. split; [done |]. apply map_empty. intros t.
    destruct (tp_threads P !! t) as [a |] eqn:Ht; [| done]. destruct (Hr t a Ht) as [_ H]. by destruct a; cbn in H; lia.
  - destruct (round_ends k ts P He) as (P1 & H1 & He1 & Hr1).
    { intros t a Ht. destruct (Hr t a Ht). by rewrite decide_True. }
    destruct (IH P1 He1) as (P' & H' & ? & ?).
    { intros t a Ht. destruct (Hr1 t a Ht) as [? [a0 Ha0]]. split; [by apply (Hr t a0) | done]. }
    exists P'. cbn [replicate concat]. by rewrite pool_run_app, H1, bind_Ok.
Qed.

(** ** Freeing the jobs *)

Lemma clear_jobs_rep js : ∀ k h q ws,
  queue_rep h q js ws → (length js < k)%nat →
  ∃ h' q', clear_jobs k h q = Ok (h', q') ∧ size h = (size h' + length js)%nat.
Proof.
  induction js as [| p js IH]; intros k h q ws Hq Hk; (destruct k as [| k]; [lia |]); cbn [clear_jobs].
  - destruct Hq as (_ & _ & _ & _ & Hl & _). rewrite Hl. cbn. exists h, q. split; [done | cbn; lia].
  - pose proof Hq as (Hnd & _ & _ & _ & Hl & _). rewrite Hl. cbn [length Z.of_nat Z.eqb].
    destruct (jobqueue_pull_rep h q p js ws Hq) as (q' & w & ws' & n & -> & -> & Hq' & Hp & _). rewrite bind_Ok.
    rewrite (release_Some _ _ _ Hp), bind_Ok. apply NoDup_cons in Hnd as [Hpn Hnd].
    destruct (IH k (delete p h) q' ws') as (h' & q2 & E & Hsz); [| cbn in Hk; lia |].
    { eapply queue_rep_frame; [| exact Hq']. intros r Hr. apply lookup_delete_ne. by intros ->. }
    exists h', q2. split; [done |]. pose proof (release_size h p (delete p h) (release_Some _ _ _ Hp)). cbn. lia.
Qed.

Lemma destroy_frees P js ws :
  pool_inv P js ws → counted P → tp_threads P = ∅ →
  destroy_end P = Ok (Some ∅) ∧ tp_done P ≡ₚ tp_started P.
Proof.
  intros [Hq Ho Hd _ _ _ _] [Ha Hj] Hth. rewrite Hth in Ha, Hd. rewrite total_empty in Ha. rewrite total_empty, app_nil_r in Hd.
  split; [| done]. unfold destroy_end, jobqueue_destroy, jobqueue_clear. rewrite Ha. cbn [length Z.of_nat Z.eqb].
  pose proof Hq as (_ & _ & _ & _ & Hl & Hw). apply Forall2_length in Hw.
  destruct (clear_jobs_rep js (S (Z.to_nat (jq_len (tp_queue P)))) (tp_jobs P) (tp_queue P) ws) as (h' & q' & -> & Hsz);
    [done | rewrite Hl; lia |].
  cbn. do 2 f_equal. apply map_size_empty_inv. apply (f_equal length) in Ho. rewrite length_app in Ho.
  apply Permutation_length in Hd. lia.
Qed.

(** C12: destroying a pool ends.  From every state that a pool of any size can
    reach, with jobs running and waiting: once thpool_destroy has cleared
    threads_keepalive, four rounds in which each thread makes a step after a poll
    of the semaphore are enough for all of them to leave their loops.  Then the
    jobs that were started have finished, no thread is alive, and the end of
    thpool_destroy frees the jobs that were not started: no job object is left. *)
Theorem thpool_destroy_ends (n : Z) (es : list (pool_event W)) (ts : list nat) :
  Z.of_nat (length es) < 2 ^ 31 - 1 →
  ∃ P, pool_run (thpool_init n) es = Ok P ∧
    ((∀ t, is_Some (tp_threads P !! t) → t ∈ ts) →
     ∃ P', pool_run P (PDestroy :: concat (replicate 4 (turns ts))) = Ok P' ∧
       tp_threads P' = ∅ ∧ tp_done P' ≡ₚ tp_started P' ∧ destroy_end P' = Ok (Some ∅)).
Proof.
  intros Hsz. destruct (pool_run_inv _ _ _ es (init_inv n)) as (P & js & ws & HP & Hi);
    [cbn [thpool_init tp_added length]; lia |].
  exists P. split; [done |]. intros Hts.
  assert (ending (destroy_begin P)) as He.
  { split; [done |]. exists js, ws. destruct Hi. split; try done. }
  destruct (rounds_end 4 ts (destroy_begin P) He) as (P' & Hrun & (_ & js' & ws' & Hi') & Hth).
  { intros t a Ht. split; [by apply Hts; eexists |]. destruct a; cbn; lia. }
  assert (counted P') as Hc.
  { eapply run_counted; [exact Hrun |]. apply (step_counted P _ PDestroy); [done |].
    eapply run_counted, init_counted. exact HP. }
  destruct (destroy_frees P' js' ws' Hi' Hc Hth) as [Hend Hdone]. by exists P'.
Qed.

End ending.

Lemma thpool_destroy_ends_witness :
  ∃ P P', pool_run (AJ := unbounded_allocator) (thpool_init 2)
      [PThread 0; PThread 1; PAdd 7; PAdd 8; PAdd 9; PThread 0; PThread 0; PThread 0; PThread 0] = Ok P ∧
    pool_run (AJ := unbounded_allocator) P (PDestroy :: concat (replicate 4 (turns [0%nat; 1%nat]))) = Ok P' ∧
    tp_threads P' = ∅ ∧ tp_done P' ≡ₚ tp_started P' ∧ destroy_end P' = Ok (Some ∅).
Proof.
  destruct (thpool_destroy_ends (AJ := unbounded_allocator) 2
    [PThread 0; PThread 1; PAdd 7; PAdd 8; PAdd 9; PThread 0; PThread 0; PThread 0; PThread 0] [0%nat; 1%nat])
    as (P & HP & H); [done |].
  destruct H as (P' & H1 & H2 & H3 & H4).
  - intros t [a Ha]. pose proof (elem_of_dom_2 _ _ _ Ha) as Ht.
    assert (match pool_run (AJ := unbounded_allocator) (thpool_init 2)
        [PThread 0; PThread 1; PAdd 7; PAdd 8; PAdd 9; PThread 0; PThread 0; PThread 0; PThread 0] with
      | Ok P => bool_decide (dom (tp_threads P) ⊆ {[0%nat; 1%nat]})
      | Fail _ => false
      end = true) as Hd by by vm_compute.
    rewrite HP in Hd. apply bool_decide_eq_true in Hd. clear -Ht Hd. set_solver.
  - exists P, P'. exact (conj HP (conj H1 (conj H2 (conj H3 H4)))).
Defined.
