(* ===== verification/ThpoolMem.v ===== *)
(** The memory of a thread pool: thpool_init with every allocation it makes and
    the frees of thpool_destroy, on a heap of the five kinds of block lib/thpool.c
    allocates besides jobs; and the wait of thpool_init for its threads. *)

From S2P Require Import Prelude Memory Thpool ThpoolFacts ThpoolEnd.

Local Open Scope Z_scope.

(** A field that was not assigned yet is [None] where it is a number. *)
Inductive pool_obj :=
| OPool (jobqueue_p threads : option loc)
| OQueue (has_jobs : option loc)
| OBsem (v : option Z)
| OThreads (slots : list (option loc))
| OThread (th_pool : option loc) (th_id : option Z).

Section life.
Context {A : Allocator pool_obj}.
Implicit Types (h : gmap loc pool_obj).

(** ** thpool_init *)

(** malloc: the block is in the heap, its fields are [o]. *)
Definition pool_malloc h (o : pool_obj) : option loc * gmap loc pool_obj :=
  match xalloc h with
  | Some l => (Some l, <[l := o]> h)
  | None => (None, h)
  end.

(** [None]: exit(1). *)
Definition bsem_init (value : Z) : option Z := if (value <? 0) || (1 <? value) then None else Some value.

(** The semaphore of the queue is made with the value 0, so bsem_init does not exit. *)
Definition jobqueue_init_mem h (thpool_p : loc) : res (Z * gmap loc pool_obj) :=
  let '(q, h) := pool_malloc h (OQueue None) in
  h ← modify h (Some thpool_p) (λ o, match o with OPool _ t => OPool q t | o => o end);
  if q is None then Ok (-1, h) else
  let '(b, h) := pool_malloc h (OBsem None) in
  h ← modify h q (λ _, OQueue b);
  if b is None then Ok (-1, h) else
  h ← modify h b (λ _, OBsem (bsem_init 0));
  Ok (0, h).

(** [*thread_p] is the slot [n] of the array; the test that follows is on
    [thread_p], the address of the slot. *)
Definition thread_init h (thpool_p threads : loc) (n : nat) : res (Z * gmap loc pool_obj) :=
  let '(t, h) := pool_malloc h (OThread None None) in
  h ← modify h (Some threads) (λ o, match o with OThreads s => OThreads (<[n := t]> s) | o => o end);
  h ← modify h t (λ _, OThread (Some thpool_p) (Some (Z.of_nat n)));
  Ok (0, h).

(** [for (n=0; n<num_threads; n++)]: [k] threads from the [n]-th on. *)
Fixpoint threads_init (k n : nat) h (thpool_p threads : loc) : res (gmap loc pool_obj) :=
  match k with
  | O => Ok h
  | S k => '(_, h) ← thread_init h thpool_p threads n; threads_init k (S n) h thpool_p threads
  end.

(** thpool_p->jobqueue_p and thpool_p->jobqueue_p->has_jobs *)
Definition queue_of h (thpool_p : loc) : res (option loc) :=
  o ← load h (Some thpool_p); match o with OPool q _ => Ok q | _ => Fail BadPointer end.
Definition threads_of h (thpool_p : loc) : res (option loc) :=
  o ← load h (Some thpool_p); match o with OPool _ t => Ok t | _ => Fail BadPointer end.
Definition bsem_of h (q : option loc) : res (option loc) :=
  o ← load h q; match o with OQueue b => Ok b | _ => Fail BadPointer end.

(** jobqueue_destroy of a queue without jobs, and the free of the queue. *)
Definition queue_free h (thpool_p : loc) : res (gmap loc pool_obj) :=
  q ← queue_of h thpool_p;
  b ← bsem_of h q;
  h ← release h b;
  release h q.

(** Up to the loop that waits for the threads. *)
Definition thpool_init_mem h (num_threads : Z) : res (option loc * gmap loc pool_obj) :=
  let num := Z.to_nat (if num_threads <? 0 then 0 else num_threads) in
  match pool_malloc h (OPool None None) with
  | (None, h) => Ok (None, h)
  | (Some thpool_p, h) =>
      '(r, h) ← jobqueue_init_mem h thpool_p;
      if r =? -1 then h ← release h (Some thpool_p); Ok (None, h) else
      let '(t, h) := pool_malloc h (OThreads (replicate num None)) in
      h ← modify h (Some thpool_p) (λ o, match o with OPool q _ => OPool q t | o => o end);
      match t with
      | None =>
          h ← queue_free h thpool_p;
          h ← release h (Some thpool_p);
          Ok (None, h)
      | Some threads =>
          h ← threads_init num 0 h thpool_p threads;
          Ok (Some thpool_p, h)
      end
  end.

(** ** The end of thpool_destroy *)

(** [for (n=0; n < threads_total; n++) thread_destroy(thpool_p->threads[n]);] *)
Fixpoint threads_destroy h (slots : list (option loc)) : res (gmap loc pool_obj) :=
  match slots with
  | [] => Ok h
  | t :: slots => h ← release h t; threads_destroy h slots
  end.

Definition thpool_free h (thpool_p : loc) (threads_total : Z) : res (gmap loc pool_obj) :=
  h ← queue_free h thpool_p;
  t ← threads_of h thpool_p;
  o ← load h t;
  match o with
  | OThreads slots =>
      if Z.of_nat (length slots) <? threads_total then Fail OutOfBounds else
      h ← threads_destroy h (take (Z.to_nat threads_total) slots);
      h ← release h t;
      release h (Some thpool_p)
  | _ => Fail BadPointer
  end.

(** ** Lemmas *)

Lemma pool_malloc_cases h o :
  (∃ l, xalloc h = Some l ∧ h !! l = None ∧ pool_malloc h o = (Some l, <[l := o]> h)) ∨
  (xalloc h = None ∧ pool_malloc h o = (None, h)).
Proof.
  unfold pool_malloc. destruct (xalloc h) as [l |] eqn:E; [left | by right].
  exists l. split; [done |]. split; [by apply xalloc_fresh | done].
Qed.

(** jobqueue_init, by which of its two allocations succeed. *)
Lemma jobqueue_init_cases h p t :
  h !! p = Some (OPool None t) →
  ((∃ h0, xalloc h0 = None) ∧
   (jobqueue_init_mem h p = Ok (-1, h) ∨
    ∃ q, h !! q = None ∧
      jobqueue_init_mem h p = Ok (-1, <[q := OQueue None]> (<[p := OPool (Some q) t]> h)))) ∨
  ∃ q b, h !! q = None ∧ h !! b = None ∧ q ≠ b ∧
    jobqueue_init_mem h p
      = Ok (0, <[b := OBsem (Some 0)]> (<[q := OQueue (Some b)]> (<[p := OPool (Some q) t]> h))).
Proof.
  intros Hp. unfold jobqueue_init_mem.
  destruct (pool_malloc_cases h (OQueue None)) as [(q & _ & Hq & ->) | [Hx ->]].
  2: { left. split; [eauto |]. left. rewrite (modify_Some _ _ _ _ Hp), bind_Ok. by rewrite insert_id. }
  assert (q ≠ p) as Hqp by congruence.
  rewrite (modify_Some _ p (OPool None t)), bind_Ok by (by simplify_map_eq).
  set (h1 := <[p := OPool (Some q) t]> (<[q := OQueue None]> h)).
  destruct (pool_malloc_cases h1 (OBsem None)) as [(b & _ & Hb & ->) | [Hx ->]].
  2: { left. split; [eauto |]. right. exists q. split; [done |].
       rewrite (modify_Some _ q (OQueue None)), bind_Ok by (unfold h1; by simplify_map_eq).
       unfold h1. by rewrite (insert_insert_ne _ p q), insert_insert_eq by done. }
  right. apply lookup_insert_None in Hb as [Hb Hpb]. apply lookup_insert_None in Hb as [Hb Hqb].
  exists q, b. split; [done |]. split; [done |]. split; [done |].
  rewrite (modify_Some _ q (OQueue None)), bind_Ok by (unfold h1; by simplify_map_eq).
  rewrite (modify_Some _ b (OBsem None)), bind_Ok by (by simplify_map_eq).
  do 2 f_equal. unfold h1. apply map_eq. intros i.
  destruct (decide (i = b)), (decide (i = q)), (decide (i = p)); by simplify_map_eq.
Qed.

(** Making [k] threads: a failed allocation is dereferenced; otherwise the new
    blocks [ls] fill the slots and nothing else changes. *)
Lemma threads_init_cases p th k : ∀ n h slots,
  h !! th = Some (OThreads slots) → (n + k = length slots)%nat →
  ((∃ h0, xalloc h0 = None) ∧ threads_init k n h p th = Fail NullDeref) ∨
  ∃ ls h1, threads_init k n h p th = Ok h1 ∧ length ls = k ∧ NoDup ls ∧
    (∀ l, l ∈ ls → h !! l = None ∧ is_Some (h1 !! l)) ∧
    h1 !! th = Some (OThreads (take n slots ++ (Some <$> ls))) ∧
    ∀ x, x ∉ ls → x ≠ th → h1 !! x = h !! x.
Proof.
  induction k as [| k IH]; intros n h slots Hth Hlen; cbn [threads_init].
  { right. exists [], h. rewrite take_ge, app_nil_r by lia.
    split; [done |]. split; [done |]. split; [constructor |].
    split; [by intros l ?%elem_of_nil |]. done. }
  unfold thread_init. destruct (pool_malloc_cases h (OThread None None)) as [(l & _ & Hl & ->) | [Hx ->]].
  2: { left. split; [eauto |]. by rewrite (modify_Some _ th (OThreads slots)) by done. }
  assert (l ≠ th) as Hlth by congruence.
  rewrite (modify_Some _ th (OThreads slots)), bind_Ok by (by simplify_map_eq).
  rewrite (modify_Some _ l (OThread None None)), bind_Ok, bind_Ok by (by simplify_map_eq).
  set (h1 := <[l := _]> _).
  assert (∀ x, x ≠ l → x ≠ th → h1 !! x = h !! x) as Hfr by (intros x ??; unfold h1; by simplify_map_eq).
  destruct (IH (S n) h1 (<[n := Some l]> slots)) as [[Hx He] | (ls & h2 & He & Hls & Hnd & Hin & Hth2 & Hfr2)];
    [unfold h1; by simplify_map_eq | rewrite length_insert; lia | by left |].
  right. exists (l :: ls), h2. split; [done |]. split; [cbn; lia |].
  assert (l ∉ ls) as Hnl.
  { intros Hz. apply Hin in Hz as [Hz _]. unfold h1 in Hz. by simplify_map_eq. }
  split; [by constructor |]. split; [| split].
  - intros x [-> | Hx]%elem_of_cons.
    + split; [done |]. rewrite Hfr2 by done. unfold h1. by simplify_map_eq.
    + destruct (Hin x Hx) as [Hx1 Hx2]. split; [| done]. rewrite Hfr in Hx1; [done | congruence |].
      intros ->. unfold h1 in Hx1. by simplify_map_eq.
  - rewrite Hth2. do 2 f_equal. rewrite (take_S_r _ _ (Some l)) by (apply list_lookup_insert_eq; lia).
    rewrite take_insert_ge by lia. by rewrite <- app_assoc.
  - intros x [Hxl Hx]%not_elem_of_cons Hxth. by rewrite Hfr2, Hfr.
Qed.

Lemma threads_destroy_frees ls : ∀ h,
  NoDup ls → (∀ l, l ∈ ls → is_Some (h !! l)) →
  ∃ h', threads_destroy h (Some <$> ls) = Ok h' ∧
    (∀ x, x ∈ ls → h' !! x = None) ∧ ∀ x, x ∉ ls → h' !! x = h !! x.
Proof.
  induction ls as [| l ls IH]; intros h Hnd Hin.
  { exists h. split; [done |]. split; [by intros x ?%elem_of_nil | done]. }
  apply NoDup_cons in Hnd as [Hl Hnd]. destruct (Hin l ltac:(by left)) as [o Ho].
  rewrite fmap_cons. cbn [threads_destroy]. rewrite (release_Some _ _ _ Ho), bind_Ok.
  destruct (IH (delete l h) Hnd) as (h' & He & Hn & Hfr).
  { intros x Hx. rewrite lookup_delete_ne by congruence. apply Hin. by right. }
  exists h'. split; [done |]. split.
  - intros x [-> | Hx]%elem_of_cons; [rewrite Hfr by done; by simplify_map_eq | by apply Hn].
  - intros x [Hxl Hx]%not_elem_of_cons. rewrite Hfr by done. by simplify_map_eq.
Qed.

Lemma queue_free_frees h p q b t :
  h !! p = Some (OPool (Some q) t) → h !! q = Some (OQueue (Some b)) → is_Some (h !! b) → q ≠ b →
  queue_free h p = Ok (delete q (delete b h)).
Proof.
  intros Hp Hq [o Hb] Hne. unfold queue_free, queue_of, bsem_of.
  rewrite (load_Some _ _ _ Hp), !bind_Ok, (load_Some _ _ _ Hq), !bind_Ok, (release_Some _ _ _ Hb), bind_Ok.
  apply release_Some with (OQueue (Some b)). by simplify_map_eq.
Qed.

(** What is in the heap of a complete pool besides [h]. *)
Lemma thpool_free_frees h h1 p q b th ls :
  p ≠ q → p ≠ b → p ≠ th → q ≠ b → q ≠ th → b ≠ th → NoDup ls →
  h !! p = None → h !! q = None → h !! b = None → h !! th = None →
  (∀ l, l ∈ ls → h !! l = None ∧ is_Some (h1 !! l) ∧ l ≠ p ∧ l ≠ q ∧ l ≠ b ∧ l ≠ th) →
  h1 !! p = Some (OPool (Some q) (Some th)) → h1 !! q = Some (OQueue (Some b)) →
  is_Some (h1 !! b) → h1 !! th = Some (OThreads (Some <$> ls)) →
  (∀ x, x ∉ ls → x ≠ p → x ≠ q → x ≠ b → x ≠ th → h1 !! x = h !! x) →
  thpool_free h1 p (Z.of_nat (length ls)) = Ok h.
Proof.
  intros Hpq Hpb Hpt Hqb Hqt Hbt Hnd Hp Hq Hb Ht Hls Hp1 Hq1 Hb1 Ht1 Hfr. unfold thpool_free.
  rewrite (queue_free_frees h1 p q b (Some th)) by done. rewrite bind_Ok.
  set (h2 := delete q (delete b h1)).
  assert (h2 !! p = Some (OPool (Some q) (Some th))) as Hp2 by (unfold h2; by simplify_map_eq).
  assert (h2 !! th = Some (OThreads (Some <$> ls))) as Ht2 by (unfold h2; by simplify_map_eq).
  unfold threads_of. rewrite (load_Some _ _ _ Hp2), !bind_Ok, (load_Some _ _ _ Ht2), !bind_Ok.
  rewrite length_fmap. case_cmp; [lia |]. rewrite Nat2Z.id, take_ge by (by rewrite length_fmap).
  destruct (threads_destroy_frees ls h2 Hnd) as (h3 & -> & Hn3 & Hfr3).
  { intros l Hl. destruct (Hls l Hl) as (_ & ? & ? & ? & ? & ?). unfold h2. by simplify_map_eq. }
  rewrite bind_Ok. assert (p ∉ ls) as Hpl by (intros (_ & _ & ? & _)%Hls; done).
  assert (th ∉ ls) as Htl by (intros (_ & _ & _ & _ & _ & ?)%Hls; done).
  rewrite (release_Some _ th (OThreads (Some <$> ls))), bind_Ok by (by rewrite Hfr3).
  rewrite (release_Some _ p (OPool (Some q) (Some th)))
    by (rewrite lookup_delete_ne by done; by rewrite Hfr3).
  f_equal. apply map_eq. intros x.
  destruct (decide (x = p)) as [-> |]; [by simplify_map_eq |].
  destruct (decide (x = th)) as [-> |]; [rewrite lookup_delete_ne by done; by simplify_map_eq |].
  rewrite !lookup_delete_ne by done. destruct (decide (x ∈ ls)) as [Hx | Hx].
  { rewrite Hn3 by done. by destruct (Hls x Hx) as [-> _]. }
  rewrite Hfr3 by done. unfold h2.
  destruct (decide (x = q)) as [-> |]; [by simplify_map_eq |].
  destruct (decide (x = b)) as [-> |]; [rewrite lookup_delete_ne by done; by simplify_map_eq |].
  rewrite !lookup_delete_ne by done. by apply Hfr.
Qed.

End life.

(** ** The wait for the threads *)

Section wait.
Context {W : Type} {AJ : Allocator (job W)}.
Implicit Types (P : thpool W).

(** The pool when the threads [ts] were created; thread_init does not look at the
    result of pthread_create. *)
Definition created_pool (ts : list nat) : thpool W :=
  mkPool ∅ jobqueue_init true 0 0 (list_to_map ((λ t, (t, AtStart)) <$> ts)) [] [] [].

(** [while (thpool_p->num_threads_alive != num_threads) {}] ends. *)
Definition init_done P (num_threads : Z) : bool := tp_alive P =? num_threads.

Lemma started_size (th : gmap nat (thread_at W)) : (length (total started th) <= size th)%nat.
Proof.
  induction th as [| t a th Ht IH] using map_ind; [done |].
  rewrite total_insert, delete_id, length_app, map_size_insert_None by done. destruct a; cbn [started length]; lia.
Qed.

Lemma thread_do_dom P P' t : thread_do P t = Ok P' → dom (tp_threads P') ⊆ dom (tp_threads P).
Proof.
  unfold thread_do. intros H. destruct (tp_threads P !! t) as [a |] eqn:Ht; [| by injection H as <-].
  assert (∀ b, dom (<[t := b]> (tp_threads P)) ⊆ dom (tp_threads P)) as Hd.
  { intros b. apply elem_of_dom_2 in Ht. rewrite dom_insert. clear -Ht. set_solver. }
  destruct a as [| | | | | [[p w] |] |].
  - injection H as <-. apply Hd.
  - destruct (tp_keepalive P); injection H as <-; [apply Hd |]. cbn. rewrite dom_delete. clear. set_solver.
  - destruct (bsem_wait (tp_queue P)); injection H as <-; [apply Hd | done].
  - destruct (tp_keepalive P); injection H as <-; apply Hd.
  - apply bind_Ok_inv in H as ([[p |] q] & _ & H);
      [apply bind_Ok_inv in H as (j & _ & H) |]; injection H as <-; apply Hd.
  - apply bind_Ok_inv in H as (h & _ & H). injection H as <-. apply Hd.
  - injection H as <-. apply Hd.
  - injection H as <-. apply Hd.
Qed.

Lemma pool_run_dom es : ∀ P P', pool_run P es = Ok P' → dom (tp_threads P') ⊆ dom (tp_threads P).
Proof.
  induction es as [| e es IH]; intros P P' H; cbn [pool_run] in H; [by injection H as <- |].
  apply bind_Ok_inv in H as (P1 & H1 & H). etrans; [by apply IH |].
  destruct e as [w | t | |]; cbn [pool_step] in H1.
  - apply bind_Ok_inv in H1 as ([r P2] & H1 & H2). injection H2 as <-. unfold thpool_add_work in H1.
    destruct (xalloc (tp_jobs P)); [| by injection H1 as _ <-].
    apply bind_Ok_inv in H1 as ([h q] & _ & H1). by injection H1 as _ <-.
  - by eapply thread_do_dom.
  - by injection H1 as <-.
  - destruct (tp_keepalive P); by injection H1 as <-.
Qed.

Lemma created_counted ts : counted (created_pool ts).
Proof.
  constructor; [| done]. cbn [tp_alive tp_threads created_pool].
  destruct (total started _) as [| u l] eqn:E; [done |].
  destruct (total_elem started (list_to_map ((λ t, (t, AtStart)) <$> ts) : gmap nat (thread_at W)) u)
    as (t & a & Ht & Hu); [rewrite E; by left |].
  apply elem_of_list_to_map_2, list_elem_of_fmap in Ht as (t' & [= -> ->] & _). by apply elem_of_nil in Hu.
Qed.

Lemma created_size ts : NoDup ts → size (tp_threads (created_pool ts)) = length ts.
Proof.
  intros Hnd. cbn. rewrite map_size_list_to_map, length_fmap; [done |].
  by rewrite <- list_fmap_compose, list_fmap_id.
Qed.

(** The first steps of the threads [ts]. *)
Lemma starts_alive ts : ∀ P,
  NoDup ts → (∀ t, t ∈ ts → tp_threads P !! t = Some AtStart) →
  ∃ P', pool_run P (PThread <$> ts) = Ok P' ∧ tp_alive P' = tp_alive P + Z.of_nat (length ts) ∧
    tp_keepalive P' = tp_keepalive P ∧ tp_added P' = tp_added P ∧
    ∀ t, tp_threads P' !! t = if decide (t ∈ ts) then Some AtLoop else tp_threads P !! t.
Proof.
  induction ts as [| t ts IH]; intros P Hnd Hts; [exists P; cbn; repeat split; lia |].
  apply NoDup_cons in Hnd as [Ht Hnd]. rewrite fmap_cons. cbn [pool_run pool_step].
  unfold thread_do at 1. rewrite (Hts t) by (by left). rewrite bind_Ok.
  destruct (IH (set_thread (set_counts P (tp_alive P + 1) (tp_working P)) t AtLoop) Hnd)
    as (P' & He & Ha & Hk & Had & Hth).
  { intros x Hx. cbn. rewrite lookup_insert_ne by congruence. apply Hts. by right. }
  exists P'. split; [done |]. rewrite Ha. cbn [tp_alive set_thread set_counts length].
  split; [lia |]. split; [done |]. split; [done |]. intros x. rewrite Hth.
  cbn [tp_threads set_thread set_counts]. destruct (decide (x = t)) as [-> | Hne].
  - rewrite lookup_insert_eq. by repeat case_decide; try set_solver.
  - rewrite lookup_insert_ne by done. repeat case_decide; set_solver.
Qed.

Lemma created_lookup ts t : NoDup ts → t ∈ ts → tp_threads (created_pool ts) !! t = Some AtStart.
Proof.
  intros Hnd Ht. cbn. apply elem_of_list_to_map_1; [by rewrite <- list_fmap_compose, list_fmap_id |].
  apply list_elem_of_fmap. eauto.
Qed.

(** Thpool_init returns exactly when all its threads were created.  When they
    were, it returns as soon as each has made its first step; when pthread_create
    failed for one of them, which thread_init ignores, no sequence of steps of the
    others ends the loop. *)
Theorem thpool_init_waits (ts : list nat) (num_threads : Z) :
  NoDup ts → Z.of_nat (length ts) ≤ num_threads →
  if Z.of_nat (length ts) =? num_threads
  then ∃ P, pool_run (created_pool ts) (PThread <$> ts) = Ok P ∧ init_done P num_threads = true
  else ∀ es P, pool_run (created_pool ts) es = Ok P → init_done P num_threads = false.
Proof.
  intros Hnd Hle. unfold init_done. destruct (Z.eqb_spec (Z.of_nat (length ts)) num_threads) as [<- | Hne].
  - destruct (starts_alive ts (created_pool ts) Hnd) as (P & HP & Ha & _);
      [by intros; apply created_lookup |].
    exists P. split; [done |]. rewrite Ha. cbn. apply Z.eqb_refl.
  - intros es P HP. pose proof (run_counted es _ _ HP (created_counted ts)) as [Ha _].
    pose proof (pool_run_dom es _ _ HP) as Hd. apply subseteq_size in Hd. rewrite !size_dom in Hd.
    rewrite created_size in Hd by done. pose proof (started_size (tp_threads P)). apply Z.eqb_neq. lia.
Qed.
End wait.

(** A pool of three of which two were created, and one of two. *)
Lemma thpool_init_waits_witness :
  (∀ es P, pool_run (AJ := unbounded_allocator (N := job Z)) (created_pool [0; 2]%nat) es = Ok P →
     init_done P 3 = false) ∧
  ∃ P, pool_run (AJ := unbounded_allocator (N := job Z)) (created_pool [0; 1]%nat) (PThread <$> [0; 1]%nat) = Ok P ∧
    init_done P 2 = true.
Proof.
  split.
  - apply (thpool_init_waits (AJ := unbounded_allocator (N := job Z)) [0; 2]%nat 3);
      [repeat constructor; set_solver | cbn; lia].
  - apply (thpool_init_waits (AJ := unbounded_allocator (N := job Z)) [0; 1]%nat 2);
      [repeat constructor; set_solver | cbn; lia].
Defined.
