(* ===== verification/ThpoolHold.v ===== *)
(** Pausing a thread pool: thpool_pause sends SIGUSR1 to every thread, whose
    handler thread_hold sets the global threads_on_hold and sleeps until it is 0;
    thpool_resume clears it.

    A thread on hold makes none of the steps of Thpool.v.  Signals are pending
    until they are delivered, at any step between two critical sections; a signal
    is not delivered to a thread that is in its handler. *)

From S2P Require Import Prelude Memory Thpool ThpoolFacts ThpoolEnd ThpoolMem.

Local Open Scope Z_scope.

Section hold.
Context {W : Type} {AJ : Allocator (job W)}.
Implicit Types (P : thpool W) (t : nat).

Record hold := mkHold {
  hd_pool : thpool W;
  hd_on : bool;               (* threads_on_hold *)
  hd_pending : gset nat;      (* sent and not delivered *)
  hd_held : gset nat          (* in thread_hold *)
}.
Implicit Types (H : hold).

(** ** Operations *)

(** The threads [n], [n + 1], ... of which [k] are signalled.  pthread_kill of a
    thread that has ended is undefined. *)
Fixpoint signal_threads (k n : nat) H : res hold :=
  match k with
  | O => Ok H
  | S k =>
      match tp_threads (hd_pool H) !! n with
      | None => Fail BadPointer
      | Some _ =>
          signal_threads k (S n) (mkHold (hd_pool H) (hd_on H) ({[n]} ∪ hd_pending H) (hd_held H))
      end
  end.

Definition thpool_pause H : res hold := signal_threads (Z.to_nat (tp_alive (hd_pool H))) 0 H.

Definition thpool_resume H : hold := mkHold (hd_pool H) false (hd_pending H) (hd_held H).

(** The first step of thread_hold, when the signal of [t] is delivered. *)
Definition thread_hold_begin H t : hold :=
  if decide (t ∈ hd_pending H ∧ t ∉ hd_held H)
  then mkHold (hd_pool H) true (hd_pending H ∖ {[t]}) ({[t]} ∪ hd_held H) else H.

(** [while (threads_on_hold)]: the next look of [t] at the flag. *)
Definition thread_hold_check H t : hold :=
  if hd_on H then H else mkHold (hd_pool H) (hd_on H) (hd_pending H) (hd_held H ∖ {[t]}).

(** A step of the pool; a thread on hold makes none. *)
Definition held_step H (e : pool_event W) : res hold :=
  match e with
  | PThread t =>
      if decide (t ∈ hd_held H) then Ok H
      else P ← pool_step (hd_pool H) e; Ok (mkHold P (hd_on H) (hd_pending H) (hd_held H))
  | _ => P ← pool_step (hd_pool H) e; Ok (mkHold P (hd_on H) (hd_pending H) (hd_held H))
  end.

Inductive hold_event := HPool (e : pool_event W) | HPause | HResume | HSignal (t : nat) | HCheck (t : nat).

Definition hold_step H (e : hold_event) : res hold :=
  match e with
  | HPool e => held_step H e
  | HPause => thpool_pause H
  | HResume => Ok (thpool_resume H)
  | HSignal t => Ok (thread_hold_begin H t)
  | HCheck t => Ok (thread_hold_check H t)
  end.

Fixpoint hold_run H (es : list hold_event) : res hold :=
  match es with
  | [] => Ok H
  | e :: es => H ← hold_step H e; hold_run H es
  end.

(** The pool as thpool_init returns it: every thread has made its first step. *)
Definition serving_pool (n : nat) : res (thpool W) := pool_run (created_pool (seq 0 n)) (PThread <$> seq 0 n).

(** ** A pool in service *)

(** All [n] threads are in their loops and stay there. *)
Record serving (n : nat) P : Prop := {
  sv_keep : tp_keepalive P = true;
  sv_alive : tp_alive P = Z.of_nat n;
  sv_threads t : (t < n)%nat → ∃ a, tp_threads P !! t = Some a ∧ a ≠ AtStart;
  sv_only t : is_Some (tp_threads P !! t) → (t < n)%nat
}.

Lemma serving_insert n P t a b :
  serving n P → tp_threads P !! t = Some a → b ≠ AtStart →
  (∀ t', (t' < n)%nat → ∃ c, <[t := b]> (tp_threads P) !! t' = Some c ∧ c ≠ AtStart) ∧
  (∀ t', is_Some (<[t := b]> (tp_threads P) !! t') → (t' < n)%nat).
Proof.
  intros [_ _ Hth Hon] Ht Hb. split; intros t' Hlt; destruct (decide (t' = t)) as [-> |].
  - exists b. by simplify_map_eq.
  - rewrite lookup_insert_ne by done. by apply Hth.
  - apply Hon. eauto.
  - rewrite lookup_insert_ne in Hlt by done. by apply Hon.
Qed.

Lemma serving_thread n P P' t : serving n P → thread_do P t = Ok P' → serving n P'.
Proof.
  intros Hs. pose proof (serving_insert n P t) as Hi. destruct Hs as [Hk Hal Hth Hon].
  unfold thread_do. destruct (tp_threads P !! t) as [a |] eqn:Ht; [| by intros [= <-]].
  destruct (Hth t) as (a' & Ha' & Ha); [apply Hon; eauto |]. simplify_eq.
  destruct a as [| | | | | [[p w] |] |]; [done | | | | | | |]; intros H.
  - rewrite Hk in H. injection H as <-. by edestruct (Hi AtLoop AtWait); [.. | split].
  - destruct (bsem_wait (tp_queue P)); injection H as <-; [| by split].
    by edestruct (Hi AtWait AtWoken); [.. | split].
  - rewrite Hk in H. injection H as <-. by edestruct (Hi AtWoken AtCounted); [.. | split].
  - apply bind_Ok_inv in H as ([[p |] q] & _ & H).
    + apply bind_Ok_inv in H as (j & _ & H). injection H as <-.
      by edestruct (Hi AtCounted (AtRunning (Some (p, j_work j)))); [.. | split].
    + injection H as <-. by edestruct (Hi AtCounted (AtRunning None)); [.. | split].
  - apply bind_Ok_inv in H as (h & _ & H). injection H as <-.
    by edestruct (Hi (AtRunning (Some (p, w))) AtRan); [.. | split].
  - injection H as <-. by edestruct (Hi (AtRunning None) AtRan); [.. | split].
  - injection H as <-. by edestruct (Hi AtRan AtLoop); [.. | split].
Qed.

Lemma serving_step n P P' e : e ≠ PDestroy → serving n P → pool_step P e = Ok P' → serving n P'.
Proof.
  intros He Hs H. destruct e as [w | t | |]; cbn [pool_step] in H; [| by eapply serving_thread | done |].
  - apply bind_Ok_inv in H as ([r P1] & H1 & [= <-]). unfold thpool_add_work in H1.
    destruct (xalloc (tp_jobs P)); [| by injection H1 as _ <-].
    apply bind_Ok_inv in H1 as ([h q] & _ & [= _ <-]). by destruct Hs.
  - rewrite (sv_keep n P Hs) in H. by injection H as <-.
Qed.

(** thpool_pause reaches every thread of a pool in service. *)
Lemma signal_threads_all n k : ∀ i H,
  (i + k ≤ n)%nat → serving n (hd_pool H) →
  ∃ H', signal_threads k i H = Ok H' ∧ hd_pool H' = hd_pool H ∧ hd_held H' = hd_held H ∧
    ∀ t, t ∈ hd_pending H' ↔ t ∈ hd_pending H ∨ (i ≤ t < i + k)%nat.
Proof.
  induction k as [| k IH]; intros i H Hle Hs; cbn [signal_threads].
  { exists H. split; [done |]. split; [done |]. split; [done |]. intros t. split; [auto |].
    intros [? | ?]; [done | lia]. }
  destruct (sv_threads n _ Hs i ltac:(lia)) as (a & -> & _).
  destruct (IH (S i) (mkHold (hd_pool H) (hd_on H) ({[i]} ∪ hd_pending H) (hd_held H)))
    as (H' & -> & Hp & Hh & Hin); [lia | done |].
  exists H'. split; [done |]. split; [done |]. split; [done |]. intros t. rewrite Hin. cbn [hd_pending].
  rewrite elem_of_union, elem_of_singleton. split; [intros [[-> | ?] | ?]; auto with lia |].
  intros [? | ?]; [auto |]. destruct (decide (t = i)); [auto | right; lia].
Qed.

(** The steps of the pool among the events. *)
Definition pool_events (es : list hold_event) : list (pool_event W) :=
  omap (λ e, match e with HPool e => Some e | _ => None end) es.

(** One event, on a pool in service. *)
Lemma hold_step_serves n H e js ws :
  e ≠ HPool PDestroy → serving n (hd_pool H) → pool_inv (hd_pool H) js ws →
  Z.of_nat (length (tp_added (hd_pool H))) < 2 ^ 31 - 1 →
  ∃ H' es' js' ws', hold_step H e = Ok H' ∧ es' `sublist_of` pool_events [e] ∧
    pool_run (hd_pool H) es' = Ok (hd_pool H') ∧ serving n (hd_pool H') ∧
    pool_inv (hd_pool H') js' ws' ∧
    (length (tp_added (hd_pool H')) ≤ S (length (tp_added (hd_pool H))))%nat.
Proof.
  intros He Hs Hi Hl. destruct e as [e | | | t | t].
  - assert (hold_step H (HPool e) = Ok H ∨
            hold_step H (HPool e) = (P ← pool_step (hd_pool H) e; Ok (mkHold P (hd_on H) (hd_pending H) (hd_held H))))
      as [-> | ->].
    { cbn. unfold held_step. destruct e; try (by right). destruct (decide _); [by left | by right]. }
    { exists H, [], js, ws. split; [done |]. split; [apply sublist_nil_l |]. auto. }
    destruct (pool_step_inv (hd_pool H) js ws e Hi Hl) as (P' & js' & ws' & Hst & Hi' & Hl').
    rewrite Hst, bind_Ok. eexists _, [e], js', ws'. split; [done |]. split; [done |].
    cbn [pool_run hd_pool]. rewrite Hst. split; [done |].
    split; [eapply serving_step; [| exact Hs | exact Hst]; congruence |]. auto.
  - destruct (signal_threads_all n (Z.to_nat (tp_alive (hd_pool H))) 0 H) as (H' & He' & Hp & _);
      [rewrite (sv_alive n _ Hs); lia | done |].
    exists H', [], js, ws. split; [exact He' |]. rewrite Hp. split; [apply sublist_nil_l |]. auto.
  - eexists _, [], js, ws. split; [done |]. split; [apply sublist_nil_l |]. cbn. auto.
  - eexists _, [], js, ws. split; [done |]. split; [apply sublist_nil_l |].
    unfold thread_hold_begin. destruct (decide _); cbn; auto.
  - eexists _, [], js, ws. split; [done |]. split; [apply sublist_nil_l |].
    unfold thread_hold_check. destruct (hd_on H); cbn; auto.
Qed.

Lemma hold_run_serves n es : ∀ H js ws,
  HPool PDestroy ∉ es → serving n (hd_pool H) → pool_inv (hd_pool H) js ws →
  Z.of_nat (length (tp_added (hd_pool H)) + length es) < 2 ^ 31 - 1 →
  ∃ H' es', hold_run H es = Ok H' ∧ es' `sublist_of` pool_events es ∧
    pool_run (hd_pool H) es' = Ok (hd_pool H') ∧ serving n (hd_pool H').
Proof.
  induction es as [| e es IH]; intros H js ws He Hs Hi Hl.
  { exists H, []. cbn. split; [done |]. split; [done |]. auto. }
  apply not_elem_of_cons in He as [He Hes]. cbn [length] in Hl.
  destruct (hold_step_serves n H e js ws) as (H1 & es1 & js1 & ws1 & He1 & Hsub & Hr1 & Hs1 & Hi1 & Hl1);
    [congruence | done | done | lia |].
  destruct (IH H1 js1 ws1 Hes Hs1 Hi1 ltac:(lia)) as (H2 & es2 & He2 & Hsub2 & Hr2 & Hs2).
  exists H2, (es1 ++ es2). cbn [hold_run]. rewrite He1. split; [exact He2 |].
  split; [| split; [by rewrite pool_run_app, Hr1 | done]].
  change (pool_events (e :: es)) with (pool_events ([e] ++ es)). unfold pool_events. rewrite omap_app.
  by apply sublist_app.
Qed.

Lemma serving_pool_serves n :
  ∃ P js ws, serving_pool n = Ok P ∧ serving n P ∧ pool_inv P js ws ∧ tp_added P = [].
Proof.
  destruct (starts_alive (seq 0 n) (created_pool (seq 0 n)) (NoDup_seq 0 n))
    as (P & HP & Ha & Hk & Had & Hth); [intros; apply created_lookup; auto using NoDup_seq |].
  assert (created_pool (W := W) (seq 0 n) = thpool_init (Z.of_nat n)) as Heq.
  { unfold thpool_init. case_cmp; [lia |]. by rewrite Nat2Z.id. }
  assert (∃ js' ws', pool_inv P js' ws') as (js & ws & Hi).
  { pose proof (init_inv (W := W) (Z.of_nat n)) as Hi. rewrite <- Heq in Hi.
    clear -HP Hi. revert HP Hi. generalize (seq 0 n). intros ts.
    generalize (created_pool (W := W) ts) (@nil loc) (@nil W). induction ts as [| t ts IH]; intros P0 js ws HP Hi.
    { injection HP as <-. eauto. }
    rewrite fmap_cons in HP. cbn [pool_run pool_step] in HP. apply bind_Ok_inv in HP as (P1 & H1 & HP).
    destruct (thread_inv P0 js ws t Hi) as (P1' & js' & ws' & H1' & Hi' & _).
    rewrite H1 in H1'. injection H1' as <-. exact (IH P1 js' ws' HP Hi'). }
  exists P, js, ws. split; [exact HP |]. split; [| done]. split.
  - by rewrite Hk.
  - rewrite Ha, length_seq. done.
  - intros t Ht. exists AtLoop. rewrite Hth. rewrite decide_True by (apply elem_of_seq; lia). done.
  - intros t [a Hta]. rewrite Hth in Hta. case_decide as Hin; [apply elem_of_seq in Hin; lia |].
    apply elem_of_list_to_map_2, list_elem_of_fmap in Hta as (t' & [= -> _] & Hin'). done.
Qed.

(** Looks at the flag after thpool_resume. *)
Lemma checks_release ts : ∀ H, hd_on H = false →
  ∃ H', hold_run H (HCheck <$> ts) = Ok H' ∧ hd_pool H' = hd_pool H ∧ hd_on H' = false ∧
    hd_held H' = hd_held H ∖ list_to_set ts.
Proof.
  induction ts as [| t ts IH]; intros H Hon.
  { exists H. split; [done |]. split; [done |]. split; [done |]. apply set_eq. clear. set_solver. }
  rewrite fmap_cons. cbn [hold_run hold_step]. unfold thread_hold_check. rewrite Hon, bind_Ok.
  destruct (IH (mkHold (hd_pool H) false (hd_pending H) (hd_held H ∖ {[t]}))) as (H' & He & Hp & Ho & Hh); [done |].
  exists H'. split; [done |]. split; [done |]. split; [done |]. rewrite Hh. cbn. apply set_eq. clear. set_solver.
Qed.


(** While threads_on_hold is set, a thread on hold stays where it is. *)
Lemma hold_step_held H H' e t :
  hold_step H e = Ok H' → e ≠ HResume → hd_on H = true → t ∈ hd_held H →
  hd_on H' = true ∧ t ∈ hd_held H'.
Proof.
  intros He Hne Hon Ht. destruct e as [e | | | t' | t']; cbn [hold_step] in He; [| | done | |].
  - unfold held_step in He. destruct e; try (apply bind_Ok_inv in He as (P & _ & [= <-]); done).
    case_decide; [by injection He as <- |]. apply bind_Ok_inv in He as (P & _ & [= <-]). done.
  - unfold thpool_pause in He. revert He. generalize (Z.to_nat (tp_alive (hd_pool H))) 0%nat.
    intros k. revert H Hon Ht. induction k as [| k IH]; intros H Hon Ht i He; cbn [signal_threads] in He.
    { by injection He as <-. }
    destruct (tp_threads (hd_pool H) !! i); [| done]. by eapply IH in He.
  - injection He as <-. unfold thread_hold_begin. case_decide; [| done]. cbn. split; [done |].
    clear -Ht. set_solver.
  - injection He as <-. unfold thread_hold_check. by rewrite Hon.
Qed.

(** A thpool_resume can be lost.  When the signal of a thread is delivered
    after thpool_resume, thread_hold sets threads_on_hold again, and the thread is
    on hold through every further sequence of steps without another
    thpool_resume. *)
Theorem late_signal_holds H H' t es :
  t ∈ hd_pending H → t ∉ hd_held H → HResume ∉ es →
  hold_run H (HResume :: HSignal t :: es) = Ok H' → hd_on H' = true ∧ t ∈ hd_held H'.
Proof.
  intros Hp Hh Hes. cbn [hold_run hold_step]. rewrite !bind_Ok. unfold thread_hold_begin.
  rewrite decide_True by done. cbn [thpool_resume hd_pool hd_pending hd_held].
  set (H1 := mkHold _ true _ _). intros Hr.
  assert (hd_on H1 = true ∧ t ∈ hd_held H1) as [Hon Ht] by (split; [done |]; clear; set_solver).
  clearbody H1. clear Hp Hh. revert H1 Hon Ht Hr. induction es as [| e es IH]; intros H1 Hon Ht Hr.
  { by injection Hr as <-. }
  apply not_elem_of_cons in Hes as [He Hes]. cbn [hold_run] in Hr.
  apply bind_Ok_inv in Hr as (H2 & H12 & Hr).
  destruct (hold_step_held H1 H2 e t H12) as [Hon2 Ht2]; [congruence | done | done |]. by eapply IH.
Qed.
End hold.

Global Arguments hold : clear implicits.
Global Arguments hold_event : clear implicits.

(** Two threads, paused while one has a job; then resumed, but the signal of the
    second comes late. *)
Definition pause_run : list (hold_event Z) :=
  [HPool (PAdd 7); HPool (PThread 0); HPool (PThread 0); HPause; HSignal 0; HPool (PThread 0); HPool (PThread 1)].


(** What a run leaves. *)
Definition ok_hold (r : res (hold Z)) : hold Z :=
  match r with Ok H => H | Fail _ => mkHold (created_pool []) false ∅ ∅ end.

Definition paused : hold Z :=
  ok_hold (P0 ← serving_pool (AJ := unbounded_allocator) 2;
           hold_run (AJ := unbounded_allocator) (mkHold P0 false ∅ ∅) pause_run).
Definition late_run : list (hold_event Z) := [HCheck 0; HPool (PThread 1); HCheck 1].
Definition resumed : hold Z :=
  ok_hold (hold_run (AJ := unbounded_allocator) paused (HResume :: HSignal 1 :: late_run)).

Lemma late_signal_holds_witness :
  hold_run (AJ := unbounded_allocator) paused (HResume :: HSignal 1 :: late_run) = Ok resumed ∧
  hd_on resumed = true ∧ 1%nat ∈ hd_held resumed.
Proof.
  assert (hold_run (AJ := unbounded_allocator) paused (HResume :: HSignal 1 :: late_run) = Ok resumed) as Hr
    by (vm_compute; reflexivity).
  split; [exact Hr |].
  apply (late_signal_holds (AJ := unbounded_allocator) paused resumed 1%nat late_run); [| | | exact Hr].
  - apply (bool_decide_unpack _). vm_compute. exact I.
  - apply (bool_decide_unpack _). vm_compute. exact I.
  - intros Hin. unfold late_run in Hin.
    repeat (apply elem_of_cons in Hin as [Hin | Hin]; [discriminate |]). by apply elem_of_nil in Hin.
Defined.
