(* ===== verification/Timer.v ===== *)
(** The timing wheel of lib/timer.c: 256 near slots and four levels of 64
    slots; a node waits in the slot of its expiry and is moved to a finer slot
    as the clock reaches it.

    The lock of the timer covers timer_add, timer_shift and the unlinking of
    timer_execute, so these are atomic; a list of nodes is a Rocq list here and
    the linked representation is the subject of TimerFacts.v. *)

From S2P Require Import Prelude Memory.

Local Open Scope Z_scope.

Definition TIME_NEAR_SHIFT : Z := 8.
Definition TIME_NEAR : Z := 256.
Definition TIME_LEVEL_SHIFT : Z := 6.
Definition TIME_LEVEL : Z := 64.
Definition TIME_NEAR_MASK : Z := TIME_NEAR - 1.
Definition TIME_LEVEL_MASK : Z := TIME_LEVEL - 1.

(** ** The linked lists of nodes

    A list is its head node, of which only [next] is used, and a pointer to its
    last node; [None] as [tl_tail] is the address of the head node itself. *)

Record linked_node := mkLinked { ln_next : option loc; ln_expire : Z }.

Record timelink_list := mkTimelink { tl_first : option loc; tl_tail : option loc }.

Definition set_ln_next (p : option loc) (n : linked_node) := mkLinked p (ln_expire n).

#[export] Instance timer_linked : Linked linked_node :=
  {| link := ln_next; set_link := set_ln_next; link_set_link _ _ := eq_refl |}.

Definition timelink_clear (l : timelink_list) : option loc * timelink_list :=
  (tl_first l, mkTimelink None None).

Definition timelink (h : gmap loc linked_node) (l : timelink_list) (node : loc) :
    res (gmap loc linked_node * timelink_list) :=
  '(h, l) ← match tl_tail l with
            | None => Ok (h, mkTimelink (Some node) (tl_tail l))
            | Some _ => h ← modify h (tl_tail l) (set_ln_next (Some node)); Ok (h, l)
            end;
  let l := mkTimelink (tl_first l) (Some node) in
  h ← modify h (Some node) (set_ln_next None);
  Ok (h, l).

(** ** The wheel *)

Section timer.
(** [H]: the handle of an event, a [struct stream *]. *)
Context {H : Type}.

(** A node with the event stored behind it. *)
Record timer_node := mkTnode { tn_expire : Z; tn_handle : H }.

Record timer := mkTimer {
  t_near : list (list timer_node);
  t_levels : list (list (list timer_node));
  t_time : Z;              (* uint32_t *)
  t_current : Z;           (* uint32_t *)
  t_starttime : Z;         (* uint32_t *)
  t_current_point : Z;     (* uint64_t *)
  t_origin_point : Z       (* uint64_t *)
}.

Implicit Types (T : timer) (node : timer_node).

Definition set_near v T := mkTimer v (t_levels T) (t_time T) (t_current T) (t_starttime T)
  (t_current_point T) (t_origin_point T).
Definition set_levels v T := mkTimer (t_near T) v (t_time T) (t_current T) (t_starttime T)
  (t_current_point T) (t_origin_point T).
Definition set_time v T := mkTimer (t_near T) (t_levels T) v (t_current T) (t_starttime T)
  (t_current_point T) (t_origin_point T).
Definition set_current v T := mkTimer (t_near T) (t_levels T) (t_time T) v (t_starttime T)
  (t_current_point T) (t_origin_point T).
Definition set_starttime v T := mkTimer (t_near T) (t_levels T) (t_time T) (t_current T) v
  (t_current_point T) (t_origin_point T).
Definition set_current_point v T := mkTimer (t_near T) (t_levels T) (t_time T) (t_current T)
  (t_starttime T) v (t_origin_point T).

(** [timelink(&T->near[i], node)] and [timelink(&T->t[i][j], node)] *)
Definition near_link T (i : Z) node : res timer :=
  l ← rd (t_near T) i;
  near ← wr (t_near T) i (l ++ [node]);
  Ok (set_near near T).

Definition level_link T (i j : Z) node : res timer :=
  lv ← rd (t_levels T) i;
  l ← rd lv j;
  lv ← wr lv j (l ++ [node]);
  levels ← wr (t_levels T) i lv;
  Ok (set_levels levels T).

(** [for (i=0;i<3;i++) ...] of add_node: the level whose slots tell the two
    times apart. *)
Fixpoint level_loop (k : nat) (i mask time current_time : Z) : Z :=
  match k with
  | O => i
  | S k =>
      if Z.lor time (u32 (mask - 1)) =? Z.lor current_time (u32 (mask - 1)) then i
      else level_loop k (i + 1) (u32 (Z.shiftl mask TIME_LEVEL_SHIFT)) time current_time
  end.

Definition add_node T node : res timer :=
  let time := tn_expire node in
  let current_time := t_time T in
  if Z.lor time TIME_NEAR_MASK =? Z.lor current_time TIME_NEAR_MASK then
    near_link T (Z.land time TIME_NEAR_MASK) node
  else
    let mask := Z.shiftl TIME_NEAR TIME_LEVEL_SHIFT in
    let i := level_loop 3 0 mask time current_time in
    level_link T i
      (Z.land (Z.shiftr time (TIME_NEAR_SHIFT + i * TIME_LEVEL_SHIFT)) TIME_LEVEL_MASK) node.

(** [mem]: the malloc of the node succeeds; its result is not checked. *)
Definition timer_add (mem : bool) T (arg : H) (time : Z) : res timer :=
  if mem then add_node T (mkTnode (u32 (time + t_time T)) arg) else Fail NullDeref.

Fixpoint add_nodes T (nodes : list timer_node) : res timer :=
  match nodes with
  | [] => Ok T
  | node :: nodes => T ← add_node T node; add_nodes T nodes
  end.

Definition move_list T (level idx : Z) : res timer :=
  lv ← rd (t_levels T) level;
  current ← rd lv idx;
  lv ← wr lv idx [];
  levels ← wr (t_levels T) level lv;
  add_nodes (set_levels levels T) current.

(** dispatch_list routes the packet of every node, in order, with
    misaka_packet_task_route; the model returns the packets. *)
Definition dispatch_list (current : list timer_node) : list H := tn_handle <$> current.

(** [while (T->near[idx].head.next) ...] *)
Fixpoint execute_loop (k : nat) T (idx : Z) : res (list H * timer) :=
  match k with
  | O => Fail OutOfFuel
  | S k =>
      current ← rd (t_near T) idx;
      match current with
      | [] => Ok ([], T)
      | _ =>
          near ← wr (t_near T) idx [];
          '(hs, T) ← execute_loop k (set_near near T) idx;
          Ok (dispatch_list current ++ hs, T)
      end
  end.

(** Between the unlinking of a list and the next test nothing is added by the
    same thread: the loop body runs at most once. *)
Definition timer_execute T : res (list H * timer) :=
  execute_loop 2 T (Z.land (t_time T) TIME_NEAR_MASK).

(** [while ((ct & (mask-1)) == 0) ...] of timer_shift *)
Fixpoint shift_loop (k : nat) T (ct time mask i : Z) : res timer :=
  match k with
  | O => Fail OutOfFuel
  | S k =>
      if Z.land ct (mask - 1) =? 0 then
        let idx := Z.land time TIME_LEVEL_MASK in
        if negb (idx =? 0) then move_list T i idx
        else
          mask ← int_op (Z.shiftl mask TIME_LEVEL_SHIFT);
          shift_loop k T ct (Z.shiftr time TIME_LEVEL_SHIFT) mask (i + 1)
      else Ok T
  end.

Definition timer_shift T : res timer :=
  let ct := u32 (t_time T + 1) in
  let T := set_time ct T in
  if ct =? 0 then move_list T 3 0
  else shift_loop 5 T ct (Z.shiftr ct TIME_NEAR_SHIFT) TIME_NEAR 0.

Definition timer_update T : res (list H * timer) :=
  '(hs1, T) ← timer_execute T;
  T ← timer_shift T;
  '(hs2, T) ← timer_execute T;
  Ok (hs1 ++ hs2, T).

(** A timeout of 0 is dropped. *)
Definition server_timer_timeout (mem : bool) T (time : Z) (handle : H) : res timer :=
  if time =? 0 then Ok T else timer_add mem T handle time.

Definition server_timer_create_timer : timer :=
  mkTimer (replicate (Z.to_nat TIME_NEAR) [])
    (replicate 4 (replicate (Z.to_nat TIME_LEVEL) [])) 0 0 0 0 0.

(** [sec], [cs]: what systime stores; [point]: what gettime returns. *)
Definition server_timer_init (sec cs point : Z) : timer :=
  let T := server_timer_create_timer in
  mkTimer (t_near T) (t_levels T) (t_time T) (u32 cs) (u32 sec) point point.

(** systime and gettime from the fields of a timespec. *)
Definition systime (tv_sec tv_nsec : Z) : Z * Z := (u32 tv_sec, u32 (Z.quot tv_nsec 10000000)).
Definition gettime (tv_sec tv_nsec : Z) : Z := u64 (u64 (tv_sec * 100) + Z.quot tv_nsec 10000000).

Fixpoint update_times (k : nat) T : res (list H * timer) :=
  match k with
  | O => Ok ([], T)
  | S k =>
      '(hs, T) ← timer_update T;
      '(hs', T) ← update_times k T;
      Ok (hs ++ hs', T)
  end.

(** [cp]: the reading of the monotonic clock.  The int counter of the loop is
    compared as unsigned and overflows when [diff] does not fit. *)
Definition server_timer_updatetime T (cp : Z) : res (list H * timer) :=
  if cp <? t_current_point T then Ok ([], set_current_point cp T)
  else if negb (cp =? t_current_point T) then
    let diff := u32 (cp - t_current_point T) in
    let T := set_current_point cp T in
    let oc := t_current T in
    let T := set_current (u32 (t_current T + diff)) T in
    let T := if t_current T <? oc
             then set_starttime (u32 (t_starttime T + (2 ^ 32 - 1) / 100)) T else T in
    if 2 ^ 31 <=? diff then Fail SignedOverflow else update_times (Z.to_nat diff) T
  else Ok ([], T).

Definition server_timer_gettime_fixsec T : Z := t_starttime T.
Definition server_timer_gettime T : Z := t_current T.

End timer.

Global Arguments timer_node : clear implicits.
Global Arguments timer : clear implicits.
