(* ===== verification/TimerFacts.v ===== *)
(** Correctness of the timing wheel of Timer.v: a timeout fires at the tick it
    was set for, neither earlier nor later, through the moves between levels
    and the wrap-around of the 32-bit clock, in the order of insertion. *)

From S2P Require Import Prelude Memory Timer.

Local Open Scope Z_scope.

(** ** Slots and where an expiry belongs *)

Inductive slot := Near (i : Z) | Lvl (i j : Z).

#[export] Instance slot_eq_dec : EqDecision slot.
Proof. solve_decision. Defined.

(** The slot add_node chooses for the expiry [e] at the time [t]. *)
Definition place (t e : Z) : slot :=
  if Z.lor e TIME_NEAR_MASK =? Z.lor t TIME_NEAR_MASK then Near (Z.land e TIME_NEAR_MASK)
  else let i := level_loop 3 0 (Z.shiftl TIME_NEAR TIME_LEVEL_SHIFT) e t in
       Lvl i (Z.land (Z.shiftr e (TIME_NEAR_SHIFT + i * TIME_LEVEL_SHIFT)) TIME_LEVEL_MASK).

(** The same on times that do not wrap around, in base 64 digits of the time
    above the near slots. *)
Definition vplace (T E : Z) : slot :=
  let x := E / 256 in let y := T / 256 in
  if x =? y then Near (E mod 256)
  else if x / 64 =? y / 64 then Lvl 0 (x mod 64)
  else if x / 64 / 64 =? y / 64 / 64 then Lvl 1 (x / 64 mod 64)
  else if x / 64 / 64 / 64 =? y / 64 / 64 / 64 then Lvl 2 (x / 64 / 64 mod 64)
  else Lvl 3 (x / 64 / 64 / 64 mod 64).

(** The list timer_shift moves when the clock reaches [T]. *)
Definition moved (T : Z) : option (Z * Z) :=
  let y := T / 256 in
  if negb (T mod 256 =? 0) then None
  else if negb (y mod 64 =? 0) then Some (0, y mod 64)
  else if negb (y / 64 mod 64 =? 0) then Some (1, y / 64 mod 64)
  else if negb (y / 64 / 64 mod 64 =? 0) then Some (2, y / 64 / 64 mod 64)
  else Some (3, y / 64 / 64 / 64 mod 64).

Lemma lor_mask_eq k a b :
  0 ≤ k → (Z.lor a (2 ^ k - 1) =? Z.lor b (2 ^ k - 1)) = (a / 2 ^ k =? b / 2 ^ k).
Proof.
  intros Hk. replace (2 ^ k - 1) with (Z.ones k) by (rewrite Z.ones_equiv; lia).
  rewrite <- !Z.shiftr_div_pow2 by done.
  apply eq_true_iff_eq. rewrite !Z.eqb_eq. split; intros H.
  - apply (f_equal (λ z, Z.shiftr z k)) in H. rewrite !Z.shiftr_lor in H.
    replace (Z.shiftr (Z.ones k) k) with 0 in H; [by rewrite !Z.lor_0_r in H |].
    rewrite Z.shiftr_div_pow2, Z.ones_equiv by done. symmetry. apply Z.div_small. lia.
  - apply Z.bits_inj'. intros n Hn. rewrite !Z.lor_spec.
    destruct (Z.lt_ge_cases n k).
    + rewrite Z.ones_spec_low by lia. by rewrite !orb_true_r.
    + replace n with (n - k + k) by lia. rewrite <- !Z.shiftr_spec by lia. by rewrite H.
Qed.

Lemma land_mask k a : 0 ≤ k → Z.land a (2 ^ k - 1) = a mod 2 ^ k.
Proof.
  intros Hk. rewrite <- Z.land_ones by done. f_equal. rewrite Z.ones_equiv. lia.
Qed.

(** The tests of add_node in terms of quotients. *)
Lemma place_div t e :
  place t e =
  if e / 2 ^ 8 =? t / 2 ^ 8 then Near (e mod 2 ^ 8)
  else if e / 2 ^ 14 =? t / 2 ^ 14 then Lvl 0 (e / 2 ^ 8 mod 2 ^ 6)
  else if e / 2 ^ 20 =? t / 2 ^ 20 then Lvl 1 (e / 2 ^ 14 mod 2 ^ 6)
  else if e / 2 ^ 26 =? t / 2 ^ 26 then Lvl 2 (e / 2 ^ 20 mod 2 ^ 6)
  else Lvl 3 (e / 2 ^ 26 mod 2 ^ 6).
Proof.
  unfold place, level_loop.
  change TIME_NEAR_MASK with (2 ^ 8 - 1). change TIME_LEVEL_MASK with (2 ^ 6 - 1).
  change (u32 (Z.shiftl TIME_NEAR TIME_LEVEL_SHIFT - 1)) with (2 ^ 14 - 1).
  change (u32 (u32 (Z.shiftl (Z.shiftl TIME_NEAR TIME_LEVEL_SHIFT) TIME_LEVEL_SHIFT) - 1))
    with (2 ^ 20 - 1).
  change (u32 (u32 (Z.shiftl (u32 (Z.shiftl (Z.shiftl TIME_NEAR TIME_LEVEL_SHIFT)
    TIME_LEVEL_SHIFT)) TIME_LEVEL_SHIFT) - 1)) with (2 ^ 26 - 1).
  rewrite !lor_mask_eq, land_mask by lia.
  destruct (_ =? _); [done |].
  destruct (e / 2 ^ 14 =? t / 2 ^ 14); [rewrite land_mask, Z.shiftr_div_pow2 by done; done |].
  destruct (e / 2 ^ 20 =? t / 2 ^ 20); [rewrite land_mask, Z.shiftr_div_pow2 by done; done |].
  destruct (e / 2 ^ 26 =? t / 2 ^ 26); rewrite land_mask, Z.shiftr_div_pow2 by done; done.
Qed.

(** [E] is the unbounded time of an expiry at or after [T]. *)
Definition ahead (T E : Z) : Prop := 0 ≤ T ∧ T ≤ E < T + 2 ^ 31.

Lemma u32_div k m X : 0 < k → 0 < m → k * m = 2 ^ 32 → u32 X / k = (X / k) mod m.
Proof.
  intros Hk Hm Hkm. unfold u32. rewrite <- Hkm, Z.rem_mul_r by lia.
  rewrite (Z.mul_comm k), Z.div_add by lia.
  rewrite (Z.div_small (X mod k)); [lia | apply Z.mod_pos_bound; lia].
Qed.

Lemma mod_mul_mod X a b : 0 < a → 0 < b → (X mod (a * b)) mod a = X mod a.
Proof.
  intros Ha Hb. rewrite Z.rem_mul_r, Z.mul_comm, Z.mod_add, Z.mod_mod by lia. done.
Qed.

Lemma u32_digit k m X :
  0 < k → 0 < m → k * (2 ^ 6 * m) = 2 ^ 32 → u32 X / k mod 2 ^ 6 = X / k mod 2 ^ 6.
Proof.
  intros Hk Hm Hkm. rewrite (u32_div k (2 ^ 6 * m)) by lia. apply mod_mul_mod; lia.
Qed.

Lemma u32_div_eq k m T E :
  0 < k → 0 < m → k * m = 2 ^ 32 → 2 ^ 31 / k + 1 < m → ahead T E →
  (u32 E / k =? u32 T / k) = (E / k =? T / k).
Proof.
  intros Hk Hm Hkm Hs [HT HE]. rewrite !(u32_div k m) by done. apply eq_true_iff_eq. rewrite !Z.eqb_eq. split; [| congruence]. intros He.
  assert (T / k ≤ E / k ≤ T / k + 2 ^ 31 / k + 1) as Hb.
  { split; [apply Z.div_le_mono; lia |].
    pose proof (Z.div_mod T k ltac:(lia)). pose proof (Z.div_mod E k ltac:(lia)).
    pose proof (Z.div_mod (2 ^ 31) k ltac:(lia)). pose proof (Z.mod_pos_bound T k Hk).
    pose proof (Z.mod_pos_bound E k Hk). pose proof (Z.mod_pos_bound (2 ^ 31) k Hk).
    set (a := T / k) in *. set (b := E / k) in *. set (c := 2 ^ 31 / k) in *.
    set (r1 := T mod k) in *. set (r2 := E mod k) in *. set (r3 := 2 ^ 31 mod k) in *.
    clearbody a b c r1 r2 r3. clear He.
    apply Z.lt_succ_r, (Z.mul_lt_mono_pos_l k); [done |]. nia. }
  apply mod_eq_close in He; lia.
Qed.

(** For an expiry less than half the clock range ahead, the masks on 32-bit
    times compare the unbounded times. *)
Lemma place_vplace T E : ahead T E → place (u32 T) (u32 E) = vplace T E.
Proof.
  intros HA. rewrite place_div. unfold vplace.
  rewrite (u32_div_eq (2 ^ 8) (2 ^ 24)), (u32_div_eq (2 ^ 14) (2 ^ 18)),
    (u32_div_eq (2 ^ 20) (2 ^ 12)), (u32_div_eq (2 ^ 26) (2 ^ 6)) by done.
  rewrite (u32_digit (2 ^ 8) (2 ^ 18)), (u32_digit (2 ^ 14) (2 ^ 12)),
    (u32_digit (2 ^ 20) (2 ^ 6)), (u32_digit (2 ^ 26) 1) by done.
  replace (u32 E mod 2 ^ 8) with (E mod 2 ^ 8) by (symmetry; by apply (mod_mul_mod E (2 ^ 8) (2 ^ 24))).
  change (2 ^ 8) with 256. change (2 ^ 6) with 64.
  change (2 ^ 14) with (256 * 64). change (2 ^ 20) with (256 * 64 * 64).
  change (2 ^ 26) with (256 * 64 * 64 * 64). rewrite <- !Z.div_div by lia. done.
Qed.

(** ** What a tick moves *)

Lemma vplace_tick_same T E : (T + 1) mod 256 ≠ 0 → vplace (T + 1) E = vplace T E.
Proof.
  intros Hm. unfold vplace. replace ((T + 1) / 256) with (T / 256); [done |].
  Z.to_euclidean_division_equations; lia.
Qed.

(** Adding one carries into the next base 64 digit exactly when the digit
    becomes 0. *)
Lemma digit_carry y :
  ((y + 1) mod 64 ≠ 0 ∧ (y + 1) / 64 = y / 64) ∨ ((y + 1) mod 64 = 0 ∧ (y + 1) / 64 = y / 64 + 1).
Proof. Z.to_euclidean_division_equations; lia. Qed.

Lemma tick_carry T : (T + 1) mod 256 = 0 → (T + 1) / 256 = T / 256 + 1.
Proof. intros. Z.to_euclidean_division_equations; lia. Qed.

Lemma digit_mono x y : y ≤ x → y / 64 ≤ x / 64.
Proof. intros. apply Z.div_le_mono; lia. Qed.

(** When the clock reaches a multiple of 256, only the nodes of one list have
    to change slot. *)
Lemma vplace_tick_moved T E i j :
  T < E → moved (T + 1) = Some (i, j) → vplace T E ≠ Lvl i j →
  vplace (T + 1) E = vplace T E.
Proof.
  unfold moved, vplace. intros HE Hm.
  destruct (Z.eqb_spec ((T + 1) mod 256) 0) as [H0 |]; cbn [negb] in Hm; [| discriminate].
  assert (T / 256 + 1 ≤ E / 256) as Hx.
  { rewrite <- tick_carry by done. apply Z.div_le_mono; lia. }
  rewrite (tick_carry T H0) in *.
  set (x := E / 256) in *. set (y := T / 256) in *. clearbody x y. clear H0.
  rewrite (proj2 (Z.eqb_neq x y)) by lia.
  destruct (digit_carry y) as [[D0 C0] | [D0 C0]]; rewrite C0 in *.
  { rewrite (proj2 (Z.eqb_neq _ _) D0) in Hm. cbn [negb] in Hm. simplify_eq. intros Hne.
    destruct (Z.eqb_spec x (y + 1)) as [-> |]; [| done]. by rewrite C0, Z.eqb_refl in Hne. }
  pose proof (digit_mono _ _ Hx) as Hx1. rewrite C0 in Hx1.
  rewrite (proj2 (Z.eqb_eq _ _) D0) in Hm. cbn [negb] in Hm.
  rewrite (proj2 (Z.eqb_neq (x / 64) (y / 64))) by lia.
  assert (x / 64 ≠ y / 64 + 1 → x ≠ y + 1) as N0 by congruence.
  set (x1 := x / 64) in *. set (y1 := y / 64) in *.
  destruct (digit_carry y1) as [[D1 C1] | [D1 C1]]; rewrite C1 in *.
  { rewrite (proj2 (Z.eqb_neq _ _) D1) in Hm. cbn [negb] in Hm. simplify_eq. intros Hne.
    destruct (Z.eqb_spec x1 (y1 + 1)) as [E1 |].
    - by rewrite E1, C1, Z.eqb_refl in Hne.
    - by rewrite (proj2 (Z.eqb_neq x (y + 1))) by auto. }
  pose proof (digit_mono _ _ Hx1) as Hx2. rewrite C1 in Hx2.
  rewrite (proj2 (Z.eqb_eq _ _) D1) in Hm. cbn [negb] in Hm.
  rewrite (proj2 (Z.eqb_neq (x1 / 64) (y1 / 64))) by lia.
  assert (x1 / 64 ≠ y1 / 64 + 1 → x1 ≠ y1 + 1) as N1 by congruence.
  set (x2 := x1 / 64) in *. set (y2 := y1 / 64) in *.
  destruct (digit_carry y2) as [[D2 C2] | [D2 C2]]; rewrite C2 in *.
  { rewrite (proj2 (Z.eqb_neq _ _) D2) in Hm. cbn [negb] in Hm. simplify_eq. intros Hne.
    destruct (Z.eqb_spec x2 (y2 + 1)) as [E2 |].
    - by rewrite E2, C2, Z.eqb_refl in Hne.
    - rewrite (proj2 (Z.eqb_neq x1 (y1 + 1))), (proj2 (Z.eqb_neq x (y + 1))) by auto. done. }
  pose proof (digit_mono _ _ Hx2) as Hx3. rewrite C2 in Hx3.
  rewrite (proj2 (Z.eqb_eq _ _) D2) in Hm. cbn [negb] in Hm.
  rewrite (proj2 (Z.eqb_neq (x2 / 64) (y2 / 64))) by lia. simplify_eq. intros Hne.
  assert (x2 / 64 ≠ y2 / 64 + 1) as N3 by congruence.
  assert (x2 ≠ y2 + 1) as N2 by congruence.
  by rewrite !(proj2 (Z.eqb_neq _ _)) by auto.
Qed.

(** ** The wheel as a map of slots *)

Section wheel.
Context {H : Type}.
Implicit Types (T : timer H) (n : timer_node H) (l : list (timer_node H)) (k : slot).

Definition get T k : list (timer_node H) :=
  match k with
  | Near i => default [] (t_near T !! Z.to_nat i)
  | Lvl i j => default [] (lv ← t_levels T !! Z.to_nat i; lv !! Z.to_nat j)
  end.

Definition valid k : Prop :=
  match k with Near i => 0 ≤ i < 256 | Lvl i j => 0 ≤ i < 4 ∧ 0 ≤ j < 64 end.

Definition wf T : Prop :=
  length (t_near T) = 256%nat ∧ length (t_levels T) = 4%nat ∧
  (∀ i lv, t_levels T !! i = Some lv → length lv = 64%nat).

Definition same_clock T T' : Prop :=
  t_time T' = t_time T ∧ t_current T' = t_current T ∧ t_starttime T' = t_starttime T ∧
  t_current_point T' = t_current_point T.

(** One slot of [T'] holds [l], the others what they hold in [T]. *)
Definition set_slot T T' k l : Prop :=
  wf T' ∧ same_clock T T' ∧
  ∀ k', valid k' → get T' k' = if decide (k' = k) then l else get T k'.

Lemma near_read T i : wf T → 0 ≤ i < 256 → rd (t_near T) i = Ok (get T (Near i)).
Proof.
  intros (Hn & _) Hi. apply rd_Ok. split; [lia |]. cbn [get].
  destruct (lookup_lt_is_Some_2 (t_near T) (Z.to_nat i)) as [l Hl]; [lia |]. by rewrite Hl.
Qed.

Lemma level_read T i j :
  wf T → 0 ≤ i < 4 → 0 ≤ j < 64 →
  ∃ lv, rd (t_levels T) i = Ok lv ∧ t_levels T !! Z.to_nat i = Some lv ∧ length lv = 64%nat ∧
    rd lv j = Ok (get T (Lvl i j)).
Proof.
  intros (_ & Hl & Hlv) Hi Hj.
  destruct (lookup_lt_is_Some_2 (t_levels T) (Z.to_nat i)) as [lv E]; [lia |].
  pose proof (Hlv _ _ E) as H64. exists lv. split; [apply rd_Ok; auto with lia |]. split; [done |].
  split; [done |]. apply rd_Ok. split; [lia |]. cbn [get]. rewrite E. cbn.
  destruct (lookup_lt_is_Some_2 lv (Z.to_nat j)) as [l E2]; [lia |]. by rewrite E2.
Qed.

Lemma near_write T i l :
  wf T → 0 ≤ i < 256 →
  ∃ near, wr (t_near T) i l = Ok near ∧ set_slot T (set_near near T) (Near i) l.
Proof.
  intros (Hn & Hl & Hlv) Hi. rewrite wr_Ok by lia. eexists. split; [reflexivity |].
  split; [split; [simpl; by rewrite length_insert | done] |]. split; [done |].
  intros [i' | i' j'] Hv; cbn [get set_near t_near t_levels].
  - simpl in Hv. case_decide; simplify_eq.
    + by rewrite list_lookup_insert_eq by lia.
    + rewrite list_lookup_insert_ne; [done |]. intros ?%Z2Nat.inj; [congruence | lia..].
  - by rewrite decide_False.
Qed.

Lemma level_write T i j l lv :
  wf T → 0 ≤ i < 4 → 0 ≤ j < 64 → t_levels T !! Z.to_nat i = Some lv → length lv = 64%nat →
  ∃ lv' levels, wr lv j l = Ok lv' ∧ wr (t_levels T) i lv' = Ok levels ∧
    set_slot T (set_levels levels T) (Lvl i j) l.
Proof.
  intros (Hn & Hl & Hlv) Hi Hj E H64. rewrite wr_Ok by lia. eexists _, _. split; [reflexivity |].
  rewrite wr_Ok by lia. split; [reflexivity |]. split; [| split; [done |]].
  - split; [done |]. cbn [set_levels t_levels]. split; [by rewrite length_insert |].
    intros i' lv' Hi'. apply list_lookup_insert_Some in Hi' as [(_ & <- & _) | [_ Hi']]; eauto.
    by rewrite length_insert.
  - intros [i' | i' j'] Hv; cbn [get set_levels t_near t_levels]; [by rewrite decide_False |].
    destruct Hv as [Hi' Hj']. destruct (decide (i' = i)) as [-> | Hne].
    + rewrite list_lookup_insert_eq by lia. cbn. rewrite E. cbn. case_decide; simplify_eq.
      * by rewrite list_lookup_insert_eq by lia.
      * rewrite list_lookup_insert_ne; [done |]. intros ?%Z2Nat.inj; [congruence | lia..].
    + rewrite decide_False by congruence. rewrite list_lookup_insert_ne; [done |].
      intros ?%Z2Nat.inj; [congruence | lia..].
Qed.

Lemma place_valid t e : 0 ≤ e → valid (place t e).
Proof.
  intros He. rewrite place_div. repeat case_match; simpl; auto using Z.mod_pos_bound with lia;
    repeat split; try lia; apply Z.mod_pos_bound; lia.
Qed.

Lemma level_link_spec T i j n :
  wf T → 0 ≤ i < 4 → 0 ≤ j < 64 →
  ∃ T', level_link T i j n = Ok T' ∧ set_slot T T' (Lvl i j) (get T (Lvl i j) ++ [n]).
Proof.
  intros Hw Hi Hj. unfold level_link.
  destruct (level_read T i j Hw Hi Hj) as (lv & -> & E & H64 & Hr). rewrite bind_Ok, Hr, bind_Ok.
  destruct (level_write T i j (get T (Lvl i j) ++ [n]) lv Hw Hi Hj E H64)
    as (lv' & levels & He1 & He2 & Hs).
  rewrite He1, bind_Ok, He2, bind_Ok. eauto.
Qed.

Lemma near_link_spec T i n :
  wf T → 0 ≤ i < 256 →
  ∃ T', near_link T i n = Ok T' ∧ set_slot T T' (Near i) (get T (Near i) ++ [n]).
Proof.
  intros Hw Hi. unfold near_link. rewrite near_read, bind_Ok by done.
  destruct (near_write T i (get T (Near i) ++ [n]) Hw Hi) as (near & -> & Hs).
  rewrite bind_Ok. eauto.
Qed.

Lemma add_node_spec T n :
  wf T → 0 ≤ tn_expire n →
  let k := place (t_time T) (tn_expire n) in
  ∃ T', add_node T n = Ok T' ∧ set_slot T T' k (get T k ++ [n]).
Proof.
  intros Hw He k. pose proof (place_valid (t_time T) (tn_expire n) He) as Hv. unfold add_node.
  subst k. unfold place in *. destruct (_ =? _).
  - by apply near_link_spec.
  - cbv zeta in *. destruct Hv. by apply level_link_spec.
Qed.

(** ** The invariant

    [pend]: the nodes not yet dispatched, in the order of insertion.  The
    nodes of each expiry are all in the slot of that expiry, in order. *)

Definition at_time (e : Z) l : list (timer_node H) := filter (λ n, tn_expire n = e) l.

Definition in_place T l : Prop :=
  ∀ k e, valid k → at_time e (get T k) = if decide (k = place (t_time T) e) then at_time e l else [].

Lemma at_time_app e l1 l2 : at_time e (l1 ++ l2) = at_time e l1 ++ at_time e l2.
Proof. apply filter_app. Qed.

Lemma at_time_single e n : at_time e [n] = if decide (tn_expire n = e) then [n] else [].
Proof. unfold at_time. by case_decide; [rewrite filter_cons_True | rewrite filter_cons_False]. Qed.

Lemma in_place_add T T' l n :
  in_place T l → set_slot T T' (place (t_time T) (tn_expire n))
    (get T (place (t_time T) (tn_expire n)) ++ [n]) → in_place T' (l ++ [n]).
Proof.
  intros Hi (_ & (Ht & _) & Hs) k e Hv. rewrite Ht, (Hs k Hv), at_time_app, at_time_single.
  destruct (decide (k = place (t_time T) (tn_expire n))) as [-> | Hk].
  - rewrite at_time_app, at_time_single, (Hi _ e Hv).
    repeat case_decide; subst; by rewrite ?app_nil_r.
  - rewrite (Hi k e Hv). repeat case_decide; subst; by rewrite ?app_nil_r.
Qed.

(** Re-adding the nodes [ls] of a detached list. *)
Lemma add_nodes_spec T ls :
  wf T → Forall (λ n, 0 ≤ tn_expire n) ls →
  ∃ T', add_nodes T ls = Ok T' ∧ wf T' ∧ same_clock T T' ∧
    ∀ k e, valid k → at_time e (get T' k) =
      at_time e (get T k) ++ (if decide (k = place (t_time T) e) then at_time e ls else []).
Proof.
  revert T. induction ls as [|n ls IH]; intros T Hw Hn; cbn [add_nodes].
  - exists T. split; [done |]. split; [done |]. split; [done |]. intros k e _.
    case_decide; by rewrite app_nil_r.
  - apply Forall_cons_1 in Hn as [Hn Hls].
    destruct (add_node_spec T n Hw Hn) as (T1 & -> & Hw1 & Hc1 & Hs). rewrite bind_Ok.
    destruct (IH T1 Hw1 Hls) as (T' & -> & Hw' & Hc' & Hp). exists T'. split; [done |].
    split; [done |]. split; [unfold same_clock in *; intuition congruence |].
    intros k e Hv. rewrite (Hp k e Hv). destruct Hc1 as (Ht & _). rewrite Ht, (Hs k Hv).
    change (n :: ls) with ([n] ++ ls). rewrite at_time_app, at_time_single.
    destruct (decide (k = place (t_time T) (tn_expire n))) as [Hk | Hk].
    + subst k. rewrite at_time_app, at_time_single, <- app_assoc. f_equal.
      repeat case_decide; subst; done.
    + f_equal. repeat case_decide; subst; done.
Qed.

Lemma move_list_spec T i j :
  wf T → 0 ≤ i < 4 → 0 ≤ j < 64 → (∀ k, valid k → Forall (λ n, 0 ≤ tn_expire n) (get T k)) →
  ∃ T', move_list T i j = Ok T' ∧ wf T' ∧ same_clock T T' ∧
    ∀ k e, valid k → at_time e (get T' k) =
      (if decide (k = Lvl i j) then [] else at_time e (get T k)) ++
      (if decide (k = place (t_time T) e) then at_time e (get T (Lvl i j)) else []).
Proof.
  intros Hw Hi Hj Hpos. unfold move_list.
  destruct (level_read T i j Hw Hi Hj) as (lv & -> & E & H64 & Hr). rewrite bind_Ok, Hr, bind_Ok.
  destruct (level_write T i j [] lv Hw Hi Hj E H64) as (lv' & levels & He1 & He2 & Hw1 & Hc1 & Hs).
  rewrite He1, bind_Ok, He2, bind_Ok.
  destruct (add_nodes_spec (set_levels levels T) (get T (Lvl i j)) Hw1) as (T' & -> & Hw' & Hc' & Hp).
  { by apply Hpos. }
  exists T'. split; [done |]. split; [done |]. split; [exact Hc' |].
  intros k e Hv. rewrite (Hp k e Hv), (Hs k Hv). by case_decide.
Qed.

Lemma in_place_mem T l k n :
  in_place T l → valid k → n ∈ get T k → n ∈ l ∧ k = place (t_time T) (tn_expire n).
Proof.
  intros Hi Hv Hn. assert (n ∈ at_time (tn_expire n) (get T k)) as Hm
    by (apply list_elem_of_filter; auto).
  rewrite (Hi k (tn_expire n) Hv) in Hm. case_decide; [| by apply elem_of_nil in Hm].
  by apply list_elem_of_filter in Hm as [_ ?].
Qed.

Lemma at_time_mem e l n : n ∈ at_time e l → n ∈ l ∧ tn_expire n = e.
Proof. intros [? ?]%list_elem_of_filter. auto. Qed.

(** ** One tick *)

(** How many ticks after [t] the expiry [e] is. *)
Definition delay (t e : Z) : Z := u32 (e - t).

Definition due (t : Z) n : Prop := is_u32 (tn_expire n) ∧ delay t (tn_expire n) < 2 ^ 31.
Definition later (t : Z) n : Prop := due t n ∧ 0 < delay t (tn_expire n).

Lemma delay_unbounded t e : is_u32 t → is_u32 e → e = u32 (t + delay t e).
Proof.
  intros Ht He. unfold delay, u32. rewrite Zplus_mod_idemp_r.
  replace (t + (e - t)) with e by lia. by rewrite Z.mod_small by apply He.
Qed.

Lemma delay_zero t e : is_u32 t → is_u32 e → delay t e = 0 → e = t.
Proof.
  intros Ht He Hd. rewrite (delay_unbounded t e Ht He), Hd, Z.add_0_r. by apply u32_small.
Qed.

Lemma delay_tick t e :
  is_u32 t → is_u32 e → 0 < delay t e → delay (u32 (t + 1)) e = delay t e - 1.
Proof.
  intros Ht He Hd. unfold delay at 1, u32 at 1 2. rewrite Zminus_mod_idemp_r.
  pose proof (u32_range (e - t)) as Hr. fold (delay t e) in Hr. unfold_ranges.
  replace (e - (t + 1)) with (e - t - 1) by lia. rewrite <- Zminus_mod_idemp_l.
  fold (u32 (e - t)). fold (delay t e). apply Z.mod_small. lia.
Qed.

Lemma place_tick t n :
  is_u32 t → later t n →
  match moved (t + 1) with
  | None => True
  | Some (i, j) => place t (tn_expire n) ≠ Lvl i j
  end → place (u32 (t + 1)) (tn_expire n) = place t (tn_expire n).
Proof.
  intros Ht [[He Hlt] Hd] Hm. set (E := t + delay t (tn_expire n)).
  assert (tn_expire n = u32 E) as HE by (by apply delay_unbounded).
  assert (ahead t E) as A0 by (unfold ahead, E; unfold_ranges; lia).
  assert (ahead (t + 1) E) as A1 by (unfold ahead, E in *; unfold_ranges; lia).
  assert (t < E) as HtE by (unfold E; lia). clearbody E.
  assert (place t (u32 E) = vplace t E) as P0
    by (rewrite <- (place_vplace t E A0), (u32_small t Ht); done).
  rewrite HE in *. rewrite (place_vplace _ _ A1), P0 in *.
  destruct (moved (t + 1)) as [[i j]|] eqn:Em.
  - eapply vplace_tick_moved; eauto.
  - apply vplace_tick_same. unfold moved in Em.
    destruct (Z.eqb_spec ((t + 1) mod 256) 0); [| done]. cbn [negb] in Em.
    by repeat case_match.
Qed.

Lemma moved_valid ct i j : moved ct = Some (i, j) → 0 ≤ i < 4 ∧ 0 ≤ j < 64.
Proof.
  unfold moved. intros Hm. repeat case_match; simplify_eq;
    (split; [lia | apply Z.mod_pos_bound; lia]).
Qed.

Lemma shift_loop_moved T ct :
  0 ≤ ct < 2 ^ 32 → ct ≠ 0 →
  shift_loop 5 T ct (Z.shiftr ct TIME_NEAR_SHIFT) TIME_NEAR 0 =
  match moved ct with None => Ok T | Some (i, j) => move_list T i j end.
Proof.
  intros Hct H0. unfold moved. cbn [shift_loop].
  change TIME_NEAR with (2 ^ 8). change TIME_LEVEL_MASK with (2 ^ 6 - 1).
  change (Z.shiftl (2 ^ 8) TIME_LEVEL_SHIFT) with (2 ^ 14).
  change (int_op (2 ^ 14)) with (Ok (2 ^ 14)). rewrite !bind_Ok.
  change (Z.shiftl (2 ^ 14) TIME_LEVEL_SHIFT) with (2 ^ 20).
  change (int_op (2 ^ 20)) with (Ok (2 ^ 20)). rewrite !bind_Ok.
  change (Z.shiftl (2 ^ 20) TIME_LEVEL_SHIFT) with (2 ^ 26).
  change (int_op (2 ^ 26)) with (Ok (2 ^ 26)). rewrite !bind_Ok.
  rewrite !land_mask by lia. unfold TIME_LEVEL_SHIFT, TIME_NEAR_SHIFT.
  rewrite !Z.shiftr_div_pow2 by lia. change (2 ^ 6) with 64. change (2 ^ 8) with 256.
  destruct (Z.eqb_spec (ct mod 256) 0) as [E0 |]; cbn [negb]; [| done].
  destruct (Z.eqb_spec (ct / 256 mod 64) 0) as [E1 |]; cbn [negb]; [| done].
  rewrite (proj2 (Z.eqb_eq (ct mod 2 ^ 14) 0)) by (Z.to_euclidean_division_equations; lia).
  destruct (Z.eqb_spec (ct / 256 / 64 mod 64) 0) as [E2 |]; cbn [negb]; [| done].
  rewrite (proj2 (Z.eqb_eq (ct mod 2 ^ 20) 0)) by (Z.to_euclidean_division_equations; lia).
  destruct (Z.eqb_spec (ct / 256 / 64 / 64 mod 64) 0) as [E3 |]; cbn [negb]; [| done].
  rewrite (proj2 (Z.eqb_eq (ct mod 2 ^ 26) 0)) by (Z.to_euclidean_division_equations; lia).
  rewrite (proj2 (Z.eqb_neq (ct / 256 / 64 / 64 / 64 mod 64) 0)); [done |].
  Z.to_euclidean_division_equations; lia.
Qed.

(** timer_shift moves the list [moved] tells, its loop ends within the four
    levels and its mask does not overflow. *)
Lemma timer_shift_moved T :
  is_u32 (t_time T) →
  timer_shift T =
  let T1 := set_time (u32 (t_time T + 1)) T in
  match moved (t_time T + 1) with None => Ok T1 | Some (i, j) => move_list T1 i j end.
Proof.
  intros Ht. unfold timer_shift. cbv zeta.
  set (T1 := set_time (u32 (t_time T + 1)) T). set (t := t_time T) in *. clearbody T1 t.
  destruct (Z.eqb_spec (u32 (t + 1)) 0) as [H0 | H0].
  - assert (t + 1 = 2 ^ 32) as ->; [| done]. unfold u32 in H0. unfold_ranges.
    destruct (decide (t + 1 = 2 ^ 32)); [done |]. rewrite Z.mod_small in H0; lia.
  - assert (u32 (t + 1) = t + 1) as ->.
    { apply u32_small. unfold_ranges. destruct (decide (t + 1 = 2 ^ 32)) as [Heq |]; [| lia].
      by rewrite Heq in H0. }
    assert (t + 1 < 2 ^ 32) as Hlt.
    { unfold_ranges. destruct (decide (t + 1 = 2 ^ 32)) as [Heq |]; [by rewrite Heq in H0 | lia]. }
    apply shift_loop_moved; unfold_ranges; lia.
Qed.

(** ** The operations keep the wheel in order *)

Record wheel T l : Prop := {
  wh_wf : wf T;
  wh_time : is_u32 (t_time T);
  wh_place : in_place T l;
  wh_due : Forall (due (t_time T)) l
}.

Lemma wheel_pos T l k : wheel T l → valid k → Forall (λ n, 0 ≤ tn_expire n) (get T k).
Proof.
  intros [_ _ Hp Hd] Hv. apply Forall_forall. intros n Hn.
  destruct (in_place_mem _ _ _ _ Hp Hv Hn) as [Hl _]. rewrite Forall_forall in Hd.
  apply (Hd n Hl).
Qed.

(** The pending expiries decide; an expiry nobody waits for has no node. *)
Lemma at_time_cases e l : at_time e l = [] ∨ ∃ n, n ∈ l ∧ tn_expire n = e.
Proof.
  destruct (at_time e l) as [|n r] eqn:E; [by left | right]. exists n.
  apply at_time_mem. rewrite E. by left.
Qed.

Lemma timer_shift_wheel T l :
  wheel T l → Forall (later (t_time T)) l →
  ∃ T', timer_shift T = Ok T' ∧ wheel T' l ∧ t_time T' = u32 (t_time T + 1).
Proof.
  intros Hw Hl. pose proof Hw as [Hwf Ht Hp _]. rewrite timer_shift_moved by done. cbv zeta.
  set (T1 := set_time (u32 (t_time T + 1)) T).
  assert (wf T1) as Hwf1 by done. assert (∀ k, get T1 k = get T k) as Hg by (by intros []).
  assert (∀ n, n ∈ l → later (t_time T) n) as Hlater by (by apply Forall_forall).
  assert (Forall (due (u32 (t_time T + 1))) l) as Hdue.
  { apply Forall_forall. intros n [[Hn1 Hn2] Hn3]%Hlater. split; [done |].
    rewrite delay_tick by done. lia. }
  assert (is_u32 (u32 (t_time T + 1))) as Hu by apply u32_range.
  destruct (moved (t_time T + 1)) as [[i j]|] eqn:Em.
  - destruct (moved_valid _ _ _ Em) as [Hi Hj].
    destruct (move_list_spec T1 i j Hwf1 Hi Hj) as (T' & He & Hw' & (Ht' & _) & Hm).
    { intros k Hv. rewrite Hg. by eapply wheel_pos. }
    exists T'. split; [done |]. change (t_time T1) with (u32 (t_time T + 1)) in *.
    split; [| done]. split; [done | by rewrite Ht' | | by rewrite Ht'].
    intros k e Hv. rewrite (Hm k e Hv), !Hg, Ht', (Hp k e Hv), (Hp (Lvl i j) e) by done.
    destruct (at_time_cases e l) as [-> | (n & Hn & <-)]; [by repeat case_decide |].
    destruct (decide (Lvl i j = place (t_time T) (tn_expire n))) as [Hij | Hij].
    + repeat case_decide; subst; congruence || done.
    + rewrite (place_tick (t_time T) n) by (auto; rewrite Em; congruence).
      repeat case_decide; subst; try congruence; by rewrite ?app_nil_r.
  - exists T1. split; [done |]. split; [| done]. split; try done.
    intros k e Hv. rewrite Hg, (Hp k e Hv).
    destruct (at_time_cases e l) as [-> | (n & Hn & <-)]; [by repeat case_decide |].
    change (t_time T1) with (u32 (t_time T + 1)).
    by rewrite (place_tick (t_time T) n) by (auto; by rewrite Em).
Qed.

Lemma filter_all {A} (P : A → Prop) `{∀ x, Decision (P x)} (xs : list A) :
  Forall P xs → filter P xs = xs.
Proof. induction 1; [done |]. rewrite filter_cons_True by done. by f_equal. Qed.

(** The near slot of the current time holds the nodes that expire now. *)
Lemma near_now T l :
  wheel T l → get T (Near (t_time T mod 256)) = at_time (t_time T) l.
Proof.
  intros [Hwf Ht Hp Hd]. set (k := Near (t_time T mod 256)).
  assert (valid k) as Hv by (apply Z.mod_pos_bound; lia).
  assert (place (t_time T) (t_time T) = k) as Hk by (by rewrite place_div, Z.eqb_refl).
  transitivity (at_time (t_time T) (get T k)); [| rewrite (Hp k _ Hv), Hk; by rewrite decide_True].
  symmetry. apply filter_all, Forall_forall. intros n Hn.
  destruct (in_place_mem _ _ _ _ Hp Hv Hn) as [_ Hpl]. rewrite place_div in Hpl.
  change (2 ^ 8) with 256 in Hpl. unfold k in Hpl. repeat case_match; simplify_eq.
  rewrite Z.eqb_eq in *. pose proof (Z.div_mod (tn_expire n) 256). pose proof (Z.div_mod (t_time T) 256).
  lia.
Qed.

Definition after (t : Z) l : list (timer_node H) := filter (λ n, tn_expire n ≠ t) l.

Lemma at_time_after e t l : at_time e (after t l) = if decide (e = t) then [] else at_time e l.
Proof.
  unfold at_time, after. induction l as [|n l IH]; [by case_decide |].
  destruct (decide (tn_expire n = t)) as [Ht | Ht].
  - rewrite (filter_cons_False (λ n, tn_expire n ≠ t)) by tauto. rewrite IH.
    case_decide; [done |]. by rewrite filter_cons_False by congruence.
  - rewrite (filter_cons_True (λ n, tn_expire n ≠ t)) by done.
    destruct (decide (tn_expire n = e)) as [He | He].
    + rewrite !filter_cons_True by done. rewrite IH, !decide_False by congruence. done.
    + rewrite !filter_cons_False by done. done.
Qed.

Lemma Forall_after (P : timer_node H → Prop) t l : Forall P l → Forall P (after t l).
Proof. rewrite !Forall_forall. intros HP n [_ Hn]%list_elem_of_filter. by apply HP. Qed.

Lemma at_time_none t l : at_time t l = [] → after t l = l.
Proof.
  intros E. apply filter_all, Forall_forall. intros n Hn Hnt.
  apply (not_elem_of_nil n). rewrite <- E. by apply list_elem_of_filter.
Qed.

Lemma timer_execute_wheel T l :
  wheel T l →
  ∃ T', timer_execute T = Ok (tn_handle <$> at_time (t_time T) l, T') ∧
    wheel T' (after (t_time T) l) ∧ same_clock T T'.
Proof.
  intros Hw. pose proof (near_now T l Hw) as Hnow. pose proof Hw as [Hwf Ht Hp Hd].
  unfold timer_execute. change TIME_NEAR_MASK with (2 ^ 8 - 1). rewrite land_mask by lia.
  change (2 ^ 8) with 256. cbn [execute_loop].
  assert (0 ≤ t_time T mod 256 < 256) as Hi by (apply Z.mod_pos_bound; lia).
  rewrite near_read, bind_Ok, Hnow by done.
  destruct (at_time (t_time T) l) as [|n r] eqn:E.
  - exists T. split; [done |]. by rewrite at_time_none.
  - destruct (near_write T _ [] Hwf Hi) as (near & -> & Hwf' & (Htime & Hclock) & Hs). rewrite bind_Ok.
    rewrite near_read, (Hs (Near _) Hi) by done. rewrite decide_True, !bind_Ok by done.
    eexists. split; [rewrite app_nil_r; reflexivity |]. split; [| done].
    split; [done | done | | by apply Forall_after].
    intros k e Hv. rewrite (Hs k Hv), Htime, at_time_after.
    assert (place (t_time T) (t_time T) = Near (t_time T mod 256)) as Hk
      by (by rewrite place_div, Z.eqb_refl).
    destruct (decide (k = Near (t_time T mod 256))) as [-> | Hne].
    + destruct (decide (e = t_time T)) as [-> | He]; [by repeat case_decide |].
      case_decide as Hpl; [| done].
      destruct (at_time_cases e l) as [-> | (m & Hm & Hme)]; [done |].
      exfalso. apply He. rewrite place_div in Hpl. change (2 ^ 8) with 256 in Hpl.
      repeat case_match; simplify_eq. rewrite Z.eqb_eq in *.
      pose proof (Z.div_mod (tn_expire m) 256). pose proof (Z.div_mod (t_time T) 256). lia.
    + rewrite (Hp k e Hv). destruct (decide (e = t_time T)) as [-> | He]; [| done].
      rewrite Hk. by rewrite !decide_False by done.
Qed.

(** ** Countdowns

    The specification: a list of countdowns in the order they were set.  A
    tick decrements all of them and fires those that reach 0, in order. *)

Inductive timer_op := TAdd (time : Z) (h : H) | TTick.

Abbreviation countdown := (list (Z * H)).

Definition cd_step (o : timer_op) (c : countdown) : list H * countdown :=
  match o with
  | TAdd time h => ([], if time =? 0 then c else c ++ [(time, h)])
  | TTick => let c := (λ x, (x.1 - 1, x.2)) <$> c in
             ((filter (λ x, x.1 = 0) c).*2, filter (λ x, x.1 ≠ 0) c)
  end.

Definition wheel_step (o : timer_op) T : res (list H * timer H) :=
  match o with
  | TAdd time h => T ← server_timer_timeout true T time h; Ok ([], T)
  | TTick => timer_update T
  end.

Fixpoint cd_run (os : list timer_op) (c : countdown) : list H * countdown :=
  match os with
  | [] => ([], c)
  | o :: os => let '(hs, c) := cd_step o c in let '(hs', c) := cd_run os c in (hs ++ hs', c)
  end.

Fixpoint wheel_run (os : list timer_op) T : res (list H * timer H) :=
  match os with
  | [] => Ok ([], T)
  | o :: os => '(hs, T) ← wheel_step o T; '(hs', T) ← wheel_run os T; Ok (hs ++ hs', T)
  end.

(** The timeouts a caller may pass: an int that is not negative. *)
Definition op_ok (o : timer_op) : Prop :=
  match o with TAdd time _ => 0 ≤ time < 2 ^ 31 | TTick => True end.

Definition countdowns (t : Z) l : countdown := (λ n, (delay t (tn_expire n), tn_handle n)) <$> l.

Definition refines T (c : countdown) : Prop :=
  ∃ l, wheel T l ∧ Forall (later (t_time T)) l ∧ c = countdowns (t_time T) l.

Lemma delay_add t time : is_u32 t → 0 ≤ time < 2 ^ 32 → delay t (u32 (time + t)) = time.
Proof.
  intros Ht Hd. unfold delay, u32. rewrite Zminus_mod_idemp_l.
  replace (time + t - t) with time by lia. apply Z.mod_small. lia.
Qed.

Lemma timeout_refines T c time h :
  refines T c → 0 ≤ time < 2 ^ 31 →
  ∃ T', server_timer_timeout true T time h = Ok T' ∧
    refines T' (if time =? 0 then c else c ++ [(time, h)]).
Proof.
  intros (l & Hw & Hl & ->) Htime. unfold server_timer_timeout.
  destruct (Z.eqb_spec time 0) as [-> | Hne]; [exists T; split; [done |]; by exists l |].
  unfold timer_add. pose proof Hw as [Hwf Ht Hp Hd].
  set (n := mkTnode (u32 (time + t_time T)) h).
  pose proof (delay_add (t_time T) time Ht ltac:(lia)) as Hdel.
  assert (later (t_time T) n) as Hn.
  { unfold later, due, n. cbn [tn_expire]. rewrite Hdel. split; [split; [apply u32_range | lia] | lia]. }
  destruct (add_node_spec T n Hwf) as (T' & He & Hs). { apply Hn. }
  exists T'. split; [done |]. pose proof Hs as (Hwf' & (Ht' & _) & _).
  exists (l ++ [n]). rewrite Ht'. split; [split; rewrite ?Ht'; auto |].
  - by eapply in_place_add.
  - apply Forall_app_2; [done |]. apply Forall_singleton, Hn.
  - split; [apply Forall_app_2; [done |]; by apply Forall_singleton |].
    unfold countdowns. rewrite fmap_app. cbn [fmap list_fmap]. unfold n. cbn [tn_expire tn_handle].
    by rewrite Hdel.
Qed.

Lemma later_none t l : is_u32 t → Forall (later t) l → at_time t l = [].
Proof.
  intros Ht Hl. destruct (at_time_cases t l) as [? | (n & Hn & He)]; [done |].
  rewrite Forall_forall in Hl. destruct (Hl n Hn) as [_ Hd]. unfold delay in Hd.
  rewrite He, Z.sub_diag in Hd. done.
Qed.

(** The countdowns of the nodes after a tick. *)
Lemma countdowns_tick t l :
  is_u32 t → Forall (later t) l →
  countdowns (u32 (t + 1)) l = (λ x : Z * H, (x.1 - 1, x.2)) <$> countdowns t l.
Proof.
  intros Ht Hl. unfold countdowns. rewrite <- list_fmap_compose. apply list_fmap_ext.
  intros i n Hn. apply (Forall_lookup_1 _ _ _ _ Hl) in Hn as [[Hu _] Hd]. simpl.
  by rewrite delay_tick.
Qed.

Lemma countdowns_now t l :
  is_u32 t → Forall (due t) l →
  (filter (λ x : Z * H, x.1 = 0) (countdowns t l)).*2 = tn_handle <$> at_time t l ∧
  filter (λ x : Z * H, x.1 ≠ 0) (countdowns t l) = countdowns t (after t l).
Proof.
  intros Ht. unfold countdowns, at_time, after. induction l as [|n l IH]; intros Hl; [done |].
  apply Forall_cons_1 in Hl as [[Hu _] Hl]. destruct (IH Hl) as [IH1 IH2]. csimpl.
  destruct (decide (delay t (tn_expire n) = 0)) as [Hd | Hd].
  - assert (tn_expire n = t) as He by (by apply delay_zero).
    rewrite (filter_cons_True (λ x : Z * H, x.1 = 0)) by done.
    rewrite (filter_cons_False (λ x : Z * H, x.1 ≠ 0)) by (simpl; tauto).
    rewrite (filter_cons_True (λ n, tn_expire n = t)) by done.
    rewrite (filter_cons_False (λ n, tn_expire n ≠ t)) by tauto.
    split; [| done]. csimpl. by f_equal.
  - assert (tn_expire n ≠ t) as He.
    { intros E. apply Hd. unfold delay. by rewrite E, Z.sub_diag. }
    rewrite (filter_cons_False (λ x : Z * H, x.1 = 0)) by done.
    rewrite (filter_cons_True (λ x : Z * H, x.1 ≠ 0)) by done.
    rewrite (filter_cons_False (λ n, tn_expire n = t)) by done.
    rewrite (filter_cons_True (λ n, tn_expire n ≠ t)) by done.
    split; [done |]. csimpl. by f_equal.
Qed.

Lemma after_later t l : is_u32 t → Forall (due t) l → Forall (later t) (after t l).
Proof.
  intros Ht Hl. apply Forall_forall. intros n [Hne Hn]%list_elem_of_filter.
  rewrite Forall_forall in Hl. pose proof (Hl n Hn) as Hd. split; [done |].
  pose proof (u32_range (tn_expire n - t)) as Hr. unfold delay. unfold_ranges.
  destruct (decide (u32 (tn_expire n - t) = 0)) as [E |]; [| lia].
  exfalso. apply Hne. apply delay_zero; [done | apply Hd | done].
Qed.

Lemma tick_refines T c :
  refines T c → ∃ T', timer_update T = Ok (fst (cd_step TTick c), T') ∧ refines T' (snd (cd_step TTick c)).
Proof.
  intros (l & Hw & Hl & ->). pose proof (wh_time _ _ Hw) as Ht. unfold timer_update.
  destruct (timer_execute_wheel T l Hw) as (T1 & -> & Hw1 & Hc1). rewrite bind_Ok.
  rewrite (later_none _ _ Ht Hl). rewrite at_time_none in Hw1 by (by apply later_none).
  destruct Hc1 as (Ht1 & _).
  destruct (timer_shift_wheel T1 l Hw1) as (T2 & -> & Hw2 & Ht2); [by rewrite Ht1 |].
  rewrite bind_Ok. destruct (timer_execute_wheel T2 l Hw2) as (T3 & -> & Hw3 & (Ht3 & _)).
  rewrite bind_Ok. rewrite Ht1 in Ht2. pose proof (wh_time _ _ Hw2) as Hu2. pose proof (wh_due _ _ Hw2) as Hd2.
  unfold cd_step. cbv zeta. cbn [fst snd]. rewrite <- countdowns_tick, <- Ht2 by done.
  destruct (countdowns_now (t_time T2) l Hu2 Hd2) as [N1 N2]. rewrite N1, N2.
  exists T3. split; [done |].
  exists (after (t_time T2) l). rewrite Ht3. split; [done |]. split; [by apply after_later | done].
Qed.

Lemma wheel_run_refines os T c :
  refines T c → Forall op_ok os →
  ∃ T', wheel_run os T = Ok (fst (cd_run os c), T') ∧ refines T' (snd (cd_run os c)).
Proof.
  revert T c. induction os as [|o os IH]; intros T c Hr Ho; cbn [wheel_run cd_run]; [by exists T |].
  apply Forall_cons_1 in Ho as [Ho Hos].
  assert (∃ T1, wheel_step o T = Ok (fst (cd_step o c), T1) ∧ refines T1 (snd (cd_step o c)))
    as (T1 & -> & Hr1).
  { destruct o as [time h|]; [| by apply tick_refines]. cbn [wheel_step cd_step fst snd].
    destruct (timeout_refines T c time h Hr Ho) as (T1 & -> & Hr1). rewrite bind_Ok. eauto. }
  rewrite bind_Ok. destruct (IH T1 (snd (cd_step o c)) Hr1 Hos) as (T' & -> & Hr').
  rewrite bind_Ok. destruct (cd_step o c) as [hs c1]. cbn [fst snd] in *.
  destruct (cd_run os c1) as [hs' c2]. by exists T'.
Qed.

Lemma init_empty sec cs point k : get (server_timer_init (H := H) sec cs point) k = [].
Proof.
  destruct k as [i | i j]; cbn [get server_timer_init server_timer_create_timer t_near t_levels].
  - destruct (replicate _ _ !! Z.to_nat i) eqn:E; [| done]. by apply lookup_replicate in E as [-> _].
  - destruct (replicate 4 _ !! Z.to_nat i) eqn:E; [| done]. apply lookup_replicate in E as [-> _].
    cbn. destruct (replicate _ _ !! Z.to_nat j) eqn:E; [| done].
    by apply lookup_replicate in E as [-> _].
Qed.

Lemma init_refines sec cs point : refines (server_timer_init sec cs point) [].
Proof.
  exists []. split; [| done]. split; [| cbn; unfold_ranges; lia | | done].
  - split; [done |]. split; [done |]. intros i lv Hi. cbn [server_timer_init t_levels] in Hi.
    by apply lookup_replicate in Hi as [-> _].
  - intros k e Hv. rewrite init_empty. by case_decide.
Qed.

(** C6: Whatever the sequence of timeouts (not negative) and ticks since
    server_timer_init, the wheel hands out exactly the packets a list of
    countdowns hands out: a timeout of n > 0 ticks fires at the n-th following
    tick, once, after the earlier timeouts of the same tick and before the
    later ones; a timeout of 0 is dropped.  This holds across the moves
    between the levels and the wrap-around of the 32-bit clock. *)
Theorem timer_refines_countdown (os : list timer_op) (sec cs point : Z) :
  Forall op_ok os →
  ∃ T', wheel_run os (server_timer_init sec cs point) = Ok (fst (cd_run os []), T').
Proof.
  intros Ho. destruct (wheel_run_refines os _ [] (init_refines sec cs point) Ho) as (T' & He & _).
  eauto.
Qed.

(** ** The clock *)

Lemma wheel_run_ticks m T : wheel_run (replicate m TTick) T = update_times m T.
Proof.
  revert T. induction m as [|m IH]; intros T; cbn [replicate wheel_run update_times]; [done |].
  cbn [wheel_step]. destruct (timer_update T) as [[hs T1]|e]; [| done]. cbn. by rewrite IH.
Qed.

(** The clock fields do not matter to the wheel. *)
Lemma refines_clock T T' c :
  t_near T' = t_near T → t_levels T' = t_levels T → t_time T' = t_time T → refines T c → refines T' c.
Proof.
  intros Hn Hl Ht (l & [Hwf Hu Hp Hd] & Hlater & Hc). exists l. rewrite Ht.
  assert (∀ k, get T' k = get T k) as Hg by (intros []; unfold get; by rewrite ?Hn, ?Hl).
  split; [| done]. split; rewrite ?Ht; auto.
  - unfold wf in *. by rewrite Hn, Hl.
  - intros k e Hv. rewrite Hg, Ht. by apply Hp.
Qed.

(** Ticks leave the clock readings alone. *)
Lemma add_nodes_point T ls T' : add_nodes T ls = Ok T' → t_current_point T' = t_current_point T.
Proof.
  revert T. induction ls as [|n ls IH]; intros T; cbn [add_nodes]; [by intros [= ->] |].
  intros He. apply bind_Ok_inv in He as (T1 & Ha & He). rewrite (IH _ He).
  unfold add_node, near_link, level_link in Ha. case_match; inv_bind; by simplify_eq.
Qed.

Lemma move_list_point T i j T' : move_list T i j = Ok T' → t_current_point T' = t_current_point T.
Proof. unfold move_list. intros. inv_bind. by erewrite add_nodes_point by done. Qed.

Lemma shift_loop_point f T ct tm mask i T' :
  shift_loop f T ct tm mask i = Ok T' → t_current_point T' = t_current_point T.
Proof.
  revert tm mask i. induction f as [|f IH]; intros tm mask i; cbn [shift_loop]; [done |].
  destruct (Z.land _ _ =? 0); [| by intros [= <-]].
  destruct (negb _); [apply move_list_point |].
  intros He. apply bind_Ok_inv in He as (mask' & _ & He). eapply IH, He.
Qed.

Lemma timer_shift_point T T' : timer_shift T = Ok T' → t_current_point T' = t_current_point T.
Proof.
  unfold timer_shift. cbv zeta.
  case_match; intros He; [exact (move_list_point _ _ _ _ He) | exact (shift_loop_point _ _ _ _ _ _ _ He)].
Qed.

Lemma timer_execute_point T hs T' : timer_execute T = Ok (hs, T') → t_current_point T' = t_current_point T.
Proof.
  unfold timer_execute. generalize 2%nat, (Z.land (t_time T) TIME_NEAR_MASK). intros f idx. revert T hs T'.
  induction f as [|f IH]; intros T hs T'; cbn [execute_loop]; [done |].
  intros He. apply bind_Ok_inv in He as (cur & _ & He). destruct cur as [|n cur]; [by simplify_eq |].
  apply bind_Ok_inv in He as (near & _ & He). apply bind_Ok_inv in He as ([hs1 T1] & He1 & He).
  simplify_eq. by rewrite (IH _ _ _ He1).
Qed.

Lemma update_times_point m T hs T' :
  update_times m T = Ok (hs, T') → t_current_point T' = t_current_point T.
Proof.
  revert T hs. induction m as [|m IH]; intros T hs; cbn [update_times]; [by intros [= _ ->] |].
  intros He. apply bind_Ok_inv in He as ([hs1 T1] & He1 & He).
  apply bind_Ok_inv in He as ([hs2 T2] & He2 & He). simplify_eq. rewrite (IH _ _ He2).
  unfold timer_update in He1. apply bind_Ok_inv in He1 as ([a Ta] & E1 & He1).
  apply bind_Ok_inv in He1 as (Tb & E2 & He1). apply bind_Ok_inv in He1 as ([b Tc] & E3 & He1).
  simplify_eq. by rewrite (timer_execute_point _ _ _ E3), (timer_shift_point _ _ E2),
    (timer_execute_point _ _ _ E1).
Qed.

(** Server_timer_updatetime performs one tick per hundredth of a second
    the monotonic clock advanced since the last call, and none when the clock
    went backwards: with the countdowns [c] running it hands out what that many
    ticks of the countdowns hand out, and the remaining ones keep running. *)
Theorem updatetime_ticks T (c : countdown) (cp : Z) :
  refines T c → cp - t_current_point T < 2 ^ 31 →
  let os := replicate (Z.to_nat (cp - t_current_point T)) TTick in
  ∃ T', server_timer_updatetime T cp = Ok (fst (cd_run os c), T') ∧
    refines T' (snd (cd_run os c)) ∧ t_current_point T' = cp.
Proof.
  intros Hr Hcp os. unfold server_timer_updatetime.
  destruct (Z.ltb_spec cp (t_current_point T)).
  { subst os. replace (Z.to_nat _) with 0%nat by lia. eexists. split; [reflexivity |].
    split; [| done]. by apply (refines_clock T). }
  destruct (Z.eqb_spec cp (t_current_point T)) as [-> | Hne]; cbn [negb].
  { subst os. rewrite Z.sub_diag. by exists T. }
  cbv zeta. rewrite u32_small by (unfold_ranges; lia).
  rewrite (proj2 (Z.leb_gt _ _) Hcp).
  match goal with |- context [update_times _ ?T0] => set (T1 := T0) end.
  assert (t_current_point T1 = cp) as Hp by (unfold T1; by case_match).
  destruct (wheel_run_refines os T1 c) as (T' & He & Hr').
  { apply (refines_clock T); [unfold T1; by case_match.. | done]. }
  { apply Forall_replicate. done. }
  unfold os in He at 1. rewrite wheel_run_ticks in He. exists T'. split; [exact He |]. split; [done |].
  rewrite <- Hp. by eapply update_times_point.
Qed.

End wheel.

(** ** The linked lists *)

(** [l] links the nodes [xs], in order. *)
Definition timelink_rep (h : gmap loc linked_node) (l : timelink_list) (xs : list loc) : Prop :=
  NoDup xs ∧ chain h xs None ∧ tl_first l = first_ptr xs None ∧ tl_tail l = last xs.

(** Timelink appends the node to the list its tail pointer and its links
    describe, timelink_clear detaches the whole list and leaves an empty one:
    a list of the wheel is the sequence of the nodes linked since it was last
    cleared. *)
Theorem timelink_appends h l xs node n :
  timelink_rep h l xs → node ∉ xs → h !! node = Some n →
  ∃ h' l', timelink h l node = Ok (h', l') ∧ timelink_rep h' l' (xs ++ [node]) ∧
    (∀ p, p ∉ node :: xs → h' !! p = h !! p) ∧
    timelink_rep h' (snd (timelink_clear l')) [] ∧
    walk (S (length (xs ++ [node]))) h' (fst (timelink_clear l')) = Ok (xs ++ [node]).
Proof.
  intros (Hnd & Hc & Hf & Ht) Hn Hnode. unfold timelink. rewrite Ht.
  assert (NoDup (xs ++ [node])) as Hnd'.
  { apply NoDup_app. split; [done |]. split; [set_solver | apply NoDup_singleton]. }
  assert (∃ h1 l1 n1, (match last xs with
            | None => Ok (h, mkTimelink (Some node) (last xs))
            | Some _ => h1 ← modify h (last xs) (set_ln_next (Some node)); Ok (h1, l)
            end) = Ok (h1, l1) ∧ chain h1 xs (Some node) ∧ h1 !! node = Some n1 ∧
            tl_first l1 = first_ptr (xs ++ [node]) None ∧ (∀ p, p ∉ node :: xs → h1 !! p = h !! p))
    as (h1 & l1 & n1 & -> & Hc1 & Hn1 & Hf1 & Hfr).
  { destruct xs as [|x xs' _] using rev_ind; [by exists h, (mkTimelink (Some node) None), n |].
    rewrite last_snoc. pose proof Hc as [_ [(nx & Hx & _) _]]%chain_app.
    rewrite (modify_Some _ _ _ _ Hx), bind_Ok. eexists _, l, n. split; [reflexivity |].
    split; [exact (chain_snoc_relink h xs' x None (Some node) nx Hnd Hc Hx) |].
    split; [rewrite lookup_insert_ne; [done | set_solver] |].
    split; [rewrite Hf, !first_ptr_app; by destruct xs' |].
    intros p Hp. apply lookup_insert_ne. set_solver. }
  rewrite bind_Ok, (modify_Some _ _ _ _ Hn1), bind_Ok. cbn [timelink_clear fst snd tl_first].
  assert (chain (<[node := set_ln_next None n1]> h1) (xs ++ [node]) None) as Hc2.
  { apply chain_app. split; [by apply chain_insert |]. split; [| done].
    eexists. by rewrite lookup_insert_eq. }
  eexists _, _. split; [reflexivity |]. cbn [tl_first]. split; [| split; [| split]].
  - split; [done |]. split; [done |]. split; [done |]. cbn [tl_tail]. by rewrite last_snoc.
  - intros p Hp. rewrite lookup_insert_ne by set_solver. by apply Hfr.
  - split; [constructor |]. by split.
  - rewrite Hf1. apply walk_chain; [done | lia].
Qed.

Lemma timer_refines_countdown_witness :
  ∃ T', wheel_run [TAdd 300 1; TAdd 2 5; TTick; TAdd 1 6; TAdd 0 7; TTick; TTick]
          (server_timer_init 0 0 9) = Ok ([5; 6], T').
Proof.
  apply (timer_refines_countdown
    [TAdd 300 1; TAdd 2 5; TTick; TAdd 1 6; TAdd 0 7; TTick; TTick] 0 0 9).
  repeat (apply Forall_cons_2; [simpl; lia |]). apply Forall_nil_2.
Defined.

Lemma updatetime_ticks_witness :
  ∃ T', server_timer_updatetime (server_timer_init (H := Z) 0 0 9) 12 = Ok ([], T') ∧
    refines T' [] ∧ t_current_point T' = 12.
Proof. apply (updatetime_ticks (server_timer_init 0 0 9) [] 12); [apply init_refines | reflexivity]. Defined.

Lemma timelink_appends_witness :
  ∃ h' l', timelink {[1%positive := mkLinked None 4; 2%positive := mkLinked None 5]}
      (mkTimelink (Some 1%positive) (Some 1%positive)) 2%positive = Ok (h', l') ∧
    timelink_rep h' l' ([1%positive] ++ [2%positive]) ∧
    (∀ p, p ∉ [2; 1]%positive → h' !! p =
       ({[1%positive := mkLinked None 4; 2%positive := mkLinked None 5]} : gmap loc linked_node) !! p) ∧
    timelink_rep h' (snd (timelink_clear l')) [] ∧
    walk 3 h' (fst (timelink_clear l')) = Ok [1; 2]%positive.
Proof.
  apply (timelink_appends _ _ [1%positive] 2%positive (mkLinked None 5)).
  - split; [apply NoDup_singleton |]. split; [| by split]. split; [| done].
    exists (mkLinked None 4). by split.
  - set_solver.
  - reflexivity.
Defined.
