(* ===== verification/Network.v ===== *)
(** Descriptor input and output: readn, writen and set_nonblocking of
    lib/network.c, and the operations of lib/stream.c that read a descriptor
    into a stream or write a stream to one.

    The kernel is a parameter: a class of descriptor states with the system
    calls the code makes on them, and what POSIX promises of those calls. *)

From S2P Require Import Prelude Sockunion Stream StreamFacts.

Local Open Scope Z_scope.

(** The error codes the code tells apart. *)
Inductive errno := EAGAIN | EWOULDBLOCK | EINTR | EOTHER (code : Z).

Definition ERRNO_IO_RETRY (en : errno) : bool :=
  match en with EAGAIN | EWOULDBLOCK | EINTR => true | EOTHER _ => false end.

(** A read returns the bytes it stored, a write the number of bytes taken;
    otherwise the call returns -1 and sets errno. *)
Inductive read_result := Got (bs : list Z) | ReadErr (en : errno).
Inductive write_result := Wrote (n : Z) | WriteErr (en : errno).

Definition read_ret (r : read_result) : Z :=
  match r with Got bs => Z.of_nat (length bs) | ReadErr _ => -1 end.
Definition write_ret (r : write_result) : Z :=
  match r with Wrote n => n | WriteErr _ => -1 end.

Class Kernel := {
  descr : Type;
  sys_read : descr → Z → read_result * descr;
  sys_recvfrom : descr → Z → Z → sockunion → read_result * sockunion * descr;
  sys_write : descr → list Z → write_result * descr;
  sys_sendto : descr → list Z → sockunion → write_result * descr;
  (* the same calls with a local address, the path of a socket *)
  sys_recvfrom_un : descr → Z → Z → list Z → read_result * list Z * descr;
  sys_sendto_un : descr → list Z → list Z → write_result * descr;
  fcntl_getfl : descr → Z * descr;
  fcntl_setfl : descr → Z → Z * descr;
  (* a read stores at most as many bytes as it was asked for *)
  sys_read_bound f n bs f' : 0 ≤ n → sys_read f n = (Got bs, f') →
    Z.of_nat (length bs) ≤ n ∧ Forall is_u8 bs;
  sys_recvfrom_bound f n fl a bs a' f' : 0 ≤ n → sys_recvfrom f n fl a = (Got bs, a', f') →
    Z.of_nat (length bs) ≤ n ∧ Forall is_u8 bs;
  sys_recvfrom_un_bound f n fl a bs a' f' : 0 ≤ n → sys_recvfrom_un f n fl a = (Got bs, a', f') →
    Z.of_nat (length bs) ≤ n ∧ Forall is_u8 bs;
  (* a write takes at most what it is given *)
  sys_write_bound f bs n f' : sys_write f bs = (Wrote n, f') → 0 ≤ n ≤ Z.of_nat (length bs)
}.

Definition O_NONBLOCK : Z := 2048.

Section network.
Context {K : Kernel}.
Implicit Types (f : descr) (s : stream) (blk : list Z).

(** ** lib/network.c *)

(** The loop of readn: [ptr] is an offset into the block [blk].  Every round
    that goes on stores a byte at least, so [nbytes + 1] rounds are enough. *)
Fixpoint readn_loop (k : nat) f blk (ptr nbytes nleft : Z) : res (Z * list Z * descr) :=
  match k with
  | O => Fail OutOfFuel
  | S k =>
      if 0 <? nleft then
        let '(r, f) := sys_read f nleft in
        match r with
        | ReadErr _ => Ok (-1, blk, f)
        | Got [] => Ok (nbytes - nleft, blk, f)
        | Got bs =>
            blk ← wr_block blk ptr bs;
            let nread := Z.of_nat (length bs) in
            readn_loop k f blk (ptr + nread) nbytes (nleft - nread)
        end
      else Ok (nbytes - nleft, blk, f)
  end.

Definition readn f blk (ptr nbytes : Z) : res (Z * list Z * descr) :=
  readn_loop (S (Z.to_nat nbytes)) f blk ptr nbytes nbytes.

(** The loop of writen: [ptr] is what is left to write. *)
Fixpoint writen_loop (k : nat) f (ptr : list Z) (nbytes nleft : Z) : res (Z * descr) :=
  match k with
  | O => Fail OutOfFuel
  | S k =>
      if 0 <? nleft then
        bs ← rd_block ptr 0 nleft;
        let '(r, f) := sys_write f bs in
        match r with
        | WriteErr _ => Ok (-1, f)
        | Wrote n =>
            if n <=? 0 then Ok (n, f)
            else writen_loop k f (drop (Z.to_nat n) ptr) nbytes (nleft - n)
        end
      else Ok (nbytes - nleft, f)
  end.

Definition writen f (ptr : list Z) (nbytes : Z) : res (Z * descr) :=
  writen_loop (S (Z.to_nat nbytes)) f ptr nbytes nbytes.

Definition set_nonblocking f : Z * descr :=
  let '(flags, f) := fcntl_getfl f in
  if flags <? 0 then (-1, f) else
  let '(r, f) := fcntl_setfl f (Z.lor flags O_NONBLOCK) in
  if r <? 0 then (-1, f) else (0, f).

(** ** lib/stream.c *)

(** [read (fd, s->data + s->endp, size)] *)
Definition read_at_endp f s (size : Z) (r : read_result) : res stream :=
  match r with
  | Got bs => d ← wr_block (s_data s) (s_endp s) bs; Ok (set_data d s)
  | ReadErr _ => Ok s
  end.

(** readn takes an [int]: [size] is converted. *)
Definition stream_read s f (size : Z) : res (Z * stream * descr) :=
  if STREAM_WRITEABLE s <? size then Ok (0, s, f) else
  '(nbytes, d, f) ← readn f (s_data s) (s_endp s) (s32 size);
  let s := set_data d s in
  let s := if 0 <? nbytes then set_endp (u64 (s_endp s + nbytes)) s else s in
  Ok (nbytes, s, f).

Definition stream_read_unblock s f (size : Z) : res (Z * stream * descr) :=
  if STREAM_WRITEABLE s <? size then Ok (0, s, f) else
  let '(val, f) := fcntl_getfl f in
  let '(_, f) := fcntl_setfl f (Z.lor val O_NONBLOCK) in
  let '(r, f) := sys_read f size in
  s ← read_at_endp f s size r;
  let nbytes := s32 (read_ret r) in
  let '(_, f) := fcntl_setfl f val in
  let s := if 0 <? nbytes then set_endp (u64 (s_endp s + nbytes)) s else s in
  Ok (nbytes, s, f).

(** The end of stream_read_try and of stream_recvfrom. *)
Definition try_result s (r : read_result) : Z * stream :=
  match r with
  | Got bs => (read_ret r, set_endp (u64 (s_endp s + read_ret r)) s)
  | ReadErr en => if ERRNO_IO_RETRY en then (-2, s) else (-1, s)
  end.

Definition stream_read_try s f (size : Z) : res (Z * stream * descr) :=
  if STREAM_WRITEABLE s <? size then Ok (-1, s, f) else
  let '(r, f) := sys_read f size in
  s ← read_at_endp f s size r;
  let '(nbytes, s) := try_result s r in
  Ok (nbytes, s, f).

(** The address the datagram came from is stored through [from]. *)
Definition stream_recvfrom s f (size flags : Z) (from : sockunion)
    : res (Z * stream * sockunion * descr) :=
  if STREAM_WRITEABLE s <? size then Ok (-1, s, from, f) else
  let '(r, from, f) := sys_recvfrom f size flags from in
  s ← read_at_endp f s size r;
  let '(nbytes, s) := try_result s r in
  Ok (nbytes, s, from, f).

(** The same function called with a [struct sockaddr_un]. *)
Definition stream_recvfrom_un s f (size flags : Z) (from : list Z)
    : res (Z * stream * list Z * descr) :=
  if STREAM_WRITEABLE s <? size then Ok (-1, s, from, f) else
  let '(r, from, f) := sys_recvfrom_un f size flags from in
  s ← read_at_endp f s size r;
  let '(nbytes, s) := try_result s r in
  Ok (nbytes, s, from, f).

(** [recvmsg]: what the call returns and stores in the first buffer; its error is
    passed on. *)
Definition stream_recvmsg (recvmsg : descr → Z → read_result * descr) s f (size : Z)
    : res (Z * stream * descr) :=
  if STREAM_WRITEABLE s <? size then Ok (-1, s, f) else
  let '(r, f) := recvmsg f size in
  s ← read_at_endp f s size r;
  let nbytes := s32 (read_ret r) in
  let s := if 0 <? nbytes then set_endp (u64 (s_endp s + nbytes)) s else s in
  Ok (nbytes, s, f).

Definition stream_flush s f : res (Z * descr) :=
  bs ← rd_block (s_data s) (s_getp s) (u64 (s_endp s - s_getp s));
  let '(r, f) := sys_write f bs in
  Ok (s32 (write_ret r), f).

(** ** What the loops do *)

(** [receives f bs f']: successive reads of the descriptor, none of them empty
    or failed, delivered [bs]. *)
Inductive receives : descr → list Z → descr → Prop :=
| receives_nil f : receives f [] f
| receives_cons f n bs f1 bs' f2 :
    sys_read f n = (Got bs, f1) → bs ≠ [] → receives f1 bs' f2 → receives f (bs ++ bs') f2.

(** How readn ends, with [left] bytes missing: everything was read, the
    descriptor was at its end, or a read failed. *)
Inductive read_end (nbytes : Z) : Z → descr → Z → descr → Prop :=
| read_full f : read_end nbytes 0 f nbytes f
| read_eof left f f' : 0 < left → sys_read f left = (Got [], f') →
    read_end nbytes left f (nbytes - left) f'
| read_error left f en f' : 0 < left → sys_read f left = (ReadErr en, f') →
    read_end nbytes left f (-1) f'.

Lemma splice_nil {A} (l : list A) i : splice l i [] = l.
Proof. unfold splice. cbn [app length]. by rewrite Nat.add_0_r, take_drop. Qed.

Lemma readn_loop_spec k f blk ptr nbytes nleft :
  0 ≤ nleft < Z.of_nat k → 0 ≤ ptr → ptr + nleft ≤ Z.of_nat (length blk) →
  ∃ r bs f0 f', readn_loop k f blk ptr nbytes nleft = Ok (r, splice blk ptr bs, f') ∧
    receives f bs f0 ∧ Forall is_u8 bs ∧ Z.of_nat (length bs) ≤ nleft ∧
    read_end nbytes (nleft - Z.of_nat (length bs)) f0 r f'.
Proof.
  revert f blk ptr nleft. induction k as [|k IH]; intros f blk ptr nleft Hk Hp Hl; [lia |].
  cbn [readn_loop]. destruct (Z.ltb_spec 0 nleft) as [Hpos|Hpos].
  2:{ exists (nbytes - nleft), [], f, f. rewrite splice_nil.
      replace nleft with 0 by lia. rewrite Z.sub_0_r.
      split; [done |]. repeat (split; [constructor || (cbn; lia) |]). constructor. }
  destruct (sys_read f nleft) as [r1 f1] eqn:Hr. destruct r1 as [bs1|en].
  2:{ exists (-1), [], f, f1. rewrite splice_nil. cbn [length]. rewrite Z.sub_0_r.
      split; [done |]. repeat (split; [constructor || (cbn; lia) |]). econstructor; eauto. }
  destruct (sys_read_bound f nleft bs1 f1) as [Hb Hu]; [lia | done |].
  destruct bs1 as [|b bs1'].
  - exists (nbytes - nleft), [], f, f1. rewrite splice_nil. cbn [length]. rewrite Z.sub_0_r.
    split; [done |]. repeat (split; [constructor || (cbn; lia) |]). constructor; auto.
  - set (bs1 := b :: bs1') in *. assert (0 < Z.of_nat (length bs1)) by (cbn; lia).
    rewrite wr_block_Ok, bind_Ok by lia. cbv zeta.
    destruct (IH f1 (splice blk ptr bs1) (ptr + Z.of_nat (length bs1))
                (nleft - Z.of_nat (length bs1)))
      as (r & bs & f0 & f' & He & Hrec & Hu' & Hlen & Hend); [lia | lia | |].
    { rewrite length_splice by lia. lia. }
    exists r, (bs1 ++ bs), f0, f'. rewrite He, splice_app by (rewrite ?length_app; lia).
    split; [done |]. split; [econstructor; eauto; discriminate |].
    split; [by apply Forall_app_2 |]. rewrite length_app, Nat2Z.inj_add.
    split; [lia |]. by rewrite Z.sub_add_distr.
Qed.

(** [sends f bs f']: successive writes of the descriptor took [bs]. *)
Inductive sends : descr → list Z → descr → Prop :=
| sends_nil f : sends f [] f
| sends_cons f bs n f1 bs' f2 :
    sys_write f bs = (Wrote n, f1) → 0 < n → sends f1 bs' f2 →
    sends f (take (Z.to_nat n) bs ++ bs') f2.

Lemma writen_loop_spec k f ptr nbytes nleft :
  0 ≤ nleft < Z.of_nat k → nleft ≤ Z.of_nat (length ptr) →
  ∃ r n f0 f', writen_loop k f ptr nbytes nleft = Ok (r, f') ∧ 0 ≤ n ≤ nleft ∧
    sends f (take (Z.to_nat n) ptr) f0 ∧
    ((n = nleft ∧ r = nbytes ∧ f' = f0) ∨
     (n < nleft ∧ r ≤ 0 ∧ ∃ w, sys_write f0 (slice ptr n (nleft - n)) = (w, f') ∧ write_ret w = r)).
Proof.
  revert f ptr nleft. induction k as [|k IH]; intros f ptr nleft Hk Hl; [lia |].
  cbn [writen_loop]. destruct (Z.ltb_spec 0 nleft) as [Hpos|Hpos].
  2:{ exists (nbytes - nleft), 0, f, f. split; [done |]. split; [lia |].
      split; [apply sends_nil | left; repeat split; lia]. }
  rewrite rd_block_Ok, bind_Ok by lia.
  destruct (sys_write f (slice ptr 0 nleft)) as [[n|en] f1] eqn:Hw.
  2:{ exists (-1), 0, f, f1. split; [done |]. split; [lia |]. split; [apply sends_nil |].
      right. rewrite Z.sub_0_r, Hw. split; [lia |]. split; [lia |]. eauto. }
  pose proof (sys_write_bound _ _ _ _ Hw) as Hn.
  rewrite length_slice in Hn by lia.
  destruct (Z.leb_spec n 0).
  { exists n, 0, f, f1. split; [done |]. split; [lia |]. split; [apply sends_nil |].
    right. rewrite Z.sub_0_r, Hw. split; [lia |]. split; [lia |]. eauto. }
  destruct (IH f1 (drop (Z.to_nat n) ptr) (nleft - n))
    as (r & m & f0 & f' & He & Hm & Hs & Hend); [lia | rewrite length_drop; lia |].
  exists r, (n + m), f0, f'. split; [done |]. split; [lia |]. split.
  - pose proof (sends_cons _ _ _ _ _ _ Hw ltac:(lia) Hs) as Hs'.
    unfold slice in Hs'. rewrite drop_0, take_take in Hs'.
    replace (Z.to_nat n `min` Z.to_nat nleft)%nat with (Z.to_nat n) in Hs' by lia.
    rewrite Z2Nat.inj_add by lia.
    by rewrite <- take_take_drop.
  - destruct Hend as [(-> & -> & ->) | (? & ? & w & Hw' & Hr)]; [left; repeat split; lia |].
    right. split; [lia |]. split; [lia |]. exists w. split; [| done]. rewrite <- Hw'.
    unfold slice. rewrite drop_drop. do 2 f_equal; [| f_equal]; lia.
Qed.

(** Readn always returns.  It stores a sequence of consecutive reads of the
    descriptor at [ptr] and touches nothing else of the block; it stored
    [nbytes] bytes and returns [nbytes], or fewer because the descriptor was at
    its end, and returns how many, or a read failed, and then it returns -1
    whatever was stored before. *)
Theorem readn_fills_block f blk ptr nbytes :
  0 ≤ nbytes → 0 ≤ ptr → ptr + nbytes ≤ Z.of_nat (length blk) →
  ∃ r bs f0 f', readn f blk ptr nbytes = Ok (r, splice blk ptr bs, f') ∧
    receives f bs f0 ∧ Forall is_u8 bs ∧
    read_end nbytes (nbytes - Z.of_nat (length bs)) f0 r f'.
Proof.
  intros. destruct (readn_loop_spec (S (Z.to_nat nbytes)) f blk ptr nbytes nbytes)
    as (r & bs & f0 & f' & ? & ? & ? & ? & ?); [lia | lia | lia |]. by exists r, bs, f0, f'.
Qed.

(** Writen always returns: it wrote the whole block in order and returns
    [nbytes], or it wrote a prefix of it and returns what the write that made no
    progress returned. *)
Theorem writen_sends_block f ptr nbytes :
  0 ≤ nbytes ≤ Z.of_nat (length ptr) →
  ∃ r n f0 f', writen f ptr nbytes = Ok (r, f') ∧ sends f (take (Z.to_nat n) ptr) f0 ∧
    ((n = nbytes ∧ r = nbytes ∧ f' = f0) ∨
     (0 ≤ n < nbytes ∧ r ≤ 0 ∧
      ∃ w, sys_write f0 (slice ptr n (nbytes - n)) = (w, f') ∧ write_ret w = r)).
Proof.
  intros. destruct (writen_loop_spec (S (Z.to_nat nbytes)) f ptr nbytes nbytes)
    as (r & n & f0 & f' & ? & ? & ? & Hend); [lia | lia |].
  exists r, n, f0, f'. split; [done |]. split; [done |].
  destruct Hend as [? | (? & ? & ?)]; [by left |]. right. split; [lia |]. by split.
Qed.

(** ** Reads into a stream *)

Lemma read_at_endp_Got f s n bs :
  sane s → s_endp s + Z.of_nat (length bs) ≤ s_size s →
  read_at_endp f s n (Got bs) = Ok (set_data (splice (s_data s) (s_endp s) bs) s).
Proof.
  intros Hs Hb. pose proof Hs as (? & ? & ? & ? & ?). unfold read_at_endp.
  by rewrite wr_block_Ok, bind_Ok by lia.
Qed.

(** What one non-blocking read may do to a stream: append what was delivered,
    or leave it as it is and report a transient (-2) or a fatal (-1) error. *)
Definition try_spec s (size : Z) (r : read_result) (n : Z) (s' : stream) : Prop :=
  match r with
  | Got bs => n = Z.of_nat (length bs) ∧ n ≤ size ∧ s' = pushed s bs ∧ sane s'
  | ReadErr en => s' = s ∧ n = if ERRNO_IO_RETRY en then -2 else -1
  end.

Lemma stream_read_try_spec s f size :
  sane s → 0 ≤ size →
  match s_size s - s_endp s <? size with
  | true => stream_read_try s f size = Ok (-1, s, f)
  | false => ∃ n s', stream_read_try s f size = Ok (n, s', (sys_read f size).2) ∧
               try_spec s size (sys_read f size).1 n s'
  end.
Proof.
  intros Hs Hz. unfold stream_read_try. rewrite WRITEABLE_sane by done.
  destruct (Z.ltb_spec (s_size s - s_endp s) size) as [|Hroom]; [done |].
  destruct (sys_read f size) as [r f'] eqn:Hr. cbn [fst snd]. destruct r as [bs|en].
  - destruct (sys_read_bound _ _ _ _ Hz Hr) as [Hb Hu]. pose proof Hs as (? & ? & ? & _).
    rewrite read_at_endp_Got, bind_Ok by (auto; lia). cbn [try_result read_ret].
    exists (Z.of_nat (length bs)), (pushed s bs). split.
    + cbn [s_endp set_data]. rewrite u64_small by (unfold_ranges; lia). done.
    + split; [done |]. split; [done |]. split; [done |]. apply pushed_sane; auto; lia.
  - cbn. destruct (ERRNO_IO_RETRY en); eauto.
Qed.

(** Stream_recvfrom, the read of the datagram links, either refuses a
    request larger than the free space without touching the descriptor, or
    appends exactly the datagram delivered, or reports the error (-2 when it is
    transient) and leaves the stream alone; the offsets invariant holds
    afterwards. *)
Theorem stream_recvfrom_appends s f size flags from :
  sane s → 0 ≤ size →
  if s_size s - s_endp s <? size
  then stream_recvfrom s f size flags from = Ok (-1, s, from, f)
  else ∃ n s' r a f', sys_recvfrom f size flags from = (r, a, f') ∧
         stream_recvfrom s f size flags from = Ok (n, s', a, f') ∧ try_spec s size r n s'.
Proof.
  intros Hs Hz. unfold stream_recvfrom. rewrite WRITEABLE_sane by done.
  destruct (Z.ltb_spec (s_size s - s_endp s) size) as [|Hroom]; [done |].
  destruct (sys_recvfrom f size flags from) as [[r a] f'] eqn:Hr. destruct r as [bs|en].
  - destruct (sys_recvfrom_bound _ _ _ _ _ _ _ Hz Hr) as [Hb Hu].
    pose proof Hs as (? & ? & ? & _).
    rewrite read_at_endp_Got, bind_Ok by (auto; lia). cbn [try_result read_ret].
    exists (Z.of_nat (length bs)), (pushed s bs), (Got bs), a, f'. split; [done |]. split.
    + cbn [s_endp set_data]. rewrite u64_small by (unfold_ranges; lia). done.
    + split; [done |]. split; [done |]. split; [done |]. apply pushed_sane; auto; lia.
  - cbn. destruct (ERRNO_IO_RETRY en) eqn:He; eexists _, _, (ReadErr en), _, _;
      (split; [done |]; split; [done |]); cbn; by rewrite He.
Qed.

(** A read that fails after others succeeded makes stream_read lose what
    they delivered: the descriptor has advanced past the bytes [bs], the stream
    still has its old content and the caller sees -1. *)
Theorem stream_read_loses_bytes s f size bs f0 en f1 :
  sane s → 0 ≤ size < 2 ^ 31 → size ≤ s_size s - s_endp s →
  sys_read f size = (Got bs, f0) → bs ≠ [] → Z.of_nat (length bs) < size →
  sys_read f0 (size - Z.of_nat (length bs)) = (ReadErr en, f1) →
  ∃ s', stream_read s f size = Ok (-1, s', f1) ∧ content s' = content s ∧ s_endp s' = s_endp s.
Proof.
  intros Hs Hz Hroom Hr Hne Hlt Hr'. pose proof Hs as (? & ? & ? & ? & ?).
  unfold stream_read. rewrite WRITEABLE_sane by done. case_cmp; [lia |].
  rewrite s32_small by (unfold_ranges; lia). unfold readn.
  destruct (Z.to_nat size) as [|k] eqn:Hk; [lia |]. cbn [readn_loop].
  case_cmp; [| lia]. rewrite Hr. destruct bs as [|b bs']; [done |].
  rewrite wr_block_Ok, bind_Ok by (cbn in *; lia). cbv zeta.
  case_cmp; [| lia]. rewrite Hr', bind_Ok. eexists. split; [reflexivity |].
  split; [| reflexivity]. unfold content. cbn [Z.ltb Z.compare s_endp s_data set_data].
  apply splice_prefix; cbn [length] in *; lia.
Qed.

End network.

(** ** A concrete kernel

    A descriptor with a script: what its reads will return, each cut to the
    size asked for; how many bytes its next writes take at most, the later ones
    take everything; and what was written. *)

Record script := mkScript {
  sc_reads : list read_result; sc_written : list Z; sc_caps : list nat }.

Definition script_read (f : script) (n : Z) : read_result * script :=
  match sc_reads f with
  | [] => (Got [], f)
  | Got bs :: rs =>
      let now := u8 <$> take (Z.to_nat n) bs in
      let later := drop (Z.to_nat n) bs in
      (Got now, mkScript (if later is [] then rs else Got later :: rs) (sc_written f) (sc_caps f))
  | ReadErr en :: rs => (ReadErr en, mkScript rs (sc_written f) (sc_caps f))
  end.

Definition script_write (f : script) (bs : list Z) : write_result * script :=
  let now := match sc_caps f with [] => bs | c :: _ => take c bs end in
  (Wrote (Z.of_nat (length now)),
   mkScript (sc_reads f) (sc_written f ++ now) (tail (sc_caps f))).

Definition script_recvfrom (f : script) (n flags : Z) (from : sockunion)
    : read_result * sockunion * script :=
  let '(r, f) := script_read f n in (r, mkSockunion 2 0 0, f).

Definition script_recvfrom_un (f : script) (n flags : Z) (a : list Z) : read_result * list Z * script :=
  let '(r, f) := script_read f n in (r, a, f).

Lemma script_read_bound f n bs f' :
  0 ≤ n → script_read f n = (Got bs, f') → Z.of_nat (length bs) ≤ n ∧ Forall is_u8 bs.
Proof.
  intros Hn. unfold script_read. destruct (sc_reads f) as [|[b|en] rs]; intros H; simplify_eq.
  - cbn. auto.
  - rewrite length_fmap, length_take. split; [lia |]. apply Forall_fmap.
    apply Forall_true. intros. apply u8_range.
Qed.

Program Definition script_kernel : Kernel :=
  {| descr := script; sys_read := script_read; sys_recvfrom := script_recvfrom;
     sys_write := script_write; sys_sendto f bs _ := script_write f bs;
     sys_recvfrom_un := script_recvfrom_un;
     sys_sendto_un f bs _ := script_write f bs;
     fcntl_getfl f := (0, f); fcntl_setfl f _ := (0, f) |}.
Next Obligation. apply script_read_bound. Qed.
Next Obligation.
  intros f n fl a bs a' f' Hn H. unfold script_recvfrom in H.
  destruct (script_read f n) as [r g] eqn:Hr. simplify_eq. eauto using script_read_bound.
Qed.
Next Obligation.
  intros f n fl a bs a' f' Hn H. unfold script_recvfrom_un in H.
  destruct (script_read f n) as [r g] eqn:Hr. simplify_eq. eauto using script_read_bound.
Qed.
Next Obligation.
  intros f bs n f' H. unfold script_write in H. simplify_eq.
  destruct (sc_caps f); rewrite ?length_take; lia.
Qed.

(** ** The theorems on concrete descriptors *)

Definition two_reads : script := mkScript [Got [1; 2]; Got [3; 4; 5]] [] [2%nat].

Lemma readn_fills_block_witness :
  readn (K := script_kernel) two_reads (replicate 6 0) 1 4
    = Ok (4, [0; 1; 2; 3; 4; 0], mkScript [Got [5]] [] [2%nat]) ∧
  ∃ r bs f0 f', readn (K := script_kernel) two_reads (replicate 6 0) 1 4
                  = Ok (r, splice (replicate 6 0) 1 bs, f') ∧
    receives (K := script_kernel) two_reads bs f0 ∧ Forall is_u8 bs ∧
    read_end (K := script_kernel) 4 (4 - Z.of_nat (length bs)) f0 r f'.
Proof.
  split; [vm_compute; reflexivity |].
  apply (readn_fills_block (K := script_kernel)); cbn; lia.
Defined.

Lemma writen_sends_block_witness :
  writen (K := script_kernel) two_reads [7; 8; 9] 3
    = Ok (3, mkScript (sc_reads two_reads) [7; 8; 9] []) ∧
  ∃ r n f0 f', writen (K := script_kernel) two_reads [7; 8; 9] 3 = Ok (r, f') ∧
    sends (K := script_kernel) two_reads (take (Z.to_nat n) [7; 8; 9]) f0 ∧
    ((n = 3 ∧ r = 3 ∧ f' = f0) ∨
     (0 ≤ n < 3 ∧ r ≤ 0 ∧
      ∃ w, script_write f0 (slice [7; 8; 9] n (3 - n)) = (w, f') ∧ write_ret w = r)).
Proof.
  split; [vm_compute; reflexivity |].
  apply (writen_sends_block (K := script_kernel)); cbn; lia.
Defined.

Lemma stream_recvfrom_appends_witness :
  ∃ n s' r a f', script_recvfrom two_reads 8 0 (mkSockunion 0 0 0) = (r, a, f') ∧
    stream_recvfrom (K := script_kernel) (blank_stream 8) two_reads 8 0 (mkSockunion 0 0 0)
      = Ok (n, s', a, f') ∧
    try_spec (blank_stream 8) 8 r n s'.
Proof.
  exact (stream_recvfrom_appends (K := script_kernel) (blank_stream 8) two_reads 8 0
           (mkSockunion 0 0 0) (blank_stream_sane 8 ltac:(cbn; lia)) ltac:(lia)).
Defined.

Lemma stream_read_loses_bytes_witness :
  ∃ s', stream_read (K := script_kernel) (blank_stream 8)
          (mkScript [Got [1; 2]; ReadErr EINTR; Got [3; 4]] [] []) 4
          = Ok (-1, s', mkScript [Got [3; 4]] [] []) ∧
    content s' = content (blank_stream 8) ∧ s_endp s' = 0.
Proof.
  refine (stream_read_loses_bytes (K := script_kernel) (blank_stream 8)
            (mkScript [Got [1; 2]; ReadErr EINTR; Got [3; 4]] [] []) 4 [1; 2]
            (mkScript [ReadErr EINTR; Got [3; 4]] [] []) EINTR _ _ _ _ _ _ _ _).
  - apply blank_stream_sane. cbn. lia.
  - lia.
  - cbn. lia.
  - reflexivity.
  - discriminate.
  - cbn. lia.
  - reflexivity.
Defined.
