(* ===== verification/Client.v ===== *)
(** The test client tool/client.c: each of its processes copies the file s_test
    over a connection to an echo server into a file of its own.

    The process is its descriptor table; what a descriptor does is the class
    [Kernel], what open, socket and connect answer the class [ClientOs].  The
    loops of read_block and write_block repeat a call that fails, so their
    number of rounds is an argument; the theorems say how many are enough. *)

From Stdlib Require Ascii String.
From S2P Require Import Prelude Cstring CommonProc Sockunion Stream StreamFacts Network.

Import String.StringSyntax.
Local Open Scope string_scope.
Local Open Scope Z_scope.

(** The descriptors a process has open, and what became of those it closed, the
    last one first. *)
Record proc `{Kernel} := mkProc { p_fds : gmap Z descr; p_closed : list descr }.
Arguments mkProc {_} _ _.
Arguments p_fds {_} _.
Arguments p_closed {_} _.

Definition MAX_BUF_SIZE : Z := 1024.
Definition EBADF : Z := 9.

(** What the operating system answers: [sys_open] of a path, [sys_socket], and
    the number a new descriptor gets. *)
Class ClientOs `{Kernel} := {
  getpid : Z;
  sys_open : list Z → Z → option descr;
  sys_socket : option descr;
  sys_connect : descr → list Z → Z → Z * descr;
  next_fd : gmap Z descr → Z;
  next_fd_free m : m !! next_fd m = None;
  next_fd_nonneg m : 0 ≤ next_fd m
}.

Section client.
Context {K : Kernel}.
Implicit Types (p : proc) (d : descr) (buf : list Z).

(** ** System calls on a descriptor number *)

Definition read_fd p (fd n : Z) : read_result * proc :=
  match p_fds p !! fd with
  | Some d => let '(r, d) := sys_read d n in (r, mkProc (<[fd := d]> (p_fds p)) (p_closed p))
  | None => (ReadErr (EOTHER EBADF), p)
  end.

Definition write_fd p (fd : Z) (bs : list Z) : write_result * proc :=
  match p_fds p !! fd with
  | Some d => let '(r, d) := sys_write d bs in (r, mkProc (<[fd := d]> (p_fds p)) (p_closed p))
  | None => (WriteErr (EOTHER EBADF), p)
  end.

Definition close_fd p (fd : Z) : proc :=
  match p_fds p !! fd with
  | Some d => mkProc (delete fd (p_fds p)) (d :: p_closed p)
  | None => p
  end.

(** ** Blocks *)

(** [end] is set to 1, and the descriptor closed, when it is at its end. *)
Fixpoint read_block_loop (k : nat) p (fd : Z) buf (nbytes tot : Z) : res (Z * Z * list Z * proc) :=
  match k with
  | O => Fail OutOfFuel
  | S k =>
      if tot =? nbytes then Ok (tot, 0, buf, p) else
      let '(r, p) := read_fd p fd (u64 (nbytes - tot)) in
      match r with
      | Got [] => Ok (tot, 1, buf, close_fd p fd)
      | ReadErr _ => read_block_loop k p fd buf nbytes tot
      | Got bs =>
          buf ← wr_block buf tot bs;
          read_block_loop k p fd buf nbytes (tot + Z.of_nat (length bs))
      end
  end.

Definition read_block (k : nat) p (fd : Z) buf (nbytes : Z) : res (Z * Z * list Z * proc) :=
  read_block_loop k p fd buf nbytes 0.

Fixpoint write_block_loop (k : nat) p (fd : Z) buf (nbytes tot : Z) : res (Z * proc) :=
  match k with
  | O => Fail OutOfFuel
  | S k =>
      if tot =? nbytes then Ok (tot, p) else
      bs ← rd_block buf tot (u64 (nbytes - tot));
      let '(r, p) := write_fd p fd bs in
      match r with
      | WriteErr _ => write_block_loop k p fd buf nbytes tot
      | Wrote num => write_block_loop k p fd buf nbytes (tot + num)
      end
  end.

Definition write_block (k : nat) p (fd : Z) buf (nbytes : Z) : res (Z * proc) :=
  write_block_loop k p fd buf nbytes 0.

(** ** The copy *)

(** The block goes to the server and what comes back to the copy. *)
Definition echo_round (k : nat) p (w_fd sockfd : Z) data_buf (num : Z) : res proc :=
  '(data_len, p) ← write_block k p sockfd data_buf num;
  '(num, ends, data_buf, p) ← read_block k p sockfd data_buf data_len;
  '(_, p) ← write_block k p w_fd data_buf num;
  Ok p.

(** One round of the loop of test_main: the flag [endf] and the process. *)
Definition copy_round (k : nat) p (s_fd w_fd sockfd : Z) : res (Z * proc) :=
  let data_buf := replicate (Z.to_nat MAX_BUF_SIZE) 0 in
  '(num, endf, data_buf, p) ← read_block k p s_fd data_buf (Z.quot MAX_BUF_SIZE 4);
  p ← echo_round k p w_fd sockfd data_buf num;
  Ok (endf, p).

(** [n] bounds the rounds, [k] the calls made by one block. *)
Fixpoint copy_loop (n k : nat) p (s_fd w_fd sockfd : Z) : res proc :=
  match n with
  | O => Fail OutOfFuel
  | S n =>
      '(endf, p) ← copy_round k p s_fd w_fd sockfd;
      if endf =? 0 then copy_loop n k p s_fd w_fd sockfd
      else Ok (close_fd (close_fd (close_fd p s_fd) w_fd) sockfd)
  end.

Section with_os.
Context {OS : ClientOs}.

(** A call that makes a descriptor: its number, or -1. *)
Definition install p (od : option descr) : Z * proc :=
  match od with
  | Some d => let fd := next_fd (p_fds p) in (fd, mkProc (<[fd := d]> (p_fds p)) (p_closed p))
  | None => (-1, p)
  end.

(** The result of inet_aton is 0 or 1, so its test never fails; a failed connect is
    only printed. *)
Definition tcp_server_creat p (address : list Z) (port : Z) : Z * proc :=
  let '(s_fd, p) := install p sys_socket in
  if s_fd <? 0 then (-1, p) else
  match p_fds p !! s_fd with
  | Some d =>
      let '(_, d) := sys_connect d address port in
      (s_fd, mkProc (<[s_fd := d]> (p_fds p)) (p_closed p))
  | None => (s_fd, p)
  end.

(** How a process leaves test_main. *)
Inductive test_end := Copied | NoSocket | NoSource | ExitNow.

Definition test_main (n k : nat) p : res (test_end * proc) :=
  path ← sprintf MAX_BUF_SIZE (chars "./r_test" ++ decimal getpid);
  let '(w_fd, p) := install p (sys_open path (Z.lor O_CREAT O_RDWR)) in
  if w_fd <? 0 then Ok (ExitNow, p) else
  let '(sockfd, p) := tcp_server_creat p (chars "127.0.0.1") 11111 in
  if sockfd <? 0 then Ok (NoSocket, p) else
  let '(s_fd, p) := install p (sys_open (chars "s_test") O_RDONLY) in
  if s_fd <? 0 then Ok (NoSource, p) else
  p ← copy_loop n k p s_fd w_fd sockfd;
  Ok (Copied, p).

End with_os.

(** ** The processes

    [fork i] is what the [i]-th fork returns to this process; [main_loop] is the
    list of rounds in which it runs test_main, before it sleeps for ever.  The
    counter goes from 1 to [tots]: [tots] rounds are all there are. *)

Fixpoint main_loop (k : nat) (fork : Z → Z) (i tots : Z) : list Z :=
  match k with
  | O => []
  | S k => if i <=? tots then
             if fork i =? 0 then [i] else main_loop k fork (i + 1) tots
           else []
  end.

Definition main (argv : list (list Z)) (fork : Z → Z) : list Z :=
  match argv with
  | [_; arg] => main_loop (Z.to_nat (atoi arg)) fork 1 (atoi arg)
  | _ => []
  end.

(** ** Descriptors that make progress

    [P k bs d]: the descriptor [d] stands at [bs], what it still delivers or has
    taken, and at most [k] more calls on it fail. *)

Class Readable (P : nat → list Z → descr → Prop) : Prop := readable k bs d n :
  P k bs d → bs ≠ [] → 0 < n →
  match sys_read d n with
  | (Got xs, d') => xs ≠ [] ∧ ∃ rest, bs = xs ++ rest ∧ P k rest d'
  | (ReadErr _, d') => ∃ k', k = S k' ∧ P k' bs d'
  end.

Class Ending (P : nat → list Z → descr → Prop) : Prop := ending k d n :
  P k [] d → 0 < n →
  match sys_read d n with
  | (Got xs, d') => xs = [] ∧ P k [] d'
  | (ReadErr _, d') => ∃ k', k = S k' ∧ P k' [] d'
  end.

Class Writable (P : nat → list Z → descr → Prop) : Prop := writable k out d bs :
  P k out d → bs ≠ [] → Forall is_u8 bs →
  match sys_write d bs with
  | (Wrote 0, d') | (WriteErr _, d') => ∃ k', k = S k' ∧ P k' out d'
  | (Wrote n, d') => P k (out ++ take (Z.to_nat n) bs) d'
  end.

(** ** What the blocks do *)

(** The process after its descriptor [fd] with_descr on to [d]. *)
Definition with_descr p (fd : Z) d : proc := mkProc (<[fd := d]> (p_fds p)) (p_closed p).

Lemma with_descr_with_descr p fd d d' : with_descr (with_descr p fd d) fd d' = with_descr p fd d'.
Proof. unfold with_descr. cbn. by rewrite insert_insert_eq. Qed.

Lemma with_descr_lookup p fd d : p_fds (with_descr p fd d) !! fd = Some d.
Proof. unfold with_descr. cbn. by rewrite lookup_insert_eq. Qed.

Lemma read_fd_with_descr p fd d n :
  read_fd (with_descr p fd d) fd n = let '(r, d') := sys_read d n in (r, with_descr p fd d').
Proof.
  unfold read_fd. rewrite with_descr_lookup. destruct (sys_read d n). f_equal.
  exact (with_descr_with_descr p fd d _).
Qed.

Lemma write_fd_with_descr p fd d bs :
  write_fd (with_descr p fd d) fd bs = let '(r, d') := sys_write d bs in (r, with_descr p fd d').
Proof.
  unfold write_fd. rewrite with_descr_lookup. destruct (sys_write d bs). f_equal.
  exact (with_descr_with_descr p fd d _).
Qed.

Lemma close_fd_with_descr p fd d :
  close_fd (with_descr p fd d) fd = mkProc (delete fd (p_fds p)) (d :: p_closed p).
Proof. unfold close_fd. rewrite with_descr_lookup. unfold with_descr. cbn. by rewrite delete_insert_eq. Qed.

Section progress.
Context (P : nat → list Z → descr → Prop).

(** A descriptor with enough left fills the block, whatever the sizes of the
    reads and after however many failures. *)
Lemma read_block_loop_full `{!Readable P} m : ∀ p fd d k bs buf nbytes tot,
  P k bs d → 0 ≤ tot ≤ nbytes → nbytes ≤ Z.of_nat (length buf) → nbytes < 2 ^ 63 →
  nbytes - tot ≤ Z.of_nat (length bs) → nbytes - tot + Z.of_nat k < Z.of_nat m →
  ∃ d' k', read_block_loop m (with_descr p fd d) fd buf nbytes tot
    = Ok (nbytes, 0, splice buf tot (take (Z.to_nat (nbytes - tot)) bs), with_descr p fd d') ∧
    (k' ≤ k)%nat ∧ P k' (drop (Z.to_nat (nbytes - tot)) bs) d'.
Proof.
  induction m as [| m IH]; intros p fd d k bs buf nbytes tot HP Ht Hb Hn Hl Hm; [lia |].
  cbn [read_block_loop]. destruct (Z.eqb_spec tot nbytes) as [-> | Hne].
  { exists d, k. rewrite Z.sub_diag, take_0, splice_nil. done. }
  rewrite read_fd_with_descr, u64_small by (unfold_ranges; lia).
  pose proof (readable k bs d (nbytes - tot) HP ltac:(by intros ->; cbn in *; lia) ltac:(lia)) as Hr.
  destruct (sys_read d (nbytes - tot)) as [[xs|en] d1] eqn:Hsys.
  2: { destruct Hr as (k' & -> & HP').
       destruct (IH p fd d1 k' bs buf nbytes tot) as (d' & k2 & He & Hk & HP2); [done | lia.. |].
       exists d', k2. split; [exact He | split; [lia | done]]. }
  destruct Hr as (Hxs & rest & -> & HP'). destruct (sys_read_bound d (nbytes - tot) xs d1) as [Hx _]; [lia | done |].
  rewrite length_app in Hl. destruct xs as [| x xs]; [done |]. set (ys := x :: xs) in *.
  assert (0 < Z.of_nat (length ys)) by (cbn; lia).
  rewrite wr_block_Ok, bind_Ok by lia.
  destruct (IH p fd d1 k rest (splice buf tot ys) nbytes (tot + Z.of_nat (length ys)))
    as (d' & k2 & He & Hk & HP2); [done | rewrite ?length_splice by lia; lia.. |].
  exists d', k2. split; [| split; [done |]].
  - rewrite He, splice_app by (rewrite ?length_app, ?length_take; lia). repeat f_equal.
    rewrite take_app_ge by lia. repeat f_equal. lia.
  - rewrite drop_app_ge by lia. replace (Z.to_nat (nbytes - tot) - length ys)%nat
      with (Z.to_nat (nbytes - (tot + Z.of_nat (length ys)))) by lia. done.
Qed.

(** A descriptor with less left delivers it, reports its end and is closed. *)
Lemma read_block_loop_end `{!Readable P, !Ending P} m : ∀ p fd d k bs buf nbytes tot,
  P k bs d → 0 ≤ tot → nbytes ≤ Z.of_nat (length buf) → nbytes < 2 ^ 63 →
  Z.of_nat (length bs) < nbytes - tot → Z.of_nat (length bs) + Z.of_nat k < Z.of_nat m →
  ∃ d' k', read_block_loop m (with_descr p fd d) fd buf nbytes tot
    = Ok (tot + Z.of_nat (length bs), 1, splice buf tot bs,
          mkProc (delete fd (p_fds p)) (d' :: p_closed p)) ∧ (k' ≤ k)%nat ∧ P k' [] d'.
Proof.
  induction m as [| m IH]; intros p fd d k bs buf nbytes tot HP Ht Hb Hn Hl Hm; [lia |].
  cbn [read_block_loop]. destruct (Z.eqb_spec tot nbytes) as [-> | Hne]; [lia |].
  rewrite read_fd_with_descr, u64_small by (unfold_ranges; lia).
  destruct (decide (bs = [])) as [-> | Hbs].
  - pose proof (ending k d (nbytes - tot) HP ltac:(lia)) as Hr.
    destruct (sys_read d (nbytes - tot)) as [[xs|en] d1] eqn:Hsys.
    + destruct Hr as [-> HP']. exists d1, k. rewrite close_fd_with_descr, splice_nil.
      split; [cbn; repeat f_equal; lia | done].
    + destruct Hr as (k' & -> & HP').
      destruct (IH p fd d1 k' [] buf nbytes tot) as (d' & k2 & He & Hk & HP2); [done | cbn in *; lia.. |].
      exists d', k2. split; [exact He | split; [lia | done]].
  - pose proof (readable k bs d (nbytes - tot) HP Hbs ltac:(lia)) as Hr.
    destruct (sys_read d (nbytes - tot)) as [[xs|en] d1] eqn:Hsys.
    2: { destruct Hr as (k' & -> & HP').
         destruct (IH p fd d1 k' bs buf nbytes tot) as (d' & k2 & He & Hk & HP2); [done | lia.. |].
         exists d', k2. split; [exact He | split; [lia | done]]. }
    destruct Hr as (Hxs & rest & -> & HP').
    rewrite length_app in Hl, Hm. destruct xs as [| x xs]; [done |]. set (ys := x :: xs) in *.
    assert (0 < Z.of_nat (length ys)) by (cbn; lia).
    rewrite wr_block_Ok, bind_Ok by lia.
    destruct (IH p fd d1 k rest (splice buf tot ys) nbytes (tot + Z.of_nat (length ys)))
      as (d' & k2 & He & Hk & HP2); [done | rewrite ?length_splice by lia; lia.. |].
    exists d', k2. split; [| done]. rewrite He, splice_app by (rewrite ?length_app; lia).
    by rewrite length_app, Nat2Z.inj_add, Z.add_assoc.
Qed.

(** A descriptor that takes bytes takes the block whole and in order. *)
Lemma write_block_loop_all `{!Writable P} m : ∀ p fd d k out buf nbytes tot,
  P k out d → 0 ≤ tot ≤ nbytes → nbytes ≤ Z.of_nat (length buf) → nbytes < 2 ^ 63 →
  nbytes - tot + Z.of_nat k < Z.of_nat m → Forall is_u8 buf →
  ∃ d' k', write_block_loop m (with_descr p fd d) fd buf nbytes tot = Ok (nbytes, with_descr p fd d') ∧
    (k' ≤ k)%nat ∧ P k' (out ++ slice buf tot (nbytes - tot)) d'.
Proof.
  induction m as [| m IH]; intros p fd d k out buf nbytes tot HP Ht Hb Hn Hm Hu; [lia |].
  cbn [write_block_loop]. destruct (Z.eqb_spec tot nbytes) as [-> | Hne].
  { exists d, k. rewrite Z.sub_diag. unfold slice. by rewrite take_0, app_nil_r. }
  rewrite u64_small, rd_block_Ok, bind_Ok, write_fd_with_descr by (unfold_ranges; lia).
  set (bs := slice buf tot (nbytes - tot)).
  assert (Z.of_nat (length bs) = nbytes - tot) as Hlen by (apply length_slice; lia).
  pose proof (writable k out d bs HP ltac:(by intros Hz; rewrite Hz in Hlen; cbn in *; lia)
                (Forall_slice _ _ _ _ Hu)) as Hw.
  destruct (sys_write d bs) as [[num|en] d1] eqn:Hsys.
  2: { destruct Hw as (k' & -> & HP').
       destruct (IH p fd d1 k' out buf nbytes tot) as (d' & k2 & He & Hk & HP2); [done | lia.. | done |].
       exists d', k2. split; [exact He | split; [lia | done]]. }
  pose proof (sys_write_bound d bs num d1 Hsys) as Hnum.
  destruct (Z.eqb_spec num 0) as [-> | Hpos].
  { destruct Hw as (k' & -> & HP'). rewrite Z.add_0_r.
    destruct (IH p fd d1 k' out buf nbytes tot) as (d' & k2 & He & Hk & HP2); [done | lia.. | done |].
    exists d', k2. split; [exact He | split; [lia | done]]. }
  destruct num as [| num | num]; [lia | | lia].
  destruct (IH p fd d1 k (out ++ take (Z.to_nat (Zpos num)) bs) buf nbytes (tot + Zpos num))
    as (d' & k2 & He & Hk & HP2); [done | lia.. | done |].
  exists d', k2. split; [exact He | split; [done |]]. rewrite <- app_assoc in HP2.
  erewrite (f_equal (app out)); [exact HP2 |]. unfold bs, slice.
  replace (Z.to_nat (tot + Zpos num)) with (Z.to_nat tot + Z.to_nat (Zpos num))%nat by lia.
  rewrite <- drop_drop, take_take, Nat.min_l, take_take_drop by lia. f_equal. lia.
Qed.

Lemma with_descr_id p fd d : p_fds p !! fd = Some d → with_descr p fd d = p.
Proof. intros H. unfold with_descr. rewrite insert_id by done. by destruct p. Qed.

Lemma read_block_full `{!Readable P} m p fd d k bs buf nbytes :
  p_fds p !! fd = Some d → P k bs d → 0 ≤ nbytes < 2 ^ 63 → nbytes ≤ Z.of_nat (length buf) →
  nbytes ≤ Z.of_nat (length bs) → nbytes + Z.of_nat k < Z.of_nat m →
  ∃ d' k', read_block m p fd buf nbytes
    = Ok (nbytes, 0, splice buf 0 (take (Z.to_nat nbytes) bs), with_descr p fd d') ∧
    (k' ≤ k)%nat ∧ P k' (drop (Z.to_nat nbytes) bs) d'.
Proof.
  intros Hd HP Hn Hb Hl Hm. unfold read_block.
  destruct (read_block_loop_full m p fd d k bs buf nbytes 0) as (d' & k' & He & H); [done | lia.. |].
  rewrite Z.sub_0_r, with_descr_id in He by done. rewrite Z.sub_0_r in H. eauto.
Qed.

Lemma read_block_end `{!Readable P, !Ending P} m p fd d k bs buf nbytes :
  p_fds p !! fd = Some d → P k bs d → nbytes ≤ Z.of_nat (length buf) → nbytes < 2 ^ 63 →
  Z.of_nat (length bs) < nbytes → Z.of_nat (length bs) + Z.of_nat k < Z.of_nat m →
  ∃ d' k', read_block m p fd buf nbytes
    = Ok (Z.of_nat (length bs), 1, splice buf 0 bs,
          mkProc (delete fd (p_fds p)) (d' :: p_closed p)) ∧ (k' ≤ k)%nat ∧ P k' [] d'.
Proof.
  intros Hd HP Hn Hb Hl Hm. unfold read_block.
  destruct (read_block_loop_end m p fd d k bs buf nbytes 0) as (d' & k' & He & H); [done | lia.. |].
  rewrite with_descr_id in He by done. eauto.
Qed.

Lemma write_block_all `{!Writable P} m p fd d k out buf nbytes :
  p_fds p !! fd = Some d → P k out d → 0 ≤ nbytes < 2 ^ 63 → nbytes ≤ Z.of_nat (length buf) →
  nbytes + Z.of_nat k < Z.of_nat m → Forall is_u8 buf →
  ∃ d' k', write_block m p fd buf nbytes = Ok (nbytes, with_descr p fd d') ∧
    (k' ≤ k)%nat ∧ P k' (out ++ slice buf 0 nbytes) d'.
Proof.
  intros Hd HP Hn Hb Hm Hu. unfold write_block.
  destruct (write_block_loop_all m p fd d k out buf nbytes 0) as (d' & k' & He & H); [done | lia.. | done |].
  rewrite with_descr_id in He by done. rewrite Z.sub_0_r in H. eauto.
Qed.

End progress.

(** ** The copy against an echo server

    The source [Src], the copy [Dst] and the connection [Echo]: what is written
    to the connection is what it then delivers. *)
Section copy.
Context (Src Dst Echo : nat → list Z → descr → Prop).
Context `{!Readable Src, !Ending Src, !Writable Dst, !Readable Echo, !Writable Echo}.
Context (s w e : Z) (Hsw : s ≠ w) (Hse : s ≠ e) (Hwe : w ≠ e) (base : gmap Z descr) (B : nat).

(** [rest] is still to be copied, [out] is copied, nothing is in flight, and no
    descriptor fails more than [B] times. *)
Definition copying p (rest out : list Z) : Prop :=
  ∃ ks kw ke ds dw de, (ks ≤ B ∧ kw ≤ B ∧ ke ≤ B)%nat ∧
    p_fds p = <[s := ds]> (<[w := dw]> (<[e := de]> base)) ∧ Forall is_u8 rest ∧
    Src ks rest ds ∧ Dst kw out dw ∧ Echo ke [] de.

(** Everything is copied and the source is closed. *)
Definition copied p (closed : list descr) (out : list Z) : Prop :=
  ∃ ks kw ke ds dw de, (ks ≤ B ∧ kw ≤ B ∧ ke ≤ B)%nat ∧
    p_fds p = <[w := dw]> (<[e := de]> (delete s base)) ∧ p_closed p = ds :: closed ∧
    Src ks [] ds ∧ Dst kw out dw ∧ Echo ke [] de.

(** A block that is in the buffer goes to the server, back, and to the copy. *)
Lemma echo_block m p buf xs kw ke dw de out :
  (Z.to_nat (Z.of_nat (length xs) + Z.of_nat B) < m)%nat →
  Z.of_nat (length xs) ≤ Z.of_nat (length buf) → Z.of_nat (length xs) < 2 ^ 63 →
  (kw ≤ B ∧ ke ≤ B)%nat → slice buf 0 (Z.of_nat (length xs)) = xs → Forall is_u8 buf →
  p_fds p !! w = Some dw → p_fds p !! e = Some de → Dst kw out dw → Echo ke [] de →
  ∃ kw' ke' dw' de', (kw' ≤ B ∧ ke' ≤ B)%nat ∧ Dst kw' (out ++ xs) dw' ∧ Echo ke' [] de' ∧
    echo_round m p w e buf (Z.of_nat (length xs)) = Ok (with_descr (with_descr p e de') w dw').
Proof.
  intros Hm Hb Hn [Hkw Hke] Hxs Hu Hw He HD HE. unfold echo_round.
  assert (Forall is_u8 xs) as Hux by (rewrite <- Hxs; by apply Forall_slice).
  destruct (write_block_all Echo m p e de ke [] buf (Z.of_nat (length xs)))
    as (d1 & k1 & -> & Hk1 & HE1); [done.. | lia | lia | lia | done |].
  rewrite Hxs in HE1. cbn [app] in HE1. rewrite bind_Ok.
  destruct (read_block_full Echo m (with_descr p e d1) e d1 k1 xs buf (Z.of_nat (length xs)))
    as (d2 & k2 & -> & Hk2 & HE2); [apply with_descr_lookup | done | lia.. |].
  rewrite bind_Ok, with_descr_with_descr, Nat2Z.id, take_ge by lia. rewrite Nat2Z.id, drop_all in HE2.
  destruct (write_block_all Dst m (with_descr p e d2) w dw kw out (splice buf 0 xs) (Z.of_nat (length xs)))
    as (d3 & k3 & -> & Hk3 & HD3);
    [unfold with_descr; cbn; by rewrite lookup_insert_ne by congruence | done
     | rewrite ?length_splice by lia; lia.. | by apply Forall_splice |].
  rewrite slice_splice in HD3 by lia.
  exists k3, k2, d3, d2. split; [lia |]. done.
Qed.

Lemma copy_round_full m p rest out :
  (Z.to_nat (256 + Z.of_nat B) < m)%nat → copying p rest out → (256 ≤ length rest)%nat →
  ∃ p', copy_round m p s w e = Ok (0, p') ∧ p_closed p' = p_closed p ∧
    copying p' (drop 256 rest) (out ++ take 256 rest).
Proof.
  intros Hm (ks & kw & ke & ds & dw & de & HB & Hp & Hu & HS & HD & HE) Hl.
  unfold copy_round. cbv zeta. change (Z.quot MAX_BUF_SIZE 4) with 256.
  set (buf := replicate _ 0). assert (length buf = 1024%nat) as Hbuf by done.
  assert (Forall is_u8 buf) as Hzero by (by apply Forall_replicate). clearbody buf.
  destruct (read_block_full Src m p s ds ks rest buf 256) as (d1 & k1 & -> & Hk1 & HS1);
    [rewrite Hp; by simplify_map_eq | done | lia.. |].
  rewrite bind_Ok. change (Z.to_nat 256) with 256%nat in *.
  assert (length (take 256 rest) = 256%nat) as Hx by (rewrite length_take; lia).
  destruct (echo_block m (with_descr p s d1) (splice buf 0 (take 256 rest)) (take 256 rest) kw ke dw de out)
    as (kw' & ke' & dw' & de' & HB' & HD' & HE' & Heq);
    [lia | rewrite length_splice by lia; lia | lia | lia | by rewrite slice_splice by lia
    | apply Forall_splice; [done |]; auto using Forall_take | unfold with_descr; cbn; rewrite Hp; by simplify_map_eq
    | unfold with_descr; cbn; rewrite Hp; by simplify_map_eq | done | done |].
  rewrite Hx in Heq. change (Z.of_nat 256) with 256 in Heq. rewrite Heq, bind_Ok.
  eexists. split; [done |]. split; [done |].
  exists k1, kw', ke', d1, dw', de'. split; [lia |]. split; [| auto using Forall_drop].
  unfold with_descr. cbn. rewrite Hp. apply map_eq. intros i.
  destruct (decide (i = s)), (decide (i = w)), (decide (i = e)); try congruence; by simplify_map_eq.
Qed.

Lemma copy_round_last m p rest out :
  (Z.to_nat (256 + Z.of_nat B) < m)%nat → copying p rest out → (length rest < 256)%nat →
  ∃ p', copy_round m p s w e = Ok (1, p') ∧ copied p' (p_closed p) (out ++ rest).
Proof.
  intros Hm (ks & kw & ke & ds & dw & de & HB & Hp & Hu & HS & HD & HE) Hl.
  unfold copy_round. cbv zeta. change (Z.quot MAX_BUF_SIZE 4) with 256.
  set (buf := replicate _ 0). assert (length buf = 1024%nat) as Hbuf by done.
  assert (Forall is_u8 buf) as Hzero by (by apply Forall_replicate). clearbody buf.
  destruct (read_block_end Src m p s ds ks rest buf 256) as (d1 & k1 & -> & Hk1 & HS1);
    [rewrite Hp; by simplify_map_eq | done | lia.. |].
  rewrite bind_Ok.
  destruct (echo_block m (mkProc (delete s (p_fds p)) (d1 :: p_closed p)) (splice buf 0 rest) rest kw ke dw de out)
    as (kw' & ke' & dw' & de' & HB' & HD' & HE' & ->);
    [lia | rewrite length_splice by lia; lia | lia | lia | by rewrite slice_splice by lia
    | apply Forall_splice; [done |]; auto using Forall_take | cbn; rewrite Hp; by simplify_map_eq | cbn; rewrite Hp; by simplify_map_eq | done | done |].
  rewrite bind_Ok. eexists. split; [done |].
  exists k1, kw', ke', d1, dw', de'. split; [lia |]. split; [| done].
  unfold with_descr. cbn. rewrite Hp. apply map_eq. intros i.
  destruct (decide (i = s)), (decide (i = w)), (decide (i = e)); try congruence; by simplify_map_eq.
Qed.

(** One round for each whole block and one more are enough. *)
Lemma copy_loop_copies m n : ∀ p rest out,
  (Z.to_nat (256 + Z.of_nat B) < m)%nat → (length rest / 256 < n)%nat → copying p rest out →
  ∃ p1, copy_loop n m p s w e = Ok (close_fd (close_fd (close_fd p1 s) w) e) ∧
    copied p1 (p_closed p) (out ++ rest).
Proof.
  induction n as [| n IH]; intros p rest out Hm Hn Hc; [lia |]. cbn [copy_loop].
  destruct (decide (256 ≤ length rest)%nat) as [Hl | Hl].
  - destruct (copy_round_full m p rest out Hm Hc Hl) as (p1 & -> & Hcl & Hc1).
    rewrite bind_Ok. cbn [Z.eqb].
    destruct (IH p1 (drop 256 rest) (out ++ take 256 rest) Hm) as (p2 & He & H2); [| exact Hc1 |].
    + rewrite length_drop. assert (length rest = length rest - 256 + 1 * 256)%nat as Hz by lia.
      rewrite Hz, Nat.div_add in Hn by lia. lia.
    + exists p2. split; [exact He |]. by rewrite <- app_assoc, take_drop, Hcl in H2.
  - destruct (copy_round_last m p rest out Hm Hc ltac:(lia)) as (p1 & -> & Hc1).
    rewrite bind_Ok. cbn [Z.eqb]. eauto.
Qed.

(** What the three close calls of test_main leave: the first finds the source
    closed already. *)
Lemma copied_closes p closed out :
  base !! s = None → base !! w = None → base !! e = None → copied p closed out →
  ∃ kw ke ds dw de, close_fd (close_fd (close_fd p s) w) e
      = mkProc base (de :: dw :: ds :: closed) ∧ Dst kw out dw ∧ Echo ke [] de.
Proof.
  intros Hs Hw He (ks & kw & ke & ds & dw & de & _ & Hp & Hcl & _ & HD & HE).
  exists kw, ke, ds, dw, de. split; [| done]. destruct p as [fds cl]. cbn in *. subst.
  unfold close_fd. cbn. rewrite !lookup_insert_ne, lookup_delete_eq by congruence. cbn.
  rewrite lookup_insert_eq. cbn. rewrite delete_insert_eq, lookup_delete_ne, lookup_insert_eq by congruence.
  cbn. f_equal. apply map_eq. intros i.
  destruct (decide (i = s)), (decide (i = w)), (decide (i = e)); try congruence; by simplify_map_eq.
Qed.

End copy.

(** C22: A process of the test client copies the file s_test through the echo
    server: when the source delivers [data], the connection delivers what was
    written to it and the copy takes what it is given, in pieces of any size and
    after finitely many failed calls (at most [B] for each descriptor), test_main
    returns, its file holds [data] and nothing else was written to it, nothing is
    left in flight on the connection, and every descriptor it opened is closed.
    One round for each 256 bytes and one more are enough, and [256 + B + 1] calls
    for a block. *)
Theorem test_main_copies {OS : ClientOs} (Src Dst Echo : nat → list Z → descr → Prop)
    `{!Readable Src, !Ending Src, !Writable Dst, !Readable Echo, !Writable Echo}
    (B n k ks kw ke : nat) p ds dw d0 de data :
  (ks ≤ B ∧ kw ≤ B ∧ ke ≤ B)%nat → (length data / 256 < n)%nat → (256 + B < k)%nat →
  sys_open (chars "./r_test" ++ decimal getpid) (Z.lor O_CREAT O_RDWR) = Some dw → Dst kw [] dw →
  sys_socket = Some d0 → sys_connect d0 (chars "127.0.0.1") 11111 = (0, de) → Echo ke [] de →
  sys_open (chars "s_test") O_RDONLY = Some ds → Src ks data ds → Forall is_u8 data →
  ∃ ds' dw' de' kw' ke',
    test_main n k p = Ok (Copied, mkProc (p_fds p) (de' :: dw' :: ds' :: p_closed p)) ∧
    Dst kw' data dw' ∧ Echo ke' [] de'.
Proof.
  intros HB Hn Hk How HD Hsock Hcon HE Hos HS Hu. unfold test_main, tcp_server_creat, install.
  unfold sprintf. case_cmp.
  2: { pose proof (decimal_length getpid). rewrite length_app in *.
       change (length (chars "./r_test")) with 8%nat in *. unfold MAX_BUF_SIZE in *. lia. }
  rewrite bind_Ok, How. set (w := next_fd (p_fds p)).
  assert (p_fds p !! w = None) as Hw by apply next_fd_free.
  assert (0 ≤ w) by apply next_fd_nonneg. case_cmp; [lia |].
  rewrite Hsock. cbn [p_fds p_closed]. set (e := next_fd (<[w := dw]> (p_fds p))).
  assert (<[w := dw]> (p_fds p) !! e = None) as He by apply next_fd_free.
  assert (0 ≤ e) by apply next_fd_nonneg. case_cmp; [lia |].
  rewrite lookup_insert_eq, Hcon. case_cmp; [lia |]. rewrite Hos. cbn [p_fds p_closed].
  rewrite insert_insert_eq. set (m := <[e := de]> (<[w := dw]> (p_fds p))).
  set (s := next_fd m). assert (m !! s = None) as Hs by apply next_fd_free.
  assert (0 ≤ s) by apply next_fd_nonneg. case_cmp; [lia |].
  apply lookup_insert_None in He as [He Hew]. unfold m in Hs.
  apply lookup_insert_None in Hs as [Hs Hse]. apply lookup_insert_None in Hs as [Hs Hsw].
  destruct (copy_loop_copies Src Dst Echo s w e ltac:(congruence) ltac:(congruence) ltac:(congruence)
              (p_fds p) B k n (mkProc (<[s := ds]> m) (p_closed p)) data [])
    as (p1 & -> & Hc); [lia | done | |].
  { exists ks, kw, ke, ds, dw, de. split; [done |]. split; [| done]. cbn. unfold m.
    by rewrite (insert_insert_ne _ e w) by congruence. }
  rewrite bind_Ok.
  destruct (copied_closes Src Dst Echo s w e ltac:(congruence) ltac:(congruence) ltac:(congruence)
              (p_fds p) B p1 _ _ Hs Hw He Hc) as (kw' & ke' & ds' & dw' & de' & -> & HD' & HE').
  exists ds', dw', de', kw', ke'. done.
Qed.

(** A write to a descriptor that is not open is repeated for ever. *)
Lemma write_block_closed k : ∀ p fd buf nbytes tot,
  p_fds p !! fd = None → 0 ≤ tot < nbytes → nbytes ≤ Z.of_nat (length buf) → nbytes < 2 ^ 63 →
  write_block_loop k p fd buf nbytes tot = Fail OutOfFuel.
Proof.
  induction k as [| k IH]; intros p fd buf nbytes tot Hp Ht Hb Hn; [done |].
  cbn [write_block_loop]. case_cmp; [lia |].
  rewrite u64_small, rd_block_Ok, bind_Ok by (unfold_ranges; lia).
  unfold write_fd. rewrite Hp. by apply IH.
Qed.

(** A round with the connection closed and bytes to copy never ends. *)
Lemma copy_round_closed (Src : nat → list Z → descr → Prop) `{!Readable Src, !Ending Src}
    k ks p s w e ds rest :
  s ≠ e → p_fds p !! s = Some ds → p_fds p !! e = None → Src ks rest ds → rest ≠ [] →
  (256 + ks < k)%nat → copy_round k p s w e = Fail OutOfFuel.
Proof.
  intros Hse Hs He HS Hne Hk. unfold copy_round. cbv zeta. change (Z.quot MAX_BUF_SIZE 4) with 256.
  set (buf := replicate _ 0). assert (length buf = 1024%nat) as Hbuf by done.
  assert (Forall is_u8 buf) as Hzero by (by apply Forall_replicate). clearbody buf.
  assert (0 < length rest)%nat as Hpos by (by destruct rest; [| cbn; lia]).
  assert (∃ num endf buf' p', read_block k p s buf 256 = Ok (num, endf, buf', p') ∧
            0 < num ≤ 256 ∧ length buf' = 1024%nat ∧ p_fds p' !! e = None)
    as (num & endf & buf' & p' & -> & Hnum & Hb' & He').
  { destruct (decide (256 ≤ length rest)%nat) as [Hl | Hl].
    - destruct (read_block_full Src k p s ds ks rest buf 256) as (d' & k' & -> & _); [done | done | lia.. |].
      eexists _, _, _, _. split; [done |]. split; [lia |].
      rewrite length_splice by (rewrite ?length_take; lia). split; [done |].
      unfold with_descr. cbn. by rewrite lookup_insert_ne by congruence.
    - destruct (read_block_end Src k p s ds ks rest buf 256) as (d' & k' & -> & _); [done | done | lia.. |].
      eexists _, _, _, _. split; [done |]. split; [lia |].
      rewrite length_splice by lia. split; [done |]. cbn. by rewrite lookup_delete_ne by congruence. }
  rewrite bind_Ok. unfold echo_round, write_block. by rewrite write_block_closed by (done || lia).
Qed.

(** When the server closes the connection after the first block and more than
    that block is to be copied, test_main never returns: read_block closes the
    descriptor of the connection and the next write_block repeats a write to it
    that fails every time, however many rounds and calls are allowed. *)
Theorem client_spins_when_closed (Src Conn : nat → list Z → descr → Prop)
    `{!Readable Src, !Ending Src, !Writable Conn} (n k ks kc : nat) p s w e ds de data :
  (∀ kc out d m, Conn kc out d → ∃ d', sys_read d m = (Got [], d')) →
  s ≠ w → s ≠ e → w ≠ e → p_fds p !! s = Some ds → p_fds p !! e = Some de →
  Src ks data ds → Conn kc [] de → Forall is_u8 data → (256 < length data)%nat → (256 + ks + kc < k)%nat →
  copy_loop n k p s w e = Fail OutOfFuel.
Proof.
  intros Hend Hsw Hse Hwe Hs He HS HC Hu Hl Hk. destruct n as [| n]; [done |]. cbn [copy_loop].
  enough (∃ d' k' p', copy_round k p s w e = Ok (0, p') ∧ p_fds p' !! s = Some d' ∧
            p_fds p' !! e = None ∧ Src k' (drop 256 data) d' ∧ (k' ≤ ks)%nat)
    as (d' & k' & p' & -> & Hs' & He' & HS' & Hk').
  { rewrite bind_Ok. cbn [Z.eqb]. destruct n as [| n]; [done |]. cbn [copy_loop].
    rewrite (copy_round_closed Src k k' p' s w e d' (drop 256 data)); [done.. | | lia].
    intros Hz. apply (f_equal length) in Hz. rewrite length_drop in Hz. cbn in Hz. lia. }
  unfold copy_round. cbv zeta. change (Z.quot MAX_BUF_SIZE 4) with 256.
  set (buf := replicate _ 0). assert (length buf = 1024%nat) as Hbuf by done.
  assert (Forall is_u8 buf) as Hzero by (by apply Forall_replicate). clearbody buf.
  destruct (read_block_full Src k p s ds ks data buf 256) as (d1 & k1 & -> & Hk1 & HS1);
    [done | done | lia.. |].
  rewrite bind_Ok. change (Z.to_nat 256) with 256%nat in *. set (b1 := splice buf 0 (take 256 data)).
  assert (length b1 = 1024%nat) as Hb1 by (unfold b1; rewrite length_splice by (rewrite ?length_take; lia); done).
  unfold echo_round.
  destruct (write_block_all Conn k (with_descr p s d1) e de kc [] b1 256) as (d2 & k2 & -> & Hk2 & HC2);
    [unfold with_descr; cbn; by rewrite lookup_insert_ne | done | lia..
    | apply Forall_splice; [done | by apply Forall_take] |].
  rewrite bind_Ok. destruct k as [| k]; [lia |].
  assert (read_block (S k) (with_descr (with_descr p s d1) e d2) e b1 256
            = Ok (0, 1, b1, close_fd (with_descr (with_descr p s d1) e (sys_read d2 256).2) e)) as ->.
  { unfold read_block. cbn [read_block_loop Z.eqb]. rewrite read_fd_with_descr.
    change (u64 (256 - 0)) with 256. destruct (Hend k2 _ d2 256 HC2) as [d3 ->]. done. }
  rewrite bind_Ok, close_fd_with_descr. unfold write_block at 1. cbn [write_block_loop Z.eqb].
  rewrite bind_Ok, bind_Ok. exists d1, k1. eexists. split; [done |]. cbn.
  rewrite lookup_delete_ne, lookup_insert_eq, lookup_delete_eq by congruence. done.
Qed.

(** Of the processes the client makes, the parent runs no copy, and a child runs
    exactly one: the loop of main ends with the fork that made it. *)
Theorem main_runs_one_copy k fork i tots :
  1 ≤ i → tots < i + Z.of_nat k →
  main_loop k fork i tots = [] ∧ (∀ j, i ≤ j ≤ tots → fork j ≠ 0) ∨
  ∃ j, main_loop k fork i tots = [j] ∧ i ≤ j ≤ tots ∧ fork j = 0 ∧ ∀ j', i ≤ j' < j → fork j' ≠ 0.
Proof.
  revert i. induction k as [| k IH]; intros i Hi Hk; cbn [main_loop]; [left; split; [done | lia] |].
  case_cmp; [| left; split; [done | lia]]. case_cmp; [right; exists i; repeat split; (done || lia) |].
  destruct (IH (i + 1) ltac:(lia) ltac:(lia)) as [[-> H1] | (j & -> & Hj & Hf & H1)].
  - left. split; [done |]. intros j Hj. destruct (decide (j = i)) as [-> |]; [done | apply H1; lia].
  - right. exists j. split; [done |]. split; [lia |]. split; [done |].
    intros j' Hj'. destruct (decide (j' = i)) as [-> |]; [done | apply H1; lia].
Qed.
End client.

(** ** A concrete client

    Files and connections in memory: [mem_in] is still to be read, [mem_out] was
    written; what is written to an echoing one comes back.  A call moves at most
    100 bytes, and the calls marked in [mem_fail] fail. *)

Record mem_descr := mkMem {
  mem_in : list Z; mem_out : list Z; mem_echo : bool; mem_fail : list bool }.

Definition mem_read (d : mem_descr) (n : Z) : read_result * mem_descr :=
  match mem_fail d with
  | true :: fs => (ReadErr EINTR, mkMem (mem_in d) (mem_out d) (mem_echo d) fs)
  | fs =>
      let c := Z.to_nat (n `min` 100) in
      (Got (u8 <$> take c (mem_in d)), mkMem (drop c (mem_in d)) (mem_out d) (mem_echo d) (tail fs))
  end.

Definition mem_write (d : mem_descr) (bs : list Z) : write_result * mem_descr :=
  match mem_fail d with
  | true :: fs => (WriteErr EINTR, mkMem (mem_in d) (mem_out d) (mem_echo d) fs)
  | fs =>
      let now := take 100 bs in
      (Wrote (Z.of_nat (length now)),
       mkMem (if mem_echo d then mem_in d ++ now else mem_in d) (mem_out d ++ now) (mem_echo d) (tail fs))
  end.

Lemma mem_read_bound d n bs d' :
  0 ≤ n → mem_read d n = (Got bs, d') → Z.of_nat (length bs) ≤ n ∧ Forall is_u8 bs.
Proof.
  intros Hn. unfold mem_read. destruct (mem_fail d) as [| [] fs]; intros H; simplify_eq;
    (split; [rewrite length_fmap, length_take; lia | apply Forall_fmap, Forall_true; intros; apply u8_range]).
Qed.

Program Definition mem_kernel : Kernel :=
  {| descr := mem_descr; sys_read := mem_read; sys_recvfrom d n _ a := let '(r, d) := mem_read d n in (r, a, d);
     sys_write := mem_write; sys_sendto d bs _ := mem_write d bs;
     sys_recvfrom_un d n _ a := let '(r, d) := mem_read d n in (r, a, d);
     sys_sendto_un d bs _ := mem_write d bs;
     fcntl_getfl d := (0, d); fcntl_setfl d _ := (0, d) |}.
Next Obligation. apply mem_read_bound. Qed.
Next Obligation. intros d n fl a bs a' d' Hn H. cbn in H. destruct (mem_read d n) eqn:Hr. simplify_eq. eauto using mem_read_bound. Qed.
Next Obligation. intros d n fl a bs a' d' Hn H. cbn in H. destruct (mem_read d n) eqn:Hr. simplify_eq. eauto using mem_read_bound. Qed.
Next Obligation.
  intros d bs n d' H. unfold mem_write in H. destruct (mem_fail d) as [| [] fs]; simplify_eq; rewrite length_take; lia.
Qed.

#[local] Existing Instance mem_kernel.

(** Failures left *)
Definition fails (d : mem_descr) : nat := length (filter (λ b, b = true) (mem_fail d)).

Definition mem_src (k : nat) (bs : list Z) (d : mem_descr) : Prop :=
  fails d = k ∧ mem_in d = bs ∧ Forall is_u8 bs.
Definition mem_dst (k : nat) (bs : list Z) (d : mem_descr) : Prop :=
  fails d = k ∧ mem_out d = bs ∧ mem_echo d = false.
Definition mem_wire (k : nat) (bs : list Z) (d : mem_descr) : Prop :=
  fails d = k ∧ mem_in d = bs ∧ mem_echo d = true ∧ Forall is_u8 bs.

Lemma u8_id bs : Forall is_u8 bs → u8 <$> bs = bs.
Proof. induction 1 as [| b bs Hb _ IH]; [done |]. rewrite fmap_cons, IH. by rewrite u8_small. Qed.

(** Reads of a descriptor that has [bs] left. *)
Lemma mem_read_cases d n bs :
  mem_in d = bs → Forall is_u8 bs → 0 < n →
  match mem_read d n with
  | (Got xs, d') => (bs ≠ [] → xs ≠ []) ∧ bs = xs ++ mem_in d' ∧ fails d' = fails d ∧
                    mem_echo d' = mem_echo d
  | (ReadErr _, d') => fails d = S (fails d') ∧ mem_in d' = bs ∧ mem_echo d' = mem_echo d
  end.
Proof.
  intros <- Hu Hn. unfold mem_read, fails. destruct (mem_fail d) as [| [] fs]; cbn; try done;
    rewrite u8_id by auto using Forall_take; rewrite take_drop; (split; [| done]); intros Hne Hz;
    apply (f_equal length) in Hz; rewrite length_take in Hz; destruct (mem_in d); cbn in *; done || lia.
Qed.

Lemma mem_write_cases d bs :
  bs ≠ [] →
  match mem_write d bs with
  | (Wrote n, d') => 0 < n ∧ mem_out d' = mem_out d ++ take (Z.to_nat n) bs ∧ fails d' = fails d ∧
      mem_echo d' = mem_echo d ∧ (mem_echo d = true → mem_in d' = mem_in d ++ take (Z.to_nat n) bs)
  | (WriteErr _, d') => fails d = S (fails d') ∧ mem_out d' = mem_out d ∧ mem_in d' = mem_in d ∧
      mem_echo d' = mem_echo d
  end.
Proof.
  intros Hne. unfold mem_write, fails.
  assert (0 < Z.of_nat (length (take 100 bs))) by (destruct bs; cbn in *; done || lia).
  assert (take (Z.to_nat (Z.of_nat (length (take 100 bs)))) bs = take 100 bs) as Ht.
  { rewrite Nat2Z.id, length_take. destruct (decide (100 ≤ length bs)%nat); [f_equal; lia |].
    rewrite !take_ge by lia. done. }
  destruct (mem_fail d) as [| [] fs]; cbn; try done; cbn [length take] in Ht; rewrite Ht;
    (split; [done |]); (split; [done |]); (split; [done |]); (split; [done |]); by intros ->.
Qed.

#[local] Instance mem_src_readable : Readable mem_src.
Proof.
  intros k bs d n (Hk & Hi & Hu) Hne Hn. pose proof (mem_read_cases d n bs Hi Hu Hn) as H.
  cbn. destruct (mem_read d n) as [[xs | en] d'].
  - destruct H as (Hx & He & Hf & _). split; [auto |]. exists (mem_in d'). split; [done |].
    split; [congruence |]. split; [done |]. rewrite He in Hu. by apply Forall_app in Hu as [_ ?].
  - destruct H as (Hf & Hi' & _). exists (fails d'). split; [congruence |]. by split.
Qed.

#[local] Instance mem_src_ending : Ending mem_src.
Proof.
  intros k d n (Hk & Hi & Hu) Hn. pose proof (mem_read_cases d n [] Hi Hu Hn) as H.
  cbn. destruct (mem_read d n) as [[xs | en] d'].
  - destruct H as (_ & He & Hf & _). symmetry in He. apply app_nil in He as [-> Hi'].
    split; [done |]. split; [congruence | by split].
  - destruct H as (Hf & Hi' & _). exists (fails d'). split; [congruence |]. by split.
Qed.

#[local] Instance mem_wire_readable : Readable mem_wire.
Proof.
  intros k bs d n (Hk & Hi & He & Hu) Hne Hn. pose proof (mem_read_cases d n bs Hi Hu Hn) as H.
  cbn. destruct (mem_read d n) as [[xs | en] d'].
  - destruct H as (Hx & Hb & Hf & He'). split; [auto |]. exists (mem_in d'). split; [done |].
    split; [congruence |]. split; [done |]. split; [congruence |].
    rewrite Hb in Hu. by apply Forall_app in Hu as [_ ?].
  - destruct H as (Hf & Hi' & He'). exists (fails d'). split; [congruence |]. split; [done |].
    split; [done |]. split; [congruence | done].
Qed.

#[local] Instance mem_dst_writable : Writable mem_dst.
Proof.
  intros k out d bs (Hk & Ho & He) Hne Hu. pose proof (mem_write_cases d bs Hne) as H.
  cbn. destruct (mem_write d bs) as [[n | en] d'].
  - destruct H as (Hn & Ho' & Hf & He' & _). destruct n as [| n | n]; [lia | | lia].
    split; [congruence |]. split; [congruence | congruence].
  - destruct H as (Hf & Ho' & _ & He'). exists (fails d'). split; [congruence |].
    split; [done |]. split; congruence.
Qed.

#[local] Instance mem_wire_writable : Writable mem_wire.
Proof.
  intros k out d bs (Hk & Ho & He & Hu) Hne Hb. pose proof (mem_write_cases d bs Hne) as H.
  cbn. destruct (mem_write d bs) as [[n | en] d'].
  - destruct H as (Hn & Ho' & Hf & He' & Hi'). destruct n as [| n | n]; [lia | | lia].
    split; [congruence |]. split; [rewrite Hi' by done; congruence |]. split; [congruence |].
    apply Forall_app. auto using Forall_take.
  - destruct H as (Hf & _ & Hi' & He'). exists (fails d'). split; [congruence |].
    split; [done |]. split; [congruence |]. split; [congruence | done].
Qed.

(** The operating system of the process 12: a source of 300 bytes, the copy empty,
    a connection that fails once. *)
Definition demo_data : list Z := Z.of_nat <$> (seq 0 200 ++ seq 50 100).
Definition demo_copy : mem_descr := mkMem [] [] false [].
Definition demo_wire : mem_descr := mkMem [] [] true [false; true].
Definition demo_src : mem_descr := mkMem demo_data [] false [true].

(** A number above all descriptors in use. *)
Definition above (m : gmap Z mem_descr) : Z := map_fold (λ fd _ a, Z.max (fd + 1) a) 0 m.

Lemma above_spec (m : gmap Z mem_descr) : 0 ≤ above m ∧ ∀ fd d, m !! fd = Some d → fd < above m.
Proof.
  unfold above.
  apply (map_fold_weak_ind (λ a (m : gmap Z mem_descr), 0 ≤ a ∧ ∀ fd d, m !! fd = Some d → fd < a)).
  - split; [lia |]. intros fd d. by rewrite lookup_empty.
  - intros i x m' r Hi [H0 IH]. split; [lia |]. intros fd d Hfd.
    apply lookup_insert_Some in Hfd as [[-> _] | [_ Hfd]]; [lia |]. apply IH in Hfd. lia.
Qed.

Program Definition demo_os : ClientOs :=
  {| getpid := 12;
     sys_open path fl := if bool_decide (path = chars "s_test") then Some demo_src else Some demo_copy;
     sys_socket := Some demo_wire; sys_connect d _ _ := (0, d); next_fd := above |}.
Next Obligation.
  intros m. destruct (m !! above m) eqn:H; [| done]. apply above_spec in H. cbn in *. lia.
Qed.
Next Obligation. intros m. apply above_spec. Qed.

Lemma demo_data_u8 : Forall is_u8 demo_data.
Proof. apply Forall_fmap, Forall_app. split; apply Forall_seq; intros j Hj; cbn; unfold is_u8; lia. Qed.

Lemma test_main_copies_witness :
  let p := mkProc ∅ [] in
  length demo_data = 300%nat ∧
  ∃ ds' dw' de' kw' ke',
    test_main (OS := demo_os) 2 300 p = Ok (Copied, mkProc (p_fds p) (de' :: dw' :: ds' :: [])) ∧
    mem_dst kw' demo_data dw' ∧ mem_wire ke' [] de'.
Proof.
  split; [reflexivity |].
  apply (test_main_copies (OS := demo_os) mem_src mem_dst mem_wire 1 2 300 1 0 1
           (mkProc ∅ []) demo_src demo_copy demo_wire demo_wire demo_data);
    [lia | vm_compute; lia | lia | reflexivity | done | reflexivity | reflexivity | | reflexivity | |
     exact demo_data_u8].
  - repeat split. constructor.
  - repeat split. exact demo_data_u8.
Defined.

(** A connection that takes everything and that the server has closed. *)
Definition mem_shut (k : nat) (out : list Z) (d : mem_descr) : Prop :=
  d = mkMem [] out false [].

#[local] Instance mem_shut_writable : Writable mem_shut.
Proof.
  intros k out d bs -> Hne Hu. pose proof (mem_write_cases (mkMem [] out false []) bs Hne) as H.
  cbn in *. destruct H as (Hn & Ho & _). destruct (Z.of_nat (length (take 100 bs))) as [| n | n] eqn:E; [lia | | lia].
  unfold mem_shut. by rewrite <- Ho.
Qed.

Lemma client_spins_when_closed_witness :
  copy_loop 50 400 (mkProc {[3 := demo_copy; 4 := demo_copy; 5 := demo_src]} []) 5 3 4 = Fail OutOfFuel ∧
  (256 < length demo_data)%nat.
Proof.
  split; [| vm_compute; lia].
  apply (client_spins_when_closed (K := mem_kernel) mem_src mem_shut 50 400 1 0
           (mkProc {[3 := demo_copy; 4 := demo_copy; 5 := demo_src]} []) 5 3 4 demo_src demo_copy demo_data);
    [| lia.. | reflexivity | reflexivity | | reflexivity | exact demo_data_u8 | vm_compute; lia | lia].
  - intros kc out d m ->. eexists. cbn. unfold mem_read. cbn. rewrite take_nil. reflexivity.
  - repeat split. exact demo_data_u8.
Defined.
