(* ===== verification/Peer.v ===== *)
(** The connection endpoints: [struct peer] of include/misaka.h, the events of
    its event loop and the function pointers it carries.

    libev is a parameter: the watchers are the class [Libev], with what its
    manual says of starting, stopping and initialising one.  A function pointer
    is a value of an enumeration of the functions the code stores in that
    field, [None] for NULL. *)

From S2P Require Import Prelude Sockunion Stream Memory Fifo.

Local Open Scope Z_scope.

(** ** Enumerations of misaka.h *)

Definition TAT_IDLE : Z := 0.
Definition TAT_ESTA : Z := 1.

Definition MODE_NONE : Z := 0.
Definition MODE_CONNECT : Z := 1.
Definition MODE_LISTEN : Z := 2.
Definition MODE_PASSIVE : Z := 3.

Definition TYPE_TCP : Z := 1.
Definition TYPE_UDP : Z := 2.
Definition TYPE_LUDP : Z := 3.
Definition TYPE_SDIO : Z := 4.

(** enum IO_TAT: what a read of a link reports. *)
Inductive io_tat :=
| IO_ERROR | IO_CLOSE | IO_PASSIVE_CLOSE | IO_CHECK | IO_PACKET | IO_ACCEPT
| IO_PARTIAL | IO_FULL | IO_CLEAN.

#[export] Instance io_tat_eq_dec : EqDecision io_tat.
Proof. solve_decision. Defined.

Definition MISAKA_DEFAULT_CONNECT_RETRY : Z := 30.

(** ** The functions stored in a peer *)

Inductive start_fn :=
| tcp_connect_p | tcp_listen_p | tcp_passive_p | udp_connect_p | ludp_connect_p | sdio_connect_p.
Inductive read_fn := tcp_read_p | tcp_accept_p | udp_read_p | ludp_read_p | sdio_read_p.
Inductive write_fn := tcp_write_p | udp_write_p | ludp_write_p | sdio_write_p.
Inductive unpack_fn := peer_default_unpack_p | normal_parser_unpack_p.
Inductive pack_fn := peer_default_pack_p | normal_parser_pack_p.
Inductive parser_fn := normal_parser_init_p.

(** ** Watchers *)

(** The callback of an I/O watcher. *)
Inductive io_cb := misaka_read_p | misaka_write_p.
Inductive ev_mask := EV_READ | EV_WRITE.

Class Libev := {
  ev_io : Type;
  ev_is_active : ev_io → Z;
  ev_io_init : ev_io → option io_cb → Z → ev_mask → ev_io;
  ev_io_start : ev_io → ev_io;
  ev_io_stop : ev_io → ev_io;
  ev_cb : ev_io → option io_cb;
  ev_fd : ev_io → Z;
  ev_init_inactive w cb fd m : ev_is_active (ev_io_init w cb fd m) = 0;
  ev_init_cb w cb fd m : ev_cb (ev_io_init w cb fd m) = cb;
  ev_init_fd w cb fd m : ev_fd (ev_io_init w cb fd m) = fd;
  ev_start_active w : ev_is_active (ev_io_start w) = 1;
  ev_start_cb w : ev_cb (ev_io_start w) = ev_cb w;
  ev_start_fd w : ev_fd (ev_io_start w) = ev_fd w;
  ev_stop_inactive w : ev_is_active (ev_io_stop w) = 0;
  ev_stop_cb w : ev_cb (ev_io_stop w) = ev_cb w;
  ev_stop_fd w : ev_fd (ev_io_stop w) = ev_fd w;
  ev_periodic : Type;
  ev_periodic_active : ev_periodic → Z;
  ev_periodic_init : ev_periodic → ev_periodic;
  ev_periodic_start : ev_periodic → ev_periodic;
  ev_periodic_stop : ev_periodic → ev_periodic;
  ev_periodic_init_inactive w : ev_periodic_active (ev_periodic_init w) = 0;
  ev_periodic_start_active w : ev_periodic_active (ev_periodic_start w) = 1;
  ev_periodic_stop_inactive w : ev_periodic_active (ev_periodic_stop w) = 0
}.

(** Watchers as records, for concrete runs. *)
Record watcher := mkWatcher { wa_active : Z; wa_cb : option io_cb; wa_fd : Z }.

Program Definition record_libev : Libev :=
  {| ev_io := watcher; ev_is_active := wa_active;
     ev_io_init w cb fd _ := mkWatcher 0 cb fd;
     ev_io_start w := mkWatcher 1 (wa_cb w) (wa_fd w);
     ev_io_stop w := mkWatcher 0 (wa_cb w) (wa_fd w);
     ev_cb := wa_cb; ev_fd := wa_fd;
     ev_periodic := Z; ev_periodic_active w := w; ev_periodic_init _ := 0;
     ev_periodic_start _ := 1; ev_periodic_stop _ := 0 |}.
Solve Obligations with done.

Section peer.
Context {L : Libev}.
(** The functions an application stores in [disparser]; this repository has
    none. *)
Context {disparser_fn : Type}.

Record peer := mkPeer {
  p_header_size : Z;
  p_body_size : Z;
  p_fd : Z;
  p_id : Z;
  p_su : sockunion;
  p_dsu : sockunion;
  p_port : Z;
  p_old : Z;
  p_type : Z;
  p_status : Z;
  p_mode : Z;
  p_role : Z;
  p_drole : Z;
  p_quick : Z;
  p_reconnect : Z;
  p_sys : Z;
  p_listens : Z;
  p_t_read : option ev_io;
  p_t_write : option ev_io;
  p_t_connect : option ev_periodic;
  p_v_connect : Z;
  p_ibuf : option loc;
  p_obuf : option stream_fifo;
  p_maxcount : Z;
  p_start : option start_fn;
  p_write : option write_fn;
  p_read : option read_fn;
  p_unpack : option unpack_fn;
  p_pack : option pack_fn;
  p_parser : option parser_fn;
  p_disparser : option disparser_fn;
  p_on_connect : Z;
  p_on_disconnect : Z;
  p_packet_size : Z;
  p_uptime : Z;
  p_readtime : Z;
  p_resettime : Z;
  p_rcount : Z;
  p_scount : Z;
  p_lsu : list Z;                        (* sun_path of the local addresses *)
  p_ldsu : list Z;
  p_path : list Z                        (* the device *)
}.

Definition set_p_header_size (v : Z) (p : peer) : peer :=
  mkPeer
    v (p_body_size p) (p_fd p) (p_id p) (p_su p) (p_dsu p) (p_port p) (p_old p)
    (p_type p) (p_status p) (p_mode p) (p_role p) (p_drole p) (p_quick p)
    (p_reconnect p) (p_sys p) (p_listens p) (p_t_read p) (p_t_write p) (p_t_connect p)
    (p_v_connect p) (p_ibuf p) (p_obuf p) (p_maxcount p) (p_start p) (p_write p)
    (p_read p) (p_unpack p) (p_pack p) (p_parser p) (p_disparser p) (p_on_connect p)
    (p_on_disconnect p) (p_packet_size p) (p_uptime p) (p_readtime p) (p_resettime p)
    (p_rcount p) (p_scount p) (p_lsu p) (p_ldsu p) (p_path p).
Definition set_p_body_size (v : Z) (p : peer) : peer :=
  mkPeer
    (p_header_size p) v (p_fd p) (p_id p) (p_su p) (p_dsu p) (p_port p) (p_old p)
    (p_type p) (p_status p) (p_mode p) (p_role p) (p_drole p) (p_quick p)
    (p_reconnect p) (p_sys p) (p_listens p) (p_t_read p) (p_t_write p) (p_t_connect p)
    (p_v_connect p) (p_ibuf p) (p_obuf p) (p_maxcount p) (p_start p) (p_write p)
    (p_read p) (p_unpack p) (p_pack p) (p_parser p) (p_disparser p) (p_on_connect p)
    (p_on_disconnect p) (p_packet_size p) (p_uptime p) (p_readtime p) (p_resettime p)
    (p_rcount p) (p_scount p) (p_lsu p) (p_ldsu p) (p_path p).
Definition set_p_fd (v : Z) (p : peer) : peer :=
  mkPeer
    (p_header_size p) (p_body_size p) v (p_id p) (p_su p) (p_dsu p) (p_port p)
    (p_old p) (p_type p) (p_status p) (p_mode p) (p_role p) (p_drole p) (p_quick p)
    (p_reconnect p) (p_sys p) (p_listens p) (p_t_read p) (p_t_write p) (p_t_connect p)
    (p_v_connect p) (p_ibuf p) (p_obuf p) (p_maxcount p) (p_start p) (p_write p)
    (p_read p) (p_unpack p) (p_pack p) (p_parser p) (p_disparser p) (p_on_connect p)
    (p_on_disconnect p) (p_packet_size p) (p_uptime p) (p_readtime p) (p_resettime p)
    (p_rcount p) (p_scount p) (p_lsu p) (p_ldsu p) (p_path p).
Definition set_p_su (v : sockunion) (p : peer) : peer :=
  mkPeer
    (p_header_size p) (p_body_size p) (p_fd p) (p_id p) v (p_dsu p) (p_port p)
    (p_old p) (p_type p) (p_status p) (p_mode p) (p_role p) (p_drole p) (p_quick p)
    (p_reconnect p) (p_sys p) (p_listens p) (p_t_read p) (p_t_write p) (p_t_connect p)
    (p_v_connect p) (p_ibuf p) (p_obuf p) (p_maxcount p) (p_start p) (p_write p)
    (p_read p) (p_unpack p) (p_pack p) (p_parser p) (p_disparser p) (p_on_connect p)
    (p_on_disconnect p) (p_packet_size p) (p_uptime p) (p_readtime p) (p_resettime p)
    (p_rcount p) (p_scount p) (p_lsu p) (p_ldsu p) (p_path p).
Definition set_p_dsu (v : sockunion) (p : peer) : peer :=
  mkPeer
    (p_header_size p) (p_body_size p) (p_fd p) (p_id p) (p_su p) v (p_port p)
    (p_old p) (p_type p) (p_status p) (p_mode p) (p_role p) (p_drole p) (p_quick p)
    (p_reconnect p) (p_sys p) (p_listens p) (p_t_read p) (p_t_write p) (p_t_connect p)
    (p_v_connect p) (p_ibuf p) (p_obuf p) (p_maxcount p) (p_start p) (p_write p)
    (p_read p) (p_unpack p) (p_pack p) (p_parser p) (p_disparser p) (p_on_connect p)
    (p_on_disconnect p) (p_packet_size p) (p_uptime p) (p_readtime p) (p_resettime p)
    (p_rcount p) (p_scount p) (p_lsu p) (p_ldsu p) (p_path p).
Definition set_p_type (v : Z) (p : peer) : peer :=
  mkPeer
    (p_header_size p) (p_body_size p) (p_fd p) (p_id p) (p_su p) (p_dsu p) (p_port p)
    (p_old p) v (p_status p) (p_mode p) (p_role p) (p_drole p) (p_quick p)
    (p_reconnect p) (p_sys p) (p_listens p) (p_t_read p) (p_t_write p) (p_t_connect p)
    (p_v_connect p) (p_ibuf p) (p_obuf p) (p_maxcount p) (p_start p) (p_write p)
    (p_read p) (p_unpack p) (p_pack p) (p_parser p) (p_disparser p) (p_on_connect p)
    (p_on_disconnect p) (p_packet_size p) (p_uptime p) (p_readtime p) (p_resettime p)
    (p_rcount p) (p_scount p) (p_lsu p) (p_ldsu p) (p_path p).
Definition set_p_status (v : Z) (p : peer) : peer :=
  mkPeer
    (p_header_size p) (p_body_size p) (p_fd p) (p_id p) (p_su p) (p_dsu p) (p_port p)
    (p_old p) (p_type p) v (p_mode p) (p_role p) (p_drole p) (p_quick p)
    (p_reconnect p) (p_sys p) (p_listens p) (p_t_read p) (p_t_write p) (p_t_connect p)
    (p_v_connect p) (p_ibuf p) (p_obuf p) (p_maxcount p) (p_start p) (p_write p)
    (p_read p) (p_unpack p) (p_pack p) (p_parser p) (p_disparser p) (p_on_connect p)
    (p_on_disconnect p) (p_packet_size p) (p_uptime p) (p_readtime p) (p_resettime p)
    (p_rcount p) (p_scount p) (p_lsu p) (p_ldsu p) (p_path p).
Definition set_p_mode (v : Z) (p : peer) : peer :=
  mkPeer
    (p_header_size p) (p_body_size p) (p_fd p) (p_id p) (p_su p) (p_dsu p) (p_port p)
    (p_old p) (p_type p) (p_status p) v (p_role p) (p_drole p) (p_quick p)
    (p_reconnect p) (p_sys p) (p_listens p) (p_t_read p) (p_t_write p) (p_t_connect p)
    (p_v_connect p) (p_ibuf p) (p_obuf p) (p_maxcount p) (p_start p) (p_write p)
    (p_read p) (p_unpack p) (p_pack p) (p_parser p) (p_disparser p) (p_on_connect p)
    (p_on_disconnect p) (p_packet_size p) (p_uptime p) (p_readtime p) (p_resettime p)
    (p_rcount p) (p_scount p) (p_lsu p) (p_ldsu p) (p_path p).
Definition set_p_drole (v : Z) (p : peer) : peer :=
  mkPeer
    (p_header_size p) (p_body_size p) (p_fd p) (p_id p) (p_su p) (p_dsu p) (p_port p)
    (p_old p) (p_type p) (p_status p) (p_mode p) (p_role p) v (p_quick p)
    (p_reconnect p) (p_sys p) (p_listens p) (p_t_read p) (p_t_write p) (p_t_connect p)
    (p_v_connect p) (p_ibuf p) (p_obuf p) (p_maxcount p) (p_start p) (p_write p)
    (p_read p) (p_unpack p) (p_pack p) (p_parser p) (p_disparser p) (p_on_connect p)
    (p_on_disconnect p) (p_packet_size p) (p_uptime p) (p_readtime p) (p_resettime p)
    (p_rcount p) (p_scount p) (p_lsu p) (p_ldsu p) (p_path p).
Definition set_p_quick (v : Z) (p : peer) : peer :=
  mkPeer
    (p_header_size p) (p_body_size p) (p_fd p) (p_id p) (p_su p) (p_dsu p) (p_port p)
    (p_old p) (p_type p) (p_status p) (p_mode p) (p_role p) (p_drole p) v
    (p_reconnect p) (p_sys p) (p_listens p) (p_t_read p) (p_t_write p) (p_t_connect p)
    (p_v_connect p) (p_ibuf p) (p_obuf p) (p_maxcount p) (p_start p) (p_write p)
    (p_read p) (p_unpack p) (p_pack p) (p_parser p) (p_disparser p) (p_on_connect p)
    (p_on_disconnect p) (p_packet_size p) (p_uptime p) (p_readtime p) (p_resettime p)
    (p_rcount p) (p_scount p) (p_lsu p) (p_ldsu p) (p_path p).
Definition set_p_t_read (v : option ev_io) (p : peer) : peer :=
  mkPeer
    (p_header_size p) (p_body_size p) (p_fd p) (p_id p) (p_su p) (p_dsu p) (p_port p)
    (p_old p) (p_type p) (p_status p) (p_mode p) (p_role p) (p_drole p) (p_quick p)
    (p_reconnect p) (p_sys p) (p_listens p) v (p_t_write p) (p_t_connect p)
    (p_v_connect p) (p_ibuf p) (p_obuf p) (p_maxcount p) (p_start p) (p_write p)
    (p_read p) (p_unpack p) (p_pack p) (p_parser p) (p_disparser p) (p_on_connect p)
    (p_on_disconnect p) (p_packet_size p) (p_uptime p) (p_readtime p) (p_resettime p)
    (p_rcount p) (p_scount p) (p_lsu p) (p_ldsu p) (p_path p).
Definition set_p_t_write (v : option ev_io) (p : peer) : peer :=
  mkPeer
    (p_header_size p) (p_body_size p) (p_fd p) (p_id p) (p_su p) (p_dsu p) (p_port p)
    (p_old p) (p_type p) (p_status p) (p_mode p) (p_role p) (p_drole p) (p_quick p)
    (p_reconnect p) (p_sys p) (p_listens p) (p_t_read p) v (p_t_connect p)
    (p_v_connect p) (p_ibuf p) (p_obuf p) (p_maxcount p) (p_start p) (p_write p)
    (p_read p) (p_unpack p) (p_pack p) (p_parser p) (p_disparser p) (p_on_connect p)
    (p_on_disconnect p) (p_packet_size p) (p_uptime p) (p_readtime p) (p_resettime p)
    (p_rcount p) (p_scount p) (p_lsu p) (p_ldsu p) (p_path p).
Definition set_p_t_connect (v : option ev_periodic) (p : peer) : peer :=
  mkPeer
    (p_header_size p) (p_body_size p) (p_fd p) (p_id p) (p_su p) (p_dsu p) (p_port p)
    (p_old p) (p_type p) (p_status p) (p_mode p) (p_role p) (p_drole p) (p_quick p)
    (p_reconnect p) (p_sys p) (p_listens p) (p_t_read p) (p_t_write p) v
    (p_v_connect p) (p_ibuf p) (p_obuf p) (p_maxcount p) (p_start p) (p_write p)
    (p_read p) (p_unpack p) (p_pack p) (p_parser p) (p_disparser p) (p_on_connect p)
    (p_on_disconnect p) (p_packet_size p) (p_uptime p) (p_readtime p) (p_resettime p)
    (p_rcount p) (p_scount p) (p_lsu p) (p_ldsu p) (p_path p).
Definition set_p_ibuf (v : option loc) (p : peer) : peer :=
  mkPeer
    (p_header_size p) (p_body_size p) (p_fd p) (p_id p) (p_su p) (p_dsu p) (p_port p)
    (p_old p) (p_type p) (p_status p) (p_mode p) (p_role p) (p_drole p) (p_quick p)
    (p_reconnect p) (p_sys p) (p_listens p) (p_t_read p) (p_t_write p) (p_t_connect p)
    (p_v_connect p) v (p_obuf p) (p_maxcount p) (p_start p) (p_write p) (p_read p)
    (p_unpack p) (p_pack p) (p_parser p) (p_disparser p) (p_on_connect p)
    (p_on_disconnect p) (p_packet_size p) (p_uptime p) (p_readtime p) (p_resettime p)
    (p_rcount p) (p_scount p) (p_lsu p) (p_ldsu p) (p_path p).
Definition set_p_obuf (v : option stream_fifo) (p : peer) : peer :=
  mkPeer
    (p_header_size p) (p_body_size p) (p_fd p) (p_id p) (p_su p) (p_dsu p) (p_port p)
    (p_old p) (p_type p) (p_status p) (p_mode p) (p_role p) (p_drole p) (p_quick p)
    (p_reconnect p) (p_sys p) (p_listens p) (p_t_read p) (p_t_write p) (p_t_connect p)
    (p_v_connect p) (p_ibuf p) v (p_maxcount p) (p_start p) (p_write p) (p_read p)
    (p_unpack p) (p_pack p) (p_parser p) (p_disparser p) (p_on_connect p)
    (p_on_disconnect p) (p_packet_size p) (p_uptime p) (p_readtime p) (p_resettime p)
    (p_rcount p) (p_scount p) (p_lsu p) (p_ldsu p) (p_path p).
Definition set_p_old (v : Z) (p : peer) : peer :=
  mkPeer
    (p_header_size p) (p_body_size p) (p_fd p) (p_id p) (p_su p) (p_dsu p) (p_port p)
    v (p_type p) (p_status p) (p_mode p) (p_role p) (p_drole p) (p_quick p)
    (p_reconnect p) (p_sys p) (p_listens p) (p_t_read p) (p_t_write p) (p_t_connect p)
    (p_v_connect p) (p_ibuf p) (p_obuf p) (p_maxcount p) (p_start p) (p_write p)
    (p_read p) (p_unpack p) (p_pack p) (p_parser p) (p_disparser p) (p_on_connect p)
    (p_on_disconnect p) (p_packet_size p) (p_uptime p) (p_readtime p) (p_resettime p)
    (p_rcount p) (p_scount p) (p_lsu p) (p_ldsu p) (p_path p).
Definition set_p_start (v : option start_fn) (p : peer) : peer :=
  mkPeer
    (p_header_size p) (p_body_size p) (p_fd p) (p_id p) (p_su p) (p_dsu p) (p_port p)
    (p_old p) (p_type p) (p_status p) (p_mode p) (p_role p) (p_drole p) (p_quick p)
    (p_reconnect p) (p_sys p) (p_listens p) (p_t_read p) (p_t_write p) (p_t_connect p)
    (p_v_connect p) (p_ibuf p) (p_obuf p) (p_maxcount p) v (p_write p) (p_read p)
    (p_unpack p) (p_pack p) (p_parser p) (p_disparser p) (p_on_connect p)
    (p_on_disconnect p) (p_packet_size p) (p_uptime p) (p_readtime p) (p_resettime p)
    (p_rcount p) (p_scount p) (p_lsu p) (p_ldsu p) (p_path p).
Definition set_p_write (v : option write_fn) (p : peer) : peer :=
  mkPeer
    (p_header_size p) (p_body_size p) (p_fd p) (p_id p) (p_su p) (p_dsu p) (p_port p)
    (p_old p) (p_type p) (p_status p) (p_mode p) (p_role p) (p_drole p) (p_quick p)
    (p_reconnect p) (p_sys p) (p_listens p) (p_t_read p) (p_t_write p) (p_t_connect p)
    (p_v_connect p) (p_ibuf p) (p_obuf p) (p_maxcount p) (p_start p) v (p_read p)
    (p_unpack p) (p_pack p) (p_parser p) (p_disparser p) (p_on_connect p)
    (p_on_disconnect p) (p_packet_size p) (p_uptime p) (p_readtime p) (p_resettime p)
    (p_rcount p) (p_scount p) (p_lsu p) (p_ldsu p) (p_path p).
Definition set_p_read (v : option read_fn) (p : peer) : peer :=
  mkPeer
    (p_header_size p) (p_body_size p) (p_fd p) (p_id p) (p_su p) (p_dsu p) (p_port p)
    (p_old p) (p_type p) (p_status p) (p_mode p) (p_role p) (p_drole p) (p_quick p)
    (p_reconnect p) (p_sys p) (p_listens p) (p_t_read p) (p_t_write p) (p_t_connect p)
    (p_v_connect p) (p_ibuf p) (p_obuf p) (p_maxcount p) (p_start p) (p_write p) v
    (p_unpack p) (p_pack p) (p_parser p) (p_disparser p) (p_on_connect p)
    (p_on_disconnect p) (p_packet_size p) (p_uptime p) (p_readtime p) (p_resettime p)
    (p_rcount p) (p_scount p) (p_lsu p) (p_ldsu p) (p_path p).
Definition set_p_unpack (v : option unpack_fn) (p : peer) : peer :=
  mkPeer
    (p_header_size p) (p_body_size p) (p_fd p) (p_id p) (p_su p) (p_dsu p) (p_port p)
    (p_old p) (p_type p) (p_status p) (p_mode p) (p_role p) (p_drole p) (p_quick p)
    (p_reconnect p) (p_sys p) (p_listens p) (p_t_read p) (p_t_write p) (p_t_connect p)
    (p_v_connect p) (p_ibuf p) (p_obuf p) (p_maxcount p) (p_start p) (p_write p)
    (p_read p) v (p_pack p) (p_parser p) (p_disparser p) (p_on_connect p)
    (p_on_disconnect p) (p_packet_size p) (p_uptime p) (p_readtime p) (p_resettime p)
    (p_rcount p) (p_scount p) (p_lsu p) (p_ldsu p) (p_path p).
Definition set_p_pack (v : option pack_fn) (p : peer) : peer :=
  mkPeer
    (p_header_size p) (p_body_size p) (p_fd p) (p_id p) (p_su p) (p_dsu p) (p_port p)
    (p_old p) (p_type p) (p_status p) (p_mode p) (p_role p) (p_drole p) (p_quick p)
    (p_reconnect p) (p_sys p) (p_listens p) (p_t_read p) (p_t_write p) (p_t_connect p)
    (p_v_connect p) (p_ibuf p) (p_obuf p) (p_maxcount p) (p_start p) (p_write p)
    (p_read p) (p_unpack p) v (p_parser p) (p_disparser p) (p_on_connect p)
    (p_on_disconnect p) (p_packet_size p) (p_uptime p) (p_readtime p) (p_resettime p)
    (p_rcount p) (p_scount p) (p_lsu p) (p_ldsu p) (p_path p).
Definition set_p_parser (v : option parser_fn) (p : peer) : peer :=
  mkPeer
    (p_header_size p) (p_body_size p) (p_fd p) (p_id p) (p_su p) (p_dsu p) (p_port p)
    (p_old p) (p_type p) (p_status p) (p_mode p) (p_role p) (p_drole p) (p_quick p)
    (p_reconnect p) (p_sys p) (p_listens p) (p_t_read p) (p_t_write p) (p_t_connect p)
    (p_v_connect p) (p_ibuf p) (p_obuf p) (p_maxcount p) (p_start p) (p_write p)
    (p_read p) (p_unpack p) (p_pack p) v (p_disparser p) (p_on_connect p)
    (p_on_disconnect p) (p_packet_size p) (p_uptime p) (p_readtime p) (p_resettime p)
    (p_rcount p) (p_scount p) (p_lsu p) (p_ldsu p) (p_path p).
Definition set_p_on_connect (v : Z) (p : peer) : peer :=
  mkPeer
    (p_header_size p) (p_body_size p) (p_fd p) (p_id p) (p_su p) (p_dsu p) (p_port p)
    (p_old p) (p_type p) (p_status p) (p_mode p) (p_role p) (p_drole p) (p_quick p)
    (p_reconnect p) (p_sys p) (p_listens p) (p_t_read p) (p_t_write p) (p_t_connect p)
    (p_v_connect p) (p_ibuf p) (p_obuf p) (p_maxcount p) (p_start p) (p_write p)
    (p_read p) (p_unpack p) (p_pack p) (p_parser p) (p_disparser p) v
    (p_on_disconnect p) (p_packet_size p) (p_uptime p) (p_readtime p) (p_resettime p)
    (p_rcount p) (p_scount p) (p_lsu p) (p_ldsu p) (p_path p).
Definition set_p_on_disconnect (v : Z) (p : peer) : peer :=
  mkPeer
    (p_header_size p) (p_body_size p) (p_fd p) (p_id p) (p_su p) (p_dsu p) (p_port p)
    (p_old p) (p_type p) (p_status p) (p_mode p) (p_role p) (p_drole p) (p_quick p)
    (p_reconnect p) (p_sys p) (p_listens p) (p_t_read p) (p_t_write p) (p_t_connect p)
    (p_v_connect p) (p_ibuf p) (p_obuf p) (p_maxcount p) (p_start p) (p_write p)
    (p_read p) (p_unpack p) (p_pack p) (p_parser p) (p_disparser p) (p_on_connect p) v
    (p_packet_size p) (p_uptime p) (p_readtime p) (p_resettime p) (p_rcount p)
    (p_scount p) (p_lsu p) (p_ldsu p) (p_path p).
Definition set_p_packet_size (v : Z) (p : peer) : peer :=
  mkPeer
    (p_header_size p) (p_body_size p) (p_fd p) (p_id p) (p_su p) (p_dsu p) (p_port p)
    (p_old p) (p_type p) (p_status p) (p_mode p) (p_role p) (p_drole p) (p_quick p)
    (p_reconnect p) (p_sys p) (p_listens p) (p_t_read p) (p_t_write p) (p_t_connect p)
    (p_v_connect p) (p_ibuf p) (p_obuf p) (p_maxcount p) (p_start p) (p_write p)
    (p_read p) (p_unpack p) (p_pack p) (p_parser p) (p_disparser p) (p_on_connect p)
    (p_on_disconnect p) v (p_uptime p) (p_readtime p) (p_resettime p) (p_rcount p)
    (p_scount p) (p_lsu p) (p_ldsu p) (p_path p).
Definition set_p_uptime (v : Z) (p : peer) : peer :=
  mkPeer
    (p_header_size p) (p_body_size p) (p_fd p) (p_id p) (p_su p) (p_dsu p) (p_port p)
    (p_old p) (p_type p) (p_status p) (p_mode p) (p_role p) (p_drole p) (p_quick p)
    (p_reconnect p) (p_sys p) (p_listens p) (p_t_read p) (p_t_write p) (p_t_connect p)
    (p_v_connect p) (p_ibuf p) (p_obuf p) (p_maxcount p) (p_start p) (p_write p)
    (p_read p) (p_unpack p) (p_pack p) (p_parser p) (p_disparser p) (p_on_connect p)
    (p_on_disconnect p) (p_packet_size p) v (p_readtime p) (p_resettime p)
    (p_rcount p) (p_scount p) (p_lsu p) (p_ldsu p) (p_path p).
Definition set_p_rcount (v : Z) (p : peer) : peer :=
  mkPeer
    (p_header_size p) (p_body_size p) (p_fd p) (p_id p) (p_su p) (p_dsu p) (p_port p)
    (p_old p) (p_type p) (p_status p) (p_mode p) (p_role p) (p_drole p) (p_quick p)
    (p_reconnect p) (p_sys p) (p_listens p) (p_t_read p) (p_t_write p) (p_t_connect p)
    (p_v_connect p) (p_ibuf p) (p_obuf p) (p_maxcount p) (p_start p) (p_write p)
    (p_read p) (p_unpack p) (p_pack p) (p_parser p) (p_disparser p) (p_on_connect p)
    (p_on_disconnect p) (p_packet_size p) (p_uptime p) (p_readtime p) (p_resettime p)
    v (p_scount p) (p_lsu p) (p_ldsu p) (p_path p).
Definition set_p_scount (v : Z) (p : peer) : peer :=
  mkPeer
    (p_header_size p) (p_body_size p) (p_fd p) (p_id p) (p_su p) (p_dsu p) (p_port p)
    (p_old p) (p_type p) (p_status p) (p_mode p) (p_role p) (p_drole p) (p_quick p)
    (p_reconnect p) (p_sys p) (p_listens p) (p_t_read p) (p_t_write p) (p_t_connect p)
    (p_v_connect p) (p_ibuf p) (p_obuf p) (p_maxcount p) (p_start p) (p_write p)
    (p_read p) (p_unpack p) (p_pack p) (p_parser p) (p_disparser p) (p_on_connect p)
    (p_on_disconnect p) (p_packet_size p) (p_uptime p) (p_readtime p) (p_resettime p)
    (p_rcount p) v (p_lsu p) (p_ldsu p) (p_path p).
Definition set_p_role (v : Z) (p : peer) : peer :=
  mkPeer
    (p_header_size p) (p_body_size p) (p_fd p) (p_id p) (p_su p) (p_dsu p) (p_port p)
    (p_old p) (p_type p) (p_status p) (p_mode p) v (p_drole p) (p_quick p)
    (p_reconnect p) (p_sys p) (p_listens p) (p_t_read p) (p_t_write p) (p_t_connect p)
    (p_v_connect p) (p_ibuf p) (p_obuf p) (p_maxcount p) (p_start p) (p_write p)
    (p_read p) (p_unpack p) (p_pack p) (p_parser p) (p_disparser p) (p_on_connect p)
    (p_on_disconnect p) (p_packet_size p) (p_uptime p) (p_readtime p) (p_resettime p)
    (p_rcount p) (p_scount p) (p_lsu p) (p_ldsu p) (p_path p).
Definition set_p_listens (v : Z) (p : peer) : peer :=
  mkPeer
    (p_header_size p) (p_body_size p) (p_fd p) (p_id p) (p_su p) (p_dsu p) (p_port p)
    (p_old p) (p_type p) (p_status p) (p_mode p) (p_role p) (p_drole p) (p_quick p)
    (p_reconnect p) (p_sys p) v (p_t_read p) (p_t_write p) (p_t_connect p)
    (p_v_connect p) (p_ibuf p) (p_obuf p) (p_maxcount p) (p_start p) (p_write p)
    (p_read p) (p_unpack p) (p_pack p) (p_parser p) (p_disparser p) (p_on_connect p)
    (p_on_disconnect p) (p_packet_size p) (p_uptime p) (p_readtime p) (p_resettime p)
    (p_rcount p) (p_scount p) (p_lsu p) (p_ldsu p) (p_path p).
Definition set_p_lsu (v : list Z) (p : peer) : peer :=
  mkPeer
    (p_header_size p) (p_body_size p) (p_fd p) (p_id p) (p_su p) (p_dsu p) (p_port p)
    (p_old p) (p_type p) (p_status p) (p_mode p) (p_role p) (p_drole p) (p_quick p)
    (p_reconnect p) (p_sys p) (p_listens p) (p_t_read p) (p_t_write p) (p_t_connect p)
    (p_v_connect p) (p_ibuf p) (p_obuf p) (p_maxcount p) (p_start p) (p_write p)
    (p_read p) (p_unpack p) (p_pack p) (p_parser p) (p_disparser p) (p_on_connect p)
    (p_on_disconnect p) (p_packet_size p) (p_uptime p) (p_readtime p) (p_resettime p)
    (p_rcount p) (p_scount p) v (p_ldsu p) (p_path p).
Definition set_p_ldsu (v : list Z) (p : peer) : peer :=
  mkPeer
    (p_header_size p) (p_body_size p) (p_fd p) (p_id p) (p_su p) (p_dsu p) (p_port p)
    (p_old p) (p_type p) (p_status p) (p_mode p) (p_role p) (p_drole p) (p_quick p)
    (p_reconnect p) (p_sys p) (p_listens p) (p_t_read p) (p_t_write p) (p_t_connect p)
    (p_v_connect p) (p_ibuf p) (p_obuf p) (p_maxcount p) (p_start p) (p_write p)
    (p_read p) (p_unpack p) (p_pack p) (p_parser p) (p_disparser p) (p_on_connect p)
    (p_on_disconnect p) (p_packet_size p) (p_uptime p) (p_readtime p) (p_resettime p)
    (p_rcount p) (p_scount p) (p_lsu p) v (p_path p).
Definition set_p_path (v : list Z) (p : peer) : peer :=
  mkPeer
    (p_header_size p) (p_body_size p) (p_fd p) (p_id p) (p_su p) (p_dsu p) (p_port p)
    (p_old p) (p_type p) (p_status p) (p_mode p) (p_role p) (p_drole p) (p_quick p)
    (p_reconnect p) (p_sys p) (p_listens p) (p_t_read p) (p_t_write p) (p_t_connect p)
    (p_v_connect p) (p_ibuf p) (p_obuf p) (p_maxcount p) (p_start p) (p_write p)
    (p_read p) (p_unpack p) (p_pack p) (p_parser p) (p_disparser p) (p_on_connect p)
    (p_on_disconnect p) (p_packet_size p) (p_uptime p) (p_readtime p) (p_resettime p)
    (p_rcount p) (p_scount p) (p_lsu p) (p_ldsu p) v.

End peer.

Global Arguments peer {L} disparser_fn.
