(* ===== verification/Parser.v ===== *)
(** The wire format: parser/normal_parser.c, the default pack and unpack of
    lib/core.c, the calls through the function pointers of a peer, and the
    handlers of task/echo_task.c. *)

From S2P Require Import Prelude Sockunion Stream StreamFacts Memory Fifo Peer Sched.

Local Open Scope Z_scope.

(** "miku1" with its terminating 0. *)
Definition MAGIC_STR : list Z := [109; 105; 107; 117; 49; 0].
Definition MAGIC_STR_SIZE : Z := 4.
Definition MAGIC_HEADER_SIZE : Z := 32.

Section parser.
Context {L : Libev} {disparser_fn : Type}.
Abbreviation peer := (peer disparser_fn).
Implicit Types (s : stream) (p : peer).

Definition normal_parser_init p : peer :=
  let p := set_p_header_size MAGIC_HEADER_SIZE p in
  let p := set_p_body_size 0 p in
  set_p_packet_size MAGIC_HEADER_SIZE p.

(** [s->field = stream_getl(s)]: the fields are [int]. *)
Definition getl_int (set : Z → stream → stream) s : res stream :=
  '(l, s) ← stream_getl s; Ok (set (s32 l) s).

Definition normal_parser_unpack s p : res (io_tat * stream * peer) :=
  if p_body_size p =? 0 then
    let length := s32 (u64 (stream_get_endp s - stream_get_getp s)) in
    if length <? MAGIC_HEADER_SIZE then Ok (IO_PARTIAL, s, p) else
    magic ← rd_block (s_data s) (s_getp s) MAGIC_STR_SIZE;
    if decide (magic ≠ take (Z.to_nat MAGIC_STR_SIZE) MAGIC_STR) then Ok (IO_CLOSE, s, p) else
    let s := set_getp (u64 (s_getp s + MAGIC_STR_SIZE)) s in
    s ← getl_int set_nid s;
    s ← getl_int set_src s;
    s ← getl_int set_dst s;
    s ← getl_int set_type s;
    s ← getl_int set_sid s;
    s ← getl_int set_seq s;
    '(l, s) ← stream_getl s;
    let length := s32 l in
    Ok (IO_PARTIAL, s, set_p_packet_size (u64 length) (set_p_body_size length p))
  else Ok (IO_PACKET, s, p).

Definition normal_parser_reverse s : stream :=
  set_getp (u64 (s_getp s + MAGIC_HEADER_SIZE)) s.

(** [stream_putl(s, v)] of an [int]; the result is not used. *)
Definition putl_int (v : Z) s : res stream := '(_, s) ← stream_putl s (u32 v); Ok s.

Definition normal_parser_pack s p : res (io_tat * stream * peer) :=
  let body_size := s32 (u64 (stream_get_endp s - stream_get_getp s)) in
  let s := set_getp 0 s in
  s ← stream_put s (Some MAGIC_STR) MAGIC_STR_SIZE;
  s ← putl_int (s_nid s) s;
  s ← putl_int (s_src s) s;
  s ← putl_int (s_dst s) s;
  s ← putl_int (s_type s) s;
  s ← putl_int (s_sid s) s;
  s ← putl_int (s_seq s) s;
  s ← putl_int body_size s;
  let s := set_getp 0 s in
  Ok (IO_PACKET, s, p).

(** ** lib/core.c *)

Definition peer_default_unpack s p : res (io_tat * stream * peer) := Ok (IO_PACKET, s, p).
Definition peer_default_pack s p : res (io_tat * stream * peer) := Ok (IO_PACKET, s, p).

(** [peer->parser(peer)], [peer->unpack(s, peer)] and [peer->pack(s, peer)] *)
Definition call_parser p : res peer :=
  match p_parser p with
  | None => Fail NullDeref
  | Some normal_parser_init_p => Ok (normal_parser_init p)
  end.

Definition call_unpack (fn : unpack_fn) s p : res (io_tat * stream * peer) :=
  match fn with
  | peer_default_unpack_p => peer_default_unpack s p
  | normal_parser_unpack_p => normal_parser_unpack s p
  end.

Definition call_pack s p : res (io_tat * stream * peer) :=
  match p_pack p with
  | None => Fail NullDeref
  | Some peer_default_pack_p => peer_default_pack s p
  | Some normal_parser_pack_p => normal_parser_pack s p
  end.

(** ** task/echo_task.c *)

(** echo event, send this packet back *)
Definition misaka_handle s : stream :=
  let tmp := s_src s in
  let s := set_src (s_dst s) s in
  let s := set_dst tmp s in
  set_type EVENT_NET s.

Definition misaka_connect p : Z * peer := (0, p).
Definition misaka_disconnect p : Z * peer := (0, p).

End parser.

(** ** The header *)

Record header := mkHeader {
  hd_nid : Z; hd_src : Z; hd_dst : Z; hd_type : Z; hd_sid : Z; hd_seq : Z; hd_len : Z
}.

Definition header_words (h : header) : list Z :=
  [hd_nid h; hd_src h; hd_dst h; hd_type h; hd_sid h; hd_seq h; hd_len h].

Definition be_words (ws : list Z) : list Z := ws ≫= be_bytes 4.

(** The 32 bytes on the wire: the magic, then seven big-endian words. *)
Definition header_bytes (h : header) : list Z :=
  take 4 MAGIC_STR ++ be_words (header_words h).

Definition header_ok (h : header) : Prop := Forall is_s32 (header_words h).

(** What the parser stores in the stream. *)
Definition header_of (s : stream) (len : Z) : header :=
  mkHeader (s_nid s) (s_src s) (s_dst s) (s_type s) (s_sid s) (s_seq s) len.

Definition set_header (h : header) (s : stream) : stream :=
  set_seq (hd_seq h) (set_sid (hd_sid h) (set_type (hd_type h) (set_dst (hd_dst h)
    (set_src (hd_src h) (set_nid (hd_nid h) s))))).

Lemma length_header_bytes h : length (header_bytes h) = 32%nat.
Proof.
  unfold header_bytes, header_words, be_words. cbn [mbind list_bind].
  rewrite !length_app, !length_be_bytes. reflexivity.
Qed.

Lemma header_bytes_u8 h : Forall is_u8 (header_bytes h).
Proof.
  unfold header_bytes, header_words, be_words. apply Forall_app_2.
  - unfold MAGIC_STR. cbn. repeat (apply Forall_cons_2; [unfold is_u8; lia |]). constructor.
  - cbn [mbind list_bind]. repeat (apply Forall_app_2; [apply be_bytes_u8 |]). constructor.
Qed.

(** ** Decoding *)

Lemma getl_word s v ws rest :
  sane s → unread s = be_words (v :: ws) ++ rest →
  stream_getl s = Ok (u32 v, set_getp (s_getp s + 4) s) ∧
  sane (set_getp (s_getp s + 4) s) ∧
  unread (set_getp (s_getp s + 4) s) = be_words ws ++ rest.
Proof.
  intros Hs Hu. pose proof (length_unread s Hs) as Hl. pose proof Hs as (? & ? & _).
  pose proof (length_be_bytes 4 v) as Hb.
  change (be_words (v :: ws)) with (be_bytes 4 v ++ be_words ws) in Hu.
  rewrite <- app_assoc in Hu. rewrite Hu, length_app, Hb in Hl.
  assert (s_getp s + 4 ≤ s_endp s) by lia. split; [| split].
  - rewrite (stream_getl_spec s Hs). change (Z.of_nat 4) with 4. case_cmp; [lia |].
    rewrite bytes_at_content by (auto; lia). do 3 f_equal. unfold slice.
    change (drop (Z.to_nat (s_getp s)) (content s)) with (unread s).
    rewrite Hu, Nat2Z.id, (take_app_length' _ _ _ (eq_sym Hb)), be_value_bytes. reflexivity.
  - apply set_getp_sane; [done | lia].
  - unfold unread. change (content (set_getp _ s)) with (content s).
    cbn [s_getp set_getp]. rewrite Z2Nat.inj_add, <- drop_drop by lia.
    change (drop (Z.to_nat (s_getp s)) (content s)) with (unread s).
    rewrite Hu. by apply drop_app_length'.
Qed.

(** Assignments that leave the buffer alone. *)
Definition same_buffer (s' s : stream) : Prop :=
  s_getp s' = s_getp s ∧ s_endp s' = s_endp s ∧ s_size s' = s_size s ∧ s_data s' = s_data s.

Lemma same_buffer_sane s' s : same_buffer s' s → sane s → sane s'.
Proof. intros (Hg & He & Hz & Hd). unfold sane. by rewrite Hg, He, Hz, Hd. Qed.

Lemma same_buffer_unread s' s : same_buffer s' s → unread s' = unread s.
Proof. intros (Hg & He & _ & Hd). unfold unread, content. by rewrite Hg, He, Hd. Qed.

(** One more field of the header decoded, from the position [g]. *)
Lemma getl_int_word set g t v ws rest :
  (∀ v s, same_buffer (set v s) s) → (∀ v g s, set v (set_getp g s) = set_getp g (set v s)) →
  sane (set_getp g t) → is_s32 v → unread (set_getp g t) = be_words (v :: ws) ++ rest →
  getl_int set (set_getp g t) = Ok (set_getp (g + 4) (set v t)) ∧
  sane (set_getp (g + 4) (set v t)) ∧
  unread (set_getp (g + 4) (set v t)) = be_words ws ++ rest.
Proof.
  intros Hset Hcomm Hs Hv Hu. destruct (getl_word _ v ws rest Hs Hu) as (He & Hs' & Hu').
  cbn [s_getp set_getp] in He, Hs', Hu'. rewrite set_getp_set_getp in He, Hs', Hu'.
  rewrite <- Hcomm. split; [| split].
  - unfold getl_int. rewrite He, bind_Ok, s32_u32, s32_small; done.
  - eauto using same_buffer_sane.
  - by rewrite (same_buffer_unread _ _ (Hset _ _)).
Qed.

Local Ltac decode_step :=
  lazymatch goal with
  | Hs : sane (set_getp ?g ?t), Hu : unread (set_getp ?g ?t) = be_words (?v :: ?ws) ++ ?rest
    |- (getl_int ?set (set_getp ?g ?t) ≫= _) = _ =>
      let Hget := fresh "Hget" in let Hs' := fresh "Hs" in let Hu' := fresh "Hu" in
      destruct (getl_int_word set g t v ws rest) as (Hget & Hs' & Hu');
        [by intros; repeat split | reflexivity | assumption .. |];
      rewrite Hget, bind_Ok; clear Hs Hu Hget
  end.

(** The rest of normal_parser_unpack once the magic was recognised. *)
Lemma decode_words g s h rest :
  sane (set_getp g s) → header_ok h →
  unread (set_getp g s) = be_words (header_words h) ++ rest →
  (s ← getl_int set_nid (set_getp g s); s ← getl_int set_src s; s ← getl_int set_dst s;
   s ← getl_int set_type s; s ← getl_int set_sid s; s ← getl_int set_seq s; stream_getl s)
  = Ok (u32 (hd_len h), set_getp (g + 28) (set_header h s)).
Proof.
  intros Hs Hok Hu. unfold header_ok, header_words in *.
  do 7 (apply Forall_cons_1 in Hok as [? Hok]).
  do 6 decode_step.
  match goal with Hs : sane ?s, Hu : unread ?s = _ |- stream_getl ?s = _ =>
    destruct (getl_word s _ _ _ Hs Hu) as (-> & _) end.
  cbn [s_getp set_getp]. rewrite set_getp_set_getp. unfold set_header.
  do 3 f_equal. lia.
Qed.

Section unpack.
Context {L : Libev} {disparser_fn : Type}.
Implicit Types (s : stream) (p : peer disparser_fn).

(** The stream after its header was decoded. *)
Definition decoded s (h : header) : stream := set_getp (s_getp s + 32) (set_header h s).

Lemma unread_set_getp s n :
  0 ≤ n → 0 ≤ s_getp s → unread (set_getp (s_getp s + n) s) = drop (Z.to_nat n) (unread s).
Proof.
  intros. unfold unread. change (content (set_getp _ s)) with (content s).
  cbn [s_getp set_getp]. by rewrite Z2Nat.inj_add, <- drop_drop by lia.
Qed.

(** Unpacking a complete header: the fields are stored and the peer expects the
    body next. *)
Lemma normal_parser_unpack_header s p h rest :
  sane s → s_size s < 2 ^ 31 → p_body_size p = 0 → header_ok h →
  unread s = header_bytes h ++ rest →
  normal_parser_unpack s p =
    Ok (IO_PARTIAL, decoded s h,
        set_p_packet_size (u64 (hd_len h)) (set_p_body_size (hd_len h) p)).
Proof.
  intros Hs Hsize Hb Hok Hu. pose proof Hs as (? & ? & ? & Hd & _).
  pose proof (length_unread s Hs) as Hl.
  rewrite Hu, length_app, length_header_bytes in Hl.
  unfold normal_parser_unpack. rewrite Hb, Z.eqb_refl. cbv zeta.
  unfold stream_get_endp, stream_get_getp. rewrite u64_small by (unfold_ranges; lia).
  rewrite s32_small by (unfold_ranges; lia). unfold MAGIC_HEADER_SIZE.
  case_cmp; [lia |]. unfold MAGIC_STR_SIZE. rewrite rd_block_Ok, bind_Ok by lia.
  rewrite <- slice_content by (auto; lia).
  assert (slice (content s) (s_getp s) 4 = take 4 MAGIC_STR) as ->.
  { unfold slice. change (drop (Z.to_nat (s_getp s)) (content s)) with (unread s).
    rewrite Hu. reflexivity. }
  rewrite decide_False by (intros Hn; apply Hn; reflexivity).
  rewrite u64_small by (unfold_ranges; lia).
  assert (sane (set_getp (s_getp s + 4) s)) as Hs4 by (apply set_getp_sane; [done | lia]).
  assert (unread (set_getp (s_getp s + 4) s) = be_words (header_words h) ++ rest) as Hu4.
  { rewrite unread_set_getp, Hu by lia. reflexivity. }
  pose proof (decode_words _ _ h rest Hs4 Hok Hu4) as Hdec.
  repeat (apply bind_Ok_inv in Hdec as (? & ?Hg & Hdec)).
  repeat match goal with H : getl_int ?f ?s = Ok _ |- context [getl_int ?f ?s] =>
    rewrite H, bind_Ok end.
  rewrite Hdec, bind_Ok.
  assert (is_s32 (hd_len h)) as Hlen
    by (unfold header_ok, header_words in Hok; by do 7 (apply Forall_cons_1 in Hok as [? Hok])).
  rewrite s32_u32, s32_small by done. unfold decoded.
  replace (s_getp s + 32) with (s_getp s + 4 + 28) by lia. reflexivity.
Qed.

Lemma normal_parser_unpack_short s p :
  sane s → s_size s < 2 ^ 31 → p_body_size p = 0 → s_endp s - s_getp s < 32 →
  normal_parser_unpack s p = Ok (IO_PARTIAL, s, p).
Proof.
  intros Hs Hsize Hb Hlt. pose proof Hs as (? & ? & ? & _).
  unfold normal_parser_unpack. rewrite Hb, Z.eqb_refl. cbv zeta.
  unfold stream_get_endp, stream_get_getp. rewrite u64_small by (unfold_ranges; lia).
  rewrite s32_small by (unfold_ranges; lia). unfold MAGIC_HEADER_SIZE. case_cmp; [done | lia].
Qed.

Lemma normal_parser_unpack_body s p :
  p_body_size p ≠ 0 → normal_parser_unpack s p = Ok (IO_PACKET, s, p).
Proof. intros Hb. unfold normal_parser_unpack. by rewrite (proj2 (Z.eqb_neq _ _) Hb). Qed.

End unpack.

(** ** Encoding *)

Lemma byte_of_u32 v k : 0 ≤ k ≤ 24 → u8 (Z.shiftr (u32 v) k) = u8 (Z.shiftr v k).
Proof.
  intros Hk. unfold u8, u32. apply Z.bits_inj'. intros n Hn.
  destruct (Z.ltb_spec n 8).
  - rewrite !Z.mod_pow2_bits_low, !Z.shiftr_spec, Z.mod_pow2_bits_low by lia. reflexivity.
  - rewrite !Z.mod_pow2_bits_high by lia. reflexivity.
Qed.

Lemma be_bytes_u32 v : be_bytes 4 (u32 v) = be_bytes 4 v.
Proof.
  unfold be_bytes. rewrite !byte_of_u32 by (cbn; lia). reflexivity.
Qed.

Section pack.
Context {L : Libev} {disparser_fn : Type}.
Implicit Types (s : stream) (p : peer disparser_fn).

Lemma be_words_app xs ys : be_words (xs ++ ys) = be_words xs ++ be_words ys.
Proof. apply bind_app. Qed.

(** One more word of the header appended. *)
Lemma putl_int_spec s h pre v post :
  sane s → s_endp s + 32 ≤ s_size s → header_words h = pre ++ v :: post →
  putl_int v (pushed s (take 4 MAGIC_STR ++ be_words pre))
    = Ok (pushed s (take 4 MAGIC_STR ++ be_words (pre ++ [v]))).
Proof.
  intros Hs Hroom Hw. set (bs := take 4 MAGIC_STR ++ be_words pre).
  assert (header_bytes h = bs ++ be_bytes 4 v ++ be_words post) as Hb.
  { unfold header_bytes, bs. rewrite Hw, be_words_app, <- app_assoc. reflexivity. }
  pose proof (header_bytes_u8 h) as Hu. pose proof (length_header_bytes h) as Hl.
  rewrite Hb in Hu, Hl. rewrite !length_app, length_be_bytes in Hl.
  apply Forall_app in Hu as [Hu _].
  assert (sane (pushed s bs)) as Hs' by (apply pushed_sane; auto; lia).
  unfold putl_int. rewrite (stream_putl_spec _ _ Hs'). change (Z.of_nat 4) with 4.
  cbn [s_size s_endp pushed set_endp set_data].
  case_cmp; [lia |]. rewrite bind_Ok, be_bytes_u32, pushed_pushed;
    [| rewrite ?length_app, ?length_be_bytes; first [done | lia] ..].
  unfold bs. rewrite be_words_app, <- app_assoc.
  change (be_words [v]) with (be_bytes 4 v ++ []). by rewrite app_nil_r.
Qed.

(** What the packed stream holds: its old content followed by the header, read
    from the start. *)
Definition packed s : stream :=
  set_getp 0 (pushed (set_getp 0 s)
    (header_bytes (header_of s (s_endp s - s_getp s)))).

Lemma normal_parser_pack_spec s p :
  sane s → s_size s < 2 ^ 31 → s_endp s + 32 ≤ s_size s →
  normal_parser_pack s p = Ok (IO_PACKET, packed s, p).
Proof.
  intros Hs Hsize Hroom. pose proof Hs as (? & ? & ? & _).
  unfold normal_parser_pack, stream_get_endp, stream_get_getp. cbv zeta.
  rewrite u64_small, s32_small by (unfold_ranges; lia). unfold packed.
  assert (sane (set_getp 0 s)) as Hs0 by (apply set_getp_sane; [done | lia]).
  set (h := header_of s (s_endp s - s_getp s)).
  set (s0 := set_getp 0 s) in *. assert (s_endp s0 + 32 ≤ s_size s0) as Hroom0 by done.
  rewrite stream_put_spec; [| done | unfold_ranges; unfold MAGIC_STR_SIZE; lia | by vm_compute].
  pose proof Hs0 as (_ & ? & ? & _). unfold MAGIC_STR_SIZE. case_cmp; [lia |].
  replace (Z.min 4 (s_size s0 - s_endp s0)) with 4 by lia. rewrite bind_Ok.
  change (take (Z.to_nat 4) MAGIC_STR) with (take 4 MAGIC_STR ++ be_words []).
  do 7 (lazymatch goal with
        |- context [putl_int ?v (pushed s0 (take 4 MAGIC_STR ++ be_words ?pre))] =>
          rewrite (putl_int_spec s0 h pre v _ Hs0 Hroom0 eq_refl), bind_Ok; cbn [app]
        end).
  reflexivity.
Qed.

Lemma packed_spec s :
  sane s → s_endp s + 32 ≤ s_size s →
  sane (packed s) ∧
  unread (packed s) = content s ++ header_bytes (header_of s (s_endp s - s_getp s)).
Proof.
  intros Hs Hroom. pose proof Hs as (? & ? & _).
  assert (sane (set_getp 0 s)) as Hs0 by (apply set_getp_sane; [done | lia]).
  pose proof (length_header_bytes (header_of s (s_endp s - s_getp s))) as Hl.
  unfold packed. set (hb := header_bytes _) in *.
  assert (sane (pushed (set_getp 0 s) hb)) as Hp.
  { apply pushed_sane; [done | apply header_bytes_u8 |]. cbn [s_endp s_size set_getp]. lia. }
  split.
  - apply set_getp_sane; [done |]. split; [lia |]. by destruct Hp as (? & _); lia.
  - unfold unread. change (content (set_getp 0 (pushed (set_getp 0 s) hb)))
      with (content (pushed (set_getp 0 s) hb)).
    rewrite pushed_content by (auto; cbn [s_endp s_size set_getp]; lia). reflexivity.
Qed.

(** Packing puts the header behind the payload: what goes on the wire is
    the content of the packet followed by the 32 header bytes, although the wire
    format starts with the header. *)
Theorem pack_header_after_payload s p :
  sane s → s_size s < 2 ^ 31 → s_endp s + 32 ≤ s_size s →
  ∃ s', normal_parser_pack s p = Ok (IO_PACKET, s', p) ∧ sane s' ∧
        unread s' = content s ++ header_bytes (header_of s (s_endp s - s_getp s)).
Proof.
  intros Hs Hsize Hroom. exists (packed s).
  split; [by apply normal_parser_pack_spec | by apply packed_spec].
Qed.

(** So a packed packet with a payload is refused by the unpacker of the
    other side, unless the payload itself starts with the magic. *)
Theorem pack_unpack_closes s p p' :
  sane s → s_size s < 2 ^ 31 → s_endp s + 32 ≤ s_size s →
  4 ≤ s_endp s → take 4 (content s) ≠ take 4 MAGIC_STR → p_body_size p' = 0 →
  ∃ s', normal_parser_pack s p = Ok (IO_PACKET, s', p) ∧
        normal_parser_unpack s' p' = Ok (IO_CLOSE, s', p').
Proof.
  intros Hs Hsize Hroom H4 Hm Hb. exists (packed s).
  split; [by apply normal_parser_pack_spec |].
  destruct (packed_spec s Hs Hroom) as [Hs' Hu]. pose proof (length_content s Hs) as Hc.
  pose proof (length_unread _ Hs') as Hl. rewrite Hu, length_app, length_header_bytes in Hl.
  pose proof Hs' as (? & ? & ? & Hd & _). assert (s_size (packed s) = s_size s) as Hz by done.
  assert (s_getp (packed s) = 0) as Hg by done.
  unfold normal_parser_unpack. rewrite Hb, Z.eqb_refl. cbv zeta.
  unfold stream_get_endp, stream_get_getp. rewrite u64_small by (unfold_ranges; lia).
  rewrite s32_small by (unfold_ranges; lia). unfold MAGIC_HEADER_SIZE.
  case_cmp; [lia |]. unfold MAGIC_STR_SIZE. rewrite rd_block_Ok, bind_Ok by lia.
  rewrite decide_True; [done |]. rewrite <- slice_content by (auto; lia). unfold slice.
  change (drop (Z.to_nat (s_getp (packed s))) (content (packed s))) with (unread (packed s)).
  rewrite Hu, take_app_le by lia. exact Hm.
Qed.

(** The header of a packet without payload survives packing and unpacking:
    the receiver's stream gets the same six fields and the length 0. *)
Theorem pack_unpack_header s p p' :
  sane s → s_size s < 2 ^ 31 → s_endp s = 0 → 32 ≤ s_size s →
  header_ok (header_of s 0) → p_body_size p' = 0 →
  ∃ s' s'', normal_parser_pack s p = Ok (IO_PACKET, s', p) ∧
    normal_parser_unpack s' p' =
      Ok (IO_PARTIAL, s'', set_p_packet_size 0 (set_p_body_size 0 p')) ∧
    header_of s'' 0 = header_of s 0 ∧ unread s'' = [].
Proof.
  intros Hs Hsize He Hroom Hok Hb. pose proof Hs as (? & ? & _).
  destruct (packed_spec s Hs) as [Hs' Hu]; [lia |].
  replace (s_endp s - s_getp s) with 0 in Hu by lia.
  unfold content in Hu. rewrite He, take_0, app_nil_l in Hu.
  exists (packed s), (decoded (packed s) (header_of s 0)).
  split; [apply normal_parser_pack_spec; auto; lia |]. split.
  { by rewrite (normal_parser_unpack_header _ _ (header_of s 0) []) by (rewrite ?app_nil_r; done). }
  split; [done |].
  assert (unread (decoded (packed s) (header_of s 0)) = drop (Z.to_nat 32) (unread (packed s))) as ->.
  { rewrite <- (unread_set_getp (packed s) 32) by (cbn; lia).
    apply same_buffer_unread. repeat split. }
  rewrite Hu. apply drop_ge. rewrite length_header_bytes. lia.
Qed.

End pack.

(** ** The theorems on concrete packets *)

(** A peer with no callbacks and no buffers. *)
Definition blank_peer {L : Libev} : peer Empty_set :=
  let su := mkSockunion 0 0 0 in
  mkPeer 0 0 (-1) 0 su su 0 0 0 TAT_IDLE MODE_NONE 0 0 0 0 0 0 None None None 0 None None 0
    None None None None None None None 0 0 0 0 0 0 0 0 [] [] [].

(** A packet of 64 bytes that holds [bs]. *)
Definition packet_with (bs : list Z) : stream :=
  set_nid 7 (set_src 1 (set_dst (-2) (pushed (blank_stream 64) bs))).

Lemma packet_with_sane bs :
  Forall is_u8 bs → Z.of_nat (length bs) ≤ 64 → sane (packet_with bs).
Proof.
  intros Hu Hl. apply (same_buffer_sane _ (pushed (blank_stream 64) bs)); [repeat split |].
  apply pushed_sane; [by apply blank_stream_sane | done | cbn; lia].
Qed.

Lemma pack_header_after_payload_witness :
  ∃ s', normal_parser_pack (packet_with [1; 2; 3; 4; 5]) (blank_peer (L := record_libev))
          = Ok (IO_PACKET, s', blank_peer) ∧ sane s' ∧
        unread s' = [1; 2; 3; 4; 5] ++ header_bytes (mkHeader 7 1 (-2) 0 0 0 5).
Proof.
  apply (pack_header_after_payload (packet_with [1; 2; 3; 4; 5]) blank_peer).
  - apply packet_with_sane; [repeat (apply Forall_cons_2; [unfold is_u8; lia |]); constructor |].
    cbn; lia.
  - by vm_compute.
  - by vm_compute.
Defined.

Lemma pack_unpack_closes_witness :
  ∃ s', normal_parser_pack (packet_with [1; 2; 3; 4; 5]) (blank_peer (L := record_libev))
          = Ok (IO_PACKET, s', blank_peer) ∧
        normal_parser_unpack s' (blank_peer (L := record_libev)) = Ok (IO_CLOSE, s', blank_peer).
Proof.
  apply (pack_unpack_closes (packet_with [1; 2; 3; 4; 5]) blank_peer blank_peer).
  - apply packet_with_sane; [repeat (apply Forall_cons_2; [unfold is_u8; lia |]); constructor |].
    cbn; lia.
  - by vm_compute.
  - by vm_compute.
  - by vm_compute.
  - by vm_compute.
  - reflexivity.
Defined.

Lemma pack_unpack_header_witness :
  ∃ s' s'', normal_parser_pack (packet_with []) (blank_peer (L := record_libev))
              = Ok (IO_PACKET, s', blank_peer) ∧
    normal_parser_unpack s' (blank_peer (L := record_libev)) =
      Ok (IO_PARTIAL, s'', set_p_packet_size 0 (set_p_body_size 0 blank_peer)) ∧
    header_of s'' 0 = mkHeader 7 1 (-2) 0 0 0 0 ∧ unread s'' = [].
Proof.
  apply (pack_unpack_header (packet_with []) blank_peer blank_peer).
  - apply packet_with_sane; [constructor | cbn; lia].
  - by vm_compute.
  - reflexivity.
  - by vm_compute.
  - unfold header_ok, header_words, is_s32. cbn [hd_nid hd_src hd_dst hd_type hd_sid hd_seq hd_len header_of].
    repeat (apply Forall_cons_2; [cbn; lia |]). constructor.
  - reflexivity.
Defined.
