(* ===== verification/Link.v ===== *)
(** The data path of the links: tcp_read and tcp_write of link/tcp_link.c,
    udp_read and udp_write of link/udp_link.c, and the part of misaka_read that
    turns what a link read into an event.

    The read functions work on the input buffer of the peer, [*peer->ibuf]; the
    write functions on the heap of packets and the output fifo. *)

From S2P Require Import Prelude Sockunion Stream StreamFacts Memory Fifo Peer Network Parser.

Local Open Scope Z_scope.

Definition MISAKA_WRITE_PACKET_MAX : Z := 30.

Section link.
Context {K : Kernel} {L : Libev} {disparser_fn : Type}.
Abbreviation peer := (peer disparser_fn).
Implicit Types (s : stream) (p : peer) (f : descr) (h : gmap loc stream).

(** ** link/tcp_link.c *)

Definition tcp_read s p f : res (io_tat * stream * peer * descr) :=
  '(nbytes, s, f) ← stream_read_try s f (p_packet_size p);
  let nbytes := s32 nbytes in
  if nbytes =? -2 then Ok (IO_CHECK, s, p, f) else
  if nbytes =? -1 then
    Ok (if p_mode p =? MODE_PASSIVE then IO_PASSIVE_CLOSE else IO_CLOSE, s, p, f)
  else
  let p := set_p_packet_size (u64 (p_packet_size p - nbytes)) p in
  if p_packet_size p =? 0 then Ok (IO_CHECK, s, p, f) else Ok (IO_PARTIAL, s, p, f).

(** The loop of tcp_write: [q] is the output fifo, [s] its first packet.  The
    variable count of the source is never incremented, so the first half of the
    loop condition, [count < MISAKA_WRITE_PACKET_MAX], always holds. *)
Fixpoint tcp_write_loop (k : nat) h (q : stream_fifo) (s : option loc) (count pcount : Z) f
    : res (Z * gmap loc stream * stream_fifo * descr) :=
  match k with
  | O => Fail OutOfFuel
  | S k =>
      n ← load h s;
      let writenum := s32 (u64 (stream_get_endp n - stream_get_getp n)) in
      bs ← rd_block (s_data n) (s_getp n) (u64 writenum);
      let '(r, f) := sys_write f bs in
      let num := s32 (write_ret r) in
      if num <? 0 then Ok (0, h, q, f) else
      '(h, q, pcount) ←
        (if num =? writenum then
           '(h, q) ← misaka_packet_delete h q; Ok (h, q, pcount + 1)
         else Ok (h, q, pcount));
      if count <? MISAKA_WRITE_PACKET_MAX then
        match misaka_write_packet q with
        | None => Ok (pcount, h, q, f)
        | Some s => tcp_write_loop k h q (Some s) count pcount f
        end
      else Ok (pcount, h, q, f)
  end.

Definition tcp_write (k : nat) h p f : res (Z * gmap loc stream * peer * descr) :=
  q ← from_option_or NullDeref (p_obuf p);
  match misaka_write_packet q with
  | None => Ok (0, h, p, f)
  | Some s =>
      '(n, h, q, f) ← tcp_write_loop k h q (Some s) 0 0 f;
      Ok (n, h, set_p_obuf (Some q) p, f)
  end.

(** ** link/udp_link.c *)

Definition udp_read s p f : res (io_tat * stream * peer * descr) :=
  let p := set_p_packet_size MISAKA_MAX_PACKET_SIZE p in
  '(_, s, sin, f) ← stream_recvfrom s f (p_packet_size p) 0 (p_dsu p);
  let s := set_su sin s in
  Ok (IO_CHECK, s, p, f).

(** [++count < MISAKA_WRITE_PACKET_MAX] bounds the loop. *)
Fixpoint udp_write_loop (k : nat) h (q : stream_fifo) (s : option loc) (count : Z) f
    : res (Z * gmap loc stream * stream_fifo * descr) :=
  match k with
  | O => Fail OutOfFuel
  | S k =>
      n ← load h s;
      let writenum := s32 (u64 (stream_get_endp n - stream_get_getp n)) in
      bs ← rd_block (s_data n) (s_getp n) (u64 writenum);
      let '(_, f) := sys_sendto f bs (s_dsu n) in
      '(h, q) ← misaka_packet_delete h q;
      let count := count + 1 in
      if count <? MISAKA_WRITE_PACKET_MAX then
        match misaka_write_packet q with
        | None => Ok (count, h, q, f)
        | Some s => udp_write_loop k h q (Some s) count f
        end
      else Ok (count, h, q, f)
  end.

Definition udp_write h p f : res (Z * gmap loc stream * peer * descr) :=
  q ← from_option_or NullDeref (p_obuf p);
  match misaka_write_packet q with
  | None => Ok (0, h, p, f)
  | Some s =>
      '(n, h, q, f) ← udp_write_loop (Z.to_nat MISAKA_WRITE_PACKET_MAX) h q (Some s) 0 f;
      Ok (n, h, set_p_obuf (Some q) p, f)
  end.

(** ** link/ludp_link.c *)

(** The address the datagram came from goes to a local variable. *)
Definition ludp_read s p f : res (io_tat * stream * peer * descr) :=
  let p := if p_packet_size p =? 0 then set_p_packet_size MISAKA_MAX_PACKET_SIZE p else p in
  '(_, s, _, f) ← stream_recvfrom_un s f MISAKA_MAX_PACKET_SIZE 0 (p_lsu p);
  Ok (IO_CHECK, s, set_p_packet_size 0 p, f).

(** The loop of ludp_write and of sdio_write: [send] is the system call.  The
    counter is not returned. *)
Fixpoint send_loop (send : descr → list Z → write_result * descr) (k : nat) h (q : stream_fifo)
    (s : option loc) (count : Z) f : res (gmap loc stream * stream_fifo * descr) :=
  match k with
  | O => Fail OutOfFuel
  | S k =>
      n ← load h s;
      let writenum := s32 (u64 (stream_get_endp n - stream_get_getp n)) in
      bs ← rd_block (s_data n) (s_getp n) (u64 writenum);
      let '(_, f) := send f bs in
      '(h, q) ← misaka_packet_delete h q;
      let count := u32 (count + 1) in
      if count <? MISAKA_WRITE_PACKET_MAX then
        match misaka_write_packet q with
        | None => Ok (h, q, f)
        | Some s => send_loop send k h q (Some s) count f
        end
      else Ok (h, q, f)
  end.

Definition send_packets (send : descr → list Z → write_result * descr) h p f
    : res (Z * gmap loc stream * peer * descr) :=
  q ← from_option_or NullDeref (p_obuf p);
  match misaka_write_packet q with
  | None => Ok (0, h, p, f)
  | Some s =>
      '(h, q, f) ← send_loop send (Z.to_nat MISAKA_WRITE_PACKET_MAX) h q (Some s) 0 f;
      Ok (0, h, set_p_obuf (Some q) p, f)
  end.

Definition ludp_write h p f := send_packets (λ f bs, sys_sendto_un f bs (p_ldsu p)) h p f.

(** ** link/sdio_link.c *)

Definition sdio_read s p f : res (io_tat * stream * peer * descr) :=
  let p := if p_packet_size p =? 0 then set_p_packet_size MISAKA_MAX_PACKET_SIZE p else p in
  '(_, s, f) ← stream_read s f (p_packet_size p);
  Ok (IO_CHECK, s, p, f).

Definition sdio_write h p f := send_packets sys_write h p f.

(** ** lib/core.c: misaka_read, the check of what was read *)

Definition check_packet (ret : io_tat) s p : res (io_tat * stream * peer) :=
  match ret with
  | IO_CHECK =>
      match p_unpack p with
      | Some fn => call_unpack fn s p
      | None => Ok (IO_PACKET, s, p)
      end
  | _ => Ok (ret, s, p)
  end.

(** read_io_action, the end of the branch IO_PACKET *)
Definition next_packet s p : res (stream * peer) :=
  let s := stream_reset s in
  p ← call_parser p; Ok (s, p).

End link.
