(* ===== verification/LinkFacts.v ===== *)
(** Framing over TCP: however the kernel fragments the bytes of a connection,
    the reads of a peer with the parser of normal_parser.c deliver exactly the
    packets that were sent; what a transient error, an end of file and a write
    that is cut short do instead. *)

From S2P Require Import Prelude Sockunion Stream StreamFacts Memory Fifo Peer Network Parser.
From S2P Require Import Link.

Local Open Scope Z_scope.

(** ** Frames *)

Record frame := mkFrame { fr_head : header; fr_body : list Z }.

Definition encode (fr : frame) : list Z := header_bytes (fr_head fr) ++ fr_body fr.

(** A frame that fits a buffer of [size] bytes; the body is not empty. *)
Definition frame_ok (size : Z) (fr : frame) : Prop :=
  header_ok (fr_head fr) ∧ hd_len (fr_head fr) = Z.of_nat (length (fr_body fr)) ∧
  fr_body fr ≠ [] ∧ Forall is_u8 (fr_body fr) ∧ 32 + hd_len (fr_head fr) ≤ size.

(** What a packet event hands on: the header fields and the unread bytes. *)
Definition packet_of (s : stream) : frame :=
  mkFrame (header_of s (s_endp s - s_getp s)) (unread s).

Section reader.
Context {K : Kernel} {L : Libev} {disparser_fn : Type}.
Implicit Types (s : stream) (p : peer disparser_fn) (f : descr) (fr : frame).

(** One readiness callback of a TCP peer: the read of misaka_read, the check,
    and for a complete packet the reset of the buffer; other events than
    IO_PARTIAL and IO_PACKET end the connection. *)
Definition read_event s p f : res (io_tat * stream * peer disparser_fn * descr) :=
  '(ret, s, p, f) ← tcp_read s p f;
  '(ret, s, p) ← check_packet ret s p;
  Ok (ret, s, p, f).

Fixpoint read_rounds (k : nat) s p f : res (list frame * stream * peer disparser_fn * descr) :=
  match k with
  | O => Ok ([], s, p, f)
  | S k =>
      '(ret, s, p, f) ← read_event s p f;
      match ret with
      | IO_PACKET =>
          '(s', p) ← next_packet s p;
          '(frs, s', p, f) ← read_rounds k s' p f;
          Ok (packet_of s :: frs, s', p, f)
      | IO_PARTIAL => read_rounds k s p f
      | _ => Ok ([], s, p, f)
      end
  end.

(** [feeds f w]: reads of the descriptor deliver the bytes [w], in pieces the
    kernel chooses. *)
Inductive feeds : descr → list Z → Prop :=
| feeds_nil f : feeds f []
| feeds_more f w :
    (∀ n, 0 < n → ∃ d w' f', sys_read f n = (Got d, f') ∧ d ≠ [] ∧ w = d ++ w' ∧ feeds f' w') →
    feeds f w.

(** The reader in the middle of a frame of which it has the bytes [bs]. *)
Record reading (size : Z) s p fr (bs : list Z) : Prop := {
  rg_sane : sane s;
  rg_size : s_size s = size;
  rg_content : content s = bs;
  rg_unpack : p_unpack p = Some normal_parser_unpack_p;
  rg_parser : p_parser p = Some normal_parser_init_p;
  rg_phase :
    if Z.of_nat (length bs) <? 32 then
      p_body_size p = 0 ∧ p_packet_size p = 32 - Z.of_nat (length bs) ∧ s_getp s = 0
    else
      p_body_size p = hd_len (fr_head fr) ∧
      p_packet_size p = Z.of_nat (length (encode fr)) - Z.of_nat (length bs) ∧
      s_getp s = 32 ∧ header_of s (hd_len (fr_head fr)) = fr_head fr
}.

(** The reader between two packets. *)
Definition idle (size : Z) s p : Prop := ∀ fr, reading size s p fr [].

Lemma next_packet_idle size s p fr bs :
  reading size s p fr bs →
  ∃ s' p', next_packet s p = Ok (s', p') ∧ idle size s' p'.
Proof.
  intros [Hs Hz Hc Hu Hp _]. unfold next_packet, call_parser. rewrite Hp, bind_Ok.
  eexists _, _. split; [reflexivity |]. intros fr'. destruct Hs as (? & ? & ? & ? & ?).
  constructor; try done.
  repeat split; cbn [s_getp s_endp s_size s_data stream_reset set_endp set_getp]; auto; lia.
Qed.

Lemma length_encode fr size :
  frame_ok size fr →
  Z.of_nat (length (encode fr)) = 32 + hd_len (fr_head fr) ∧ 0 < hd_len (fr_head fr).
Proof.
  intros (_ & Hl & Hne & _). unfold encode. rewrite length_app, length_header_bytes, Hl.
  split; [lia |]. destruct (fr_body fr); [done | cbn; lia].
Qed.

(** The read asks for no more than what the current frame lacks. *)
Lemma reading_wants size s p fr bs :
  frame_ok size fr → reading size s p fr bs → bs `prefix_of` encode fr →
  bs ≠ encode fr →
  0 < p_packet_size p ∧
  Z.of_nat (length bs) + p_packet_size p ≤ Z.of_nat (length (encode fr)).
Proof.
  intros Hok Hr [rest Hb] Hne. destruct (length_encode fr size Hok) as [Hl Hpos].
  pose proof (rg_phase _ _ _ _ _ Hr) as Hph.
  assert (rest ≠ []) as Hrest by (intros ->; rewrite app_nil_r in Hb; congruence).
  assert (0 < Z.of_nat (length rest)) by (destruct rest; [done | cbn; lia]).
  pose proof (f_equal length Hb) as Hlen. rewrite length_app in Hlen.
  destruct (Z.ltb_spec (Z.of_nat (length bs)) 32); destruct Hph as (_ & -> & _); lia.
Qed.

(** A read that delivered [d]. *)
Lemma tcp_read_got s p f d f' :
  sane s → s_size s < 2 ^ 31 → 0 < p_packet_size p ≤ s_size s - s_endp s →
  sys_read f (p_packet_size p) = (Got d, f') →
  let left := p_packet_size p - Z.of_nat (length d) in
  tcp_read s p f = Ok (if left =? 0 then IO_CHECK else IO_PARTIAL, pushed s d,
                       set_p_packet_size left p, f') ∧
  sane (pushed s d) ∧ content (pushed s d) = content s ++ d ∧ 0 ≤ left.
Proof.
  intros Hs Hsize Hps Hr left. pose proof Hs as (? & ? & ? & _).
  destruct (sys_read_bound _ _ _ _ (ltac:(lia) : 0 ≤ p_packet_size p) Hr) as [Hb Hu].
  pose proof (stream_read_try_spec s f (p_packet_size p) Hs ltac:(lia)) as Ht.
  destruct (Z.ltb_spec (s_size s - s_endp s) (p_packet_size p)); [lia |].
  rewrite Hr in Ht. destruct Ht as (n & s' & He & -> & _ & -> & Hs').
  split; [| split; [done |]; split; [apply pushed_content; auto; lia | unfold left; lia]].
  unfold tcp_read. rewrite He, bind_Ok. rewrite s32_small by (unfold_ranges; lia).
  destruct (Z.eqb_spec (Z.of_nat (length d)) (-2)); [lia |].
  destruct (Z.eqb_spec (Z.of_nat (length d)) (-1)); [lia |].
  rewrite u64_small by (unfold_ranges; lia). cbn [p_packet_size set_p_packet_size]. fold left.
  by destruct (left =? 0).
Qed.

Lemma reading_room size s p fr bs :
  frame_ok size fr → reading size s p fr bs → bs `prefix_of` encode fr → bs ≠ encode fr →
  0 < p_packet_size p ≤ s_size s - s_endp s.
Proof.
  intros Hok Hr Hpre Hne. destruct (reading_wants _ _ _ _ _ Hok Hr Hpre Hne) as [? Hw].
  destruct (length_encode fr size Hok) as [Hl _]. pose proof Hok as (_ & _ & _ & _ & Hfit).
  pose proof (length_content s (rg_sane _ _ _ _ _ Hr)) as Hc.
  rewrite (rg_content _ _ _ _ _ Hr) in Hc. rewrite (rg_size _ _ _ _ _ Hr). lia.
Qed.

(** The first 32 bytes of a frame are its header. *)
Lemma encode_header fr bs rest :
  encode fr = bs ++ rest → length bs = 32%nat → bs = header_bytes (fr_head fr) ∧ rest = fr_body fr.
Proof.
  intros He Hl. unfold encode in He. apply app_inj_1 in He as [<- <-]; [done |].
  by rewrite length_header_bytes.
Qed.

Lemma reading_next s p fr bs d size left :
  reading size s p fr bs → sane (pushed s d) → content (pushed s d) = content s ++ d →
  left = p_packet_size p - Z.of_nat (length d) →
  (Z.of_nat (length bs) < 32 → Z.of_nat (length (bs ++ d)) < 32) →
  reading size (pushed s d) (set_p_packet_size left p) fr (bs ++ d).
Proof.
  intros [Hs Hz Hc Hu Hp Hph] Hs' Hc' -> Hsame. rewrite length_app, Nat2Z.inj_add in Hsame.
  constructor; auto.
  - by rewrite Hc', Hc.
  - rewrite length_app, Nat2Z.inj_add.
    destruct (Z.ltb_spec (Z.of_nat (length bs)) 32);
      destruct (Z.ltb_spec (Z.of_nat (length bs) + Z.of_nat (length d)) 32); try lia.
    + destruct Hph as (? & ? & ?). split; [done |]. split; [cbn [p_packet_size set_p_packet_size]; lia | done].
    + destruct Hph as (? & ? & ? & ?). split; [done |]. split; [cbn [p_packet_size set_p_packet_size]; lia |]. by split.
Qed.

(** The header is complete: it is decoded and the body is expected. *)
Lemma unpack_completes_header size s p fr bs left :
  size < 2 ^ 31 → frame_ok size fr → sane s → s_size s = size → s_getp s = 0 →
  content s = header_bytes (fr_head fr) → p_body_size p = 0 →
  p_unpack p = Some normal_parser_unpack_p → p_parser p = Some normal_parser_init_p →
  bs = header_bytes (fr_head fr) →
  ∃ s' p', check_packet IO_CHECK s (set_p_packet_size left p) = Ok (IO_PARTIAL, s', p') ∧
    reading size s' p' fr bs.
Proof.
  intros Hsize Hok Hs Hz Hg Hc Hb Hu Hp ->.
  pose proof Hok as (Hh & Hlen & _). destruct (length_encode fr size Hok) as [Hl Hpos].
  pose proof (length_content s Hs) as Hcl. rewrite Hc, length_header_bytes in Hcl.
  cbn [check_packet p_unpack set_p_packet_size]. rewrite Hu. cbn [call_unpack].
  rewrite (normal_parser_unpack_header s _ (fr_head fr) []);
    [| done | lia | done | done | unfold unread; by rewrite Hg, Hc, app_nil_r].
  eexists _, _. split; [reflexivity |].
  assert (same_buffer (set_header (fr_head fr) s) s) as Hsame by repeat split.
  assert (sane (decoded s (fr_head fr))) as Hs'.
  { unfold decoded. apply set_getp_sane; [by eapply same_buffer_sane |].
    destruct Hsame as (_ & -> & _). lia. }
  assert (is_s32 (hd_len (fr_head fr))) as H32.
  { unfold header_ok, header_words in Hh. by do 7 (apply Forall_cons_1 in Hh as [? Hh]). }
  constructor; auto.
  rewrite length_header_bytes. change (Z.of_nat 32 <? 32) with false. cbv iota.
  split; [done |]. split; [| split].
  - cbn [p_packet_size set_p_packet_size]. rewrite u64_small by (unfold_ranges; lia). lia.
  - unfold decoded. cbn [s_getp set_getp]. lia.
  - unfold header_of, decoded. by destruct (fr_head fr).
Qed.

(** The body is complete: the event is IO_PACKET and the packet is the frame. *)
Lemma reading_complete size s p fr :
  frame_ok size fr → reading size s p fr (encode fr) →
  check_packet IO_CHECK s p = Ok (IO_PACKET, s, p) ∧ packet_of s = fr.
Proof.
  intros Hok [Hs Hz Hc Hu Hp Hph]. destruct (length_encode fr size Hok) as [Hl Hpos].
  destruct (Z.ltb_spec (Z.of_nat (length (encode fr))) 32); [lia |].
  destruct Hph as (Hb & _ & Hg & Hh). split.
  - cbn [check_packet]. rewrite Hu. cbn [call_unpack].
    rewrite normal_parser_unpack_body by lia. done.
  - pose proof (length_content s Hs) as Hcl. rewrite Hc in Hcl.
    unfold packet_of, unread. rewrite Hc, Hg.
    replace (s_endp s - 32) with (hd_len (fr_head fr)) by lia. rewrite Hh.
    unfold encode. rewrite drop_app_length' by (rewrite length_header_bytes; lia).
    by destruct fr.
Qed.

(** One read in the middle of a frame. *)
Lemma read_event_step size s p fr bs f d rest f' :
  size < 2 ^ 31 → frame_ok size fr → reading size s p fr bs → encode fr = bs ++ d ++ rest →
  d ≠ [] → sys_read f (p_packet_size p) = (Got d, f') →
  ∃ s' p', reading size s' p' fr (bs ++ d) ∧
    ((rest ≠ [] ∧ read_event s p f = Ok (IO_PARTIAL, s', p', f')) ∨
     (rest = [] ∧ read_event s p f = Ok (IO_PACKET, s', p', f') ∧ packet_of s' = fr)).
Proof.
  intros Hsize Hok Hr He Hd Hread.
  assert (bs `prefix_of` encode fr) as Hpre by (eexists; exact He).
  assert (0 < Z.of_nat (length d)) as Hd0 by (destruct d; [done | cbn; lia]).
  pose proof (f_equal length He) as Hlen. rewrite !length_app in Hlen.
  assert (bs ≠ encode fr) as Hne by (intros Heq; rewrite <- Heq in Hlen; lia).
  pose proof (reading_room _ _ _ _ _ Hok Hr Hpre Hne) as Hroom.
  destruct (reading_wants _ _ _ _ _ Hok Hr Hpre Hne) as [_ Hw].
  destruct (length_encode fr size Hok) as [Hl Hpos].
  pose proof Hr as [Hs Hz Hc Hu Hp Hph].
  destruct (tcp_read_got s p f d f' Hs ltac:(lia) Hroom Hread) as (Htcp & Hs' & Hc' & Hleft). cbv zeta in Htcp, Hleft.
  remember (p_packet_size p - Z.of_nat (length d)) as left eqn:Hdef.
  unfold read_event. rewrite Htcp, bind_Ok. clear Htcp.
  destruct (Z.ltb_spec (Z.of_nat (length bs)) 32) as [H32|H32];
    destruct (Z.eqb_spec left 0) as [H0|H0].
  - (* the header is complete *)
    destruct Hph as (Hb & Hps & Hg).
    destruct (encode_header fr (bs ++ d) rest) as [Hbd Hrest];
      [by rewrite <- app_assoc | rewrite length_app; lia |].
    destruct (unpack_completes_header size (pushed s d) p fr (bs ++ d) left)
      as (s' & p' & Hck & Hr'); auto.
    { by rewrite Hc', Hc. }
    rewrite Hck, bind_Ok. exists s', p'. split; [done |]. left. split; [| done].
    rewrite Hrest. by destruct Hok as (_ & _ & ? & _).
  - destruct Hph as (Hb & Hps & Hg). cbn [check_packet]. rewrite bind_Ok.
    exists (pushed s d), (set_p_packet_size left p).
    split; [apply reading_next; auto; rewrite ?length_app; lia |].
    left. split; [| done]. intros ->. cbn [length] in Hlen. lia.
  - destruct Hph as (Hb & Hps & Hg & Hh).
    assert (rest = []) as -> by (apply nil_length_inv; lia). rewrite app_nil_r in He.
    assert (reading size (pushed s d) (set_p_packet_size left p) fr (bs ++ d)) as Hr'
      by (apply reading_next; auto; lia).
    rewrite <- He in Hr'. destruct (reading_complete _ _ _ _ Hok Hr') as [Hck Hpk].
    rewrite Hck, bind_Ok. rewrite He in Hr'. eauto 10.
  - destruct Hph as (Hb & Hps & Hg & Hh). cbn [check_packet]. rewrite bind_Ok.
    exists (pushed s d), (set_p_packet_size left p).
    split; [apply reading_next; auto; lia |].
    left. split; [| done]. intros ->. cbn [length] in Hlen. lia.
Qed.

Lemma feeds_read f w n :
  feeds f w → w ≠ [] → 0 < n →
  ∃ d w' f', sys_read f n = (Got d, f') ∧ d ≠ [] ∧ w = d ++ w' ∧ feeds f' w'.
Proof. intros Hf Hw Hn. destruct Hf as [|f w H]; [done |]. by apply H. Qed.

(** The rest of a frame is read in at most as many rounds as it has bytes. *)
Lemma read_frame size fr w n : ∀ s p f bs rest,
  size < 2 ^ 31 → frame_ok size fr → reading size s p fr bs → encode fr = bs ++ rest →
  rest ≠ [] → length rest = n → feeds f (rest ++ w) →
  ∃ k s' p' f', (k ≤ n)%nat ∧ idle size s' p' ∧ feeds f' w ∧
    ∀ m, read_rounds (k + m) s p f =
      ('(frs, s', p', f') ← read_rounds m s' p' f'; Ok (fr :: frs, s', p', f')).
Proof.
  induction n as [n IH] using lt_wf_ind.
  intros s p f bs rest Hsize Hok Hr He Hrest Hn Hf.
  pose proof (f_equal length He) as Hlen. rewrite length_app in Hlen.
  assert (0 < length rest)%nat by (destruct rest; [done | cbn; lia]).
  assert (bs ≠ encode fr) as Hne by (intros Heq; rewrite <- Heq in Hlen; lia).
  destruct (reading_wants size s p fr bs Hok Hr) as [Hps Hw]; [by eexists | done |].
  destruct (feeds_read f (rest ++ w) (p_packet_size p)) as (d & w' & f' & Hread & Hd & Hww & Hf');
    [done | by destruct rest | done |].
  destruct (sys_read_bound _ _ _ _ (ltac:(lia) : 0 ≤ p_packet_size p) Hread) as [Hdl _].
  assert (∃ rest', rest = d ++ rest' ∧ w' = rest' ++ w) as (rest' & -> & ->).
  { apply app_eq_inv in Hww as [(k & ? & ?) | (k & Hdk & ?)]; [by exists k |].
    assert (k = []) as ->.
    { apply nil_length_inv. rewrite Hdk, length_app in Hdl. lia. }
    rewrite app_nil_r in Hdk. subst. exists []. by rewrite app_nil_r. }
  destruct (read_event_step size s p fr bs f d rest' f') as (s1 & p1 & Hr1 & Hev); auto.
  assert (0 < length d)%nat by (destruct d; [done | cbn; lia]).
  destruct Hev as [(Hne' & Hev) | (-> & Hev & Hpk)].
  - destruct (IH (length rest')) with (s := s1) (p := p1) (f := f') (bs := bs ++ d)
      (rest := rest') as (k & s' & p' & f2 & Hk & Hi & Hf2 & Hm); auto.
    { rewrite length_app in Hn. lia. }
    { by rewrite <- app_assoc. }
    exists (S k), s', p', f2. rewrite length_app in Hn. split; [lia |].
    split; [done |]. split; [done |]. intros m. cbn [Nat.add read_rounds].
    by rewrite Hev, bind_Ok.
  - destruct (next_packet_idle size s1 p1 fr _ Hr1) as (s2 & p2 & Hnp & Hi).
    exists 1%nat, s2, p2, f'. rewrite app_nil_r in Hn. split; [lia |].
    split; [done |]. split; [done |]. intros m. cbn [Nat.add read_rounds].
    by rewrite Hev, bind_Ok, Hnp, bind_Ok, Hpk.
Qed.

(** C4: TCP framing.  Whatever pieces the kernel cuts the bytes of a connection
    into, the reads of a peer that uses the parser of normal_parser.c deliver
    exactly the packets the other side framed, in order, with the six header
    fields and the body of each: after at most as many readiness callbacks as
    there are bytes, all packets have been delivered, none is invented, merged or
    split, and the reader waits for the next header. *)
Theorem tcp_reader_reassembles size frs s p f :
  size < 2 ^ 31 → idle size s p → Forall (frame_ok size) frs → feeds f (frs ≫= encode) →
  ∃ k s' p' f', (k ≤ length (frs ≫= encode))%nat ∧
    read_rounds k s p f = Ok (frs, s', p', f') ∧ idle size s' p'.
Proof.
  intros Hsize. revert s p f. induction frs as [|fr frs IH]; intros s p f Hi Hok Hf.
  { exists 0%nat, s, p, f. split; [cbn; lia |]. by split. }
  apply Forall_cons_1 in Hok as [Hfr Hok]. destruct (length_encode fr size Hfr) as [Hl Hpos].
  change ((fr :: frs) ≫= encode) with (encode fr ++ (frs ≫= encode)) in *.
  destruct (read_frame size fr (frs ≫= encode) (length (encode fr)) s p f [] (encode fr))
    as (k & s1 & p1 & f1 & Hk & Hi1 & Hf1 & Hm);
    [done | done | apply Hi | done | | done | done |].
  { intros Hn. rewrite Hn in Hl. cbn [length] in Hl. lia. }
  destruct (IH s1 p1 f1 Hi1 Hok Hf1) as (m & s2 & p2 & f2 & Hm2 & Hrun & Hi2).
  exists (k + m)%nat, s2, p2, f2. rewrite length_app. split; [lia |].
  split; [| done]. by rewrite Hm, Hrun, bind_Ok.
Qed.

(** A transient error (EAGAIN, EINTR) in the middle of a body is taken for
    the end of the packet: the event is IO_PACKET although part of the body is
    missing, and the handlers get the truncated packet. *)
Theorem tcp_read_retry_truncates size s p fr bs f en f' :
  size < 2 ^ 31 → frame_ok size fr → reading size s p fr bs → bs `prefix_of` encode fr →
  bs ≠ encode fr → 32 ≤ Z.of_nat (length bs) →
  sys_read f (p_packet_size p) = (ReadErr en, f') → ERRNO_IO_RETRY en = true →
  read_event s p f = Ok (IO_PACKET, s, p, f') ∧ unread s = drop 32 bs ∧
  Z.of_nat (length (unread s)) < hd_len (fr_head fr).
Proof.
  intros Hsize Hok Hr Hpre Hne H32 Hread Hen.
  pose proof (reading_room _ _ _ _ _ Hok Hr Hpre Hne) as Hroom.
  destruct (length_encode fr size Hok) as [Hl Hpos].
  pose proof Hr as [Hs Hz Hc Hu Hp Hph]. pose proof Hs as (? & ? & ? & _).
  destruct (Z.ltb_spec (Z.of_nat (length bs)) 32); [lia |].
  destruct Hph as (Hb & Hps & Hg & Hh).
  assert (unread s = drop 32 bs) as Hun by (unfold unread; by rewrite Hc, Hg).
  split; [| split; [done |]].
  - pose proof (stream_read_try_spec s f (p_packet_size p) Hs ltac:(lia)) as Ht.
    destruct (Z.ltb_spec (s_size s - s_endp s) (p_packet_size p)); [lia |].
    rewrite Hread in Ht. destruct Ht as (n & s' & He & -> & ->). rewrite Hen in He.
    unfold read_event, tcp_read. rewrite He, bind_Ok. change (s32 (-2) =? -2) with true.
    cbv iota. rewrite bind_Ok. cbn [check_packet]. rewrite Hu. cbn [call_unpack].
    rewrite normal_parser_unpack_body by lia. done.
  - rewrite Hun, length_drop. destruct Hpre as [rest Hrest].
    pose proof (f_equal length Hrest) as Hlen. rewrite length_app in Hlen.
    assert (rest ≠ []) by (intros ->; rewrite app_nil_r in Hrest; congruence).
    assert (0 < length rest)%nat by (destruct rest; [done | cbn; lia]). lia.
Qed.

(** The end of the connection is not noticed: a read that returns 0 bytes
    gives the event IO_PARTIAL, the peer stays as it is, and so does every later
    read. *)
Theorem tcp_read_ignores_eof size s p fr bs f f' :
  size < 2 ^ 31 → frame_ok size fr → reading size s p fr bs → bs `prefix_of` encode fr →
  bs ≠ encode fr → sys_read f (p_packet_size p) = (Got [], f') →
  ∃ s' p', read_event s p f = Ok (IO_PARTIAL, s', p', f') ∧ reading size s' p' fr bs.
Proof.
  intros Hsize Hok Hr Hpre Hne Hread.
  pose proof (reading_room _ _ _ _ _ Hok Hr Hpre Hne) as Hroom.
  pose proof Hr as [Hs Hz Hc Hu Hp Hph].
  destruct (tcp_read_got s p f [] f' Hs ltac:(lia) Hroom Hread) as (Htcp & Hs' & Hc' & Hleft).
  cbn [length] in Htcp. rewrite Z.sub_0_r in Htcp. cbv zeta in Htcp.
  destruct (Z.eqb_spec (p_packet_size p) 0); [lia |].
  exists (pushed s []), (set_p_packet_size (p_packet_size p) p). split.
  - unfold read_event. rewrite Htcp, bind_Ok. done.
  - rewrite <- (app_nil_r bs). apply reading_next; auto; [cbn; lia |]. by rewrite app_nil_r.
Qed.

(** ** Safety on arbitrary input *)

Lemma getl_int_safe set s :
  (∀ v s, same_buffer (set v s) s) → sane s →
  ∃ s', getl_int set s = Ok s' ∧ sane s' ∧ s_size s' = s_size s.
Proof.
  intros Hset Hs. unfold getl_int. rewrite (stream_getl_spec s Hs).
  pose proof Hs as (? & ? & _). change (Z.of_nat 4) with 4.
  destruct (Z.ltb_spec (s_endp s - s_getp s) 4); rewrite bind_Ok; eexists;
    (split; [reflexivity |]); split;
    try (eapply same_buffer_sane; [apply Hset |]; auto; apply set_getp_sane; auto; lia);
    by destruct (Hset (s32 0) s) as (_ & _ & -> & _) ||
       destruct (Hset (s32 (be_value (bytes_at s (s_getp s) 4))) (set_getp (s_getp s + 4) s))
         as (_ & _ & -> & _).
Qed.

Lemma normal_parser_unpack_safe s p :
  sane s → s_size s < 2 ^ 31 →
  ∃ ret s' p', normal_parser_unpack s p = Ok (ret, s', p') ∧ sane s' ∧ s_size s' = s_size s ∧
    (p' = p ∨ ∃ l, is_s32 l ∧ p' = set_p_packet_size (u64 l) (set_p_body_size l p)).
Proof.
  intros Hs Hz. pose proof Hs as (? & ? & ? & Hd & _). unfold normal_parser_unpack.
  destruct (Z.eqb_spec (p_body_size p) 0); [| eauto 10]. cbv zeta.
  unfold stream_get_endp, stream_get_getp. rewrite u64_small by (unfold_ranges; lia).
  rewrite s32_small by (unfold_ranges; lia). unfold MAGIC_HEADER_SIZE, MAGIC_STR_SIZE.
  case_cmp; [eauto 10 |]. rewrite rd_block_Ok, bind_Ok by lia.
  case_decide; [eauto 10 |]. rewrite u64_small by (unfold_ranges; lia).
  assert (sane (set_getp (s_getp s + 4) s)) as Hs4 by (apply set_getp_sane; [done | lia]).
  assert (s_size (set_getp (s_getp s + 4) s) = s_size s) as Hz4 by done.
  revert Hs4 Hz4. generalize (set_getp (s_getp s + 4) s). intros t Ht Htz.
  do 6 (lazymatch goal with Ht : sane ?t |- context [getl_int ?set ?t] =>
          destruct (getl_int_safe set t) as (?t & -> & ?Ht & ?Htz);
            [by repeat split | assumption | rewrite bind_Ok; clear Ht] end).
  lazymatch goal with Ht : sane ?t |- context [stream_getl ?t] =>
    rewrite (stream_getl_spec t Ht); pose proof Ht as (? & ? & _) end.
  change (Z.of_nat 4) with 4. case_cmp; rewrite bind_Ok; eexists _, _, _;
    (split; [reflexivity |]); (split; [first [assumption | apply set_getp_sane; auto; lia] |]);
    (split; [cbn [s_size set_getp]; congruence |]); right; eexists;
    (split; [apply s32_range | reflexivity]).
Qed.

(** What the reader keeps whatever it is sent. *)
Definition reader_ok (size : Z) s p : Prop :=
  sane s ∧ s_size s = size ∧ size < 2 ^ 31 ∧ 0 ≤ p_packet_size p ∧
  p_parser p = Some normal_parser_init_p.

Lemma check_packet_safe size ret s p :
  reader_ok size s p →
  ∃ ret' s' p', check_packet ret s p = Ok (ret', s', p') ∧ reader_ok size s' p'.
Proof.
  intros (Hs & Hz & Hsize & Hps & Hpar).
  assert (reader_ok size s p) as Hrok by done.
  unfold check_packet. destruct ret; eauto. destruct (p_unpack p) as [[]|] eqn:Hu;
    [by eauto | cbn [call_unpack] | by eauto].
  destruct (normal_parser_unpack_safe s p Hs ltac:(lia)) as (r & s' & p' & -> & Hs' & Hz' & Hp').
  eexists _, _, _. split; [reflexivity |]. split; [done |]. split; [congruence |].
  split; [done |]. destruct Hp' as [-> | (l & _ & ->)]; [done |].
  split; [cbn [p_packet_size set_p_packet_size]; apply u64_range | done].
Qed.

Lemma tcp_read_safe size s p f :
  reader_ok size s p →
  ∃ ret s' p' f', tcp_read s p f = Ok (ret, s', p', f') ∧ reader_ok size s' p'.
Proof.
  intros (Hs & Hz & Hsize & Hps & Hpar).
  assert (reader_ok size s p) as Hrok by done.
  pose proof (stream_read_try_spec s f (p_packet_size p) Hs Hps) as Ht.
  unfold tcp_read. destruct (Z.ltb_spec (s_size s - s_endp s) (p_packet_size p)).
  { rewrite Ht, bind_Ok. eauto 10. }
  destruct Ht as (n & s' & He & Ht). rewrite He, bind_Ok.
  destruct (sys_read f (p_packet_size p)) as [[bs|en] f'] eqn:Hr; cbn [fst snd] in *.
  - destruct Ht as (-> & Hn & -> & Hs'). pose proof Hs as (? & ? & _).
    rewrite s32_small by (unfold_ranges; lia).
    destruct (Z.eqb_spec (Z.of_nat (length bs)) (-2)); [lia |].
    destruct (Z.eqb_spec (Z.of_nat (length bs)) (-1)); [lia |].
    assert (reader_ok size (pushed s bs)
              (set_p_packet_size (u64 (p_packet_size p - Z.of_nat (length bs))) p)).
    { split; [done |]. split; [done |]. split; [done |]. split; [| done].
      cbn [p_packet_size set_p_packet_size]. apply u64_range. }
    case_cmp; eauto 10.
  - destruct Ht as [-> ->]. destruct (ERRNO_IO_RETRY en); eauto 10.
Qed.

(** C18: no bytes a peer sends, and no errors of its descriptor, make the reader
    fault: every round returns, the accesses stay inside the input buffer and the
    offsets invariant is kept, also for a header that announces a negative or a
    far too large body. *)
Theorem tcp_reader_safe k size s p f :
  reader_ok size s p →
  ∃ frs s' p' f', read_rounds k s p f = Ok (frs, s', p', f') ∧ reader_ok size s' p'.
Proof.
  revert s p f. induction k as [|k IH]; intros s p f Hok; [eauto 10 |].
  cbn [read_rounds]. unfold read_event.
  destruct (tcp_read_safe size s p f Hok) as (ret & s1 & p1 & f1 & -> & Hok1). rewrite bind_Ok.
  destruct (check_packet_safe size ret s1 p1 Hok1) as (ret' & s2 & p2 & -> & Hok2).
  rewrite !bind_Ok. destruct ret'; eauto 10.
  destruct Hok2 as (Hs & Hz & Hsize & Hps & Hpar). unfold next_packet, call_parser.
  rewrite Hpar, !bind_Ok.
  destruct (IH (stream_reset s2) (normal_parser_init p2) f1) as (frs & s' & p' & f' & -> & Hok').
  { destruct Hs as (? & ? & ? & ? & ?). repeat split; auto;
      cbn [s_getp s_endp s_size s_data stream_reset set_endp set_getp]; try lia.
    cbn. unfold MAGIC_HEADER_SIZE. lia. }
  rewrite bind_Ok. eauto 10.
Qed.

End reader.

(** ** Writers *)

Section writer.
Context {K : Kernel} {L : Libev} {disparser_fn : Type}.
Implicit Types (p : peer disparser_fn) (f : descr) (h : gmap loc stream) (q : stream_fifo).

(** A packet in the heap whose unread bytes are [bs] and whose destination is
    [su]. *)
Definition holds h (x : loc) (bs : list Z) (su : sockunion) : Prop :=
  ∃ n, h !! x = Some n ∧ sane n ∧ s_size n < 2 ^ 31 ∧ unread n = bs ∧ s_dsu n = su.

(** The bytes a writer passes to the kernel for a packet. *)
Lemma load_unread h x bs su :
  holds h x bs su →
  ∃ n, load h (Some x) = Ok n ∧ s_dsu n = su ∧
    s32 (u64 (stream_get_endp n - stream_get_getp n)) = Z.of_nat (length bs) ∧
    rd_block (s_data n) (s_getp n) (u64 (Z.of_nat (length bs))) = Ok bs ∧
    Z.of_nat (length bs) < 2 ^ 31.
Proof.
  intros (n & Hn & Hs & Hz & <- & Hd). exists n. split; [by apply load_Some |].
  pose proof (length_unread n Hs) as Hl. pose proof Hs as (? & ? & ? & Hlen & _).
  unfold stream_get_endp, stream_get_getp. rewrite Hl.
  rewrite u64_small, s32_small by (unfold_ranges; lia).
  split; [done |]. split; [done |]. split; [| lia]. rewrite rd_block_Ok by lia.
  rewrite <- slice_content by (auto; lia). unfold slice.
  change (drop (Z.to_nat (s_getp n)) (content n)) with (unread n).
  by rewrite take_ge by lia.
Qed.

(** Deleting the first packet of the fifo. *)
Lemma packet_delete_rep h q x xs :
  fifo_rep h q (x :: xs) →
  ∃ q', misaka_packet_delete h q = Ok (delete x h, q') ∧ fifo_rep (delete x h) q' xs.
Proof.
  intros Hr. pose proof Hr as ([(n & Hn & _) _] & Hnd & _).
  destruct (fifo_pop_rep h q x xs Hr) as (q' & Hpop & Hr').
  exists q'. unfold misaka_packet_delete, stream_free.
  rewrite Hpop, bind_Ok, (release_Some _ _ _ Hn), bind_Ok. split; [done |].
  eapply fifo_frame; [| exact Hr']. intros y Hy. apply lookup_delete_ne.
  apply NoDup_cons in Hnd as [Hx _]. set_solver.
Qed.

Lemma fifo_head_rep h q xs :
  fifo_rep h q xs → misaka_write_packet q = first_ptr xs None.
Proof.
  intros (_ & _ & Hh & _). unfold misaka_write_packet, stream_fifo_head. rewrite Hh.
  by destruct xs.
Qed.

(** [wrote f bss f']: the kernel took each of the buffers [bss] whole. *)
Inductive wrote : descr → list (list Z) → descr → Prop :=
| wrote_nil f : wrote f [] f
| wrote_cons f bs f1 bss f2 :
    sys_write f bs = (Wrote (Z.of_nat (length bs)), f1) → wrote f1 bss f2 →
    wrote f (bs :: bss) f2.

(** What the writers do to the heap: the packets [xs] are freed. *)
Definition freed h (xs : list loc) h' : Prop :=
  ∀ y, h' !! y = if decide (y ∈ xs) then None else h !! y.

Lemma freed_cons h x xs h' : freed (delete x h) xs h' → freed h (x :: xs) h'.
Proof.
  intros Hf y. rewrite Hf. destruct (decide (y = x)) as [-> | Hne].
  - rewrite lookup_delete_eq. rewrite (decide_True (P := x ∈ x :: xs)) by left. by case_decide.
  - rewrite lookup_delete_ne by done.
    destruct (decide (y ∈ xs)); destruct (decide (y ∈ x :: xs)); set_solver.
Qed.

Lemma freed_nil h : freed h [] h.
Proof. intros y. by rewrite decide_False by apply not_elem_of_nil. Qed.

(** The packets [xs] of a fifo carry the datagrams [ds]. *)
Definition all_hold h (xs : list loc) (ds : list (list Z * sockunion)) : Prop :=
  Forall2 (λ x d, holds h x d.1 d.2) xs ds.

Lemma all_hold_delete h x xs ds : x ∉ xs → all_hold h xs ds → all_hold (delete x h) xs ds.
Proof.
  intros Hx Hall. induction Hall as [|y d xs ds (n & Hn & Hr) Hall IH]; [constructor |].
  constructor; [| apply IH; set_solver].
  exists n. rewrite lookup_delete_ne by set_solver. done.
Qed.

Lemma tcp_write_loop_drains xs : ∀ k h q x d ds pcount f f',
  fifo_rep h q (x :: xs) → all_hold h (x :: xs) (d :: ds) → wrote f (d :: ds).*1 f' →
  (length (x :: xs) ≤ k)%nat →
  ∃ h' q', tcp_write_loop k h q (Some x) 0 pcount f
             = Ok (pcount + Z.of_nat (length (x :: xs)), h', q', f') ∧
    fifo_rep h' q' [] ∧ freed h (x :: xs) h'.
Proof.
  induction xs as [|x' xs IH]; intros k h q x d ds pcount f f' Hr Hall Hw Hk;
    (destruct k as [|k]; [cbn in Hk; lia |]); cbn [tcp_write_loop];
    apply Forall2_cons in Hall as [Hx Hall];
    destruct (load_unread h x d.1 d.2 Hx) as (n & -> & _ & Hnum & Hrd & Hlt);
    rewrite bind_Ok, Hnum, Hrd, bind_Ok; cbn [fmap list_fmap] in Hw;
    inversion Hw as [|? ? f1 ? ? Hw1 Hw2]; subst; rewrite Hw1; cbn [write_ret];
    rewrite s32_small by (unfold_ranges; lia);
    (destruct (Z.ltb_spec (Z.of_nat (length d.1)) 0); [lia |]); rewrite Z.eqb_refl;
    destruct (packet_delete_rep h q x _ Hr) as (q1 & -> & Hr1);
    rewrite !bind_Ok; change (0 <? MISAKA_WRITE_PACKET_MAX) with true; cbv iota;
    rewrite (fifo_head_rep _ _ _ Hr1); cbn [first_ptr].
  - apply Forall2_nil_inv_l in Hall as ->. inversion Hw2; subst.
    exists (delete x h), q1. cbn [length]. split; [done |]. split; [done |].
    apply freed_cons, freed_nil.
  - pose proof Hr as (_ & Hnd & _). apply NoDup_cons in Hnd as [Hnin _].
    apply (all_hold_delete _ _ _ _ Hnin) in Hall.
    destruct ds as [|d' ds]; [by apply Forall2_nil_inv_r in Hall |].
    destruct (IH k (delete x h) q1 x' d' ds (pcount + 1) f1 f') as (h' & q' & -> & Hr' & Hf);
      [done | done | done | cbn [length] in *; lia |].
    exists h', q'. cbn [length]. split; [do 4 f_equal; cbn [length]; lia |].
    split; [done |]. by apply freed_cons.
Qed.

Lemma write_drains k h p q xs ds f f' :
  p_obuf p = Some q → fifo_rep h q xs → all_hold h xs ds → wrote f ds.*1 f' →
  (length xs ≤ k)%nat →
  ∃ h' q', tcp_write k h p f = Ok (Z.of_nat (length xs), h', set_p_obuf (Some q') p, f') ∧
    fifo_rep h' q' [] ∧ freed h xs h'.
Proof.
  intros Hq Hr Hall Hw Hk. unfold tcp_write. rewrite Hq. cbn [from_option_or].
  rewrite bind_Ok, (fifo_head_rep _ _ _ Hr). destruct xs as [|x xs]; cbn [first_ptr].
  - apply Forall2_nil_inv_l in Hall as ->. inversion Hw; subst.
    exists h, q. split; [| split; [done | apply freed_nil]].
    by destruct p; cbn in Hq |- *; subst.
  - destruct ds as [|d ds]; [by apply Forall2_nil_inv_r in Hall |].
    destruct (tcp_write_loop_drains xs k h q x d ds 0 f f') as (h' & q' & -> & ? & ?); auto.
    rewrite bind_Ok. by exists h', q'.
Qed.

(** When the kernel takes every buffer whole, tcp_write sends the unread
    bytes of all queued packets in order, one write each, frees exactly these
    packets, leaves the fifo empty and returns their number; the rounds needed
    are the packets queued. *)
Theorem tcp_write_drains k h p q xs ds f f' :
  p_obuf p = Some q → fifo_rep h q xs → all_hold h xs ds → wrote f ds.*1 f' →
  (length xs ≤ k)%nat →
  ∃ h' q', tcp_write k h p f = Ok (Z.of_nat (length xs), h', set_p_obuf (Some q') p, f') ∧
    fifo_rep h' q' [] ∧ freed h xs h'.
Proof. apply write_drains. Qed.

(** A write the kernel cuts short is repeated from the start of the packet:
    after [j] bytes were taken the whole packet is passed to the kernel again, so
    the other side receives the first [j] bytes twice. *)
Theorem tcp_write_resends k h p q x d f f1 f2 j :
  p_obuf p = Some q → fifo_rep h q [x] → holds h x d.1 d.2 →
  0 ≤ j < Z.of_nat (length d.1) → sys_write f d.1 = (Wrote j, f1) →
  sys_write f1 d.1 = (Wrote (Z.of_nat (length d.1)), f2) →
  ∃ h' q', tcp_write (S (S k)) h p f = Ok (1, h', set_p_obuf (Some q') p, f2) ∧
    fifo_rep h' q' [].
Proof.
  intros Hq Hr Hx Hj Hw1 Hw2. unfold tcp_write. rewrite Hq. cbn [from_option_or].
  rewrite bind_Ok, (fifo_head_rep _ _ _ Hr). cbn [first_ptr].
  remember (S k) as k1 eqn:Hk1. cbn [tcp_write_loop].
  destruct (load_unread h x d.1 d.2 Hx) as (n & Hload & _ & Hnum & Hrd & Hlt).
  rewrite Hload, bind_Ok, Hnum, Hrd, bind_Ok, Hw1. cbn [write_ret].
  rewrite s32_small by (unfold_ranges; lia).
  destruct (Z.ltb_spec j 0); [lia |]. destruct (Z.eqb_spec j (Z.of_nat (length d.1))); [lia |].
  rewrite bind_Ok. change (0 <? MISAKA_WRITE_PACKET_MAX) with true. cbv iota.
  rewrite (fifo_head_rep _ _ _ Hr). cbn [first_ptr].
  destruct (tcp_write_loop_drains [] k1 h q x d [] 0 f1 f2) as (h' & q' & -> & ? & ?);
    [done | by constructor | by econstructor; [| constructor] | cbn; lia |].
  rewrite bind_Ok. by exists h', q'.
Qed.

(** [sent_to f ds f']: each datagram was passed to the kernel once. *)
Inductive sent_to : descr → list (list Z * sockunion) → descr → Prop :=
| sent_nil f : sent_to f [] f
| sent_cons f d r f1 ds f2 :
    sys_sendto f d.1 d.2 = (r, f1) → sent_to f1 ds f2 → sent_to f (d :: ds) f2.

Lemma udp_write_loop_sends k : ∀ h q x xs d ds count f,
  fifo_rep h q (x :: xs) → all_hold h (x :: xs) (d :: ds) →
  count + Z.of_nat k = MISAKA_WRITE_PACKET_MAX → (0 < k)%nat →
  ∃ h' q' f', udp_write_loop k h q (Some x) count f
      = Ok (count + Z.of_nat (k `min` length (x :: xs)), h', q', f') ∧
    fifo_rep h' q' (drop k (x :: xs)) ∧ freed h (take k (x :: xs)) h' ∧
    sent_to f (take k (d :: ds)) f'.
Proof.
  induction k as [|k IH]; intros h q x xs d ds count f Hr Hall Hc Hk; [lia |].
  cbn [udp_write_loop]. apply Forall2_cons in Hall as [Hx Hall].
  destruct (load_unread h x d.1 d.2 Hx) as (n & -> & Hd & Hnum & Hrd & Hlt).
  rewrite bind_Ok, Hnum, Hrd, bind_Ok, Hd.
  destruct (sys_sendto f d.1 d.2) as [r f1] eqn:Hsend.
  destruct (packet_delete_rep h q x _ Hr) as (q1 & -> & Hr1). rewrite bind_Ok.
  cbn [take drop]. destruct (Z.ltb_spec (count + 1) MISAKA_WRITE_PACKET_MAX).
  - rewrite (fifo_head_rep _ _ _ Hr1). destruct xs as [|x' xs]; cbn [first_ptr].
    + apply Forall2_nil_inv_l in Hall as ->. exists (delete x h), q1, f1.
      rewrite take_nil, drop_nil, take_nil. cbn [length]. split; [do 4 f_equal; lia |].
      split; [done |]. split; [apply freed_cons, freed_nil |].
      econstructor; [exact Hsend | constructor].
    + pose proof Hr as (_ & Hnd & _). apply NoDup_cons in Hnd as [Hnin _].
      apply (all_hold_delete _ _ _ _ Hnin) in Hall.
      destruct ds as [|d' ds]; [by apply Forall2_nil_inv_r in Hall |].
      destruct (IH (delete x h) q1 x' xs d' ds (count + 1) f1)
        as (h' & q' & f' & -> & Hr' & Hf & Hs); [done | done | lia | lia |].
      exists h', q', f'. split; [do 4 f_equal; cbn [length]; lia |].
      split; [done |]. split; [by apply freed_cons |]. econstructor; [exact Hsend | done].
  - assert (k = 0%nat) as -> by lia. exists (delete x h), q1, f1. cbn [take drop length].
    split; [do 4 f_equal; lia |]. split; [done |]. split; [apply freed_cons, freed_nil |].
    econstructor; [exact Hsend | constructor].
Qed.

(** Udp_write passes each of the first 30 queued datagrams (or of all, if
    there are fewer) to the kernel exactly once, in order, each with its own
    destination, and frees it whatever the kernel answered; the others stay
    queued. *)
Theorem udp_write_sends_once h p q xs ds f :
  p_obuf p = Some q → fifo_rep h q xs → all_hold h xs ds →
  ∃ h' q' f', udp_write h p f
      = Ok (Z.of_nat (30 `min` length xs), h', set_p_obuf (Some q') p, f') ∧
    fifo_rep h' q' (drop 30 xs) ∧ freed h (take 30 xs) h' ∧ sent_to f (take 30 ds) f'.
Proof.
  intros Hq Hr Hall. unfold udp_write. rewrite Hq. cbn [from_option_or].
  rewrite bind_Ok, (fifo_head_rep _ _ _ Hr). destruct xs as [|x xs]; cbn [first_ptr].
  - apply Forall2_nil_inv_l in Hall as ->. exists h, q, f. cbn [take drop length].
    split; [by destruct p; cbn in Hq |- *; subst |]. split; [done |].
    split; [apply freed_nil | constructor].
  - destruct ds as [|d ds]; [by apply Forall2_nil_inv_r in Hall |].
    destruct (udp_write_loop_sends 30 h q x xs d ds 0 f) as (h' & q' & f' & He & ? & ? & ?);
      [done | done | reflexivity | lia |].
    change (Z.to_nat MISAKA_WRITE_PACKET_MAX) with 30%nat. rewrite He, bind_Ok.
    exists h', q', f'. rewrite Z.add_0_l. by split.
Qed.

End writer.

(** ** The theorems on concrete connections *)

Lemma map_u8_id bs : Forall is_u8 bs → u8 <$> bs = bs.
Proof. induction 1 as [|b bs Hb Hbs IH]; [done |]. cbn. by rewrite u8_small, IH. Qed.

(** A read takes a piece of the first chunk, or all of it. *)
Lemma script_read_chunk n c cs w caps :
  0 < n → Forall (λ c, c ≠ [] ∧ Forall is_u8 c) (c :: cs) →
  ∃ d cs', script_read (mkScript (Got <$> c :: cs) w caps) n = (Got d, mkScript (Got <$> cs') w caps) ∧
    d ≠ [] ∧ concat (c :: cs) = d ++ concat cs' ∧ Forall (λ c, c ≠ [] ∧ Forall is_u8 c) cs'.
Proof.
  intros Hn [[Hne Hu] Hcs]%Forall_cons_1. cbn [script_read sc_reads fmap list_fmap sc_written sc_caps].
  rewrite map_u8_id by auto using Forall_take.
  assert (take (Z.to_nat n) c ≠ []) as Hd. { destruct c; [done |]. destruct (Z.to_nat n) eqn:E; [lia | done]. }
  exists (take (Z.to_nat n) c). pose proof (take_drop (Z.to_nat n) c) as Hc.
  assert (Forall is_u8 (drop (Z.to_nat n) c)) as Hu' by auto using Forall_drop.
  destruct (drop (Z.to_nat n) c) as [|e es].
  - exists cs. rewrite app_nil_r in Hc. cbn [concat]. by rewrite Hc.
  - exists ((e :: es) :: cs). split; [done |]. split; [done |]. split; [| by constructor].
    cbn [concat]. by rewrite app_assoc, Hc.
Qed.

Lemma script_feeds n : ∀ cs w caps,
  length (concat cs) = n → Forall (λ c, c ≠ [] ∧ Forall is_u8 c) cs →
  feeds (K := script_kernel) (mkScript (Got <$> cs) w caps) (concat cs).
Proof.
  induction n as [n IH] using lt_wf_ind. intros cs w caps Hn Hcs.
  destruct cs as [|c cs]; [apply feeds_nil |]. apply feeds_more. intros m Hm.
  destruct (script_read_chunk m c cs w caps Hm Hcs) as (d & cs' & Hread & Hd & Heq & Hcs').
  exists d, (concat cs'), (mkScript (Got <$> cs') w caps). split; [done |]. split; [done |]. split; [done |].
  apply (IH (length (concat cs'))); [| done | done]. rewrite <- Hn, Heq, length_app. destruct d; [done | cbn; lia].
Qed.

Lemma encode_u8 size fr : frame_ok size fr → Forall is_u8 (encode fr).
Proof. intros (_ & _ & _ & Hu & _). apply Forall_app_2; [apply header_bytes_u8 | done]. Qed.

Definition frame_a : frame := mkFrame (mkHeader 3 1 2 1 0 5 3) [11; 12; 13].
Definition frame_b : frame := mkFrame (mkHeader 3 (-1) 2 1 0 6 1) [14].

Lemma frames_ok : Forall (frame_ok 64) [frame_a; frame_b].
Proof.
  repeat (apply Forall_cons_2; [split; [| split; [reflexivity |]; split; [discriminate |]; split] |]);
    try constructor; cbn [fr_head frame_a frame_b fr_body hd_len]; try lia;
    unfold header_words; cbn [fr_head frame_a frame_b hd_nid hd_src hd_dst hd_type hd_sid hd_seq hd_len];
    repeat (apply Forall_cons_2; [unfold is_s32, is_u8; lia |]); try constructor; unfold is_s32, is_u8; lia.
Qed.

(** A peer that is about to read a header. *)
Definition reader_peer : peer (L := record_libev) Empty_set :=
  normal_parser_init
    (set_p_parser (Some normal_parser_init_p)
      (set_p_unpack (Some normal_parser_unpack_p) (blank_peer (L := record_libev)))).

Lemma reader_peer_idle : idle 64 (blank_stream 64) reader_peer.
Proof. intros fr. constructor; try done. by apply blank_stream_sane. Qed.

(** The two frames in three pieces that do not respect their limits. *)
Definition pieces : list (list Z) :=
  let w := [frame_a; frame_b] ≫= encode in [take 20 w; take 30 (drop 20 w); drop 50 w].

Definition connection : script := mkScript (Got <$> pieces) [] [].

Lemma connection_feeds : feeds (K := script_kernel) connection ([frame_a; frame_b] ≫= encode).
Proof.
  change ([frame_a; frame_b] ≫= encode) with (concat pieces).
  apply (script_feeds (length (concat pieces))); [done |].
  assert (Forall is_u8 ([frame_a; frame_b] ≫= encode)) as Hu.
  { pose proof frames_ok as Hok. apply Forall_cons_1 in Hok as [Ha Hok].
    apply Forall_cons_1 in Hok as [Hb _].
    apply Forall_app_2; [by eapply encode_u8 |]. apply Forall_app_2; [by eapply encode_u8 |].
    constructor. }
  unfold pieces. cbv zeta.
  repeat (apply Forall_cons_2;
            [split; [by vm_compute | repeat first [exact Hu | apply Forall_take | apply Forall_drop]] |]).
  constructor.
Qed.

Lemma tcp_reader_reassembles_witness :
  ∃ k s' p' f', (k ≤ length ([frame_a; frame_b] ≫= encode))%nat ∧
    read_rounds (K := script_kernel) k (blank_stream 64) reader_peer connection
      = Ok ([frame_a; frame_b], s', p', f') ∧ idle 64 s' p'.
Proof.
  exact (tcp_reader_reassembles (K := script_kernel) 64 [frame_a; frame_b] (blank_stream 64)
           reader_peer connection ltac:(lia) reader_peer_idle frames_ok connection_feeds).
Defined.

(** The reader after the header of the first frame and one byte of its body. *)
Definition mid_stream : stream :=
  pushed (decoded (pushed (blank_stream 64) (header_bytes (fr_head frame_a))) (fr_head frame_a)) [11].
Definition mid_peer : peer (L := record_libev) Empty_set :=
  set_p_packet_size 2 (set_p_body_size 3 reader_peer).

Lemma mid_reading : reading 64 mid_stream mid_peer frame_a (header_bytes (fr_head frame_a) ++ [11]).
Proof.
  assert (sane (pushed (blank_stream 64) (header_bytes (fr_head frame_a)))) as H1.
  { apply pushed_sane; [by apply blank_stream_sane | apply header_bytes_u8 | by vm_compute]. }
  constructor; try done.
  apply pushed_sane; [| repeat constructor; lia | by vm_compute].
  apply set_getp_sane; [| by vm_compute].
  eapply same_buffer_sane; [| exact H1]. repeat split.
Qed.

Lemma mid_prefix :
  (header_bytes (fr_head frame_a) ++ [11]) `prefix_of` encode frame_a ∧
  header_bytes (fr_head frame_a) ++ [11] ≠ encode frame_a.
Proof. split; [exists [12; 13]; reflexivity | by vm_compute]. Qed.

Lemma tcp_read_retry_truncates_witness :
  read_event (K := script_kernel) mid_stream mid_peer (mkScript [ReadErr EAGAIN] [] [])
    = Ok (IO_PACKET, mid_stream, mid_peer, mkScript [] [] []) ∧
  unread mid_stream = [11] ∧ 1 < 3.
Proof.
  exact (tcp_read_retry_truncates (K := script_kernel) 64 mid_stream mid_peer frame_a
           (header_bytes (fr_head frame_a) ++ [11]) (mkScript [ReadErr EAGAIN] [] []) EAGAIN
           (mkScript [] [] []) ltac:(lia) (proj1 (proj1 (Forall_cons _ _ _) frames_ok)) mid_reading
           (proj1 mid_prefix) (proj2 mid_prefix) ltac:(by vm_compute) eq_refl eq_refl).
Defined.

Lemma tcp_read_ignores_eof_witness :
  ∃ s' p', read_event (K := script_kernel) mid_stream mid_peer (mkScript [] [] [])
             = Ok (IO_PARTIAL, s', p', mkScript [] [] []) ∧
    reading 64 s' p' frame_a (header_bytes (fr_head frame_a) ++ [11]).
Proof.
  exact (tcp_read_ignores_eof (K := script_kernel) 64 mid_stream mid_peer frame_a
           (header_bytes (fr_head frame_a) ++ [11]) (mkScript [] [] []) (mkScript [] [] [])
           ltac:(lia) (proj1 (proj1 (Forall_cons _ _ _) frames_ok)) mid_reading
           (proj1 mid_prefix) (proj2 mid_prefix) eq_refl).
Defined.

(** A header that announces a body of -1 bytes. *)
Definition hostile : script := mkScript [Got (header_bytes (mkHeader 3 1 2 1 0 5 (-1)))] [] [].

Lemma tcp_reader_safe_witness :
  ∃ frs s' p' f', read_rounds (K := script_kernel) 3 (blank_stream 64) reader_peer hostile
                    = Ok (frs, s', p', f') ∧ reader_ok 64 s' p'.
Proof.
  apply (tcp_reader_safe (K := script_kernel) 3 64).
  split; [by apply blank_stream_sane |]. split; [reflexivity |]. split; [lia |].
  split; [by vm_compute | reflexivity].
Defined.

(** A fifo with two packets. *)
Definition out_heap : gmap loc stream :=
  <[1%positive := set_next (Some 2%positive) (packet_with [1; 2; 3; 4])]>
    (<[2%positive := packet_with [5; 6]]> ∅).
Definition out_fifo : stream_fifo := mkFifo 2 (Some 1%positive) (Some 2%positive).
Definition out_peer : peer (L := record_libev) Empty_set :=
  set_p_obuf (Some out_fifo) (blank_peer (L := record_libev)).

Lemma out_fifo_rep : fifo_rep out_heap out_fifo [1%positive; 2%positive].
Proof.
  split; [| split; [| by split]].
  - cbn. split; [| split; [| done]]; eexists; (split; [reflexivity | reflexivity]).
  - apply NoDup_cons. split; [set_solver | apply NoDup_singleton].
Qed.

Lemma packet_with_holds h x nx bs :
  h !! x = Some (set_next nx (packet_with bs)) → Forall is_u8 bs → Z.of_nat (length bs) ≤ 64 →
  holds h x bs (mkSockunion 0 0 0).
Proof.
  intros Hx Hu Hl. eexists. split; [exact Hx |].
  pose proof (packet_with_sane bs Hu Hl) as Hs. split; [done |]. split; [by vm_compute |].
  split; [| done]. change (unread (set_next nx (packet_with bs))) with
    (drop 0 (content (pushed (blank_stream 64) bs))).
  rewrite drop_0, pushed_content; [done | by apply blank_stream_sane | cbn; lia].
Qed.

Lemma out_holds :
  all_hold out_heap [1%positive; 2%positive]
    [([1; 2; 3; 4], mkSockunion 0 0 0); ([5; 6], mkSockunion 0 0 0)].
Proof.
  repeat (apply Forall2_cons; split); [| | constructor].
  - apply (packet_with_holds _ _ (Some 2%positive)); [reflexivity | | cbn; lia].
    repeat (apply Forall_cons_2; [unfold is_u8; lia |]); constructor.
  - apply (packet_with_holds _ _ None); [reflexivity | | cbn; lia].
    repeat (apply Forall_cons_2; [unfold is_u8; lia |]); constructor.
Qed.

Lemma tcp_write_drains_witness :
  ∃ h' q', tcp_write (K := script_kernel) 2 out_heap out_peer (mkScript [] [] [])
      = Ok (2, h', set_p_obuf (Some q') out_peer, mkScript [] [1; 2; 3; 4; 5; 6] []) ∧
    fifo_rep h' q' [] ∧ freed out_heap [1%positive; 2%positive] h'.
Proof.
  apply (tcp_write_drains (K := script_kernel) 2 out_heap out_peer out_fifo
           [1%positive; 2%positive] _ (mkScript [] [] []) _ eq_refl out_fifo_rep out_holds).
  - repeat (econstructor; [reflexivity |]). constructor.
  - cbn. lia.
Defined.

Lemma tcp_write_resends_witness :
  let h := <[2%positive := packet_with [5; 6; 7]]> ∅ in
  let q := mkFifo 1 (Some 2%positive) (Some 2%positive) in
  let p := set_p_obuf (Some q) (blank_peer (L := record_libev)) in
  ∃ h' q', tcp_write (K := script_kernel) 2 h p (mkScript [] [] [2%nat])
      = Ok (1, h', set_p_obuf (Some q') p, mkScript [] [5; 6; 5; 6; 7] []) ∧
    fifo_rep h' q' [].
Proof.
  intros h q p.
  apply (tcp_write_resends (K := script_kernel) 0 h p q 2%positive
           ([5; 6; 7], mkSockunion 0 0 0) _ (mkScript [] [5; 6] []) _ 2); try reflexivity.
  - split; [| split; [apply NoDup_singleton | by split]].
    cbn. split; [| done]. eexists. split; reflexivity.
  - apply (packet_with_holds _ _ None); [reflexivity | | cbn; lia].
    repeat (apply Forall_cons_2; [unfold is_u8; lia |]); constructor.
  - cbn. lia.
Defined.

Lemma udp_write_sends_once_witness :
  ∃ h' q' f', udp_write (K := script_kernel) out_heap out_peer (mkScript [] [] [1%nat])
      = Ok (2, h', set_p_obuf (Some q') out_peer, f') ∧
    fifo_rep h' q' [] ∧ freed out_heap [1%positive; 2%positive] h' ∧
    sent_to (K := script_kernel) (mkScript [] [] [1%nat])
      [([1; 2; 3; 4], mkSockunion 0 0 0); ([5; 6], mkSockunion 0 0 0)] f'.
Proof.
  exact (udp_write_sends_once (K := script_kernel) out_heap out_peer out_fifo
           [1%positive; 2%positive] _ (mkScript [] [] [1%nat]) eq_refl out_fifo_rep out_holds).
Defined.
