(* ===== verification/LinkTypes.v ===== *)
(** The C types of what the packet path computes: whatever the network delivers,
    the fields of a packet and of its peer keep values of their declared types, the
    buffer keeps its offsets, and no event faults.  The model uses unbounded
    integers; this is why it may. *)

From S2P Require Import Prelude Memory Sockunion Stream StreamFacts Fifo Peer Network Parser Link LinkFacts.

Local Open Scope Z_scope.

Section types.
Context {K : Kernel} {L : Libev} {disparser_fn : Type}.
Implicit Types (s : stream) (p : peer disparser_fn) (f : descr).

(** ** Types *)

(** The fields of struct stream that are [int], and those of struct peer *)
Definition stream_ints s : list Z :=
  [s_type s; s_stype s; s_plen s; s_rlen s; s_flag s; s_src s; s_dst s; s_mark s;
   s_interval s; s_repeat s; s_nid s; s_sid s; s_seq s].

Definition peer_ints p : list Z :=
  [p_header_size p; p_body_size p; p_fd p; p_id p; p_old p; p_type p; p_status p; p_mode p; p_role p;
   p_drole p; p_quick p; p_reconnect p; p_sys p; p_listens p; p_maxcount p; p_on_connect p;
   p_on_disconnect p; p_rcount p; p_scount p].

Record typed_stream s : Prop := {
  ty_sane : sane s;
  ty_size : s_size s < 2 ^ 31;
  ty_ints : Forall is_s32 (stream_ints s)
}.

(** A peer whose packets are parsed and packed: the two callbacks are not NULL. *)
Record typed_peer p : Prop := {
  ty_peer_ints : Forall is_s32 (peer_ints p);
  ty_port : is_u16 (p_port p);
  ty_v_connect : is_u32 (p_v_connect p);
  ty_packet_size : is_u64 (p_packet_size p);
  ty_calls : is_Some (p_parser p) ∧ is_Some (p_pack p)
}.

Lemma typed_pushed s bs : typed_stream s → sane (pushed s bs) → typed_stream (pushed s bs).
Proof. by intros [_ ? ?]; constructor. Qed.

Lemma typed_getp s n : typed_stream s → 0 ≤ n ≤ s_endp s → typed_stream (set_getp n s).
Proof. intros [? ? ?]; constructor; [by apply set_getp_sane | done | done]. Qed.

Lemma typed_try s size r n s' : typed_stream s → try_spec s size r n s' → typed_stream s'.
Proof. destruct r; cbn; intros Hs H; [| by destruct H as [-> _]]. destruct H as (_ & _ & -> & ?). by apply typed_pushed. Qed.

Lemma typed_packet_size p n : typed_peer p → is_u64 n → typed_peer (set_p_packet_size n p).
Proof. by intros [? ? ? ? ?]; constructor. Qed.

(** The assignments of the parser and of the handler *)
Definition int_field (set : Z → stream → stream) : Prop :=
  (∀ v s, same_buffer (set v s) s) ∧
  (∀ v s, Forall is_s32 (stream_ints s) → is_s32 v → Forall is_s32 (stream_ints (set v s))).

Ltac field := split; [intros ? ?; by repeat split |]; intros ? ?; unfold stream_ints; rewrite !Forall_cons; intuition.

Lemma header_fields :
  Forall int_field [set_nid; set_src; set_dst; set_type; set_sid; set_seq].
Proof. repeat apply Forall_cons_2; [field .. | constructor]. Qed.

Lemma typed_field s v set : int_field set → typed_stream s → is_s32 v → typed_stream (set v s).
Proof.
  intros [Hb Hi] [Hs Hz Ht] Hv. constructor; [by eapply same_buffer_sane | | by apply Hi].
  by destruct (Hb v s) as (_ & _ & -> & _).
Qed.

Lemma getl_int_typed set s :
  int_field set → typed_stream s → ∃ s', getl_int set s = Ok s' ∧ typed_stream s'.
Proof.
  intros Hset Hs. unfold getl_int. rewrite (stream_getl_spec s (ty_sane _ Hs)). pose proof (ty_sane _ Hs) as (? & ? & _).
  change (Z.of_nat 4) with 4. case_cmp; rewrite bind_Ok; eexists; (split; [reflexivity |]);
    apply typed_field; auto using s32_range. apply typed_getp; [done | lia].
Qed.

(** ** Operations *)

Lemma unpack_typed s p :
  typed_stream s → typed_peer p →
  ∃ r s' p', normal_parser_unpack s p = Ok (r, s', p') ∧ typed_stream s' ∧ typed_peer p'.
Proof.
  intros Hs Hp. pose proof Hs as [(? & ? & ? & Hd & _) Hz _]. unfold normal_parser_unpack.
  destruct (Z.eqb_spec (p_body_size p) 0); [| eauto 10]. cbv zeta.
  unfold stream_get_endp, stream_get_getp. rewrite u64_small by (unfold_ranges; lia).
  rewrite s32_small by (unfold_ranges; lia). unfold MAGIC_HEADER_SIZE, MAGIC_STR_SIZE.
  case_cmp; [eauto 10 |]. rewrite rd_block_Ok, bind_Ok by lia.
  case_decide; [eauto 10 |]. rewrite u64_small by (unfold_ranges; lia).
  assert (typed_stream (set_getp (s_getp s + 4) s)) as H4 by (apply typed_getp; [done | lia]).
  revert H4. generalize (set_getp (s_getp s + 4) s). clear Hs Hz Hd. intros t Ht.
  pose proof header_fields as Hf. rewrite !Forall_cons in Hf. destruct Hf as (F1 & F2 & F3 & F4 & F5 & F6 & _).
  do 6 (lazymatch goal with Ht : typed_stream ?t |- context [getl_int ?set ?t] =>
          destruct (getl_int_typed set t) as (?t & -> & ?Ht); [done | done | rewrite bind_Ok; clear Ht] end).
  lazymatch goal with Ht : typed_stream ?t |- context [stream_getl ?t] =>
    rewrite (stream_getl_spec t (ty_sane _ Ht)); pose proof (ty_sane _ Ht) as (? & ? & _) end.
  assert (∀ l, typed_peer (set_p_packet_size (u64 (s32 l)) (set_p_body_size (s32 l) p))) as Hp'.
  { intros l. apply typed_packet_size; [| apply u64_range]. destruct Hp as [Hi ? ? ? ?]. constructor; try done.
    revert Hi. unfold peer_ints. rewrite !Forall_cons. pose proof (s32_range l). intuition. }
  change (Z.of_nat 4) with 4. case_cmp; rewrite bind_Ok; eexists _, _, _; (split; [reflexivity |]); split; try done.
  apply typed_getp; [done | lia].
Qed.

Lemma check_typed r s p :
  typed_stream s → typed_peer p →
  ∃ r' s' p', check_packet r s p = Ok (r', s', p') ∧ typed_stream s' ∧ typed_peer p'.
Proof.
  intros Hs Hp. unfold check_packet. destruct r; eauto 10. destruct (p_unpack p) as [[] |]; eauto 10.
  by apply unpack_typed.
Qed.

Lemma tcp_read_typed s p f :
  typed_stream s → typed_peer p →
  ∃ r s' p' f', tcp_read s p f = Ok (r, s', p', f') ∧ typed_stream s' ∧ typed_peer p'.
Proof.
  intros Hs Hp. pose proof (stream_read_try_spec s f (p_packet_size p) (ty_sane _ Hs) (proj1 (ty_packet_size _ Hp))) as Ht.
  unfold tcp_read. destruct (_ <? _); [rewrite Ht, bind_Ok; eauto 10 |].
  destruct Ht as (n & s' & -> & Ht). rewrite bind_Ok. apply typed_try in Ht; [| done]. cbv zeta.
  assert (typed_peer (set_p_packet_size (u64 (p_packet_size p - s32 n)) p)) by (apply typed_packet_size; auto using u64_range).
  repeat case_match; eauto 10.
Qed.

(** The reads of the datagram links: the result is not looked at. *)
Lemma udp_read_typed s p f :
  typed_stream s → typed_peer p →
  ∃ r s' p' f', udp_read s p f = Ok (r, s', p', f') ∧ typed_stream s' ∧ typed_peer p'.
Proof.
  intros Hs Hp. unfold udp_read. set (p1 := set_p_packet_size MISAKA_MAX_PACKET_SIZE p).
  assert (typed_peer p1) as Hp1 by (by apply typed_packet_size).
  pose proof (stream_recvfrom_appends s f (p_packet_size p1) 0 (p_dsu p1) (ty_sane _ Hs) (proj1 (ty_packet_size _ Hp1))) as Ht.
  destruct (_ <? _); [rewrite Ht, bind_Ok | destruct Ht as (n & s' & r & a & f' & _ & -> & Ht); rewrite bind_Ok];
    (eexists _, _, _, _; split; [reflexivity |]; split; [| done]).
  - by destruct Hs; constructor.
  - apply typed_try in Ht as [? ? ?]; [| done]. by constructor.
Qed.

Lemma recvfrom_un_typed s f n fl a :
  typed_stream s → 0 ≤ n → ∃ k s' a' f', stream_recvfrom_un s f n fl a = Ok (k, s', a', f') ∧ typed_stream s'.
Proof.
  intros Hs Hn. unfold stream_recvfrom_un. rewrite (WRITEABLE_sane s (ty_sane _ Hs)).
  destruct (Z.ltb_spec (s_size s - s_endp s) n); [eauto 10 |].
  destruct (sys_recvfrom_un f n fl a) as [[[bs | en] a'] f'] eqn:Hr.
  - destruct (sys_recvfrom_un_bound _ _ _ _ _ _ _ Hn Hr) as [Hb Hu]. pose proof (ty_sane _ Hs) as (? & ? & ? & _).
    rewrite read_at_endp_Got, bind_Ok by (try apply Hs; lia). cbn [try_result read_ret s_endp set_data].
    rewrite u64_small by (unfold_ranges; lia). eexists _, _, _, _. split; [reflexivity |].
    apply (typed_pushed s bs Hs). apply pushed_sane; [apply Hs | done | lia].
  - cbn [read_at_endp try_result]. rewrite bind_Ok. destruct (ERRNO_IO_RETRY en); eauto 10.
Qed.

Lemma default_size_typed p :
  typed_peer p → typed_peer (if p_packet_size p =? 0 then set_p_packet_size MISAKA_MAX_PACKET_SIZE p else p).
Proof. intros Hp. case_match; [by apply typed_packet_size | done]. Qed.

Lemma ludp_read_typed s p f :
  typed_stream s → typed_peer p →
  ∃ r s' p' f', ludp_read s p f = Ok (r, s', p', f') ∧ typed_stream s' ∧ typed_peer p'.
Proof.
  intros Hs Hp%default_size_typed. unfold ludp_read. cbv zeta.
  destruct (recvfrom_un_typed s f MISAKA_MAX_PACKET_SIZE 0
    (p_lsu (if p_packet_size p =? 0 then set_p_packet_size MISAKA_MAX_PACKET_SIZE p else p)) Hs ltac:(done))
    as (k & s' & a' & f' & -> & Hs'). rewrite bind_Ok. eexists _, _, _, _. split; [reflexivity |]. split; [done |].
  by apply typed_packet_size.
Qed.

(** readn may store bytes and still return -1: the block changes, endp does not. *)
Lemma stream_read_typed s f n :
  typed_stream s → 0 ≤ n → ∃ k s' f', stream_read s f n = Ok (k, s', f') ∧ typed_stream s'.
Proof.
  intros Hs Hn. unfold stream_read. rewrite (WRITEABLE_sane s (ty_sane _ Hs)).
  destruct (Z.ltb_spec (s_size s - s_endp s) n) as [| Hroom]; [eauto 10 |].
  pose proof Hs as [(? & ? & ? & Hd & Hu) Hz Hi]. rewrite s32_small by (unfold_ranges; lia).
  destruct (readn_loop_spec (S (Z.to_nat n)) f (s_data s) (s_endp s) n n)
    as (r & bs & f0 & f' & Hl & _ & Hub & Hlen & Hend); [lia | lia | lia |].
  unfold readn. rewrite Hl, bind_Ok. eexists _, _, _. split; [reflexivity |].
  assert (sane (pushed s bs)) as Hp by (apply pushed_sane; [apply Hs | done | lia]).
  assert (r = Z.of_nat (length bs) ∨ r = -1) as [-> | ->] by (inversion Hend; [left; lia | left; lia | by right]).
  - destruct (Z.ltb_spec 0 (Z.of_nat (length bs))).
    + cbn [s_endp set_data]. rewrite u64_small by (unfold_ranges; lia). by apply typed_pushed.
    + destruct bs; [| cbn in *; lia]. rewrite splice_nil. by destruct s.
  - destruct Hp as (_ & _ & _ & ? & ?). constructor; [| done | done]. cbn [Z.ltb Z.compare].
    unfold sane. cbn [s_getp s_endp s_size s_data set_data]. split_and!; first [done | lia].
Qed.

Lemma sdio_read_typed s p f :
  typed_stream s → typed_peer p →
  ∃ r s' p' f', sdio_read s p f = Ok (r, s', p', f') ∧ typed_stream s' ∧ typed_peer p'.
Proof.
  intros Hs Hp%default_size_typed. unfold sdio_read. cbv zeta. 
  set (p1 := if p_packet_size p =? 0 then set_p_packet_size MISAKA_MAX_PACKET_SIZE p else p) in *.
  destruct (stream_read_typed s f (p_packet_size p1) Hs (proj1 (ty_packet_size _ Hp))) as (k & s' & f' & -> & Hs').
  rewrite bind_Ok. eauto 10.
Qed.

(** Packing appends as much of the header as fits. *)
Lemma putl_int_typed s v : typed_stream s → ∃ s', putl_int v s = Ok s' ∧ typed_stream s'.
Proof.
  intros Hs. unfold putl_int. rewrite (stream_putl_spec s (u32 v) (ty_sane _ Hs)). change (Z.of_nat 4) with 4.
  case_cmp; rewrite bind_Ok; [eauto |]. eexists. split; [reflexivity |].
  apply typed_pushed; [done |]. apply pushed_sane; [apply Hs | apply be_bytes_u8 |]. rewrite length_be_bytes. lia.
Qed.

Lemma pack_typed s p :
  typed_stream s → typed_peer p →
  ∃ r s', call_pack s p = Ok (r, s', p) ∧ typed_stream s'.
Proof.
  intros Hs Hp. unfold call_pack. destruct (ty_calls _ Hp) as [_ [fn ->]]. destruct fn; [unfold peer_default_pack; eauto |].
  unfold normal_parser_pack. cbv zeta. generalize (s32 (u64 (stream_get_endp s - stream_get_getp s))). intros len.
  pose proof (ty_sane _ Hs) as (? & ? & _).
  assert (typed_stream (set_getp 0 s)) as Hz by (apply typed_getp; [done | lia]).
  rewrite stream_put_spec; [| apply Hz | by vm_compute | by vm_compute]. pose proof (ty_size _ Hz).
  pose proof (ty_sane _ Hz) as (? & ? & _). unfold MAGIC_STR_SIZE. case_cmp; [lia |]. rewrite bind_Ok.
  assert (typed_stream (pushed (set_getp 0 s) (take (Z.to_nat (Z.min 4 (s_size (set_getp 0 s) - s_endp (set_getp 0 s)))) MAGIC_STR))) as Hm.
  { apply typed_pushed; [done |]. apply pushed_sane; [apply Hz | | rewrite length_take; lia].
    apply Forall_take. unfold MAGIC_STR. cbn. repeat (apply Forall_cons_2; [unfold is_u8; lia |]). constructor. }
  revert Hm. generalize (pushed (set_getp 0 s) (take (Z.to_nat (Z.min 4 (s_size (set_getp 0 s) - s_endp (set_getp 0 s)))) MAGIC_STR)).
  intros t Ht.
  do 7 (lazymatch goal with Ht : typed_stream ?t |- context [putl_int ?v ?t] =>
          destruct (putl_int_typed t v Ht) as (?t & -> & ?Ht); rewrite bind_Ok end).
  eexists _, _. split; [reflexivity |]. lazymatch goal with Ht : typed_stream ?t |- typed_stream (set_getp 0 ?t) =>
    apply typed_getp; [done |]; pose proof (ty_sane _ Ht) as (? & ? & _) end. lia.
Qed.

(** ** Sequences of events *)

(** What happens to a packet: a read event of a link, packing for the wire, the
    reset of the input buffer after a packet, the echo handler. *)
Inductive packet_event := PeTcp | PeUdp | PeLudp | PeSdio | PePack | PeNext | PeEcho.

Definition packet_step (e : packet_event) s p f : res (stream * peer disparser_fn * descr) :=
  let read r := '(ret, s, p, f) ← r; '(_, s, p) ← check_packet ret s p; Ok (s, p, f) in
  match e with
  | PeTcp => read (tcp_read s p f)
  | PeUdp => read (udp_read s p f)
  | PeLudp => read (ludp_read s p f)
  | PeSdio => read (sdio_read s p f)
  | PePack => '(_, s, p) ← call_pack s p; Ok (s, p, f)
  | PeNext => '(s, p) ← next_packet s p; Ok (s, p, f)
  | PeEcho => Ok (misaka_handle s, p, f)
  end.

Fixpoint packet_run (es : list packet_event) s p f : res (stream * peer disparser_fn * descr) :=
  match es with
  | [] => Ok (s, p, f)
  | e :: es => '(s, p, f) ← packet_step e s p f; packet_run es s p f
  end.

Definition typed_result (r : res (stream * peer disparser_fn * descr)) : Prop :=
  ∃ s p f, r = Ok (s, p, f) ∧ typed_stream s ∧ typed_peer p.

Lemma read_typed (r : res (io_tat * stream * peer disparser_fn * descr)) :
  (∃ t s p f, r = Ok (t, s, p, f) ∧ typed_stream s ∧ typed_peer p) →
  typed_result ('(ret, s, p, f) ← r; '(_, s, p) ← check_packet ret s p; Ok (s, p, f)).
Proof.
  intros (t & s & p & f & -> & Hs & Hp). rewrite bind_Ok.
  destruct (check_typed t s p Hs Hp) as (t' & s' & p' & -> & Hs' & Hp'). rewrite bind_Ok. by exists s', p', f.
Qed.

Lemma next_typed s p : typed_stream s → typed_peer p →
  ∃ s' p', next_packet s p = Ok (s', p') ∧ typed_stream s' ∧ typed_peer p'.
Proof.
  intros [(? & ? & ? & ? & ?) Hz Hi] [Hpi ? ? ? [[fn Hfn] ?]]. unfold next_packet, call_parser. rewrite Hfn. destruct fn.
  rewrite bind_Ok. eexists _, _. split; [reflexivity |]. split.
  - constructor; [| done | done]. unfold sane. cbn [s_getp s_endp s_size s_data stream_reset set_getp set_endp].
    split_and!; first [done | lia].
  - constructor; try done.
    revert Hpi. unfold peer_ints. cbn. rewrite !Forall_cons. assert (is_s32 MAGIC_HEADER_SIZE ∧ is_s32 0) by (by vm_compute). intuition.
Qed.

Lemma packet_step_typed e s p f :
  typed_stream s → typed_peer p → typed_result (packet_step e s p f).
Proof.
  intros Hs Hp. destruct e; cbn [packet_step].
  - apply read_typed, tcp_read_typed; done.
  - apply read_typed, udp_read_typed; done.
  - apply read_typed, ludp_read_typed; done.
  - apply read_typed, sdio_read_typed; done.
  - destruct (pack_typed s p Hs Hp) as (r & s' & -> & Hs'). rewrite bind_Ok. by exists s', p, f.
  - destruct (next_typed s p Hs Hp) as (s' & p' & -> & Hs' & Hp'). rewrite bind_Ok. by exists s', p', f.
  - eexists _, _, _. split; [reflexivity |]. split; [| done]. pose proof header_fields as Hf. rewrite !Forall_cons in Hf.
    destruct Hf as (_ & Fs & Fd & Ft & _). pose proof (ty_ints _ Hs) as Hi. unfold stream_ints in Hi. rewrite !Forall_cons in Hi.
    destruct Hi as (_ & _ & _ & _ & _ & Hsrc & Hdst & _).
    unfold misaka_handle. apply typed_field; [done | | by vm_compute]. apply typed_field; [done | | done]. by apply typed_field.
Qed.

(** C17: the packet path is well typed.  Whatever a descriptor delivers and whichever
    link, parser and packer the peer has, every sequence of read events, packings,
    resets and answers of the echo handler runs without a fault, and the fields of
    the packet and of the peer still hold values of their declared C types: the
    [int] fields taken from the wire fit in 32 bits, also for a body length that is
    negative or enormous, packet_size in an unsigned long, the offsets are in order
    and inside the block, and the block holds bytes. *)
Theorem packet_path_typed es s p f :
  typed_stream s → typed_peer p →
  ∃ s' p' f', packet_run es s p f = Ok (s', p', f') ∧ typed_stream s' ∧ typed_peer p'.
Proof.
  revert s p f. induction es as [| e es IH]; intros s p f Hs Hp; [by exists s, p, f |]. cbn [packet_run].
  destruct (packet_step_typed e s p f Hs Hp) as (s1 & p1 & f1 & -> & Hs1 & Hp1). rewrite bind_Ok. by apply IH.
Qed.
End types.

(** A peer with the parser and the packer of the wire format reads a header that
    announces -1 bytes, is read again, and packs. *)
Lemma packet_path_typed_witness :
  let run := packet_run (K := script_kernel) [PeTcp; PeTcp; PePack; PeNext; PeUdp; PeEcho] in
  let p := set_p_pack (Some normal_parser_pack_p) reader_peer in
  ∃ s' p' f', run (blank_stream 64) p hostile = Ok (s', p', f') ∧ typed_stream s' ∧ typed_peer p'.
Proof.
  apply (packet_path_typed (K := script_kernel)).
  - constructor; [by apply blank_stream_sane | done |]. repeat (apply Forall_cons_2; [by vm_compute |]). constructor.
  - constructor; [| by vm_compute .. | by split; eexists].
    repeat (apply Forall_cons_2; [by vm_compute |]). constructor.
Defined.
