(* ===== verification/Core.v ===== *)
(** The core of the server: lib/core.c, the life of a peer and the way of a
    packet.

    The handlers of the event loop run one after the other, so each is a
    function on the [world], the state the C code keeps in misaka_servant, in
    the peers and in the packets.  A peer is a cell of a heap; so are packets,
    list nodes and hash backets.  The descriptors are those of the kernel of
    Network.v, the watchers those of the libev of Peer.v.  Code that is loaded
    at run time is a parameter: what an application stored in [disparser], and
    what a Lua or Python script returns. *)

From S2P Require Import Prelude Memory Cstring Sockunion Stream StreamFacts Fifo Linklist Hash Mq Sched.
From S2P Require Import Peer Network Parser Link IdMaker.

Local Open Scope Z_scope.

(** ** Data *)

(** What the hash table of peers is asked with: a peer on the heap, or a local
    [struct peer] of the caller in which only [drole] was set. *)
Inductive peer_ref := PeerAt (l : loc) | LocalPeer (drole : Z).

(** enum PLUGIN_TYPE *)
Inductive plugin := NONE_PLUGIN_TYPE | C_PLUGIN_TYPE | LUA_PLUGIN_TYPE | PYTHON_PLUGIN_TYPE.

(** struct event_handle: the C handlers are those of task/echo_task.c. *)
Inductive func_fn := misaka_handle_p.
Inductive connect_fn := misaka_connect_p.
Inductive disconnect_fn := misaka_disconnect_p.

Record event_handle := mkHandle {
  eh_path : list Z;
  eh_func : option func_fn;
  eh_init : bool;                        (* the pointer is not NULL *)
  eh_deinit : bool;
  eh_connect : option connect_fn;
  eh_disconnect : option disconnect_fn;
  eh_lhandle : bool;
  eh_chandle : bool;
  eh_type : Z;
  eh_plug : plugin
}.

Definition set_eh_plug (v : plugin) (e : event_handle) : event_handle :=
  mkHandle (eh_path e) (eh_func e) (eh_init e) (eh_deinit e) (eh_connect e) (eh_disconnect e)
    (eh_lhandle e) (eh_chandle e) (eh_type e) v.
Definition set_eh_type (v : Z) (e : event_handle) : event_handle :=
  mkHandle (eh_path e) (eh_func e) (eh_init e) (eh_deinit e) (eh_connect e) (eh_disconnect e)
    (eh_lhandle e) (eh_chandle e) v (eh_plug e).
Definition set_eh_path (v : list Z) (e : event_handle) : event_handle :=
  mkHandle v (eh_func e) (eh_init e) (eh_deinit e) (eh_connect e) (eh_disconnect e)
    (eh_lhandle e) (eh_chandle e) (eh_type e) (eh_plug e).
Definition set_eh_symbols (func : option func_fn) (init deinit : bool) (c : option connect_fn)
    (d : option disconnect_fn) (e : event_handle) : event_handle :=
  mkHandle (eh_path e) func init deinit c d (eh_lhandle e) (eh_chandle e) (eh_type e) (eh_plug e).
Definition set_eh_lhandle (v : bool) (e : event_handle) : event_handle :=
  mkHandle (eh_path e) (eh_func e) (eh_init e) (eh_deinit e) (eh_connect e) (eh_disconnect e)
    v (eh_chandle e) (eh_type e) (eh_plug e).
Definition set_eh_chandle (v : bool) (e : event_handle) : event_handle :=
  mkHandle (eh_path e) (eh_func e) (eh_init e) (eh_deinit e) (eh_connect e) (eh_disconnect e)
    (eh_lhandle e) v (eh_type e) (eh_plug e).

(** What malloc returns for the structure and the block of a new packet. *)
Class StreamAllocator := {
  salloc : gmap loc stream → allocation;
  salloc_fresh h l o b : salloc h = (Some (l, o), b) → h !! l = None;
  salloc_block h a d : salloc h = (a, Some d) → block_of MISAKA_MAX_PACKET_SIZE d
}.

(** What a Lua handler returns for the type, source, destination and
    payload of a packet: nothing if the call failed. *)
Definition script_fn : Type := Z → Z → Z → list Z → option (Z * Z * Z * list Z).

(** What the call of a Python handler and PyArg_ParseTuple leave in the type,
    source and destination of the packet and in the array [payload]. *)
Definition python_fn : Type := Z → Z → Z → list Z → Z * Z * Z * list Z.

(** System calls on a number that names no open descriptor: EBADF. *)
#[local] Obligation Tactic := done.
Program Definition closed_kernel : Kernel :=
  {| descr := unit;
     sys_read f _ := (ReadErr (EOTHER 9), f);
     sys_recvfrom f _ _ a := (ReadErr (EOTHER 9), a, f);
     sys_write f _ := (WriteErr (EOTHER 9), f);
     sys_sendto f _ _ := (WriteErr (EOTHER 9), f);
     sys_recvfrom_un f _ _ a := (ReadErr (EOTHER 9), a, f);
     sys_sendto_un f _ _ := (WriteErr (EOTHER 9), f);
     fcntl_getfl f := (-1, f);
     fcntl_setfl f _ := (-1, f) |}.

Section core.
Context {K : Kernel} {L : Libev} {disparser_fn : Type}.
Context {AS : StreamAllocator} {AN : Allocator (listnode loc)} {AI : Allocator (option Z)}.
Context {AB : Allocator (hash_backet peer_ref)} {AP : Allocator (peer disparser_fn)}.
Context (malloc_ok : Z → bool).
Context (call_disparser : disparser_fn → peer disparser_fn → peer disparser_fn).
Context (run_script : script_fn) (run_python : python_fn).

Abbreviation peer := (peer disparser_fn).

Record world := mkWorld {
  w_streams : gmap loc stream;  (* packets *)
  w_peers : gmap loc peer;  (* peer structures *)
  w_nodes : gmap loc (listnode loc);  (* nodes of peer_list *)
  w_plist : clist loc;  (* misaka_servant.peer_list *)
  w_backets : gmap loc (hash_backet peer_ref);
  w_table : hash;  (* misaka_servant.peer_hash *)
  w_ids : pool;  (* misaka_servant.mid *)
  w_fds : gmap Z descr;  (* open descriptors *)
  w_sched : sched loc;  (* message queues and workers *)
  w_queues : list loc;  (* queues[] *)
  w_handles : list event_handle;  (* events[] *)
  w_events : list Z;  (* misaka_servant.event_list, of indices into events[] *)
  w_role : Z;  (* misaka_config.role *)
  w_now : Z  (* time(NULL) *)
}.

Definition set_w_streams (v : gmap loc stream) (w : world) : world :=
  mkWorld
    v (w_peers w) (w_nodes w) (w_plist w) (w_backets w) (w_table w) (w_ids w) (w_fds w)
    (w_sched w) (w_queues w) (w_handles w) (w_events w) (w_role w) (w_now w).
Definition set_w_peers (v : gmap loc peer) (w : world) : world :=
  mkWorld
    (w_streams w) v (w_nodes w) (w_plist w) (w_backets w) (w_table w) (w_ids w)
    (w_fds w) (w_sched w) (w_queues w) (w_handles w) (w_events w) (w_role w) (w_now w).
Definition set_w_nodes (v : gmap loc (listnode loc)) (w : world) : world :=
  mkWorld
    (w_streams w) (w_peers w) v (w_plist w) (w_backets w) (w_table w) (w_ids w)
    (w_fds w) (w_sched w) (w_queues w) (w_handles w) (w_events w) (w_role w) (w_now w).
Definition set_w_plist (v : clist loc) (w : world) : world :=
  mkWorld
    (w_streams w) (w_peers w) (w_nodes w) v (w_backets w) (w_table w) (w_ids w)
    (w_fds w) (w_sched w) (w_queues w) (w_handles w) (w_events w) (w_role w) (w_now w).
Definition set_w_backets (v : gmap loc (hash_backet peer_ref)) (w : world) : world :=
  mkWorld
    (w_streams w) (w_peers w) (w_nodes w) (w_plist w) v (w_table w) (w_ids w) (w_fds w)
    (w_sched w) (w_queues w) (w_handles w) (w_events w) (w_role w) (w_now w).
Definition set_w_table (v : hash) (w : world) : world :=
  mkWorld
    (w_streams w) (w_peers w) (w_nodes w) (w_plist w) (w_backets w) v (w_ids w)
    (w_fds w) (w_sched w) (w_queues w) (w_handles w) (w_events w) (w_role w) (w_now w).
Definition set_w_ids (v : pool) (w : world) : world :=
  mkWorld
    (w_streams w) (w_peers w) (w_nodes w) (w_plist w) (w_backets w) (w_table w) v
    (w_fds w) (w_sched w) (w_queues w) (w_handles w) (w_events w) (w_role w) (w_now w).
Definition set_w_fds (v : gmap Z descr) (w : world) : world :=
  mkWorld
    (w_streams w) (w_peers w) (w_nodes w) (w_plist w) (w_backets w) (w_table w)
    (w_ids w) v (w_sched w) (w_queues w) (w_handles w) (w_events w) (w_role w) (w_now w).
Definition set_w_sched (v : sched loc) (w : world) : world :=
  mkWorld
    (w_streams w) (w_peers w) (w_nodes w) (w_plist w) (w_backets w) (w_table w)
    (w_ids w) (w_fds w) v (w_queues w) (w_handles w) (w_events w) (w_role w) (w_now w).
Definition set_w_handles (v : list event_handle) (w : world) : world :=
  mkWorld
    (w_streams w) (w_peers w) (w_nodes w) (w_plist w) (w_backets w) (w_table w)
    (w_ids w) (w_fds w) (w_sched w) (w_queues w) v (w_events w) (w_role w) (w_now w).
Definition set_w_events (v : list Z) (w : world) : world :=
  mkWorld
    (w_streams w) (w_peers w) (w_nodes w) (w_plist w) (w_backets w) (w_table w)
    (w_ids w) (w_fds w) (w_sched w) (w_queues w) (w_handles w) v (w_role w) (w_now w).

(** ** Handlers

    A handler returns a value and the new world, or faults. *)

Definition handler (A : Type) : Type := world → res (A * world).

#[export] Instance handler_ret : MRet handler := λ A a w, Ok (a, w).
#[export] Instance handler_bind : MBind handler := λ A B f m w, '(a, w) ← m w; f a w.

Definition get {A} (f : world → A) : handler A := λ w, Ok (f w, w).
Definition put (f : world → world) : handler unit := λ w, Ok (tt, f w).
Definition lift {A} (m : res A) : handler A := λ w, a ← m; Ok (a, w).
Definition when (b : bool) (m : handler unit) : handler unit := if b then m else mret tt.

Implicit Types (l : loc) (s : loc).

(** [*peer] and [peer->field = ...] *)
Definition peer_at l : handler peer := λ w, p ← load (w_peers w) (Some l); Ok (p, w).
Definition set_peer l (f : peer → peer) : handler unit := λ w,
  ps ← modify (w_peers w) (Some l) f; Ok (tt, set_w_peers ps w).

(** [*s] and [s->field = ...] *)
Definition stream_at (s : option loc) : handler stream := λ w,
  n ← load (w_streams w) s; Ok (n, w).
Definition set_stream (s : option loc) (f : stream → stream) : handler unit := λ w,
  h ← modify (w_streams w) s f; Ok (tt, set_w_streams h w).
Definition free_stream (s : option loc) : handler unit := λ w,
  h ← stream_free (w_streams w) s; Ok (tt, set_w_streams h w).

(** [close(fd)] *)
Definition close (fd : Z) : handler unit := put (λ w, set_w_fds (delete fd (w_fds w)) w).

(** [set_nonblocking(fd)]: fcntl fails on a descriptor that is not open. *)
Definition set_nonblocking_fd (fd : Z) : handler Z := λ w,
  match w_fds w !! fd with
  | None => Ok (-1, w)
  | Some f => let '(r, f) := set_nonblocking f in Ok (r, set_w_fds (<[fd := f]> (w_fds w)) w)
  end.

(** ** Peers *)

(** [drole] of the data of the table, for peer_key and peer_cmp; [peer_search]
    below faults before the field of a freed peer is used. *)
Definition drole_of (ps : gmap loc peer) (r : peer_ref) : Z :=
  match r with
  | PeerAt l => match ps !! l with Some p => p_drole p | None => 0 end
  | LocalPeer d => d
  end.
Definition peer_key (ps : gmap loc peer) (r : peer_ref) : Z := u32 (drole_of ps r).
Definition peer_cmp (ps : gmap loc peer) (a b : peer_ref) : bool :=
  drole_of ps a =? drole_of ps b.

Definition peer_uptime_reset l : handler unit :=
  t ← get w_now; set_peer l (set_p_uptime t).

Definition call_connect (fn : connect_fn) (p : peer) : peer :=
  match fn with misaka_connect_p => (misaka_connect p).2 end.
Definition call_disconnect (fn : disconnect_fn) (p : peer) : peer :=
  match fn with misaka_disconnect_p => (misaka_disconnect p).2 end.

(** [events[i]] *)
Definition handle_at (i : Z) : handler event_handle := λ w, e ← rd (w_handles w) i; Ok (e, w).
Definition set_handle (i : Z) (f : event_handle → event_handle) : handler unit := λ w,
  e ← rd (w_handles w) i; hs ← wr (w_handles w) i (f e); Ok (tt, set_w_handles hs w).

(** The loops over event_list of peer_register and peer_unregister. *)
Fixpoint connect_loop (hs : list Z) l : handler unit :=
  match hs with
  | [] => mret tt
  | i :: hs =>
      eh ← handle_at i;
      _ ← match eh_connect eh with
          | Some fn => set_peer l (call_connect fn)
          | None => mret tt
          end;
      connect_loop hs l
  end.

Fixpoint disconnect_loop (hs : list Z) l : handler unit :=
  match hs with
  | [] => mret tt
  | i :: hs =>
      eh ← handle_at i;
      _ ← match eh_disconnect eh with
          | Some fn => set_peer l (call_disconnect fn)
          | None => mret tt
          end;
      disconnect_loop hs l
  end.

Definition idmaker_get_h : handler Z := λ w,
  '(id, _, ids) ← idmaker_get (w_ids w); Ok (id, set_w_ids ids w).
Definition idmaker_put_h (i : Z) : handler unit := λ w,
  '(_, ids) ← idmaker_put (w_ids w) i; Ok (tt, set_w_ids ids w).

Definition peer_hashalloc_func (data : peer_ref) : option peer_ref := Some data.

(** A peer that was freed while the table still points to it. *)
Definition dangling (ps : gmap loc peer) (r : peer_ref) : bool :=
  match r with PeerAt l => bool_decide (ps !! l = None) | LocalPeer _ => false end.

(** The searches of hash_get and hash_release call peer_cmp on the entries with
    the key of [r] until one matches; to read a freed peer there is a fault.
    This is that search, stopped at the first entry that matches or is freed. *)
Definition peer_search (r : peer_ref) : handler unit := λ w,
  let ps := w_peers w in
  found ← hash_lookup (peer_key ps) (λ a b, dangling ps a || peer_cmp ps a b)
            (w_backets w) (w_table w) r;
  match found with
  | Some d => if dangling ps d then Fail BadPointer else Ok (tt, w)
  | None => Ok (tt, w)
  end.

Definition peer_hash_get (r : peer_ref) : handler (option peer_ref) := λ w,
  '(_, w) ← peer_search r w;
  '(d, bk, t) ← hash_get (peer_key (w_peers w)) (peer_cmp (w_peers w)) (w_backets w) (w_table w)
                  r (Some peer_hashalloc_func);
  Ok (d, set_w_table t (set_w_backets bk w)).

Definition peer_hash_release (r : peer_ref) : handler (option peer_ref) := λ w,
  '(_, w) ← peer_search r w;
  '(d, bk, t) ← hash_release (peer_key (w_peers w)) (peer_cmp (w_peers w)) (w_backets w)
                  (w_table w) r;
  Ok (d, set_w_table t (set_w_backets bk w)).

Definition peer_lookup (r : peer_ref) : handler (option peer_ref) := λ w,
  '(_, w) ← peer_search r w;
  d ← hash_lookup (peer_key (w_peers w)) (peer_cmp (w_peers w)) (w_backets w) (w_table w) r;
  Ok (d, w).

Definition peer_register l : handler unit :=
  id ← idmaker_get_h;
  _ ← set_peer l (set_p_drole id);
  p ← peer_at l;
  hs ← get w_events;
  _ ← when (negb (p_on_connect p =? 0)) (connect_loop hs l);
  _ ← peer_hash_get (PeerAt l);
  mret tt.

Definition peer_unregister l : handler unit :=
  p ← peer_at l;
  _ ← idmaker_put_h (p_drole p);
  hs ← get w_events;
  _ ← when (negb (p_on_disconnect p =? 0)) (disconnect_loop hs l);
  _ ← peer_hash_release (PeerAt l);
  mret tt.

(** The loop of peer_lookup_su: a semicolon ends the [if], so the body of the
    loop returns the first peer of the list whatever its address. *)
Definition peer_lookup_su (list : option (clist loc)) (su : sockunion) : handler (option loc) :=
  match list with
  | None => mret None
  | Some lst =>
      match l_head lst with
      | None => mret None
      | Some nn =>
          nodes ← get w_nodes;
          n ← lift (load nodes (Some nn));
          mret (n_data n)
      end
  end.

(** The same loop. *)
Definition peer_lookup_dsu (list : option (clist loc)) (dsu : sockunion) : handler (option loc) :=
  peer_lookup_su list dsu.

(** ** Watchers of a peer *)

Definition io_start l (get_w : peer → option ev_io) (set_w : option ev_io → peer → peer)
    : handler unit :=
  p ← peer_at l;
  w ← lift (from_option_or NullDeref (get_w p));
  set_peer l (set_w (Some (ev_io_start w))).

Definition io_stop l (get_w : peer → option ev_io) (set_w : option ev_io → peer → peer)
    : handler unit :=
  p ← peer_at l;
  w ← lift (from_option_or NullDeref (get_w p));
  set_peer l (set_w (Some (ev_io_stop w))).

Definition io_init l (get_w : peer → option ev_io) (set_w : option ev_io → peer → peer)
    (cb : option io_cb) (m : ev_mask) : handler unit :=
  p ← peer_at l;
  w ← lift (from_option_or NullDeref (get_w p));
  set_peer l (set_w (Some (ev_io_init w cb (p_fd p) m))).

(** [1 == ev_is_active(w)] *)
Definition io_active l (get_w : peer → option ev_io) : handler bool :=
  p ← peer_at l;
  w ← lift (from_option_or NullDeref (get_w p));
  mret (ev_is_active w =? 1).

Definition periodic_active l : handler bool :=
  p ← peer_at l;
  w ← lift (from_option_or NullDeref (p_t_connect p));
  mret (ev_periodic_active w =? 1).

Definition periodic_stop l : handler unit :=
  p ← peer_at l;
  w ← lift (from_option_or NullDeref (p_t_connect p));
  set_peer l (set_p_t_connect (Some (ev_periodic_stop w))).

(** [misaka_write_proceed(peer->obuf)] *)
Definition write_proceed l : handler bool :=
  p ← peer_at l;
  q ← lift (from_option_or NullDeref (p_obuf p));
  mret (misaka_write_proceed q).

(** ** Stopping *)

Definition call_disparser_of l : handler unit :=
  p ← peer_at l;
  match p_disparser p with
  | None => lift (Fail NullDeref)
  | Some fn => set_peer l (call_disparser fn)
  end.

(** [stream_fifo_clean(peer->obuf)] *)
Definition clean_obuf l : handler unit := λ w,
  p ← load (w_peers w) (Some l);
  q ← from_option_or NullDeref (p_obuf p);
  '(h, q) ← stream_fifo_clean (w_streams w) q;
  set_peer l (set_p_obuf (Some q)) (set_w_streams h w).

Definition misaka_stop l : handler Z :=
  p ← peer_at l;
  _ ← when (p_status p =? TAT_ESTA)
        (_ ← peer_uptime_reset l; set_peer l (set_p_status TAT_IDLE));
  r ← io_active l p_t_read;
  _ ← when r (io_stop l p_t_read set_p_t_read);
  r ← io_active l p_t_write;
  _ ← when r (io_stop l p_t_write set_p_t_write);
  _ ← when (negb (p_quick p =? 1))
        (r ← periodic_active l; when r (periodic_stop l));
  _ ← set_peer l (λ p, set_p_uptime 0 (set_p_packet_size 0 p));
  _ ← call_disparser_of l;
  p ← peer_at l;
  _ ← when (if p_ibuf p is Some _ then true else false) (set_stream (p_ibuf p) stream_reset);
  _ ← clean_obuf l;
  p ← peer_at l;
  _ ← when (0 <=? p_fd p) (_ ← close (p_fd p); set_peer l (set_p_fd (-1)));
  mret 0.

(** ** Starting *)

(** [if(set_nonblocking(peer->fd) < 0)] of both start functions *)
Definition make_nonblocking l : handler unit :=
  p ← peer_at l;
  r ← set_nonblocking_fd (p_fd p);
  when (r <? 0) (_ ← when (0 <? p_fd p) (close (p_fd p)); set_peer l (set_p_fd 0)).

(** [if(1 != ev_is_active(peer->t_read))] of both start functions *)
Definition start_read l : handler unit :=
  r ← io_active l p_t_read;
  when (negb r)
    (_ ← io_init l p_t_read set_p_t_read (Some misaka_read_p) EV_READ;
     io_start l p_t_read set_p_t_read).

Definition misaka_start_success l : handler Z :=
  _ ← set_peer l (set_p_status TAT_ESTA);
  _ ← peer_uptime_reset l;
  _ ← peer_register l;
  _ ← make_nonblocking l;
  _ ← start_read l;
  b ← write_proceed l;
  _ ← when b
        (p ← peer_at l;
         r ← io_active l p_t_write;
         _ ← when ((p_status p =? TAT_ESTA) && negb r)
               (io_init l p_t_write set_p_t_write (Some misaka_write_p) EV_WRITE);
         io_start l p_t_write set_p_t_write);
  mret 0.

Definition misaka_start_progress l : handler Z :=
  _ ← set_peer l (set_p_status TAT_IDLE);
  _ ← peer_uptime_reset l;
  _ ← make_nonblocking l;
  _ ← start_read l;
  mret 0.

(** A semicolon ends the [if] on ev_is_active, so the timer is always stopped. *)
Definition connect_status_trigger (status : connect_result) l : handler unit :=
  match status with
  | connect_success =>
      _ ← misaka_start_success l; _ ← periodic_active l; periodic_stop l
  | connect_in_progress =>
      _ ← misaka_start_progress l; _ ← periodic_active l; periodic_stop l
  | _ => mret tt
  end.

(** [new_timer] is what malloc returned for [t_connect]. *)
Definition misaka_start (new_timer : option ev_periodic) l : handler Z :=
  p ← peer_at l;
  if negb (p_quick p =? 0) then
    _ ← misaka_start_success l;
    p ← peer_at l; p ← lift (call_parser p); _ ← set_peer l (λ _, p); mret 0
  else
    match new_timer with
    | None => _ ← set_peer l (set_p_t_connect None); mret (-1)
    | Some t =>
        _ ← set_peer l (set_p_t_connect (Some (ev_periodic_start (ev_periodic_init t))));
        p ← peer_at l; p ← lift (call_parser p); _ ← set_peer l (λ _, p); mret 0
    end.

Definition misaka_reconnect (new_timer : option ev_periodic) l : handler Z :=
  _ ← misaka_stop l; _ ← misaka_start new_timer l; mret 0.

(** ** Creating and deleting *)

(** [stream_new(MISAKA_MAX_PACKET_SIZE)] *)
Definition new_stream : handler (option loc) := λ w,
  let a := salloc (w_streams w) in
  match stream_new MISAKA_MAX_PACKET_SIZE (snd <$> a.1) a.2, a.1 with
  | Some n, Some (s, _) => Ok (Some s, set_w_streams (<[s := n]> (w_streams w)) w)
  | _, _ => Ok (None, w)
  end.

(** memset(peer, 0, sizeof(struct peer)) *)
Definition zero_peer : peer :=
  let su := mkSockunion 0 0 0 in
  mkPeer 0 0 0 0 su su 0 0 0 0 0 0 0 0 0 0 0 None None None 0 None None 0
    None None None None None None None 0 0 0 0 0 0 0 0 [] [] [].

(** What the other allocations of peer_new return: whether the fifo could be
    allocated, and the contents of the two watchers. *)
Record peer_mem := mkPeerMem {
  pm_fifo : bool; pm_read : option ev_io; pm_write : option ev_io
}.

(** The fields peer_new sets before it allocates the watchers. *)
Definition init_peer (now : Z) (ibuf : option loc) (obuf : option stream_fifo) : peer :=
  let su := mkSockunion 0 0 0 in
  mkPeer 0 0 (-1) 0 su su 0 0 0 TAT_IDLE 0 0 0 0 0 0 0 None None None
    MISAKA_DEFAULT_CONNECT_RETRY ibuf obuf 50 None None None (Some peer_default_unpack_p)
    (Some peer_default_pack_p) None None 0 0 MISAKA_MAX_PACKET_SIZE now now now 0 0 [] [] [].

Definition peer_new (pm : peer_mem) : handler (option loc) := λ w,
  match xalloc (w_peers w) with
  | None => Ok (None, w)
  | Some l =>
      let w := set_w_peers (<[l := zero_peer]> (w_peers w)) w in
      '(ibuf, w) ← new_stream w;
      match ibuf with
      | None => Ok (None, set_w_peers (delete l (w_peers w)) w)
      | Some s =>
          '(_, w) ← set_stream (Some s) (set_rlen MISAKA_MAX_PACKET_SIZE) w;
          if negb (pm_fifo pm) then
            '(_, w) ← free_stream (Some s) w;
            Ok (None, set_w_peers (delete l (w_peers w)) w)
          else
            let p := init_peer (w_now w) (Some s) (Some stream_fifo_new) in
            match pm_read pm with
            | None => Ok (None, set_w_peers (<[l := p]> (w_peers w)) w)
            | Some r =>
                let p := set_p_t_read (Some r) p in
                match pm_write pm with
                | None => Ok (None, set_w_peers (<[l := p]> (w_peers w)) w)
                | Some r =>
                    let p := set_p_t_write (Some r) p in
                    '(nodes, lst) ← listnode_add (w_nodes w) (w_plist w) l;
                    Ok (Some l, set_w_plist lst (set_w_nodes nodes
                                  (set_w_peers (<[l := p]> (w_peers w)) w)))
                end
            end
      end
  end.

Definition peer_delete l : handler Z := λ w,
  '(nodes, lst) ← listnode_delete (w_nodes w) (w_plist w) l;
  let w := set_w_plist lst (set_w_nodes nodes w) in
  '(_, w) ← misaka_stop l w;
  p ← load (w_peers w) (Some l);
  h ← (if p_ibuf p is Some _ then stream_free (w_streams w) (p_ibuf p) else Ok (w_streams w));
  h ← (if p_obuf p is Some q then stream_fifo_free h q else Ok h);
  Ok (0, set_w_peers (delete l (w_peers w)) (set_w_streams h w)).

(** ** Routing *)

(** misaka_packet_task_route, misaka_packet_net_route and
    misaka_packet_sys_route, which push the pointer [s] on a queue; the last one
    never assigns the queue it pushes on. *)
Definition route_task s : handler unit := λ w,
  n ← load (w_streams w) (Some s);
  q ← rd (w_queues w) (s_type n);
  sc ← misaka_packet_task_route malloc_ok (w_sched w) q s;
  Ok (tt, set_w_sched sc w).

Definition route_net s : handler unit := λ w,
  h ← modify (w_streams w) (Some s) (set_type EVENT_NET);
  q ← rd (w_queues w) EVENT_NET;
  sc ← misaka_packet_net_route malloc_ok (w_sched w) q s;
  Ok (tt, set_w_sched sc (set_w_streams h w)).

Definition route_sys s : handler unit := λ w,
  h ← modify (w_streams w) (Some s) (set_type EVENT_SYS);
  Fail Uninitialised.

(** [peer->pack(tt, peer)] *)
Definition pack_packet s l : handler unit := λ w,
  n ← load (w_streams w) (Some s);
  p ← load (w_peers w) (Some l);
  '(_, n, p) ← call_pack n p;
  Ok (tt, set_w_peers (<[l := p]> (w_peers w)) (set_w_streams (<[s := n]> (w_streams w)) w)).

(** [stream_fifo_push(peer->obuf, tt)] *)
Definition push_obuf s l : handler unit := λ w,
  p ← load (w_peers w) (Some l);
  q ← from_option_or NullDeref (p_obuf p);
  '(h, q) ← stream_fifo_push (w_streams w) q (Some s);
  set_peer l (set_p_obuf (Some q)) (set_w_streams h w).

(** Start the write watcher of an established peer. *)
Definition start_write l : handler unit :=
  p ← peer_at l;
  if p_status p =? TAT_ESTA then
    r ← io_active l p_t_write;
    when (negb r)
      (_ ← io_init l p_t_write set_p_t_write (Some misaka_write_p) EV_WRITE;
       io_start l p_t_write set_p_t_write)
  else mret tt.

(** The loop over the packets linked from [s]. *)
Fixpoint route_loop (k : nat) (ts : option loc) l : handler unit :=
  match k with
  | O => lift (Fail OutOfFuel)
  | S k =>
      match ts with
      | None => mret tt
      | Some tt' =>
          n ← stream_at ts;
          _ ← set_stream ts (set_next None);
          _ ← pack_packet tt' l;
          _ ← push_obuf tt' l;
          _ ← start_write l;
          route_loop k (s_next n) l
      end
  end.

Definition misaka_packet_route (s : option loc) : handler Z :=
  match s with
  | None => mret 0
  | Some _ =>
      n ← stream_at s;
      if u64 (stream_get_endp n - stream_get_getp n) =? 0 then _ ← free_stream s; mret 0 else
      found ← peer_lookup (LocalPeer (s_nid n));
      match found with
      | None => _ ← free_stream s; mret (-1)
      | Some (LocalPeer _) => lift (Fail BadPointer)
      | Some (PeerAt l) =>
          h ← get w_streams;
          _ ← route_loop (S (size (dom h))) s l;
          mret 0
      end
  end.

(** ** Reading *)

(** [peer->ibuf] after a read function of a link ran on it. *)
Definition run_read {D : Type} l
    (m : stream → peer → res (io_tat * stream * peer * D)) : handler (io_tat * D) := λ w,
  p ← load (w_peers w) (Some l);
  n ← load (w_streams w) (p_ibuf p);
  '(ret, n, p', f) ← m n p;
  '(_, w) ← set_stream (p_ibuf p) (λ _, n) w;
  '(_, w) ← set_peer l (λ _, p') w;
  Ok ((ret, f), w).

(** A read function on the descriptor of the peer. *)
Definition read_link l
    (m : ∀ K : Kernel, stream → peer → descr → res (io_tat * stream * peer * descr))
    : handler io_tat := λ w,
  p ← load (w_peers w) (Some l);
  match w_fds w !! p_fd p with
  | Some f =>
      '((ret, f), w) ← run_read l (λ n p, m K n p f) w;
      Ok (ret, set_w_fds (<[p_fd p := f]> (w_fds w)) w)
  | None =>
      '((ret, _), w) ← run_read l (λ n p, m closed_kernel n p tt) w;
      Ok (ret, w)
  end.

(** tcp_passive_init *)
Definition tcp_passive_init (pm : peer_mem) (su : sockunion) (fd : Z) : handler (option loc) :=
  c ← peer_new pm;
  match c with
  | None => mret None
  | Some l =>
      _ ← set_peer l (λ p, set_p_old 1 (set_p_mode MODE_PASSIVE (set_p_start (Some tcp_passive_p)
            (set_p_write (Some tcp_write_p) (set_p_read (Some tcp_read_p)
              (set_p_dsu su (set_p_fd fd p)))))));
      mret (Some l)
  end.

(** What one accept meets: the connection, the memory for its peer, the timer,
    and the value the variable [ret], which tcp_accept tests without assigning
    it, happens to have. *)
Record accept_env := mkAccept {
  ac_conn : option (Z * descr * sockunion);
  ac_mem : peer_mem;
  ac_ret : option io_tat;
  ac_timer : option ev_periodic
}.

Definition tcp_accept (ac : accept_env) l : handler io_tat :=
  match ac_conn ac with
  | None => mret IO_ERROR
  | Some (fd, f, su) =>
      _ ← put (λ w, set_w_fds (<[fd := f]> (w_fds w)) w);
      c ← tcp_passive_init (ac_mem ac) su fd;
      match c with
      | None => _ ← close fd; mret IO_ACCEPT
      | Some cl =>
          p ← peer_at l;
          _ ← set_peer cl (λ cp, set_p_parser (p_parser p)
                (set_p_on_disconnect (p_on_disconnect p) (set_p_on_connect (p_on_connect p)
                  (set_p_unpack (p_unpack p) (set_p_pack (p_pack p) cp)))));
          if decide (ac_ret ac = Some IO_PASSIVE_CLOSE) then mret IO_PASSIVE_CLOSE else
          _ ← set_peer cl (set_p_quick 1);
          _ ← misaka_start (ac_timer ac) cl;
          mret IO_ACCEPT
      end
  end.

(** [peer->read(peer)] *)
Definition call_read (ac : accept_env) l : handler io_tat :=
  p ← peer_at l;
  match p_read p with
  | None => lift (Fail NullDeref)
  | Some tcp_read_p => read_link l (λ K n p f, tcp_read n p f)
  | Some udp_read_p => read_link l (λ K n p f, udp_read n p f)
  | Some ludp_read_p => read_link l (λ K n p f, ludp_read n p f)
  | Some sdio_read_p => read_link l (λ K n p f, sdio_read n p f)
  | Some tcp_accept_p => tcp_accept ac l
  end.

(** [stream_clone_one(s)] *)
Definition clone_stream (n : stream) : handler (option loc) := λ w,
  '(rs, h) ← clone_at (w_streams w) n (salloc (w_streams w));
  Ok (rs, set_w_streams h w).

(** The branch IO_PACKET of read_io_action: the copy goes to a task of this node,
    or to the peer of its node id. *)
Definition dispatch_packet (p : peer) (role : Z) (n : stream) : handler unit :=
  rs ← clone_stream n;
  if s_nid n =? role then
    match rs with
    | None => mret tt
    | Some r =>
        rn ← stream_at rs;
        when ((EVENT_NONE <? s_type rn) && (s_type rn <? EVENT_NET))
          (if negb (p_sys p =? 0) then route_sys r else route_task r)
    end
  else
    match rs with
    | None => mret tt
    | Some _ => _ ← misaka_packet_route rs; mret tt
    end.

Definition packet_action l : handler unit :=
  p ← peer_at l;
  role ← get w_role;
  _ ← set_stream (p_ibuf p) (set_flag 0);
  _ ← set_stream (p_ibuf p) (set_dst role);
  _ ← set_stream (p_ibuf p) (set_type EVENT_ECHO);
  n ← stream_at (p_ibuf p);
  _ ← dispatch_packet p role n;
  _ ← set_stream (p_ibuf p) stream_reset;
  p ← peer_at l; p ← lift (call_parser p); set_peer l (λ _, p).

Definition read_io_action (timer : option ev_periodic) (event : io_tat) l : handler Z :=
  p ← peer_at l;
  _ ← set_stream (p_ibuf p) (set_src (p_drole p));
  _ ← match event with
      | IO_PACKET => packet_action l
      | IO_CLEAN => set_stream (p_ibuf p) stream_reset
      | IO_CLOSE => _ ← misaka_reconnect timer l; mret tt
      | IO_PASSIVE_CLOSE => _ ← peer_unregister l; _ ← peer_delete l; mret tt
      | _ => mret tt
      end;
  mret 0.

(** The unpack of misaka_read, on the input buffer. *)
Definition check_read (ret : io_tat) l : handler io_tat :=
  '(ret, _) ← run_read l (λ n p, '(ret, n, p) ← check_packet ret n p; Ok (ret, n, p, tt));
  mret ret.

(** A peer whose connection was in progress becomes established with the first
    packet; its write watcher is initialised with a NULL callback. *)
Definition establish l : handler unit :=
  p ← peer_at l;
  when (negb (p_status p =? TAT_ESTA))
    (_ ← set_peer l (set_p_status TAT_ESTA);
     b ← write_proceed l;
     when b
       (r ← io_active l p_t_write;
        _ ← when (negb r) (io_init l p_t_write set_p_t_write None EV_WRITE);
        io_start l p_t_write set_p_t_write)).

Definition misaka_read (ac : accept_env) l : handler unit :=
  _ ← peer_uptime_reset l;
  p ← peer_at l;
  rc ← lift (int_op (p_rcount p + 1));
  _ ← set_peer l (set_p_rcount rc);
  if p_fd p <? 0 then mret tt else
  ret ← call_read ac l;
  ret ← (if decide (ret = IO_CHECK) then
           ret ← check_read ret l; _ ← establish l; mret ret
         else mret ret);
  _ ← read_io_action (ac_timer ac) ret l;
  mret tt.

(** ** Writing *)

(** A write function on the descriptor of the peer. *)
Definition write_link l
    (m : ∀ K : Kernel, gmap loc stream → peer → descr →
           res (Z * gmap loc stream * peer * descr)) : handler Z := λ w,
  p ← load (w_peers w) (Some l);
  match w_fds w !! p_fd p with
  | Some f =>
      '(n, h, p', f) ← m K (w_streams w) p f;
      Ok (n, set_w_fds (<[p_fd p := f]> (w_fds w))
               (set_w_peers (<[l := p']> (w_peers w)) (set_w_streams h w)))
  | None =>
      '(n, h, p', _) ← m closed_kernel (w_streams w) p tt;
      Ok (n, set_w_peers (<[l := p']> (w_peers w)) (set_w_streams h w))
  end.

(** [peer->write(peer)], with a bound on the rounds of tcp_write. *)
Definition call_write (rounds : nat) l : handler Z :=
  p ← peer_at l;
  match p_write p with
  | None => lift (Fail NullDeref)
  | Some tcp_write_p => write_link l (λ K h p f, tcp_write rounds h p f)
  | Some udp_write_p => write_link l (λ K h p f, udp_write h p f)
  | Some ludp_write_p => write_link l (λ K h p f, ludp_write h p f)
  | Some sdio_write_p => write_link l (λ K h p f, sdio_write h p f)
  end.

(** [handle] is the write watcher of the peer. *)
Definition misaka_write (rounds : nat) (timer : option ev_periodic) l : handler unit :=
  p ← peer_at l;
  if negb (p_status p =? TAT_ESTA) then mret tt else
  count ← call_write rounds l;
  if count <? 0 then
    if p_mode p =? MODE_PASSIVE then
      _ ← set_peer l (set_p_status TAT_IDLE); _ ← peer_unregister l; _ ← peer_delete l; mret tt
    else _ ← misaka_reconnect timer l; mret tt
  else
  p ← peer_at l;
  sc ← lift (int_op (p_scount p + count));
  _ ← set_peer l (set_p_scount sc);
  b ← write_proceed l;
  r ← io_active l p_t_write;
  if b : bool then when (negb r) (io_start l p_t_write set_p_t_write)
  else when r (io_stop l p_t_write set_p_t_write).

(** ** Event handlers *)

Definition call_func (fn : func_fn) (n : stream) : stream :=
  match fn with misaka_handle_p => misaka_handle n end.

(** The Lua branch of misaka_packet_process on the packet: [None] if the call of
    the script failed.  Results of the script are converted to [int]. *)
Definition lua_handle (n : stream) : res (option stream * stream) :=
  d ← wr (s_data n) (u64 (s_getp n + stream_get_endp n)) 0;
  let n := set_data d n in
  match run_script (s_type n) (s_src n) (s_dst n) (c_string (stream_pnt n)) with
  | None => Ok (None, stream_reset n)
  | Some (type, src, dst, str) =>
      let n := stream_reset n in
      n ← stream_put n (Some str) (Z.of_nat (length str));
      let n := set_dst (s32 dst) n in
      let n := set_src (s32 src) n in
      let n := set_type (s32 type) n in
      Ok (Some n, n)
  end.

(** The Python branch: [payload] goes back into the packet with its terminating
    0, which strlen has to find inside the array. *)
Definition python_handle (n : stream) : res stream :=
  d ← wr (s_data n) (u64 (s_getp n + stream_get_endp n)) 0;
  let n := set_data d n in
  let '(type, src, dst, payload) :=
    run_python (s_type n) (s_src n) (s_dst n) (c_string (stream_pnt n)) in
  let n := stream_reset n in
  let n := set_dst (s32 dst) (set_src (s32 src) (set_type (s32 type) n)) in
  let str := c_string payload in
  if Z.of_nat (length str) <? MISAKA_MAX_PACKET_SIZE then
    stream_put n (Some (str ++ [0])) (Z.of_nat (length str) + 1)
  else Fail OutOfBounds.

(** The call of a handler; the result tells whether the function returns. *)
Definition call_plugin (eh : event_handle) s : handler bool :=
  match eh_plug eh with
  | C_PLUGIN_TYPE =>
      match eh_func eh with
      | Some fn => _ ← set_stream (Some s) (call_func fn); mret false
      | None => mret false
      end
  | LUA_PLUGIN_TYPE =>
      n ← stream_at (Some s);
      '(ok, n) ← lift (lua_handle n);
      _ ← set_stream (Some s) (λ _, n);
      mret (if ok is Some _ then false else true)
  | PYTHON_PLUGIN_TYPE =>
      n ← stream_at (Some s);
      n ← lift (python_handle n);
      _ ← set_stream (Some s) (λ _, n);
      mret false
  | NONE_PLUGIN_TYPE => mret false
  end.

(** The loop over event_list: it goes on after the packet was handed over. *)
Fixpoint process_loop (hs : list Z) (type : Z) s : handler (option loc) :=
  match hs with
  | [] => mret None
  | i :: hs =>
      eh ← handle_at i;
      if negb (eh_type eh =? type) then process_loop hs type s else
      stop ← call_plugin eh s;
      if stop : bool then mret (Some s) else
      n ← stream_at (Some s);
      _ ← (if s_type n =? EVENT_NET then route_net s else
           if s_type n =? EVENT_NONE then free_stream (Some s) else route_task s);
      process_loop hs type s
  end.

Definition misaka_packet_process s : handler (option loc) :=
  n ← stream_at (Some s);
  let type := s_type n in
  if (type <=? EVENT_NONE) || (type >=? EVENT_NET) then mret None else
  hs ← get w_events;
  process_loop hs type s.

(** ** Loops of the main thread *)

Definition MISAKA_ROUTE_SANDS : Z := 50.

(** [skynet_mq_pop(q, &s)] *)
Definition pop_queue (type : Z) : handler (option loc) := λ w,
  q ← rd (w_queues w) type;
  '(m, sc) ← loop_pop (w_sched w) q;
  Ok (m, set_w_sched sc w).

Fixpoint route_sands (sands : nat) : handler unit :=
  match sands with
  | O => mret tt
  | S sands =>
      s ← pop_queue EVENT_NET;
      match s with
      | None => mret tt
      | Some _ => _ ← misaka_packet_route s; route_sands sands
      end
  end.

Definition misaka_packet_loop_route : handler unit :=
  route_sands (Z.to_nat MISAKA_ROUTE_SANDS).

(** ** Loading of handlers *)

Definition MISAKA_PATH_SIZE : Z := 128.

(** register_c_event, register_lua_event and register_python_event: snprintf
    keeps the first 127 characters of the path. *)
Definition register_event (plug : plugin) (path : list Z) (type : Z) : handler Z :=
  _ ← set_handle type (set_eh_plug plug);
  _ ← set_handle type (set_eh_path (take (Z.to_nat (MISAKA_PATH_SIZE - 1)) path));
  mret 0.

Definition register_c_event := register_event C_PLUGIN_TYPE.
Definition register_lua_event := register_event LUA_PLUGIN_TYPE.
Definition register_python_event := register_event PYTHON_PLUGIN_TYPE.

(** What loading a plugin finds: the shared object and its symbols, or the
    module and its functions. *)
Record plugin_env := mkPlugin {
  pl_open : bool;
  pl_func : option func_fn;
  pl_init : bool;
  pl_deinit : bool;
  pl_connect : option connect_fn;
  pl_disconnect : option disconnect_fn
}.

Definition misaka_load_event (pl : plugin_env) (type : Z) : handler Z :=
  if (type <? EVENT_NONE) || (EVENT_MAX <=? type) then mret (-1) else
  _ ← set_handle type (set_eh_type type);
  eh ← handle_at type;
  let add : handler Z :=
    _ ← put (λ w, set_w_events (w_events w ++ [type]) w); mret 0 in
  match eh_plug eh with
  | NONE_PLUGIN_TYPE => mret 0
  | C_PLUGIN_TYPE =>
      if negb (pl_open pl) then mret (-1) else
      _ ← set_handle type (set_eh_symbols (pl_func pl) (pl_init pl) (pl_deinit pl)
                             (pl_connect pl) (pl_disconnect pl));
      if pl_init pl && pl_deinit pl && (if pl_connect pl is Some _ then true else false) &&
         (if pl_disconnect pl is Some _ then true else false)
      then _ ← set_handle type (set_eh_chandle true); add
      else _ ← set_handle type (set_eh_chandle false); mret (-1)
  | LUA_PLUGIN_TYPE =>
      _ ← set_handle type (set_eh_lhandle true);
      _ ← set_handle type (λ e, set_eh_symbols (eh_func e) false false None None e);
      add
  | PYTHON_PLUGIN_TYPE =>
      if negb (pl_open pl) then mret (-1) else
      if negb (if pl_func pl is Some _ then true else false) then mret (-1) else
      if negb (pl_init pl) then mret (-1) else
      if negb (pl_deinit pl) then mret (-1) else add
  end.

(** [listnode_delete(misaka_servant.event_list, handle)]: the first entry. *)
Fixpoint remove_handle (i : Z) (hs : list Z) : list Z :=
  match hs with
  | [] => []
  | j :: hs => if j =? i then hs else j :: remove_handle i hs
  end.

Definition misaka_disload_event (type : Z) : handler Z :=
  if (type <? EVENT_NONE) || (EVENT_MAX <=? type) then mret (-1) else
  eh ← handle_at type;
  let remove : handler Z :=
    _ ← put (λ w, set_w_events (remove_handle type (w_events w)) w); mret 0 in
  match eh_plug eh with
  | NONE_PLUGIN_TYPE => mret 0
  | C_PLUGIN_TYPE =>
      _ ← set_handle type (set_eh_symbols None false false None None);
      _ ← set_handle type (set_eh_chandle false); remove
  | LUA_PLUGIN_TYPE => _ ← set_handle type (set_eh_lhandle false); remove
  | PYTHON_PLUGIN_TYPE => remove
  end.

End core.

Global Arguments world {K L} disparser_fn.
