(* ===== verification/Log.v ===== *)
(** The log of lib/log.c and include/log.h and the dumps of lib/pub.c and
    lib/core.c: the level that gates the macros, the category they pass to the
    logging library, and the records they make.

    The library (zlog) is a parameter: the class [Zlog] says what its two
    fallible calls answer; its other functions are recorded as calls in the
    order they are made.  A record carries the text that the format makes of its
    arguments.  The arguments of a macro are evaluated only where the level lets
    the record through, so they are results that may fault. *)

From Stdlib Require Ascii String.
From S2P Require Import Prelude Cstring Memory Sockunion Stream Fifo Network Peer Linklist Core.

Import String.StringSyntax.
Local Open Scope Z_scope.

(** ** enum DEBUG_LEVEL *)

Definition DEBUG_NONE : Z := 0.
Definition DEBUG_ERR : Z := 1.
Definition DEBUG_WARN : Z := 2.
Definition DEBUG_INFO : Z := 3.
Definition DEBUG_NOTICE : Z := 4.
Definition DEBUG_DEBUG : Z := 5.

(** ** printf *)

Definition hex_digit (d : Z) : Z := if d <? 10 then 48 + d else 87 + d.

Fixpoint hex_loop (k : nat) (z : Z) (acc : list Z) : list Z :=
  match k with
  | O => acc
  | S k => let acc := hex_digit (z mod 16) :: acc in
           if z <? 16 then acc else hex_loop k (z / 16) acc
  end.

(** [%0wx] of an unsigned int: 8 digits are enough. *)
Definition hexadecimal (w : nat) (z : Z) : list Z :=
  let ds := hex_loop 8 z [] in replicate (w - length ds) 48 ++ ds.

(** ** The library and its state *)

Class Zlog := {
  zlog_init : list Z → Z;
  zlog_get_category : list Z → option loc;
  (* [%p] of an address is left to the implementation *)
  pointer_text : loc → list Z;
  (* strerror may return NULL *)
  strerror : Z → option (list Z)
}.

Inductive zlog_level := ZERROR | ZWARN | ZINFO | ZNOTICE | ZDEBUG.

Inductive log_call :=
| CallFini
| CallZlog (level : zlog_level) (category : option loc) (text : list Z)
| CallStderr (text : list Z).

#[export] Instance zlog_level_eq_dec : EqDecision zlog_level.
Proof. solve_decision. Defined.
#[export] Instance log_call_eq_dec : EqDecision log_call.
Proof. solve_decision. Defined.

(** The globals of lib/log.c, and the calls made so far. *)
Record log_state := mkLog {
  debug_level : Z;
  zlog_handle : option loc;
  log_calls : list log_call
}.

(** The globals before main. *)
Definition log_start : log_state := mkLog 0 None [].

Definition record_call (c : log_call) (st : log_state) : log_state :=
  mkLog (debug_level st) (zlog_handle st) (log_calls st ++ [c]).

Section log.
Context {K : Kernel} {L : Libev} {disparser_fn : Type} {Z0 : Zlog}.
Implicit Types (st : log_state) (body text prompt buf : list Z).

Definition logger : Type := log_state → res log_state.

(** ** lib/log.c *)

Definition safe_strerror (errnum : Z) : list Z :=
  match strerror errnum with Some s => s | None => chars "Unknown error" end.

Definition zlog_backtrace (i : Z) st : log_state :=
  record_call (CallStderr (chars "zlog backtrace " ++ decimal i ++ [10])) st.

(** -1 where the library does not start, -2 where it has no category: it is then
    closed again. *)
Definition init_debug (path : list Z) st : Z * log_state :=
  let rc := zlog_init path in
  if rc <? 0 then (-1, st) else
  match zlog_get_category (chars "misaka") with
  | None => (-2, record_call CallFini (mkLog (debug_level st) None (log_calls st)))
  | Some h =>
      (0, record_call (CallZlog ZINFO (Some h) (chars "misaka zlog init success"))
            (mkLog DEBUG_ERR (Some h) (log_calls st)))
  end.

Definition set_debug (level : Z) st : log_state :=
  mkLog level (zlog_handle st) (log_calls st).

(** ** The macros of include/log.h *)

(** DBG_FROMAT fmt " " with the function and the line of the caller *)
Definition dbg_text (func : list Z) (line : Z) body : list Z :=
  chars "DBG[" ++ func ++ chars "]:[" ++ decimal line ++ chars "]>>" ++ body ++ [32].

Definition mlog_at (level : Z) (zl : zlog_level) (func : list Z) (line : Z)
    (body : res (list Z)) : logger := λ st,
  if level <=? debug_level st then
    text ← body;
    Ok (record_call (CallZlog zl (zlog_handle st) (dbg_text func line text)) st)
  else Ok st.

Definition mlog_err := mlog_at DEBUG_ERR ZERROR.
Definition mlog_warn := mlog_at DEBUG_WARN ZWARN.
Definition mlog_info := mlog_at DEBUG_INFO ZINFO.
Definition mlog_notice := mlog_at DEBUG_NOTICE ZNOTICE.
Definition mlog_debug := mlog_at DEBUG_DEBUG ZDEBUG.

(** "for some 3rd code": no level, and no space at the end. *)
Definition mlog (func : list Z) (line : Z) (body : res (list Z)) : logger := λ st,
  text ← body;
  Ok (record_call
        (CallZlog ZDEBUG (zlog_handle st)
           (chars "DBG[" ++ func ++ chars "]:[" ++ decimal line ++ chars "]>>" ++ text)) st).

Fixpoint log_seq (fs : list logger) : logger := λ st,
  match fs with
  | [] => Ok st
  | f :: fs => st ← f st; log_seq fs st
  end.

(** ** lib/pub.c *)

(** The array [buf] is printed whatever sockunion2str returns: for a family it
    does not know nothing has been written into it. *)
Definition sockunion_dump (su : sockunion) : logger :=
  mlog_debug (chars "sockunion_dump") 10
    (buf ← from_option_or Uninitialised (sockunion2str su 200);
     Ok (chars "packet address " ++ buf ++ [10])).

Definition stream_dump (p : loc) (s : stream) : logger :=
  let dump line label text := mlog_debug (chars "stream_dump") line (Ok (label ++ text ++ [10])) in
  log_seq [
    dump 15 (chars "packet ptr  ") (pointer_text p);
    dump 16 (chars "packet type ") (decimal (s_type s));
    dump 17 (chars "packet src  ") (decimal (s_src s));
    dump 18 (chars "packet dst  ") (decimal (s_dst s));
    dump 19 (chars "packet getp ") (decimal (u32 (s_getp s)));
    dump 20 (chars "packet endp  ") (decimal (u32 (s_endp s)));
    sockunion_dump (s_dsu s)].

(** The loop of hex_dump from [i] on, [k] rounds; [*buf] is the byte [i] of the
    block. *)
Fixpoint hex_dump_loop (k : nat) prompt buf (i : Z) : logger := λ st,
  match k with
  | O => Ok st
  | S k =>
      st ← (if Z.land i 15 =? 0 then
              mlog_debug (chars "hex_dump") 31
                (Ok (prompt ++ chars " | 0x" ++ hexadecimal 4 i)) st
            else Ok st);
      st ← mlog_debug (chars "hex_dump") 33
             (b ← from_option_or OutOfBounds (buf !! Z.to_nat i); Ok (32 :: hexadecimal 2 b)) st;
      hex_dump_loop k prompt buf (i + 1) st
  end.

Definition hex_dump prompt buf (len : Z) : logger := λ st,
  st ← hex_dump_loop (Z.to_nat len) prompt buf 0 st;
  mlog_debug (chars "hex_dump") 36 (Ok [10]) st.

(** ** The dumps of lib/core.c *)

Definition peer_dump (p : peer disparser_fn) : logger :=
  let dump line label text := mlog_debug (chars "peer_dump") line (Ok (label ++ text)) in
  log_seq [
    dump 172 (chars "peer id: ") (decimal (p_id p));
    dump 173 (chars "peer fd: ") (decimal (p_fd p));
    dump 174 (chars "peer su: ") [];
    sockunion_dump (p_su p);
    dump 176 (chars "peer su: ") [];
    sockunion_dump (p_dsu p);
    dump 178 (chars "peer path: ") (p_path p);
    dump 179 (chars "peer type: ") (decimal (p_type p));
    dump 180 (chars "peer mode: ") (decimal (p_mode p));
    dump 181 (chars "peer port: ") (decimal (ntohs (p_port p)));
    dump 182 (chars "peer drole: ") (decimal (p_drole p));
    dump 183 (chars "peer role: ") (decimal (p_role p));
    dump 184 (chars "peer quick: ") (decimal (p_quick p));
    dump 185 (chars "peer reconnect: ") (decimal (p_reconnect p));
    dump 186 (chars "peer listens: ") (decimal (p_listens p));
    dump 187 (chars "peer send: ") (decimal (p_scount p));
    dump 188 (chars "peer recive: ") (decimal (p_rcount p))].

Fixpoint watch_peers (ps : gmap loc (peer disparser_fn)) (ls : list loc) : logger := λ st,
  match ls with
  | [] => Ok st
  | l :: ls =>
      p ← load ps (Some l);
      st ← peer_dump p st;
      st ← mlog_debug (chars "misaka_core_watch") 1207 (Ok []) st;
      watch_peers ps ls st
  end.

(** LIST_LOOP over the list of peers *)
Definition misaka_core_watch (w : world disparser_fn) : logger := λ st,
  ls ← LIST_LOOP (S (size (dom (w_nodes w)))) (w_nodes w) (l_head (w_plist w));
  watch_peers (w_peers w) ls st.

(** ** The log at start-up *)

(** The first lines of core_register: what init_debug returns is printed. *)
Definition register_debug (out : list Z) st : list Z * log_state :=
  let '(ret, st) := init_debug (chars "/tmp/misaka.conf") st in
  let out := if ret <? 0 then out ++ chars "error in debug init with " ++ decimal ret ++ [10] else out in
  (out, set_debug DEBUG_DEBUG st).
End log.
