(* ===== verification/LogFacts.v ===== *)
(** Correctness of the log and the dumps of Log.v: hex_dump can be read back, the
    level gates the macros and the evaluation of their arguments, what
    misaka_core_watch needs of the peers it prints, and the category that the
    macros pass on after the log could not be opened. *)

From Stdlib Require Ascii String.
From S2P Require Import Prelude Cstring Memory Sockunion SockunionFacts Stream Fifo.
From S2P Require Import Network Peer Linklist LinklistFacts Core Log.

Import String.StringSyntax.
Local Open Scope Z_scope.

(** ** Reading hexadecimal *)

Definition hex_val (c : Z) : Z := if c <? 58 then c - 48 else c - 87.

Definition hex_read (v : Z) (cs : list Z) : Z := foldl (λ v c, v * 16 + hex_val c) v cs.

Lemma hex_val_digit d : 0 ≤ d < 16 → hex_val (hex_digit d) = d.
Proof. intros Hd. unfold hex_val, hex_digit. repeat case_cmp; lia. Qed.

Lemma hex_loop_spec k : ∀ z acc,
  0 ≤ z < 16 ^ Z.of_nat (S k) →
  ∃ ds, hex_loop (S k) z acc = ds ++ acc ∧ (1 ≤ length ds ≤ S k)%nat ∧
    (z < 256 → (length ds ≤ 2)%nat) ∧
    ∀ v, hex_read v ds = v * 16 ^ Z.of_nat (length ds) + z.
Proof.
  induction k as [| k IH]; intros z acc Hz; cbn [hex_loop].
  - exists [hex_digit (z mod 16)]. rewrite Z.mod_small by lia.
    destruct (z <? 16); (split; [done |]; split; [cbn; lia |]; split; [cbn; lia |]);
      intros v; cbn; rewrite hex_val_digit by lia; lia.
  - destruct (Z.ltb_spec z 16) as [Hlt | Hge].
    + exists [hex_digit (z mod 16)]. rewrite Z.mod_small by lia.
      split; [done |]. split; [cbn; lia |]. split; [cbn; lia |].
      intros v. cbn. rewrite hex_val_digit by lia. lia.
    + pose proof (Z.div_mod z 16 ltac:(lia)). pose proof (Z.mod_pos_bound z 16 ltac:(lia)).
      destruct (IH (z / 16) (hex_digit (z mod 16) :: acc)) as (ds & E & Hl & H2 & Hv).
      { rewrite Nat2Z.inj_succ, Z.pow_succ_r in Hz by lia. split; [apply Z.div_pos; lia |].
        apply Z.div_lt_upper_bound; lia. }
      exists (ds ++ [hex_digit (z mod 16)]). rewrite <- app_assoc, length_app. cbn [length app].
      split; [exact E |]. split; [lia |]. split.
      * intros H8. assert (length ds = 1)%nat; [| lia].
        clear -E H8 Hge Hl. destruct k as [| k]; [lia |]. cbn [hex_loop] in E.
        rewrite (proj2 (Z.ltb_lt _ _)) in E by (apply Z.div_lt_upper_bound; lia).
        apply (f_equal length) in E. rewrite length_app in E. cbn in E. lia.
      * intros v. unfold hex_read in *. rewrite foldl_app, Hv. cbn [foldl].
        rewrite hex_val_digit by lia.
        rewrite Nat.add_1_r, Nat2Z.inj_succ, Z.pow_succ_r by lia. lia.
Qed.

Lemma hex_read_zeros n cs : hex_read 0 (replicate n 48 ++ cs) = hex_read 0 cs.
Proof. induction n as [| n IH]; [done |]. cbn. exact IH. Qed.

Lemma hexadecimal_read w z : is_u32 z → hex_read 0 (hexadecimal w z) = z.
Proof.
  intros Hz. unfold is_u32 in Hz. unfold hexadecimal.
  destruct (hex_loop_spec 7 z []) as (ds & E & _ & _ & Hv); [cbn; lia |].
  rewrite E, app_nil_r, hex_read_zeros, Hv. lia.
Qed.

Lemma hexadecimal_byte b : is_u8 b → ∃ c d, hexadecimal 2 b = [c; d].
Proof.
  intros Hb. unfold is_u8 in Hb. unfold hexadecimal.
  destruct (hex_loop_spec 7 b []) as (ds & E & Hl & H2 & _); [cbn; lia |].
  rewrite E, app_nil_r. specialize (H2 ltac:(lia)).
  destruct ds as [| c [| d [|]]]; cbn in *; eauto; lia.
Qed.

(** ** Reading a dump *)

Definition strip (pre cs : list Z) : option (list Z) :=
  if starts_with pre cs then Some (drop (length pre) cs) else None.

Definition hex_prefix (line : Z) : list Z :=
  chars "DBG[" ++ chars "hex_dump" ++ chars "]:[" ++ decimal line ++ chars "]>>".

(** The text of a record *)
Definition call_text (c : log_call) : list Z :=
  match c with CallZlog _ _ t => t | _ => [] end.

(** The byte that a record of a dump shows, and the offset that the record before
    a row shows *)
Definition dumped_byte (c : log_call) : option Z :=
  match strip (hex_prefix 33) (call_text c) with
  | Some [_; a; b; _] => Some (hex_read 0 [a; b])
  | _ => None
  end.

Definition dumped_offset (prompt : list Z) (c : log_call) : option Z :=
  (λ ds, hex_read 0 (take (length ds - 1) ds)) <$>
    strip (hex_prefix 31 ++ prompt ++ chars " | 0x") (call_text c).

Lemma starts_with_app pre cs : starts_with pre (pre ++ cs) = true.
Proof. induction pre as [| p pre IH]; [done |]. cbn. by rewrite Z.eqb_refl. Qed.

Lemma strip_app pre cs : strip pre (pre ++ cs) = Some cs.
Proof. unfold strip. by rewrite starts_with_app, drop_app_length. Qed.

Lemma dbg_text_hex line body : dbg_text (chars "hex_dump") line body = hex_prefix line ++ body ++ [32].
Proof. unfold dbg_text, hex_prefix. by rewrite !app_assoc. Qed.

Lemma byte_record zl h b :
  is_u8 b →
  dumped_byte (CallZlog zl h (dbg_text (chars "hex_dump") 33 (32 :: hexadecimal 2 b))) = Some b.
Proof.
  intros Hb. unfold dumped_byte, call_text. rewrite dbg_text_hex, strip_app.
  destruct (hexadecimal_byte b Hb) as (c & d & E). rewrite E. cbn [app].
  rewrite <- E, hexadecimal_read; [done |]. unfold is_u8, is_u32 in *. lia.
Qed.

Lemma offset_record zl h prompt i :
  is_u32 i →
  dumped_offset prompt (CallZlog zl h (dbg_text (chars "hex_dump") 31
    (prompt ++ chars " | 0x" ++ hexadecimal 4 i))) = Some i.
Proof.
  intros Hi. unfold dumped_offset, call_text. rewrite dbg_text_hex.
  replace (hex_prefix 31 ++ (prompt ++ chars " | 0x" ++ hexadecimal 4 i) ++ [32])
    with ((hex_prefix 31 ++ prompt ++ chars " | 0x") ++ hexadecimal 4 i ++ [32]) by (by rewrite !app_assoc).
  rewrite strip_app. cbn [fmap option_fmap option_map]. rewrite length_app. cbn [length].
  rewrite Nat.add_sub, take_app_length. by rewrite hexadecimal_read.
Qed.

(** Records of other lines show neither. *)
Lemma other_record zl h line body :
  (line = 31 ∨ line = 36 → dumped_byte (CallZlog zl h (dbg_text (chars "hex_dump") line body)) = None) ∧
  (line = 33 ∨ line = 36 → ∀ prompt,
     dumped_offset prompt (CallZlog zl h (dbg_text (chars "hex_dump") line body)) = None).
Proof.
  split; intros [-> | ->]; intros; unfold dumped_byte, dumped_offset, strip, call_text;
    rewrite dbg_text_hex; reflexivity.
Qed.

(** ** The macros *)

Definition add_calls (cs : list log_call) (st : log_state) : log_state :=
  mkLog (debug_level st) (zlog_handle st) (log_calls st ++ cs).

Lemma add_calls_nil st : add_calls [] st = st.
Proof. destruct st. unfold add_calls. cbn. by rewrite app_nil_r. Qed.

Lemma add_calls_app cs1 cs2 st : add_calls cs2 (add_calls cs1 st) = add_calls (cs1 ++ cs2) st.
Proof. unfold add_calls. cbn. by rewrite app_assoc. Qed.

Lemma mlog_debug_on func line body st :
  DEBUG_DEBUG ≤ debug_level st →
  mlog_debug func line (Ok body) st =
    Ok (add_calls [CallZlog ZDEBUG (zlog_handle st) (dbg_text func line body)] st).
Proof. intros Hl. unfold mlog_debug, mlog_at. by rewrite (proj2 (Z.leb_le _ _)). Qed.

Lemma mlog_debug_off func line body st : debug_level st < DEBUG_DEBUG → mlog_debug func line body st = Ok st.
Proof. intros Hl. unfold mlog_debug, mlog_at. by rewrite (proj2 (Z.leb_gt _ _)). Qed.

Lemma mlog_debug_fault func line e st :
  DEBUG_DEBUG ≤ debug_level st → mlog_debug func line (Fail e) st = Fail e.
Proof. intros Hl. unfold mlog_debug, mlog_at. by rewrite (proj2 (Z.leb_le _ _)). Qed.

(** ** hex_dump *)

Definition row_start (i : Z) : bool := i mod 16 =? 0.

Lemma row_start_land i : (Z.land i 15 =? 0) = row_start i.
Proof. unfold row_start. change 15 with (Z.ones 4). by rewrite Z.land_ones by lia. Qed.

Lemma hex_dump_loop_on k : ∀ prompt buf i st,
  DEBUG_DEBUG ≤ debug_level st → Forall is_u8 buf → 0 ≤ i →
  i + Z.of_nat k ≤ Z.of_nat (length buf) → i + Z.of_nat k < 2 ^ 32 →
  ∃ recs, hex_dump_loop k prompt buf i st = Ok (add_calls recs st) ∧
    omap dumped_byte recs = take k (drop (Z.to_nat i) buf) ∧
    omap (dumped_offset prompt) recs = filter (λ j, row_start j = true) (seqZ i (Z.of_nat k)) ∧
    length recs = (k + length (filter (λ j, row_start j = true) (seqZ i (Z.of_nat k))))%nat.
Proof.
  induction k as [| k IH]; intros prompt buf i st Hl Hbuf Hi Hlen H32; cbn [hex_dump_loop].
  { exists []. rewrite add_calls_nil. done. }
  destruct (lookup_lt_is_Some_2 buf (Z.to_nat i) ltac:(lia)) as [b Hb].
  assert (is_u8 b) as Hb8 by (rewrite Forall_lookup in Hbuf; eauto).
  rewrite seqZ_cons by lia. rewrite filter_cons.
  replace (Z.succ i) with (i + 1) by lia. replace (Z.pred (Z.of_nat (S k))) with (Z.of_nat k) by lia.
  rewrite row_start_land, (drop_S _ _ _ Hb). cbn [take].
  replace (S (Z.to_nat i)) with (Z.to_nat (i + 1)) by lia.
  set (row := if row_start i then [CallZlog ZDEBUG (zlog_handle st)
         (dbg_text (chars "hex_dump") 31 (prompt ++ chars " | 0x" ++ hexadecimal 4 i))] else []).
  set (byte := CallZlog ZDEBUG (zlog_handle st) (dbg_text (chars "hex_dump") 33 (32 :: hexadecimal 2 b))).
  destruct (IH prompt buf (i + 1) (add_calls (row ++ [byte]) st)) as (recs & E & Hby & Hof & Hln);
    [done | done | lia | lia | lia |].
  exists (row ++ byte :: recs). split.
  { transitivity (hex_dump_loop k prompt buf (i + 1) (add_calls (row ++ [byte]) st)).
    - subst row. destruct (row_start i).
      + rewrite mlog_debug_on, bind_Ok by done. rewrite Hb. cbn [from_option_or]. rewrite bind_Ok.
        rewrite mlog_debug_on, bind_Ok by done. by rewrite add_calls_app.
      + rewrite bind_Ok, Hb. cbn [from_option_or]. rewrite bind_Ok.
        by rewrite mlog_debug_on, bind_Ok by done.
    - rewrite E, add_calls_app, <- app_assoc. done. }
  assert (dumped_byte byte = Some b) as B by (by apply byte_record).
  assert (dumped_offset prompt byte = None) as O by (apply other_record; auto).
  subst row. destruct (row_start i) eqn:Hr; cbn [app omap list_omap].
  - rewrite B, O, Hby, Hof. rewrite offset_record by (unfold is_u32; lia).
    rewrite (proj1 (other_record _ _ _ _)) by auto.
    rewrite decide_True by done. cbn [length]. split; [done |]. split; [done |]. lia.
  - rewrite B, O, Hby, Hof. rewrite decide_False by done. cbn [length]. split; [done |]. split; [done |]. lia.
Qed.

Lemma hex_dump_loop_off k : ∀ prompt buf i st,
  debug_level st < DEBUG_DEBUG → hex_dump_loop k prompt buf i st = Ok st.
Proof.
  induction k as [| k IH]; intros prompt buf i st Hl; cbn [hex_dump_loop]; [done |].
  rewrite (mlog_debug_off _ 31) by done. destruct (Z.land i 15 =? 0); rewrite bind_Ok, mlog_debug_off by done;
    rewrite bind_Ok; by apply IH.
Qed.

(** C35: a dump can be read back.  At the debug level hex_dump of [len] bytes of a
    buffer makes one record per byte, one before every sixteenth and one at the
    end; the byte records show exactly the first [len] bytes, in order, and the
    others the offsets of the rows.  Below that level nothing is written and the
    buffer is not read, whatever its size. *)
Theorem hex_dump_roundtrip prompt buf len st :
  Forall is_u8 buf → 0 ≤ len < 2 ^ 31 →
  (DEBUG_DEBUG ≤ debug_level st → len ≤ Z.of_nat (length buf) →
   ∃ recs, hex_dump prompt buf len st = Ok (add_calls recs st) ∧
     omap dumped_byte recs = take (Z.to_nat len) buf ∧
     omap (dumped_offset prompt) recs = filter (λ j, row_start j = true) (seqZ 0 len) ∧
     length recs = S (Z.to_nat len + length (filter (λ j, row_start j = true) (seqZ 0 len)))) ∧
  (debug_level st < DEBUG_DEBUG → ∀ any, hex_dump prompt any len st = Ok st).
Proof.
  intros Hbuf Hlen. unfold hex_dump. split.
  - intros Hl Hle.
    destruct (hex_dump_loop_on (Z.to_nat len) prompt buf 0 st) as (recs & E & Hb & Ho & Hn);
      [done | done | lia | lia | lia |]. rewrite Z2Nat.id in Ho, Hn by lia.
    rewrite E, bind_Ok, mlog_debug_on by done. rewrite add_calls_app.
    eexists. split; [reflexivity |].
    rewrite !omap_app, Hb, Ho, length_app, Hn. cbn [omap list_omap].
    rewrite (proj1 (other_record _ _ _ _)), (proj2 (other_record _ _ _ _)) by auto.
    rewrite !app_nil_r. cbn [length]. split; [done |]. split; [done | lia].
  - intros Hl any. by rewrite hex_dump_loop_off, bind_Ok, mlog_debug_off.
Qed.

Lemma hex_dump_roundtrip_witness :
  let st := mkLog DEBUG_DEBUG None [] in
  let buf := replicate 17 171 ++ [0] in
  ∃ recs, hex_dump (chars "in") buf 18 st = Ok (add_calls recs st) ∧
    omap dumped_byte recs = buf ∧ omap (dumped_offset (chars "in")) recs = [0; 16] ∧ length recs = 21%nat.
Proof.
  set (st := mkLog _ _ _). set (buf := _ ++ _). cbv zeta.
  destruct (hex_dump_roundtrip (chars "in") buf 18 st) as [H _]; [| lia |].
  - subst buf. apply Forall_app. split; [apply Forall_replicate |]; [| apply Forall_singleton]; unfold is_u8; lia.
  - destruct H as (recs & E & Hb & Ho & Hn); [done | done |].
    exists recs. split; [exact E |]. split; [rewrite Hb; reflexivity |]. split; [rewrite Ho; reflexivity |].
    rewrite Hn. reflexivity.
Defined.

(** ** The dump of the peers *)

Section watch.
Context {K : Kernel} {L : Libev} {disparser_fn : Type}.
Abbreviation peer := (peer disparser_fn).
Implicit Types (p : peer) (st : log_state).

(** [f] makes the record [c], after any other records. *)
Definition emits st (f : logger) (c : log_call) : Prop :=
  ∀ cs, f (add_calls cs st) = Ok (add_calls (cs ++ [c]) st).

Lemma log_seq_emits st fs recs :
  Forall2 (emits st) fs recs → log_seq fs st = Ok (add_calls recs st).
Proof.
  intros H. cut (∀ cs, log_seq fs (add_calls cs st) = Ok (add_calls (cs ++ recs) st)).
  { intros Hc. specialize (Hc []). by rewrite add_calls_nil in Hc. }
  induction H as [| f c fs recs Hf _ IH]; intros cs; cbn [log_seq].
  - by rewrite app_nil_r.
  - by rewrite Hf, bind_Ok, IH, <- app_assoc.
Qed.

Lemma debug_emits st func line body :
  DEBUG_DEBUG ≤ debug_level st →
  emits st (mlog_debug func line (Ok body)) (CallZlog ZDEBUG (zlog_handle st) (dbg_text func line body)).
Proof. intros Hl cs. rewrite mlog_debug_on by done. by rewrite add_calls_app. Qed.

Lemma log_seq_off fs st : Forall (λ f : logger, f st = Ok st) fs → log_seq fs st = Ok st.
Proof. induction 1 as [| f fs Hf _ IH]; [done |]. cbn [log_seq]. by rewrite Hf, bind_Ok. Qed.

Lemma sockunion_dump_inet su st :
  DEBUG_DEBUG ≤ debug_level st → sa_family su = AF_INET →
  emits st (sockunion_dump su) (CallZlog ZDEBUG (zlog_handle st)
    (dbg_text (chars "sockunion_dump") 10 (chars "packet address " ++ inet_ntoa (sin_addr su) ++ [10]))).
Proof.
  intros Hl Hf. unfold sockunion_dump, sockunion2str. rewrite Hf, Z.eqb_refl. unfold inet_ntop.
  pose proof (length_dotted _ (length_be_bytes 4 (ntohl (sin_addr su))) (be_bytes_u8 4 (ntohl (sin_addr su)))).
  rewrite (proj2 (Z.ltb_lt _ 200)) by lia. cbn [from_option_or]. rewrite bind_Ok. by apply debug_emits.
Qed.

Lemma sockunion_dump_other su st :
  DEBUG_DEBUG ≤ debug_level st → sa_family su ≠ AF_INET → sockunion_dump su st = Fail Uninitialised.
Proof.
  intros Hl Hf. unfold sockunion_dump, sockunion2str. rewrite (proj2 (Z.eqb_neq _ _)) by done.
  by apply mlog_debug_fault.
Qed.

(** Both addresses are of the family that sockunion2str knows. *)
Definition inet_peer p : bool :=
  (sa_family (p_su p) =? AF_INET) && (sa_family (p_dsu p) =? AF_INET).

(** The id that a record of peer_dump shows *)
Definition shown_id (c : log_call) : option Z :=
  (λ ds, (strtol ds).1) <$>
    strip (chars "DBG[" ++ chars "peer_dump" ++ chars "]:[" ++ decimal 172 ++ chars "]>>peer id: ") (call_text c).

Lemma peer_id_record zl h id :
  0 ≤ id < 2 ^ 31 →
  shown_id (CallZlog zl h (dbg_text (chars "peer_dump") 172 (chars "peer id: " ++ decimal id))) = Some id.
Proof.
  intros Hid. unfold shown_id, call_text, dbg_text.
  replace (chars "DBG[" ++ chars "peer_dump" ++ chars "]:[" ++ decimal 172 ++ chars "]>>" ++
             (chars "peer id: " ++ decimal id) ++ [32])
    with ((chars "DBG[" ++ chars "peer_dump" ++ chars "]:[" ++ decimal 172 ++ chars "]>>peer id: ") ++
             decimal id ++ [32]) by reflexivity.
  rewrite strip_app. cbn [fmap option_fmap option_map]. rewrite strtol_decimal; [done | lia |].
  intros c cs [= <- <-]. reflexivity.
Qed.

Lemma peer_dump_inet p st :
  DEBUG_DEBUG ≤ debug_level st → inet_peer p = true → 0 ≤ p_id p < 2 ^ 31 →
  ∃ recs, peer_dump p st = Ok (add_calls recs st) ∧ length recs = 17%nat ∧ omap shown_id recs = [p_id p].
Proof.
  intros Hl Hp Hid. apply andb_true_iff in Hp as [Hs%Z.eqb_eq Hd%Z.eqb_eq].
  eexists. split; [apply log_seq_emits; repeat constructor;
    first [by apply sockunion_dump_inet | by apply debug_emits] |].
  split; [reflexivity |]. cbn [omap list_omap]. rewrite peer_id_record by done. reflexivity.
Qed.

Lemma log_seq_fault st fs recs f gs e :
  Forall2 (emits st) fs recs → (∀ cs, f (add_calls cs st) = Fail e) →
  log_seq (fs ++ f :: gs) st = Fail e.
Proof.
  intros H Hf. rewrite <- (add_calls_nil st). generalize (@nil log_call).
  induction H as [| g c fs recs Hg _ IH]; intros cs; cbn [log_seq app].
  - by rewrite Hf.
  - by rewrite Hg, bind_Ok.
Qed.

Lemma peer_dump_other p st :
  DEBUG_DEBUG ≤ debug_level st → inet_peer p = false → peer_dump p st = Fail Uninitialised.
Proof.
  intros Hl Hp. unfold inet_peer in Hp.
  destruct (Z.eqb_spec (sa_family (p_su p)) AF_INET) as [Hs | Hs].
  - eapply (log_seq_fault st [_; _; _; _; _] _ (sockunion_dump (p_dsu p)));
      [| intros; by apply sockunion_dump_other, Z.eqb_neq].
    repeat constructor; first [by apply sockunion_dump_inet | by apply debug_emits].
  - eapply (log_seq_fault st [_; _; _] _ (sockunion_dump (p_su p))); [| intros; by apply sockunion_dump_other].
    repeat constructor; by apply debug_emits.
Qed.

Lemma peer_dump_off p st : debug_level st < DEBUG_DEBUG → peer_dump p st = Ok st.
Proof.
  intros Hl. apply log_seq_off. repeat constructor; by apply mlog_debug_off.
Qed.
Lemma watch_peers_on (ps : gmap loc peer) xs : ∀ st,
  DEBUG_DEBUG ≤ debug_level st →
  Forall (λ '(l, p), ps !! l = Some p ∧ 0 ≤ p_id p < 2 ^ 31) xs →
  if forallb (inet_peer ∘ snd) xs then
    ∃ recs, watch_peers ps xs.*1 st = Ok (add_calls recs st) ∧
      length recs = (18 * length xs)%nat ∧ omap shown_id recs = (p_id ∘ snd) <$> xs
  else watch_peers ps xs.*1 st = Fail Uninitialised.
Proof.
  induction xs as [| [l p] xs IH]; intros st Hl Hps.
  { exists []. by rewrite add_calls_nil. }
  apply Forall_cons in Hps as [[Hp Hid] Hps]. cbn [forallb compose snd fmap list_fmap fst watch_peers].
  rewrite (load_Some _ _ _ Hp), bind_Ok. destruct (inet_peer p) eqn:Hi; cbn [andb].
  - destruct (peer_dump_inet p st Hl Hi Hid) as (recs & -> & Hn & Hs).
    rewrite bind_Ok, mlog_debug_on, bind_Ok by done. rewrite add_calls_app.
    set (st' := add_calls _ st). specialize (IH st' Hl Hps).
    destruct (forallb (inet_peer ∘ snd) xs); [| exact IH].
    destruct IH as (recs' & -> & Hn' & Hs'). subst st'. rewrite add_calls_app.
    eexists. split; [reflexivity |]. rewrite !length_app, !omap_app, Hn, Hn', Hs, Hs'.
    cbn [length]. split; [lia |]. reflexivity.
  - by rewrite peer_dump_other.
Qed.

Lemma watch_peers_off (ps : gmap loc peer) ls st :
  debug_level st < DEBUG_DEBUG → (∀ l, l ∈ ls → is_Some (ps !! l)) → watch_peers ps ls st = Ok st.
Proof.
  intros Hl. induction ls as [| l ls IH]; intros Hin; cbn [watch_peers]; [done |].
  destruct (Hin l ltac:(left)) as [p Hp]. rewrite (load_Some _ _ _ Hp), bind_Ok.
  rewrite peer_dump_off, bind_Ok, mlog_debug_off, bind_Ok by done. apply IH. intros. apply Hin. by right.
Qed.

(** C36: what the dump of the peers does.  At the debug level, for a well-formed
    list of live peers, misaka_core_watch makes 18 records per peer that show
    the ids in the order of the list, provided every peer has two IPv4
    addresses; as soon as one has not, it prints an array nothing was written
    into.  Below that level it writes nothing. *)
Theorem core_watch_outcome (w : world disparser_fn) nodes (xs : list (loc * peer)) st :
  list_rep (w_nodes w) (w_plist w) nodes → nodes.*2 = xs.*1 →
  Forall (λ '(l, p), w_peers w !! l = Some p ∧ 0 ≤ p_id p < 2 ^ 31) xs →
  (debug_level st < DEBUG_DEBUG → misaka_core_watch w st = Ok st) ∧
  (DEBUG_DEBUG ≤ debug_level st →
   if forallb (inet_peer ∘ snd) xs then
     ∃ recs, misaka_core_watch w st = Ok (add_calls recs st) ∧
       length recs = (18 * length xs)%nat ∧ omap shown_id recs = (p_id ∘ snd) <$> xs
   else misaka_core_watch w st = Fail Uninitialised).
Proof.
  intros (Hs & Hnd & Hh & _) Hx Hps. unfold misaka_core_watch.
  assert (LIST_LOOP (S (size (dom (w_nodes w)))) (w_nodes w) (l_head (w_plist w)) = Ok xs.*1) as ->.
  { rewrite Hh, <- Hx. eapply LIST_LOOP_spec; [exact Hs |]. pose proof (dseg_length _ _ _ _ Hnd Hs). lia. }
  rewrite bind_Ok. assert (∀ l, l ∈ xs.*1 → is_Some (w_peers w !! l)) as Hin.
  { intros l ([l' p] & -> & Hl)%list_elem_of_fmap. rewrite Forall_forall in Hps.
    destruct (Hps _ Hl) as [Hp _]. by exists p. }
  split; intros Hl.
  - by apply watch_peers_off.
  - by apply watch_peers_on.
Qed.
End watch.

(** ** The log at start-up *)

Section startup.
Context {Z0 : Zlog}.

(** The macros, by their levels *)
Definition mlog_macros : list (Z * (list Z → Z → res (list Z) → logger)) :=
  [(DEBUG_ERR, mlog_err); (DEBUG_WARN, mlog_warn); (DEBUG_INFO, mlog_info);
   (DEBUG_NOTICE, mlog_notice); (DEBUG_DEBUG, mlog_debug)].

(** The level and the category.  A macro makes its record exactly when its
    level is at most [debug_level], and evaluates its arguments only then.  When
    the log cannot be opened, core_register reports it and raises the level all
    the same: from then on every macro passes the category NULL to the library. *)
Theorem log_opened_or_not out :
  (∀ lv f func line body st, (lv, f) ∈ mlog_macros →
     ∃ zl, f func line body st =
       if lv <=? debug_level st then
         text ← body; Ok (add_calls [CallZlog zl (zlog_handle st) (dbg_text func line text)] st)
       else Ok st) ∧
  let '(out', st) := register_debug out log_start in
  debug_level st = DEBUG_DEBUG ∧
  (out' = out ↔ is_Some (zlog_handle st)) ∧
  (zlog_init (chars "/tmp/misaka.conf") < 0 ∨ zlog_get_category (chars "misaka") = None →
   ∀ lv f func line text, (lv, f) ∈ mlog_macros →
     ∃ zl, f func line (Ok text) st = Ok (add_calls [CallZlog zl None (dbg_text func line text)] st)).
Proof.
  assert (∀ lv f func line body st, (lv, f) ∈ mlog_macros → 1 ≤ lv ≤ 5 ∧
     ∃ zl, f func line body st =
       if lv <=? debug_level st then
         text ← body; Ok (add_calls [CallZlog zl (zlog_handle st) (dbg_text func line text)] st)
       else Ok st) as Hm.
  { intros lv f func line body st Hin. unfold mlog_macros in Hin.
    repeat (apply elem_of_cons in Hin as [Hin | Hin]; [apply pair_eq in Hin as [-> ->];
      split; [unfold DEBUG_ERR, DEBUG_WARN, DEBUG_INFO, DEBUG_NOTICE, DEBUG_DEBUG; lia | eexists; reflexivity] |]).
    by apply not_elem_of_nil in Hin. }
  split; [intros; by apply Hm |].
  assert (∀ cs, out ++ cs = out → cs = []) as Happ.
  { intros cs E. apply (f_equal length) in E. rewrite length_app in E. destruct cs; [done | cbn in E; lia]. }
  unfold register_debug, init_debug. destruct (Z.ltb_spec (zlog_init (chars "/tmp/misaka.conf")) 0) as [Hi | Hi];
    [| destruct (zlog_get_category (chars "misaka")) as [h |] eqn:Hc]; cbn [set_debug record_call debug_level zlog_handle].
  all: split; [done |].
  all: split; [split; [intros E | intros [? E]]; first [done | by apply Happ in E | by eexists] |].
  2: by intros [? | ?]; [lia |].
  all: intros _ lv f func line text Hin;
    match goal with |- ∃ zl, f func line _ ?st = _ => destruct (Hm lv f func line (Ok text) st Hin) as [Hlv [zl E]] end;
    exists zl; rewrite E; cbn [debug_level set_debug]; by rewrite (proj2 (Z.leb_le _ _)) by (unfold DEBUG_DEBUG; lia).
Qed.
End startup.

(** A library that cannot read its configuration *)
Definition closed_zlog : Zlog :=
  {| zlog_init _ := -1; zlog_get_category _ := None; pointer_text _ := chars "(nil)"; strerror _ := None |}.

Lemma log_opened_or_not_witness :
  let '(out, st) := @register_debug closed_zlog [] log_start in
  out = chars "error in debug init with -1" ++ [10] ∧
  ∃ zl, mlog_err (chars "main") 1 (Ok (chars "fail")) st =
    Ok (add_calls [CallZlog zl None (chars "DBG[main]:[1]>>fail ")] st).
Proof.
  destruct (@log_opened_or_not closed_zlog []) as [_ H].
  change (@register_debug closed_zlog [] log_start)
    with (chars "error in debug init with -1" ++ [10], mkLog DEBUG_DEBUG None []) in H |- *.
  cbv beta iota in H |- *. destruct H as (_ & _ & H). split; [done |].
  apply (H (or_introl eq_refl) DEBUG_ERR mlog_err (chars "main") 1 (chars "fail")). left.
Defined.
