(* ===== verification/CoreFacts.v ===== *)
(** Correctness of the core: the life of a peer and the way of a packet through
    the handlers of Core.v. *)

From S2P Require Import Prelude Memory Sockunion Stream StreamFacts Fifo Linklist LinklistFacts.
From S2P Require Import Hash HashFacts Mq MqFacts Sched SchedFacts Peer Network Parser Link.
From S2P Require Import LinkFacts IdMaker Core.

Local Open Scope Z_scope.

(** ** Total correctness of handlers

    [wp m Q w]: the handler [m] started in [w] does not fault, and its result
    and the new world satisfy [Q]. *)

Section wp.
Context {K : Kernel} {L : Libev} {disparser_fn : Type}.
Abbreviation world := (world disparser_fn).
Implicit Types (w : world) (l s : loc) (p : peer disparser_fn) (n : stream).

Definition wp {A} (m : handler A) (Q : A → world → Prop) w : Prop :=
  ∃ a w', m w = Ok (a, w') ∧ Q a w'.

Lemma wp_ret {A} (a : A) (Q : A → world → Prop) w : Q a w → wp (mret a) Q w.
Proof. intros HQ. by exists a, w. Qed.

Lemma wp_bind {A B} (m : handler A) (f : A → handler B) (Q : B → world → Prop) w :
  wp m (λ a, wp (f a) Q) w → wp (m ≫= f) Q w.
Proof.
  intros (a & w1 & Hm & b & w2 & Hf & HQ). exists b, w2. split; [| done].
  unfold mbind, handler_bind. by rewrite Hm, bind_Ok.
Qed.

Lemma wp_mono {A} (m : handler A) (Q Q' : A → world → Prop) w :
  wp m Q w → (∀ a w', Q a w' → Q' a w') → wp m Q' w.
Proof. intros (a & w' & Hm & HQ) Himp. exists a, w'. auto. Qed.

Lemma wp_get {A} (f : world → A) (Q : A → world → Prop) w : Q (f w) w → wp (get f) Q w.
Proof. intros HQ. by exists (f w), w. Qed.

Lemma wp_put (f : world → world) (Q : unit → world → Prop) w : Q tt (f w) → wp (put f) Q w.
Proof. intros HQ. by exists tt, (f w). Qed.

Lemma wp_lift {A} (m : res A) a (Q : A → world → Prop) w : m = Ok a → Q a w → wp (lift m) Q w.
Proof. intros -> HQ. by exists a, w. Qed.

Lemma wp_when (b : bool) (m : handler unit) (Q : unit → world → Prop) w :
  (b = true → wp m Q w) → (b = false → Q tt w) → wp (when b m) Q w.
Proof. destruct b; intros H1 H2; [by apply H1 | by apply wp_ret, H2]. Qed.

Lemma wp_peer_at l p (Q : peer disparser_fn → world → Prop) w :
  w_peers w !! l = Some p → Q p w → wp (peer_at l) Q w.
Proof.
  intros Hl HQ. exists p, w. split; [| done]. unfold peer_at. by rewrite (load_Some _ _ _ Hl).
Qed.

Lemma wp_set_peer l f p (Q : unit → world → Prop) w :
  w_peers w !! l = Some p → Q tt (set_w_peers (<[l := f p]> (w_peers w)) w) →
  wp (set_peer l f) Q w.
Proof.
  intros Hl HQ. eexists _, _. split; [| exact HQ]. unfold set_peer.
  by rewrite (modify_Some _ _ _ _ Hl).
Qed.

Lemma wp_stream_at s n (Q : stream → world → Prop) w :
  w_streams w !! s = Some n → Q n w → wp (stream_at (Some s)) Q w.
Proof.
  intros Hs HQ. exists n, w. split; [| done]. unfold stream_at. by rewrite (load_Some _ _ _ Hs).
Qed.

Lemma wp_set_stream s f n (Q : unit → world → Prop) w :
  w_streams w !! s = Some n → Q tt (set_w_streams (<[s := f n]> (w_streams w)) w) →
  wp (set_stream (Some s) f) Q w.
Proof.
  intros Hs HQ. eexists _, _. split; [| exact HQ]. unfold set_stream.
  by rewrite (modify_Some _ _ _ _ Hs).
Qed.

Lemma wp_io_active l p x (g : peer disparser_fn → option ev_io) (Q : bool → world → Prop) w :
  w_peers w !! l = Some p → g p = Some x → Q (ev_is_active x =? 1) w → wp (io_active l g) Q w.
Proof.
  intros Hl Hg HQ. unfold io_active. apply wp_bind. eapply wp_peer_at; [done |].
  apply wp_bind. eapply wp_lift; [by rewrite Hg |]. by apply wp_ret.
Qed.

(** Updates of one watcher. *)
Lemma wp_io_update l p x (g : peer disparser_fn → option ev_io) st (u : peer disparser_fn → ev_io → ev_io)
    (Q : unit → world → Prop) w :
  w_peers w !! l = Some p → g p = Some x →
  Q tt (set_w_peers (<[l := st (Some (u p x)) p]> (w_peers w)) w) →
  wp (p ← peer_at l; x ← lift (from_option_or NullDeref (g p));
      set_peer l (st (Some (u p x)))) Q w.
Proof.
  intros Hl Hg HQ. apply wp_bind. eapply wp_peer_at; [done |].
  apply wp_bind. eapply wp_lift; [by rewrite Hg |]. eapply wp_set_peer; done.
Qed.

(** A handler that faults after others succeeded. *)
Definition faults {A} (m : handler A) (e : fault) w : Prop := m w = Fail e.

Lemma faults_bind {A B} (m : handler A) (f : A → handler B) e w :
  wp m (λ a, faults (f a) e) w → faults (m ≫= f) e w.
Proof.
  intros (a & w1 & Hm & Hf). unfold faults, mbind, handler_bind. by rewrite Hm, bind_Ok.
Qed.

Lemma faults_head {A B} (m : handler A) (f : A → handler B) e w :
  faults m e w → faults (m ≫= f) e w.
Proof. intros Hm. unfold faults, mbind, handler_bind. by rewrite Hm. Qed.

End wp.

(** ** Stopping a peer *)

Section stop.
Context {K : Kernel} {L : Libev} {disparser_fn : Type}.
Context (call_disparser : disparser_fn → peer disparser_fn → peer disparser_fn).
Implicit Types (w : world disparser_fn) (l : loc) (p : peer disparser_fn).

(** A peer with its watchers, on which no application set [disparser]. *)
Definition no_disparser (quick : Z) p : Prop :=
  p_disparser p = None ∧ p_quick p = quick ∧ is_Some (p_t_read p) ∧ is_Some (p_t_write p) ∧
  (quick = 1 ∨ is_Some (p_t_connect p)).

Definition plain w l (quick : Z) : Prop :=
  ∃ p, w_peers w !! l = Some p ∧ no_disparser quick p.

Lemma plain_update w l q f :
  plain w l q → (∀ p, no_disparser q p → no_disparser q (f p)) →
  wp (set_peer l f) (λ _ w', plain w' l q) w.
Proof.
  intros (p & Hl & Hp) Hf. eapply wp_set_peer; [done |]. exists (f p).
  split; [apply lookup_insert_eq | auto].
Qed.

Lemma plain_io w l q (g : peer disparser_fn → option ev_io) st :
  plain w l q → (∀ p, no_disparser q p → is_Some (g p)) →
  (∀ p x, no_disparser q p → no_disparser q (st (Some x) p)) →
  wp (r ← io_active l g; when r (io_stop l g st)) (λ _ w', plain w' l q) w.
Proof.
  intros (p & Hl & Hp) Hg Hst. destruct (Hg p Hp) as [x Hx].
  apply wp_bind. eapply wp_io_active; [done | done |].
  apply wp_when; intros _; [| by exists p].
  eapply (wp_io_update l p x g st (λ _ x, ev_io_stop x)); [done | done |].
  eexists. split; [apply lookup_insert_eq | auto].
Qed.

Lemma bind_when {A B} (m : handler A) (f : A → handler unit) (k : handler B) e w :
  wp (m ≫= f) (λ _, faults k e) w → faults (a ← m; _ ← f a; k) e w.
Proof.
  intros (u & w1 & Hm & Hk). unfold faults in *. unfold mbind, handler_bind in *.
  apply bind_Ok_inv in Hm as ([a w2] & Hm & Hf). by rewrite Hm, bind_Ok, Hf, bind_Ok.
Qed.

Local Ltac no_disparser_tac :=
  let p' := fresh "p" in let Ha := fresh in let Hb := fresh in let Hc := fresh in
  let Hd := fresh in let He := fresh in
  first [intros p' (Ha & Hb & Hc & Hd & He) | intros p' ? (Ha & Hb & Hc & Hd & He)];
  solve [exact Hc | exact Hd | (split; [exact Ha | split; [exact Hb |]]; by repeat split)].

(** Misaka_stop calls the callback [disparser] without a test, and no code
    of the repository ever sets it: stopping any such peer, with its watchers
    allocated and whatever its state, dereferences NULL, and so does every event
    that closes or reconnects a peer. *)
Theorem misaka_stop_null_callback w l quick :
  plain w l quick → misaka_stop call_disparser l w = Fail NullDeref.
Proof.
  intros Hp. change (faults (misaka_stop call_disparser l) NullDeref w). unfold misaka_stop.
  pose proof Hp as (p & Hl & Hn). pose proof Hn as (_ & Hq & _).
  apply faults_bind. eapply wp_peer_at; [done |].
  apply faults_bind. eapply wp_mono.
  { apply (wp_when _ _ (λ _ w', plain w' l quick)); intros _; [| done].
    unfold peer_uptime_reset. apply wp_bind, wp_bind, wp_get.
    eapply wp_mono; [by apply plain_update |]. intros ? w1 H1. by apply plain_update. }
  intros ? w1 H1. apply bind_when. eapply wp_mono.
  { apply (plain_io _ _ _ _ _ H1); no_disparser_tac. }
  intros ? w2 H2. apply bind_when. eapply wp_mono.
  { apply (plain_io _ _ _ _ _ H2); no_disparser_tac. }
  intros ? w3 H3. apply faults_bind. eapply wp_mono.
  { apply (wp_when _ _ (λ _ w', plain w' l quick)); [| done]. rewrite Hq. intros Hne.
    destruct H3 as (p3 & Hl3 & Hn3). pose proof Hn3 as (_ & _ & _ & _ & [-> | [x Hx]]); [done |].
    apply wp_bind. unfold periodic_active. apply wp_bind. eapply wp_peer_at; [done |].
    apply wp_bind. eapply wp_lift; [by rewrite Hx |]. apply wp_ret.
    apply wp_when; intros _; [| by exists p3]. unfold periodic_stop.
    apply wp_bind. eapply wp_peer_at; [done |].
    apply wp_bind. eapply wp_lift; [by rewrite Hx |]. eapply wp_set_peer; [done |].
    eexists. split; [apply lookup_insert_eq |].
    destruct Hn3 as (? & ? & ? & ? & ?). by repeat split; auto. }
  intros ? w4 H4. apply faults_bind. eapply wp_mono; [apply (plain_update _ _ quick); [exact H4 | done] |].
  intros ? w5 (p5 & Hl5 & Hn5). apply faults_head. unfold call_disparser_of.
  apply faults_bind. eapply wp_peer_at; [done |]. by destruct Hn5 as (-> & _).
Qed.

End stop.

(** ** The table of peers *)

Section table.
Context {K : Kernel} {L : Libev} {disparser_fn : Type} {AB : Allocator (hash_backet peer_ref)}.
Implicit Types (w : world disparser_fn) (l : loc) (p : peer disparser_fn).
Implicit Types (m : gmap Z peer_ref) (ps : gmap loc (peer disparser_fn)).

(** The hash table stands for the map [m] from ids to peers, none of them freed. *)
Definition peer_table w m : Prop :=
  map_Forall (λ _ r, dangling (w_peers w) r = false) m ∧
  ∃ bs, table (drole_of (w_peers w)) u32 (peer_key (w_peers w)) (w_backets w) (w_table w) bs ∧
    contents (drole_of (w_peers w)) bs = m.

Lemma peer_cmp_ident ps a b : peer_cmp ps a b = true ↔ drole_of ps a = drole_of ps b.
Proof. apply Z.eqb_eq. Qed.

Lemma contents_elem ps (bs : list (list (loc * peer_ref))) x :
  x ∈ concat bs → NoDup (entry (drole_of ps) <$> concat bs).*1 →
  contents (drole_of ps) bs !! drole_of ps x.2 = Some x.2.
Proof.
  intros Hx Hnd. unfold contents. apply elem_of_list_to_map_1; [done |].
  apply list_elem_of_fmap. by exists x.
Qed.

Lemma entry_ext (id1 id2 : peer_ref → Z) (xs : list (loc * peer_ref)) :
  (∀ x, x ∈ xs → id1 x.2 = id2 x.2) → entry id1 <$> xs = entry id2 <$> xs.
Proof.
  intros H. apply list_fmap_ext. intros i x Hx. unfold entry.
  by rewrite H by (by eapply list_elem_of_lookup_2).
Qed.

Lemma bseg_ext (k1 k2 : peer_ref → Z) h xs q :
  (∀ x, x ∈ xs → k1 x.2 = k2 x.2) → bseg k1 h xs q → bseg k2 h xs q.
Proof.
  induction xs as [|[r d] xs IH]; [done |]. intros H [Hr Hs]. split.
  - rewrite Hr. pose proof (H (r, d) ltac:(left)) as Hk. cbn [snd] in Hk. by rewrite Hk.
  - apply IH; [| done]. intros x Hx. apply H. by right.
Qed.

(** The ids of the peers in the table did not change. *)
Lemma peer_table_frame ps ps' h t bs :
  (∀ x, x ∈ concat bs → drole_of ps x.2 = drole_of ps' x.2) →
  table (drole_of ps) u32 (peer_key ps) h t bs →
  table (drole_of ps') u32 (peer_key ps') h t bs ∧
  contents (drole_of ps') bs = contents (drole_of ps) bs.
Proof.
  intros Heq [Hsz Hix Hpos Hch Hlocs Hids Hcnt]. split.
  - constructor; auto.
    + intros i xs Hi. destruct (Hch i xs Hi) as (Hs & Hh & Hc).
      assert (∀ x, x ∈ xs → x ∈ concat bs) as Hin.
      { intros x Hx. apply list_elem_of_In, in_concat. exists xs.
        split; apply list_elem_of_In; [by eapply list_elem_of_lookup_2 | done]. }
      split; [eapply bseg_ext; [| exact Hs] |].
      { intros x Hx. unfold peer_key. by rewrite Heq by auto. }
      split; [done |]. apply Forall_forall. intros x Hx. rewrite <- Heq by auto.
      rewrite Forall_forall in Hc. by apply Hc.
    + by rewrite <- (entry_ext (drole_of ps)).
  - unfold contents. f_equal. symmetry. by apply entry_ext.
Qed.

Lemma peer_search_live w m r : peer_table w m → peer_search r w = Ok (tt, w).
Proof.
  intros (Hlive & bs & Ht & <-). unfold peer_search. cbv zeta.
  rewrite (hash_lookup_cmp_ext (drole_of (w_peers w)) u32 (peer_key (w_peers w))
             (peer_cmp (w_peers w)) (λ _, eq_refl) (peer_cmp_ident _) _ _ _ bs r Ht).
  - rewrite bind_Ok. destruct (contents _ bs !! _) as [d|] eqn:E; [| done].
    by rewrite (Hlive _ _ E).
  - intros x Hx. pose proof (contents_elem _ _ _ Hx (tb_ids _ _ _ _ _ _ Ht)) as Hin.
    by rewrite (Hlive _ _ Hin).
Qed.

Lemma wp_peer_lookup w m d (Q : option peer_ref → world disparser_fn → Prop) :
  peer_table w m → Q (m !! d) w → wp (peer_lookup (LocalPeer d)) Q w.
Proof.
  intros Hm HQ. eexists _, w. split; [| exact HQ]. unfold peer_lookup.
  rewrite (peer_search_live _ _ _ Hm), bind_Ok. destruct Hm as (_ & bs & Ht & <-). unfold hash_lookup.
  rewrite (hash_lookup_spec (drole_of (w_peers w)) u32 (peer_key (w_peers w))
             (peer_cmp (w_peers w)) (λ _, eq_refl) (peer_cmp_ident _) _ _ _ _ Ht).
  by rewrite !bind_Ok.
Qed.

(** ** Registration *)

Lemma set_w_peers_id w : set_w_peers (w_peers w) w = w.
Proof. by destruct w. Qed.

(** The handlers of task/echo_task.c do not touch the peer. *)
Lemma connect_loop_id hs w l p :
  w_peers w !! l = Some p → Forall (λ i, ∃ e, rd (w_handles w) i = Ok e) hs →
  connect_loop hs l w = Ok (tt, w).
Proof.
  intros Hl. induction hs as [|i hs IH]; intros Hall; [done |].
  apply Forall_cons_1 in Hall as [[e He] Hall]. cbn [connect_loop].
  unfold mbind, handler_bind, mret, handler_ret, handle_at. rewrite He, !bind_Ok.
  destruct (eh_connect e) as [[]|]; [| rewrite bind_Ok; by apply IH].
  unfold set_peer. rewrite (modify_Some _ _ _ _ Hl), !bind_Ok. cbn [call_connect misaka_connect snd].
  rewrite insert_id, set_w_peers_id by done. by apply IH.
Qed.

Hypothesis backets : ∀ h : gmap loc (hash_backet peer_ref), is_Some (xalloc h).

(** Registration.  peer_register gives the peer the next id of the pool and
    enters it in the hash table under that id: afterwards the table stands for
    the old map with this one entry added, the other peers, the packets and the
    descriptors are untouched, and nothing faults. *)
Theorem peer_register_enters w l p m c flag ids :
  w_peers w !! l = Some p → peer_table w m → (∀ d, m !! d ≠ Some (PeerAt l)) →
  idmaker_get (w_ids w) = Ok (c, flag, ids) → m !! c = None →
  Forall (λ i, ∃ e, rd (w_handles w) i = Ok e) (w_events w) →
  ∃ bk t, let w' := set_w_table t (set_w_backets bk (set_w_peers
              (<[l := set_p_drole c p]> (w_peers w)) (set_w_ids ids w))) in
    peer_register l w = Ok (tt, w') ∧ peer_table w' (<[c := PeerAt l]> m).
Proof.
  intros Hl (Hlive & bs & Ht & Hm) Hnew Hid Hc Hev. set (ps := <[l := set_p_drole c p]> (w_peers w)).
  assert (drole_of ps (PeerAt l) = c) as Hdl by (cbn; unfold ps; by rewrite lookup_insert_eq).
  destruct (peer_table_frame (w_peers w) ps (w_backets w) (w_table w) bs) as [Ht' Hm'];
    [| done |].
  { intros x Hx. pose proof (contents_elem (w_peers w) bs x Hx (tb_ids _ _ _ _ _ _ Ht)) as Hin.
    destruct x as [r [l'|d]]; [| done]. cbn [snd drole_of] in *. unfold ps.
    destruct (decide (l' = l)) as [-> | Hne]; [| by rewrite lookup_insert_ne].
    rewrite Hm in Hin. by apply Hnew in Hin. }
  destruct (hop_refines (drole_of ps) u32 (peer_key ps) (peer_cmp ps) (λ _, eq_refl)
              (peer_cmp_ident ps) backets (HGet (PeerAt l)) _ _ _ Ht')
    as (bk & t & bs' & Hrun & Ht2 & Hc2).
  cbn [hop_run hop_spec fst snd] in Hrun, Hc2. rewrite Hm', Hm, Hdl, Hc in Hc2.
  assert (map_Forall (λ _ r, dangling ps r = false) m) as Hlive'.
  { intros d r Hr. apply Hlive in Hr. destruct r as [l'|]; [| done]. cbn in *. unfold ps.
    apply bool_decide_eq_false in Hr. apply bool_decide_eq_false.
    by rewrite lookup_insert_None; intros [? _]. }
  exists bk, t. split; [| split; [| by exists bs']].
  2: { apply map_Forall_insert_2; [| done]. cbn. unfold ps. by rewrite lookup_insert_eq. }
  unfold peer_register, mbind, handler_bind, idmaker_get_h. rewrite Hid, !bind_Ok.
  unfold set_peer at 1. cbn [w_peers set_w_ids].
  rewrite (modify_Some _ _ _ _ Hl), !bind_Ok. fold ps.
  unfold peer_at. cbn [w_peers set_w_peers].
  rewrite (load_Some _ _ (set_p_drole c p)), !bind_Ok by apply lookup_insert_eq.
  unfold get. rewrite !bind_Ok. cbn [w_events set_w_peers set_w_ids].
  set (w1 := set_w_peers ps (set_w_ids ids w)).
  assert (when (negb (p_on_connect (set_p_drole c p) =? 0)) (connect_loop (w_events w) l) w1
          = Ok (tt, w1)) as ->.
  { unfold when. destruct (negb _); [| done].
    apply (connect_loop_id _ w1 l (set_p_drole c p)); [apply lookup_insert_eq | done]. }
  rewrite bind_Ok. unfold peer_hash_get.
  rewrite (peer_search_live w1 m), bind_Ok by (split; [done |]; exists bs; split; [done |]; by rewrite <- Hm, <- Hm').
  change (w_peers w1) with ps.
  change (w_backets w1) with (w_backets w). change (w_table w1) with (w_table w).
  change (Some peer_hashalloc_func) with (Some (@hash_alloc_intern peer_ref)).
  rewrite Hrun, !bind_Ok. done.
Qed.

End table.

(** ** Routing a packet to a peer *)

Section route.
Context {K : Kernel} {L : Libev} {disparser_fn : Type} {AB : Allocator (hash_backet peer_ref)}.
Implicit Types (w : world disparser_fn) (l x : loc) (p : peer disparser_fn) (n : stream).
Implicit Types (h : gmap loc stream) (q : stream_fifo).

(** What the pack callback makes of a packet, and when it has room for it. *)
Definition pack_result (fn : pack_fn) n : stream :=
  match fn with peer_default_pack_p => n | normal_parser_pack_p => packed n end.

Definition packable (fn : pack_fn) n : Prop :=
  match fn with
  | peer_default_pack_p => True
  | normal_parser_pack_p => sane n ∧ s_size n < 2 ^ 31 ∧ s_endp n + 32 ≤ s_size n
  end.

Lemma call_pack_spec fn n p :
  p_pack p = Some fn → packable fn n → call_pack n p = Ok (IO_PACKET, pack_result fn n, p).
Proof.
  intros Hp Hn. unfold call_pack. rewrite Hp. destruct fn; [done |].
  destruct Hn as (? & ? & ?). by apply normal_parser_pack_spec.
Qed.

Lemma pack_result_next fn nx n : pack_result fn (set_next nx n) = set_next nx (pack_result fn n).
Proof. by destruct fn. Qed.

Lemma packable_next fn nx n : packable fn n → packable fn (set_next nx n).
Proof. by destruct fn. Qed.

Lemma set_next_set_next a b n : set_next a (set_next b n) = set_next a n.
Proof. done. Qed.

(** Pushing relinks packets, and changes nothing else of them. *)
Lemma fifo_push_payload h q s h' q' y n :
  stream_fifo_push h q s = Ok (h', q') → h !! y = Some n →
  ∃ nx, h' !! y = Some (set_next nx n).
Proof.
  intros He Hy. unfold stream_fifo_push in He. destruct (f_tail q) as [t|].
  - cbn [modify] in He. destruct (h !! t) as [nt|] eqn:Ht; [| discriminate].
    cbn [from_option_or] in He. rewrite !bind_Ok in He. injection He as <- _.
    destruct (decide (y = t)) as [-> | Hne].
    + rewrite lookup_insert_eq. simplify_eq. eauto.
    + rewrite lookup_insert_ne by done. exists (s_next n). rewrite Hy. by destruct n.
  - rewrite bind_Ok in He. injection He as <- _. exists (s_next n). rewrite Hy. by destruct n.
Qed.

(** The write watcher is running with the write callback, if it has to be. *)
Definition writing p : Prop :=
  p_status p = TAT_ESTA → ∃ ev, p_t_write p = Some ev ∧ ev_is_active ev = 1.

(** A peer without what sending changes: its output fifo and its write watcher. *)
Definition conn p : peer disparser_fn := set_p_obuf None (set_p_t_write None p).

(** What a step of the routing loop leaves of the peer. *)
Definition same_link (fn : pack_fn) p p' : Prop :=
  p_pack p' = Some fn ∧ is_Some (p_t_write p') ∧ conn p' = conn p.

Lemma wp_start_write w l p (Q : unit → world disparser_fn → Prop) :
  w_peers w !! l = Some p → is_Some (p_t_write p) →
  (∀ p', writing p' → p_obuf p' = p_obuf p → p_pack p' = p_pack p → is_Some (p_t_write p') →
         conn p' = conn p →
         Q tt (set_w_peers (<[l := p']> (w_peers w)) w)) →
  wp (start_write l) Q w.
Proof.
  intros Hl [x Hx] HQ. unfold start_write. apply wp_bind. eapply wp_peer_at; [done |].
  destruct (Z.eqb_spec (p_status p) TAT_ESTA) as [He|Hne].
  - apply wp_bind. eapply wp_io_active; [done | done |].
    destruct (Z.eqb_spec (ev_is_active x) 1) as [Ha|Ha]; cbn [negb when].
    + apply wp_ret. specialize (HQ p). rewrite insert_id, set_w_peers_id in HQ by done.
      apply HQ; [| done | done | by eexists | done]. intros _. by exists x.
    + apply wp_bind.
      eapply (wp_io_update l p x p_t_write set_p_t_write
                (λ p ev, ev_io_init ev (Some misaka_write_p) (p_fd p) EV_WRITE)); [done | done |].
      eapply (wp_io_update l _ _ p_t_write set_p_t_write (λ _ ev, ev_io_start ev));
        [apply lookup_insert_eq | reflexivity |].
      cbn [w_peers set_w_peers]. rewrite insert_insert_eq.
      change (set_w_peers ?a (set_w_peers ?b w)) with (set_w_peers a w).
      apply HQ; try done. intros _. eexists. split; [reflexivity | apply ev_start_active].
  - apply wp_ret. specialize (HQ p). rewrite insert_id, set_w_peers_id in HQ by done.
    apply HQ; [by intros He | done | done | by eexists | done].
Qed.

(** The packet [x] taken out of its chain, packed and queued. *)
Lemma wp_queue_packet w l p q ys x n fn (Q : unit → world disparser_fn → Prop) :
  w_peers w !! l = Some p → p_obuf p = Some q → p_pack p = Some fn → is_Some (p_t_write p) →
  fifo_rep (w_streams w) q ys → x ∉ ys → w_streams w !! x = Some n → packable fn n →
  (∀ h' q' p',
     fifo_rep h' q' (ys ++ [x]) → p_obuf p' = Some q' → same_link fn p p' → writing p' →
     (∀ y, y ∉ ys → y ≠ x → h' !! y = w_streams w !! y) →
     (∀ y ny, w_streams w !! y = Some ny →
        ∃ nx, h' !! y = Some (set_next nx (if decide (y = x) then pack_result fn ny else ny))) →
     Q tt (set_w_peers (<[l := p']> (w_peers w)) (set_w_streams h' w))) →
  wp (_ ← set_stream (Some x) (set_next None); _ ← pack_packet x l; _ ← push_obuf x l;
      start_write l) Q w.
Proof.
  intros Hl Hq Hfn Htw Hr Hx Hn Hpk HQ.
  apply wp_bind. eapply wp_set_stream; [done |].
  set (n1 := pack_result fn (set_next None n)).
  set (h1 := <[x := n1]> (w_streams w)).
  assert (wp (pack_packet x l) (λ _ w', w' = set_w_streams h1 w)
            (set_w_streams (<[x := set_next None n]> (w_streams w)) w)) as Hpack.
  { eexists tt, _. split; [| reflexivity]. unfold pack_packet.
    cbn [w_streams w_peers set_w_streams].
    rewrite (load_Some _ _ (set_next None n)), bind_Ok by apply lookup_insert_eq.
    rewrite (load_Some _ _ p Hl), bind_Ok.
    rewrite (call_pack_spec fn _ _ Hfn (packable_next _ _ _ Hpk)), bind_Ok.
    rewrite insert_insert_eq, (insert_id (w_peers w)) by done. by destruct w. }
  apply wp_bind. eapply wp_mono; [exact Hpack |]. intros ? ? ->.
  assert (fifo_rep h1 q ys) as Hr1.
  { eapply fifo_frame; [| exact Hr]. intros y Hy. unfold h1. apply lookup_insert_ne. set_solver. }
  destruct (fifo_push_rep h1 q ys x Hr1 Hx) as (h2 & q2 & Hpush & Hr2 & Hd2 & Hf2).
  { exists n1. split; [apply lookup_insert_eq |]. unfold n1. by rewrite pack_result_next. }
  assert (wp (push_obuf x l) (λ _ w', w' = set_w_peers (<[l := set_p_obuf (Some q2) p]> (w_peers w))
            (set_w_streams h2 w)) (set_w_streams h1 w)) as Hpo.
  { eexists tt, _. split; [| reflexivity]. unfold push_obuf. cbn [w_streams w_peers set_w_streams].
    rewrite (load_Some _ _ p Hl), bind_Ok, Hq. cbn [from_option_or]. rewrite bind_Ok, Hpush, bind_Ok.
    unfold set_peer. cbn [w_peers set_w_streams]. by rewrite (modify_Some _ _ _ _ Hl), bind_Ok. }
  apply wp_bind. eapply wp_mono; [exact Hpo |]. intros ? ? ->.
  eapply wp_start_write; [apply lookup_insert_eq | done |].
  intros p' Hwr Ho Hpk' Htw' Hst. cbn [w_peers set_w_peers set_w_streams]. rewrite insert_insert_eq.
  apply (HQ h2 q2 p'); auto.
  - split; [by rewrite Hpk' | by split].
  - intros y Hy Hne. rewrite Hf2 by done. unfold h1. by rewrite lookup_insert_ne.
  - intros y ny Hny. destruct (decide (y = x)) as [-> | Hne].
    + destruct (fifo_push_payload _ _ _ _ _ x n1 Hpush (lookup_insert_eq _ _ _)) as [nx Hnx].
      exists nx. rewrite Hnx. unfold n1. rewrite pack_result_next, set_next_set_next. by simplify_eq.
    + apply (fifo_push_payload _ _ _ _ _ y ny Hpush). unfold h1. by rewrite lookup_insert_ne.
Qed.

Lemma wp_seq4 (a b c d e : handler unit) (Q : unit → world disparser_fn → Prop) w :
  wp (_ ← a; _ ← b; _ ← c; d) (λ _, wp e Q) w → wp (_ ← a; _ ← b; _ ← c; _ ← d; e) Q w.
Proof.
  intros (u & w4 & Hrun & v & w5 & He & HQ). exists v, w5. split; [| done].
  unfold mbind, handler_bind in *.
  apply bind_Ok_inv in Hrun as ([? w1] & -> & Hrun).
  apply bind_Ok_inv in Hrun as ([? w2] & Hb & Hrun).
  apply bind_Ok_inv in Hrun as ([? w3] & Hc & Hrun).
  by rewrite bind_Ok, Hb, bind_Ok, Hc, bind_Ok, Hrun, bind_Ok.
Qed.

Lemma route_loop_spec fn xs : ∀ k w l p q ys (Q : unit → world disparser_fn → Prop),
  w_peers w !! l = Some p → p_obuf p = Some q → p_pack p = Some fn → is_Some (p_t_write p) →
  fifo_rep (w_streams w) q ys → chain (w_streams w) xs None → NoDup (ys ++ xs) →
  (length xs < k)%nat → writing p ∨ xs ≠ [] →
  (∀ x n, x ∈ xs → w_streams w !! x = Some n → packable fn n) →
  (∀ h' q' p',
     fifo_rep h' q' (ys ++ xs) → p_obuf p' = Some q' → same_link fn p p' → writing p' →
     (∀ y, y ∉ ys ++ xs → h' !! y = w_streams w !! y) →
     (∀ y ny, w_streams w !! y = Some ny →
        ∃ nx, h' !! y = Some (set_next nx (if decide (y ∈ xs) then pack_result fn ny else ny))) →
     Q tt (set_w_peers (<[l := p']> (w_peers w)) (set_w_streams h' w))) →
  wp (route_loop k (first_ptr xs None) l) Q w.
Proof.
  induction xs as [|x xs IH]; intros k w l p q ys Q Hl Hq Hfn Htw Hr Hc Hnd Hk Hwr Hpk HQ;
    (destruct k as [|k]; [cbn in Hk; lia |]); cbn [route_loop first_ptr].
  - apply wp_ret. specialize (HQ (w_streams w) q p).
    rewrite insert_id in HQ by done.
    replace (set_w_peers (w_peers w) (set_w_streams (w_streams w) w)) with w in HQ
      by (by destruct w).
    apply HQ; auto; [by rewrite app_nil_r | by repeat split | by destruct Hwr |].
    intros y ny Hy. exists (s_next ny). rewrite decide_False by apply not_elem_of_nil.
    rewrite Hy. by destruct ny.
  - destruct Hc as [(n & Hn & Hnext) Hc]. change (s_next n = first_ptr xs None) in Hnext.
    apply NoDup_app in Hnd as (Hnd1 & Hdis & Hnd2). apply NoDup_cons in Hnd2 as [Hx Hnd2].
    assert (x ∉ ys) as Hxy by (intros Hin; apply (Hdis x Hin); left).
    apply wp_bind. eapply wp_stream_at; [done |]. rewrite Hnext.
    apply wp_seq4. eapply wp_queue_packet; try done; [apply (Hpk x); [left | done] |].
    intros h' q' p' Hr' Hq' (Hfn' & Htw' & Hst') Hwr' Hfr Hpay.
    eapply (IH k _ l p' q' (ys ++ [x])); try done.
    + apply lookup_insert_eq.
    + eapply chain_frame; [| exact Hc]. intros y Hy. cbn [w_streams set_w_peers set_w_streams].
      apply Hfr; [| by intros ->]. intros Hin. apply (Hdis y Hin). by right.
    + rewrite <- app_assoc. apply NoDup_app. split; [done |]. split; [done |]. by apply NoDup_cons.
    + cbn [length] in Hk. lia.
    + by left.
    + intros y ny Hy Hny. cbn [w_streams set_w_peers set_w_streams] in Hny.
      rewrite Hfr in Hny; [| intros Hin; apply (Hdis y Hin); by right | by intros ->].
      apply (Hpk y); [by right | done].
    + intros h2 q2 p2 Hr2 Hq2 (Hfn2 & Htw2 & Hst2) Hwr2 Hfr2 Hpay2.
      cbn [w_peers set_w_peers set_w_streams]. rewrite insert_insert_eq.
      apply (HQ h2 q2 p2); auto.
      * by rewrite <- app_assoc in Hr2.
      * split; [done |]. split; [done | congruence].
      * intros y Hy. rewrite Hfr2 by (rewrite <- app_assoc; exact Hy). cbn [w_streams set_w_peers set_w_streams].
        apply Hfr; set_solver.
      * intros y ny Hy. destruct (Hpay y ny Hy) as [nx1 H1].
        destruct (Hpay2 y _ H1) as [nx2 H2]. exists nx2. rewrite H2.
        destruct (decide (y = x)) as [-> | Hne].
        -- rewrite decide_False by done. by rewrite (decide_True (P := x ∈ x :: xs)) by left.
        -- assert (y ∈ x :: xs ↔ y ∈ xs) as Hiff by (rewrite elem_of_cons; tauto).
           destruct (decide (y ∈ xs)) as [Hin|Hin]; destruct (decide (y ∈ x :: xs)) as [Hin'|Hin'];
             [by rewrite pack_result_next | by destruct Hin'; apply Hiff
              | by destruct Hin; apply Hiff | done].
Qed.

Lemma packet_not_empty n :
  sane n → unread n ≠ [] → (u64 (stream_get_endp n - stream_get_getp n) =? 0) = false.
Proof.
  intros Hs Hu. pose proof (length_unread n Hs) as Hl. pose proof Hs as (? & ? & ? & _).
  apply Z.eqb_neq. unfold stream_get_endp, stream_get_getp.
  rewrite u64_small by (unfold_ranges; lia).
  destruct (unread n); [done |]. cbn [length] in Hl. lia.
Qed.

Lemma route_delivers w m l p q ys x n xs fn :
  peer_table w m → m !! s_nid n = Some (PeerAt l) → w_peers w !! l = Some p →
  p_obuf p = Some q → p_pack p = Some fn → is_Some (p_t_write p) →
  fifo_rep (w_streams w) q ys → chain (w_streams w) (x :: xs) None → NoDup (ys ++ x :: xs) →
  w_streams w !! x = Some n → sane n → unread n ≠ [] →
  (∀ y ny, y ∈ x :: xs → w_streams w !! y = Some ny → packable fn ny) →
  ∃ h' q' p', misaka_packet_route (Some x) w
      = Ok (0, set_w_peers (<[l := p']> (w_peers w)) (set_w_streams h' w)) ∧
    p_obuf p' = Some q' ∧ fifo_rep h' q' (ys ++ x :: xs) ∧ writing p' ∧ same_link fn p p' ∧
    (∀ y, y ∉ ys ++ x :: xs → h' !! y = w_streams w !! y) ∧
    (∀ y ny, w_streams w !! y = Some ny →
       ∃ nx, h' !! y = Some (set_next nx
                 (if decide (y ∈ x :: xs) then pack_result fn ny else ny))).
Proof.
  intros Hm Hid Hl Hq Hfn Htw Hr Hc Hnd Hn Hs Hu Hpk.
  assert (wp (misaka_packet_route (Some x)) (λ r w', ∃ h' q' p', r = 0 ∧
            w' = set_w_peers (<[l := p']> (w_peers w)) (set_w_streams h' w) ∧
            p_obuf p' = Some q' ∧ fifo_rep h' q' (ys ++ x :: xs) ∧ writing p' ∧ same_link fn p p' ∧
            (∀ y, y ∉ ys ++ x :: xs → h' !! y = w_streams w !! y) ∧
            (∀ y ny, w_streams w !! y = Some ny →
               ∃ nx, h' !! y = Some (set_next nx
                 (if decide (y ∈ x :: xs) then pack_result fn ny else ny)))) w) as Hwp.
  { unfold misaka_packet_route. apply wp_bind. eapply wp_stream_at; [done |].
    rewrite packet_not_empty by done. apply wp_bind. eapply wp_peer_lookup; [done |].
    rewrite Hid. apply wp_bind. apply wp_get. apply wp_bind.
    change (Some x) with (first_ptr (x :: xs) None).
    eapply route_loop_spec; try done.
    - apply NoDup_app in Hnd as (_ & _ & Hnd). pose proof (chain_length _ _ _ Hnd Hc). lia.
    - by right.
    - intros h' q' p' Hr' Hq' Hsl Hw' Hfr Hpay. apply wp_ret. exists h', q', p'. auto 10. }
  destruct Hwp as (r & w' & Hrun & h' & q' & p' & -> & -> & ?). exists h', q', p'. auto.
Qed.

(** C5: routing.  A packet whose node id is registered, with the packets linked
    behind it, is packed by the callback of that peer and appended to the peer's
    output fifo, in order and behind what was queued before; no packet that is
    neither routed nor queued changes, every queued one keeps its contents, and if the peer is established its write watcher is
    active afterwards. *)
Theorem misaka_packet_route_delivers w m l p q ys x n xs fn :
  peer_table w m → m !! s_nid n = Some (PeerAt l) → w_peers w !! l = Some p →
  p_obuf p = Some q → p_pack p = Some fn → is_Some (p_t_write p) →
  fifo_rep (w_streams w) q ys → chain (w_streams w) (x :: xs) None → NoDup (ys ++ x :: xs) →
  w_streams w !! x = Some n → sane n → unread n ≠ [] →
  (∀ y ny, y ∈ x :: xs → w_streams w !! y = Some ny → packable fn ny) →
  ∃ h' q' p', misaka_packet_route (Some x) w
      = Ok (0, set_w_peers (<[l := p']> (w_peers w)) (set_w_streams h' w)) ∧
    p_obuf p' = Some q' ∧ fifo_rep h' q' (ys ++ x :: xs) ∧ writing p' ∧ same_link fn p p' ∧
    (∀ y, y ∉ ys ++ x :: xs → h' !! y = w_streams w !! y) ∧
    (∀ y ny, w_streams w !! y = Some ny →
       ∃ nx, h' !! y = Some (set_next nx
                 (if decide (y ∈ x :: xs) then pack_result fn ny else ny))).
Proof. apply route_delivers. Qed.

Lemma route_drops w m x n :
  peer_table w m → w_streams w !! x = Some n → sane n →
  unread n = [] ∨ m !! s_nid n = None →
  misaka_packet_route (Some x) w
    = Ok (if decide (unread n = []) then 0 else -1, set_w_streams (delete x (w_streams w)) w).
Proof.
  intros Hm Hn Hs Hor.
  assert (wp (misaka_packet_route (Some x)) (λ r w',
            r = (if decide (unread n = []) then 0 else -1) ∧
            w' = set_w_streams (delete x (w_streams w)) w) w) as Hwp.
  { assert (wp (free_stream (Some x)) (λ _ w', w' = set_w_streams (delete x (w_streams w)) w) w)
      as Hfree.
    { eexists tt, _. split; [| reflexivity]. unfold free_stream, stream_free.
      by rewrite (release_Some _ _ _ Hn), bind_Ok. }
    unfold misaka_packet_route. apply wp_bind. eapply wp_stream_at; [done |].
    destruct (decide (unread n = [])) as [Hu|Hu].
    - assert ((u64 (stream_get_endp n - stream_get_getp n) =? 0) = true) as ->.
      { pose proof (length_unread n Hs) as Hl. rewrite Hu in Hl. cbn [length] in Hl.
        unfold stream_get_endp, stream_get_getp. by rewrite <- Hl. }
      apply wp_bind. eapply wp_mono; [exact Hfree |]. intros ? ? ->. by apply wp_ret.
    - rewrite packet_not_empty by done. destruct Hor as [? | Hnone]; [done |].
      apply wp_bind. eapply wp_peer_lookup; [done |]. rewrite Hnone.
      apply wp_bind. eapply wp_mono; [exact Hfree |]. intros ? ? ->. by apply wp_ret. }
  by destruct Hwp as (r & w' & -> & -> & ->).
Qed.

(** A packet for a node id that is not registered is freed and the call
    returns -1; an empty packet is freed and the call returns 0.  No peer is
    touched. *)
Theorem misaka_packet_route_drops w m x n :
  peer_table w m → w_streams w !! x = Some n → sane n →
  unread n = [] ∨ m !! s_nid n = None →
  misaka_packet_route (Some x) w
    = Ok (if decide (unread n = []) then 0 else -1, set_w_streams (delete x (w_streams w)) w).
Proof. apply route_drops. Qed.

End route.
