(* ===== verification/PacketFacts.v ===== *)
(** The way of a packet through the handlers of Core.v: from the input buffer of
    a peer to the queue of its task or to another peer, from the output fifo to
    the descriptor, and through the loaded handlers. *)

From S2P Require Import Prelude Memory Sockunion Stream StreamFacts Fifo Linklist LinklistFacts.
From S2P Require Import Hash HashFacts Mq MqFacts Sched SchedFacts Peer Network Parser Link.
From S2P Require Import LinkFacts IdMaker Core CoreFacts.

Local Open Scope Z_scope.

(** ** Packets read from a peer *)

Section input.
Context {K : Kernel} {L : Libev} {disparser_fn : Type}.
Context {AS : StreamAllocator} {AN : Allocator (listnode loc)} {AI : Allocator (option Z)}.
Context {AB : Allocator (hash_backet peer_ref)}.
Context (malloc_ok : Z → bool).
Context (call_disparser : disparser_fn → peer disparser_fn → peer disparser_fn).
Implicit Types (w : world disparser_fn) (l x : loc) (p : peer disparser_fn) (n : stream).

(** The input buffer as read_io_action clones it. *)
Definition stamped (drole role : Z) n : stream :=
  set_type EVENT_ECHO (set_dst role (set_flag 0 (set_src drole n))).

Lemma stamped_buffer drole role n : same_buffer (stamped drole role n) n.
Proof. by repeat split. Qed.

(** The event IO_PACKET, around the copy. *)
Lemma wp_read_packet w timer l p x n (Q : world disparser_fn → Prop) :
  let n1 := stamped (p_drole p) (w_role w) n in
  w_peers w !! l = Some p → p_ibuf p = Some x → w_streams w !! x = Some n →
  wp (dispatch_packet malloc_ok p (w_role w) n1) (λ _ w',
        ∃ p' n', w_peers w' !! l = Some p' ∧ p_parser p' = Some normal_parser_init_p ∧
          w_streams w' !! x = Some n' ∧
          Q (set_w_peers (<[l := normal_parser_init p']> (w_peers w'))
               (set_w_streams (<[x := stream_reset n']> (w_streams w')) w')))
     (set_w_streams (<[x := n1]> (w_streams w)) w) →
  wp (read_io_action malloc_ok call_disparser timer IO_PACKET l) (λ r w', r = 0 ∧ Q w') w.
Proof.
  intros n1 Hl Hx Hn Hd. unfold read_io_action.
  apply wp_bind. eapply wp_peer_at; [done |]. rewrite Hx.
  apply wp_bind. eapply wp_set_stream; [done |]. apply wp_bind. unfold packet_action.
  apply wp_bind. eapply wp_peer_at; [done |]. apply wp_bind, wp_get.
  cbn [w_role set_w_streams]. rewrite Hx.
  do 3 (apply wp_bind; eapply wp_set_stream; [apply lookup_insert_eq |];
        cbn [w_streams set_w_streams]; rewrite insert_insert_eq).
  apply wp_bind. eapply wp_stream_at; [apply lookup_insert_eq |].
  apply wp_bind. eapply wp_mono; [exact Hd |].
  intros ? w' (p' & n' & Hl' & Hpar' & Hn' & HQ).
  apply wp_bind. eapply wp_set_stream; [done |].
  apply wp_bind. eapply wp_peer_at; [done |].
  apply wp_bind. eapply wp_lift; [by unfold call_parser; rewrite Hpar' |].
  eapply wp_set_peer; [done |]. by apply wp_ret.
Qed.

Lemma clone_size from obj d to :
  stream_clone_one from (Some obj) (Some d) = Ok (Some to) → s_size to = MISAKA_MAX_PACKET_SIZE.
Proof.
  unfold stream_clone_one. destruct (stream_new _ _ _) as [t|] eqn:Hn; [| discriminate].
  intros H. apply bind_Ok_inv in H as (to' & H & [= <-]).
  apply stream_put_frame in H as (e & d' & ->).
  unfold stream_new in Hn. simpl in Hn. injection Hn as <-. reflexivity.
Qed.

(** The clone of a packet that fits. *)
Lemma wp_clone w n c o d (Q : option loc → world disparser_fn → Prop) :
  sane n → s_endp n - s_getp n ≤ MISAKA_MAX_PACKET_SIZE →
  salloc (w_streams w) = (Some (c, o), Some d) →
  (∀ to, sane to → unread to = unread n → s_next to = None →
     (s_type to, s_src to, s_dst to) = (s_type n, s_src n, s_dst n) → s_nid to = s_nid o →
     s_size to = MISAKA_MAX_PACKET_SIZE →
     Q (Some c) (set_w_streams (<[c := to]> (w_streams w)) w)) →
  wp (clone_stream n) Q w.
Proof.
  intros Hs Hfit Ha HQ. pose proof (salloc_block _ _ _ Ha) as Hd.
  destruct (stream_clone_one_spec n o d Hs Hd Hfit)
    as (to & He & Hto & _ & Hu & Hnext & Hmeta & _).
  pose proof (clone_keeps_ids n o d to He) as Hids.
  eexists _, _. split.
  - unfold clone_stream, clone_at. rewrite Ha. cbn [fst snd fmap option_fmap option_map].
    by rewrite He, !bind_Ok.
  - apply HQ; [done | done | done | congruence | congruence | by eapply clone_size].
Qed.

(** A packet for this node goes to its task: when a peer has read a complete
    packet whose node id is the one of this server, a copy of its unread bytes,
    marked with the id of the peer as source, this node as destination and the
    echo event as type, is pushed on the queue of that event with a job for the
    workers; the input buffer is empty and the parser expects a header. *)
Theorem read_packet_to_task w timer l p x n c o d q sc :
  w_peers w !! l = Some p → p_ibuf p = Some x → p_sys p = 0 →
  p_parser p = Some normal_parser_init_p → w_streams w !! x = Some n → sane n →
  s_endp n - s_getp n ≤ MISAKA_MAX_PACKET_SIZE → s_nid n = w_role w →
  salloc (<[x := stamped (p_drole p) (w_role w) n]> (w_streams w)) = (Some (c, o), Some d) →
  w_queues w !! 1%nat = Some q → misaka_packet_task_route malloc_ok (w_sched w) q c = Ok sc →
  ∃ to, read_io_action malloc_ok call_disparser timer IO_PACKET l w
      = Ok (0, set_w_peers (<[l := normal_parser_init p]> (w_peers w))
             (set_w_sched sc (set_w_streams
               (<[x := stream_reset (stamped (p_drole p) (w_role w) n)]>
                 (<[c := to]> (w_streams w))) w))) ∧
    sane to ∧ unread to = unread n ∧ s_next to = None ∧
    (s_type to, s_src to, s_dst to) = (EVENT_ECHO, p_drole p, w_role w) ∧
    s_nid to = s_nid o ∧ s_size to = MISAKA_MAX_PACKET_SIZE.
Proof.
  intros Hl Hx Hsys Hpar Hn Hs Hfit Hnid Ha Hq Hsc.
  set (n1 := stamped (p_drole p) (w_role w) n) in *.
  pose proof (salloc_fresh _ _ _ _ Ha) as Hfresh.
  assert (c ≠ x) as Hne by (intros ->; by rewrite lookup_insert_eq in Hfresh).
  assert (wp (read_io_action malloc_ok call_disparser timer IO_PACKET l) (λ r w', r = 0 ∧ ∃ to,
      w' = set_w_peers (<[l := normal_parser_init p]> (w_peers w))
             (set_w_sched sc (set_w_streams (<[x := stream_reset n1]> (<[c := to]> (w_streams w))) w)) ∧
      sane to ∧ unread to = unread n ∧ s_next to = None ∧
      (s_type to, s_src to, s_dst to) = (EVENT_ECHO, p_drole p, w_role w) ∧
      s_nid to = s_nid o ∧ s_size to = MISAKA_MAX_PACKET_SIZE) w) as Hwp.
  2:{ destruct Hwp as (r & w' & Hrun & -> & to & -> & ?). by exists to. }
  eapply (wp_read_packet w timer l p x n); try done. fold n1.
  unfold dispatch_packet. apply wp_bind.
  eapply (wp_clone _ n1 c o d); [by eapply same_buffer_sane | done | done |].
  intros to Hto Hu Hnext Hmeta Hid Hsz. rewrite (same_buffer_unread n1 n) in Hu by done.
  change (s_nid n1) with (s_nid n). rewrite Hnid, Z.eqb_refl.
  apply wp_bind. eapply wp_stream_at; [apply lookup_insert_eq |].
  injection Hmeta as Hty Hsrc Hdst. rewrite Hty. change (s_type n1) with EVENT_ECHO.
  rewrite Hsys. cbn [Z.eqb negb]. change ((EVENT_NONE <? EVENT_ECHO) && (EVENT_ECHO <? EVENT_NET)) with true.
  cbn [when]. eexists tt, _. split.
  { unfold route_task. cbn [w_streams w_queues w_sched set_w_streams].
    rewrite (load_Some _ _ to), bind_Ok by apply lookup_insert_eq.
    rewrite Hty. change (s_type n1) with EVENT_ECHO.
    rewrite (proj2 (rd_Ok _ _ q)), bind_Ok by (split; [done | exact Hq]).
    rewrite Hsc, bind_Ok. reflexivity. }
  exists p, n1. split; [done |]. split; [done |].
  split; [cbn [w_streams set_w_sched set_w_streams]; by rewrite lookup_insert_ne, lookup_insert_eq |].
  exists to. split; [| split; [done |]; split; [done |]; split; [done |]; split; [by rewrite Hty, Hsrc, Hdst | done]].
  cbn [w_streams w_peers set_w_sched set_w_streams].
  rewrite (insert_insert_ne _ c x) by done. rewrite insert_insert_eq. done.
Qed.

(** Forwarding loses the address: a packet for another node is routed by the
    node id of its copy, and the copy does not have it but what the allocation
    left there; if that is no registered id, the packet is dropped although its
    own node id may be registered. *)
Theorem read_packet_forward_drops w timer l p x n c o d m :
  w_peers w !! l = Some p → p_ibuf p = Some x → p_parser p = Some normal_parser_init_p →
  w_streams w !! x = Some n → sane n →
  s_endp n - s_getp n ≤ MISAKA_MAX_PACKET_SIZE → s_nid n ≠ w_role w →
  salloc (<[x := stamped (p_drole p) (w_role w) n]> (w_streams w)) = (Some (c, o), Some d) →
  peer_table w m → m !! s_nid o = None →
  read_io_action malloc_ok call_disparser timer IO_PACKET l w
    = Ok (0, set_w_peers (<[l := normal_parser_init p]> (w_peers w))
           (set_w_streams (<[x := stream_reset (stamped (p_drole p) (w_role w) n)]>
              (w_streams w)) w)).
Proof.
  intros Hl Hx Hpar Hn Hs Hfit Hnid Ha Hm Hno.
  set (n1 := stamped (p_drole p) (w_role w) n) in *.
  pose proof (salloc_fresh _ _ _ _ Ha) as Hfresh.
  assert (c ≠ x) as Hne by (intros ->; by rewrite lookup_insert_eq in Hfresh).
  assert (wp (read_io_action malloc_ok call_disparser timer IO_PACKET l) (λ r w', r = 0 ∧
      w' = set_w_peers (<[l := normal_parser_init p]> (w_peers w))
             (set_w_streams (<[x := stream_reset n1]> (w_streams w)) w)) w) as Hwp.
  2:{ by destruct Hwp as (r & w' & Hrun & -> & ->). }
  eapply (wp_read_packet w timer l p x n); try done. fold n1.
  unfold dispatch_packet. apply wp_bind.
  eapply (wp_clone _ n1 c o d); [by eapply same_buffer_sane | done | done |].
  intros to Hto Hu Hnext Hmeta Hid _.
  change (s_nid n1) with (s_nid n). rewrite (proj2 (Z.eqb_neq _ _) Hnid).
  set (w2 := set_w_streams (<[c := to]> (w_streams (set_w_streams (<[x := n1]> (w_streams w)) w)))
               (set_w_streams (<[x := n1]> (w_streams w)) w)).
  assert (peer_table w2 m) as Hm2 by done.
  assert (w_streams w2 !! c = Some to) as Hc by apply lookup_insert_eq.
  apply wp_bind. eexists _, _. split.
  { apply (route_drops w2 m c to); [done | done | done |]. right. by rewrite Hid. }
  apply wp_ret. exists p, n1. split; [done |]. split; [done |].
  assert (delete c (w_streams w2) = <[x := n1]> (w_streams w)) as Hdel.
  { cbn [w2 w_streams set_w_streams]. apply delete_insert_id. exact Hfresh. }
  cbn [w_streams w_peers set_w_streams]. rewrite Hdel.
  split; [apply lookup_insert_eq |]. rewrite insert_insert_eq. done.
Qed.

End input.

(** ** Watchers *)

Section watchers.
Context {K : Kernel} {L : Libev} {disparser_fn : Type}.
Context {AN : Allocator (listnode loc)} {AI : Allocator (option Z)}.
Context {AB : Allocator (hash_backet peer_ref)}.
Context (call_disparser : disparser_fn → peer disparser_fn → peer disparser_fn).
Implicit Types (w : world disparser_fn) (l x : loc) (p : peer disparser_fn) (ev : ev_io).

Lemma wp_write_proceed w l p q (Q : bool → world disparser_fn → Prop) :
  w_peers w !! l = Some p → p_obuf p = Some q → Q (misaka_write_proceed q) w →
  wp (write_proceed l) Q w.
Proof.
  intros Hl Hq HQ. unfold write_proceed. apply wp_bind. eapply wp_peer_at; [done |].
  apply wp_bind. eapply wp_lift; [by rewrite Hq |]. by apply wp_ret.
Qed.

Lemma proceed_rep h q xs : fifo_rep h q xs → misaka_write_proceed q = bool_decide (xs ≠ []).
Proof.
  intros (_ & _ & Hh & _). unfold misaka_write_proceed, stream_fifo_head. rewrite Hh.
  by destruct xs.
Qed.

(** A connection that was in progress becomes established with the first data
    it reads; if packets are already queued and the write watcher is not running,
    it is started with a NULL callback, so the next writable event calls NULL. *)
Theorem establish_null_callback w l p ev q xs :
  w_peers w !! l = Some p → p_status p ≠ TAT_ESTA → p_obuf p = Some q →
  fifo_rep (w_streams w) q xs → xs ≠ [] → p_t_write p = Some ev → ev_is_active ev ≠ 1 →
  ∃ p' ev', establish l w = Ok (tt, set_w_peers (<[l := p']> (w_peers w)) w) ∧
    p_status p' = TAT_ESTA ∧ p_t_write p' = Some ev' ∧ ev_is_active ev' = 1 ∧ ev_cb ev' = None.
Proof.
  intros Hl Hst Hq Hr Hne Hev Ha.
  assert (wp (establish l) (λ _ w', ∃ p' ev', w' = set_w_peers (<[l := p']> (w_peers w)) w ∧
    p_status p' = TAT_ESTA ∧ p_t_write p' = Some ev' ∧ ev_is_active ev' = 1 ∧ ev_cb ev' = None) w)
    as ([] & w' & Hrun & p' & ev' & -> & ?); [| by exists p', ev'].
  unfold establish. apply wp_bind. eapply wp_peer_at; [done |].
  rewrite (proj2 (Z.eqb_neq _ _) Hst). cbn [negb when].
  apply wp_bind. eapply wp_set_peer; [done |].
  apply wp_bind. eapply wp_write_proceed; [apply lookup_insert_eq | exact Hq |].
  rewrite (proceed_rep _ _ _ Hr), bool_decide_eq_true_2 by done. cbn [when].
  apply wp_bind. eapply wp_io_active; [apply lookup_insert_eq | exact Hev |].
  rewrite (proj2 (Z.eqb_neq _ _) Ha). cbn [negb when].
  apply wp_bind.
  eapply (wp_io_update l _ ev p_t_write set_p_t_write
            (λ p ev, ev_io_init ev None (p_fd p) EV_WRITE)); [apply lookup_insert_eq | done |].
  eapply (wp_io_update l _ _ p_t_write set_p_t_write (λ _ ev, ev_io_start ev));
    [apply lookup_insert_eq | reflexivity |].
  cbn [w_peers set_w_peers]. rewrite !insert_insert_eq. eexists _, _.
  split; [reflexivity |]. split; [done |]. split; [reflexivity |].
  split; [apply ev_start_active |]. by rewrite ev_start_cb, ev_init_cb.
Qed.

Lemma write_flushes w timer rounds l p q xs ds f f' ev :
  w_peers w !! l = Some p → p_status p = TAT_ESTA → p_write p = Some tcp_write_p →
  p_obuf p = Some q → fifo_rep (w_streams w) q xs → all_hold (w_streams w) xs ds →
  w_fds w !! p_fd p = Some f → wrote f ds.*1 f' → (length xs ≤ rounds)%nat →
  p_t_write p = Some ev → - 2 ^ 31 ≤ p_scount p → p_scount p + Z.of_nat (length xs) < 2 ^ 31 →
  ∃ h' p' q' ev', misaka_write call_disparser rounds timer l w
      = Ok (tt, set_w_peers (<[l := p']> (w_peers w))
              (set_w_fds (<[p_fd p := f']> (w_fds w)) (set_w_streams h' w))) ∧
    freed (w_streams w) xs h' ∧ p_obuf p' = Some q' ∧ fifo_rep h' q' [] ∧
    p_scount p' = p_scount p + Z.of_nat (length xs) ∧
    p_t_write p' = Some ev' ∧ ev_is_active ev' ≠ 1 ∧
    conn p' = conn (set_p_scount (p_scount p + Z.of_nat (length xs)) p).
Proof.
  intros Hl Hst Hwr Hq Hr Hall Hf Hw Hk Hev Hge Hlt.
  destruct (write_drains rounds (w_streams w) p q xs ds f f' Hq Hr Hall Hw Hk)
    as (h' & q' & Hrun & Hr' & Hfr).
  set (w1 := set_w_fds (<[p_fd p := f']> (w_fds w))
               (set_w_peers (<[l := set_p_obuf (Some q') p]> (w_peers w)) (set_w_streams h' w))).
  set (p1 := set_p_scount (p_scount p + Z.of_nat (length xs)) (set_p_obuf (Some q') p)).
  assert (wp (misaka_write call_disparser rounds timer l) (λ _ w', ∃ p' ev',
      w' = set_w_peers (<[l := p']> (w_peers w))
              (set_w_fds (<[p_fd p := f']> (w_fds w)) (set_w_streams h' w)) ∧
      p_obuf p' = Some q' ∧ p_scount p' = p_scount p + Z.of_nat (length xs) ∧
      p_t_write p' = Some ev' ∧ ev_is_active ev' ≠ 1 ∧
      conn p' = conn (set_p_scount (p_scount p + Z.of_nat (length xs)) p)) w)
    as ([] & w' & He & p' & ev' & -> & ? & ? & ? & ? & ?); [| by exists h', p', q', ev'].
  unfold misaka_write. apply wp_bind. eapply wp_peer_at; [done |].
  rewrite Hst. cbn [Z.eqb TAT_ESTA Pos.eqb negb].
  assert (wp (call_write rounds l) (λ n w', n = Z.of_nat (length xs) ∧ w' = w1) w) as Hcall.
  { unfold call_write. apply wp_bind. eapply wp_peer_at; [done |]. rewrite Hwr.
    eexists _, _. split; [| by split]. unfold write_link.
    rewrite (load_Some _ _ _ Hl), bind_Ok, Hf, Hrun, bind_Ok. reflexivity. }
  apply wp_bind. eapply wp_mono; [exact Hcall |]. intros ? ? [-> ->].
  destruct (Z.ltb_spec (Z.of_nat (length xs)) 0); [lia |].
  apply wp_bind. eapply wp_peer_at; [apply lookup_insert_eq |].
  apply wp_bind. eapply wp_lift; [apply int_op_Ok; cbn [p_scount set_p_obuf]; lia |].
  apply wp_bind. eapply wp_set_peer; [apply lookup_insert_eq |].
  apply wp_bind. eapply wp_write_proceed; [apply lookup_insert_eq | reflexivity |].
  rewrite (proceed_rep _ _ _ Hr'), bool_decide_eq_false_2 by auto.
  apply wp_bind. eapply wp_io_active; [apply lookup_insert_eq | exact Hev |].
  cbn [w_peers set_w_peers set_w_fds set_w_streams w1]. rewrite insert_insert_eq.
  destruct (Z.eqb_spec (ev_is_active ev) 1) as [Ha|Ha]; cbn [when].
  - eapply (wp_io_update l _ ev p_t_write set_p_t_write (λ _ ev, ev_io_stop ev));
      [apply lookup_insert_eq | done |].
    cbn [w_peers set_w_peers]. rewrite insert_insert_eq. eexists _, _.
    split; [reflexivity |]. split; [done |]. split; [done |]. split; [reflexivity |].
    rewrite ev_stop_inactive. split; [lia | done].
  - apply wp_ret. eexists _, ev. split; [reflexivity |]. by split.
Qed.

(** C19: the write event of an established TCP peer whose descriptor takes every
    buffer whole sends all queued packets in order, frees them, adds their number
    to the counter of the peer and stops the watcher, so that an idle peer costs
    no further events. *)
Theorem misaka_write_flushes w timer rounds l p q xs ds f f' ev :
  w_peers w !! l = Some p → p_status p = TAT_ESTA → p_write p = Some tcp_write_p →
  p_obuf p = Some q → fifo_rep (w_streams w) q xs → all_hold (w_streams w) xs ds →
  w_fds w !! p_fd p = Some f → wrote f ds.*1 f' → (length xs ≤ rounds)%nat →
  p_t_write p = Some ev → - 2 ^ 31 ≤ p_scount p → p_scount p + Z.of_nat (length xs) < 2 ^ 31 →
  ∃ h' p' q' ev', misaka_write call_disparser rounds timer l w
      = Ok (tt, set_w_peers (<[l := p']> (w_peers w))
              (set_w_fds (<[p_fd p := f']> (w_fds w)) (set_w_streams h' w))) ∧
    freed (w_streams w) xs h' ∧ p_obuf p' = Some q' ∧ fifo_rep h' q' [] ∧
    p_scount p' = p_scount p + Z.of_nat (length xs) ∧
    p_t_write p' = Some ev' ∧ ev_is_active ev' ≠ 1.
Proof.
  intros H1 H2 H3 H4 H5 H6 H7 H8 H9 H10 H11 H12.
  destruct (write_flushes w timer rounds l p q xs ds f f' ev H1 H2 H3 H4 H5 H6 H7 H8 H9 H10 H11 H12)
    as (h' & p' & q' & ev' & E1 & E2 & E3 & E4 & E5 & E6 & E7 & _).
  exists h', p', q', ev'. exact (conj E1 (conj E2 (conj E3 (conj E4 (conj E5 (conj E6 E7)))))).
Qed.

End watchers.

(** ** Loaded handlers *)

Section handlers.
Context {K : Kernel} {L : Libev} {disparser_fn : Type}.
Context {AB : Allocator (hash_backet peer_ref)}.
Context (malloc_ok : Z → bool) (run_script : script_fn) (run_python : python_fn).
Implicit Types (w : world disparser_fn) (l s : loc) (n : stream) (eh : event_handle).

(** Before a packet is handed to a Lua or Python script a 0 is stored behind
    it, at an offset that is not checked: a packet that fills its buffer (or one
    of which a part was read, when getp + endp reaches the size) makes the
    handler write outside the block. *)
Theorem script_plugin_overflows w s n eh :
  w_streams w !! s = Some n → sane n → s_size n ≤ s_getp n + s_endp n →
  eh_plug eh = LUA_PLUGIN_TYPE ∨ eh_plug eh = PYTHON_PLUGIN_TYPE →
  call_plugin run_script run_python eh s w = Fail OutOfBounds.
Proof.
  intros Hn Hs Hfull Hplug. pose proof Hs as (? & ? & ? & Hd & _).
  assert (wr (s_data n) (u64 (s_getp n + stream_get_endp n)) 0 = Fail OutOfBounds) as Hwr.
  { unfold stream_get_endp. rewrite u64_small by (unfold_ranges; lia). apply wr_oob. lia. }
  change (faults (call_plugin run_script run_python eh s) OutOfBounds w). unfold call_plugin.
  destruct Hplug as [-> | ->]; apply faults_bind; (eapply wp_stream_at; [done |]);
    apply faults_head; unfold faults, lift, lua_handle, python_handle; by rewrite Hwr.
Qed.

Lemma handle_at_Ok w i eh : w_handles w !! i = Some eh → handle_at (Z.of_nat i) w = Ok (eh, w).
Proof.
  intros Hi. unfold handle_at. rewrite (proj2 (rd_Ok _ _ eh)), bind_Ok; [done |].
  split; [lia |]. by rewrite Nat2Z.id.
Qed.

(** The echo task.  A packet of the echo event, processed with the handler of
    task/echo_task.c loaded for it, goes back where it came from: source and
    destination are exchanged, the type becomes the one of outgoing packets and
    the packet is pushed on the queue the main loop sends from, its payload
    untouched. *)
Theorem process_echo_replies w s n i eh q sc :
  w_streams w !! s = Some n → s_type n = EVENT_ECHO → w_events w = [Z.of_nat i] →
  w_handles w !! i = Some eh → eh_type eh = EVENT_ECHO → eh_plug eh = C_PLUGIN_TYPE →
  eh_func eh = Some misaka_handle_p → w_queues w !! 3%nat = Some q →
  misaka_packet_net_route malloc_ok (w_sched w) q s = Ok sc →
  misaka_packet_process malloc_ok run_script run_python s w
    = Ok (None, set_w_sched sc (set_w_streams
        (<[s := set_type EVENT_NET (set_dst (s_src n) (set_src (s_dst n) n))]> (w_streams w)) w)).
Proof.
  intros Hn Hty Hev Hi Heht Hplug Hfunc Hq Hsc.
  assert (wp (misaka_packet_process malloc_ok run_script run_python s) (λ r w', r = None ∧
    w' = set_w_sched sc (set_w_streams
        (<[s := set_type EVENT_NET (set_dst (s_src n) (set_src (s_dst n) n))]> (w_streams w)) w)) w)
    as (r & w' & -> & -> & ->); [| done].
  unfold misaka_packet_process. apply wp_bind. eapply wp_stream_at; [done |]. rewrite Hty.
  change ((EVENT_ECHO <=? EVENT_NONE) || (EVENT_ECHO >=? EVENT_NET)) with false. cbv iota.
  apply wp_bind, wp_get. rewrite Hev. cbn [process_loop].
  apply wp_bind. eexists _, _. split; [by apply handle_at_Ok |]. rewrite Heht, Z.eqb_refl.
  cbn [negb]. unfold call_plugin. rewrite Hplug, Hfunc. apply wp_bind, wp_bind.
  eapply wp_set_stream; [done |]. apply wp_ret. apply wp_bind.
  eapply wp_stream_at; [apply lookup_insert_eq |].
  change (s_type (call_func misaka_handle_p n) =? EVENT_NET) with true. cbv iota.
  apply wp_bind. eexists tt, _. split.
  { unfold route_net. cbn [w_streams set_w_streams w_queues w_sched].
    rewrite (modify_Some _ _ _ _ (lookup_insert_eq _ _ _)), bind_Ok, insert_insert_eq.
    rewrite (proj2 (rd_Ok _ _ q)), bind_Ok by (split; [done | exact Hq]).
    by rewrite Hsc, bind_Ok. }
  by apply wp_ret.
Qed.

Lemma set_handle_Ok w i eh f :
  w_handles w !! i = Some eh →
  set_handle (Z.of_nat i) f w = Ok (tt, set_w_handles (<[i := f eh]> (w_handles w)) w).
Proof.
  intros Hi. pose proof (lookup_lt_Some _ _ _ Hi). unfold set_handle.
  rewrite (proj2 (rd_Ok _ _ eh)), bind_Ok by (split; [lia |]; by rewrite Nat2Z.id).
  by rewrite wr_Ok, bind_Ok, Nat2Z.id by lia.
Qed.

Lemma wp_set_handle w i eh f (Q : unit → world disparser_fn → Prop) :
  w_handles w !! i = Some eh →
  Q tt (set_w_handles (<[i := f eh]> (w_handles w)) w) → wp (set_handle (Z.of_nat i) f) Q w.
Proof. intros Hi HQ. eexists _, _. split; [by apply set_handle_Ok | done]. Qed.

Lemma wp_handle_at w i eh (Q : event_handle → world disparser_fn → Prop) :
  w_handles w !! i = Some eh → Q eh w → wp (handle_at (Z.of_nat i)) Q w.
Proof. intros Hi HQ. eexists _, _. split; [by apply handle_at_Ok | done]. Qed.

(** A C plugin is accepted without its packet handler: misaka_load_event tests
    the symbol misaka_deinit twice and misaka_handle never, so a shared object
    that lacks misaka_handle is loaded with success and its packets are routed on
    unprocessed. *)
Theorem load_event_without_handler w i eh pl :
  w_handles w !! i = Some eh → Z.of_nat i < EVENT_MAX → eh_plug eh = C_PLUGIN_TYPE →
  pl_open pl = true → pl_func pl = None → pl_init pl = true → pl_deinit pl = true →
  is_Some (pl_connect pl) → is_Some (pl_disconnect pl) →
  ∃ w' eh', misaka_load_event pl (Z.of_nat i) w = Ok (0, w') ∧
    w_events w' = w_events w ++ [Z.of_nat i] ∧ w_handles w' !! i = Some eh' ∧
    eh_func eh' = None ∧ eh_plug eh' = C_PLUGIN_TYPE.
Proof.
  intros Hi Hlt Hplug Hopen Hfunc Hinit Hdeinit [c Hc] [d Hd].
  pose proof (lookup_lt_Some _ _ _ Hi) as Hlen.
  assert (wp (misaka_load_event pl (Z.of_nat i)) (λ r w', r = 0 ∧ ∃ eh',
    w_events w' = w_events w ++ [Z.of_nat i] ∧ w_handles w' !! i = Some eh' ∧
    eh_func eh' = None ∧ eh_plug eh' = C_PLUGIN_TYPE) w)
    as (r & w' & Hrun & -> & eh' & ?); [| by exists w', eh'].
  unfold misaka_load_event. unfold EVENT_NONE.
  destruct (Z.ltb_spec (Z.of_nat i) 0); [lia |].
  destruct (Z.leb_spec EVENT_MAX (Z.of_nat i)); [lia |]. cbn [orb].
  apply wp_bind. eapply wp_set_handle; [done |].
  apply wp_bind. eapply wp_handle_at.
  { cbn [w_handles set_w_handles]. by apply list_lookup_insert_eq. }
  cbn [eh_plug set_eh_type]. rewrite Hplug, Hopen. cbn [negb].
  apply wp_bind. eapply wp_set_handle.
  { cbn [w_handles set_w_handles]. by apply list_lookup_insert_eq. }
  rewrite Hinit, Hdeinit, Hc, Hd. cbn [andb].
  apply wp_bind. eapply wp_set_handle.
  { cbn [w_handles set_w_handles]. rewrite list_insert_insert_eq. by apply list_lookup_insert_eq. }
  apply wp_bind, wp_put, wp_ret. split; [done |]. eexists.
  cbn [w_handles w_events set_w_events set_w_handles]. rewrite !list_insert_insert_eq.
  split; [done |]. split; [by apply list_lookup_insert_eq |]. split; [exact Hfunc | exact Hplug].
Qed.

(** Peer_lookup_su and peer_lookup_dsu do not look at the address: the test of
    the loop ends in a semicolon, so they return the first peer of the list for
    every address, and NULL only for an empty list. *)
Theorem peer_lookup_su_first w lst cells su :
  list_rep (w_nodes w) lst cells →
  peer_lookup_su (Some lst) su w = Ok (head cells.*2, w) ∧
  peer_lookup_dsu (Some lst) su w = Ok (head cells.*2, w).
Proof.
  intros (Hs & _ & Hh & _). unfold peer_lookup_dsu, peer_lookup_su. rewrite Hh.
  destruct cells as [|[r l] cells]; [done |]. cbn [dfirst fmap list_fmap head].
  destruct Hs as [Hr _]. unfold mbind, handler_bind, get, lift.
  by rewrite !bind_Ok, (load_Some _ _ _ Hr), !bind_Ok.
Qed.

End handlers.
