(* ===== verification/Worlds.v ===== *)
(** Concrete worlds: small servers with one peer, on which the theorems of
    CoreFacts.v and PacketFacts.v are applied. *)

From S2P Require Import Prelude Memory Sockunion Stream StreamFacts Fifo Linklist LinklistFacts.
From S2P Require Import Hash HashFacts Mq MqFacts Sched SchedFacts Peer Network Parser Link.
From S2P Require Import LinkFacts IdMaker Core Log LogFacts CoreFacts PacketFacts.

Local Open Scope Z_scope.

(** Blocks of 256 zero bytes, structures that hold the node id 41. *)
Definition fresh_streams (h : gmap loc stream) : allocation :=
  (Some (fresh (dom h), set_nid 41 (blank_stream 0)), Some (replicate 256 0)).

Lemma fresh_streams_fresh h l o b : fresh_streams h = (Some (l, o), b) → h !! l = None.
Proof. intros [= <- _ _]. apply not_elem_of_dom, is_fresh. Qed.

Lemma fresh_streams_block h a d :
  fresh_streams h = (a, Some d) → block_of MISAKA_MAX_PACKET_SIZE d.
Proof.
  intros H. assert (d = replicate 256 0) as -> by (unfold fresh_streams in H; congruence).
  split; [reflexivity |]. apply Forall_replicate. unfold is_u8. lia.
Qed.

Definition zeroed_streams : StreamAllocator :=
  {| salloc := fresh_streams; salloc_fresh := fresh_streams_fresh;
     salloc_block := fresh_streams_block |}.

#[local] Existing Instance script_kernel.
#[local] Existing Instance record_libev.
#[local] Existing Instance zeroed_streams.

Abbreviation peer0 := (peer Empty_set).
Abbreviation world0 := (world Empty_set).

(** A TCP peer with its two watchers idle, the id 7 and the input buffer at 1. *)
Definition demo_peer : peer0 :=
  let ev := mkWatcher 0 None 0 in
  set_p_parser (Some normal_parser_init_p) (set_p_write (Some tcp_write_p)
    (set_p_t_write (Some ev) (set_p_t_read (Some ev) (set_p_quick 1 (set_p_drole 7
      (set_p_status TAT_ESTA (set_p_fd 5
        (init_peer 0 (Some 1%positive) (Some out_fifo))))))))).

(** The echo handler, loaded for the echo event. *)
Definition echo_handle : event_handle :=
  mkHandle [] (Some misaka_handle_p) true true (Some misaka_connect_p)
    (Some misaka_disconnect_p) false true EVENT_ECHO C_PLUGIN_TYPE.
Definition none_handle : event_handle :=
  mkHandle [] None false false None None false false 0 NONE_PLUGIN_TYPE.

(** The message queues after core_init. *)
Definition demo_queues : list loc * sched loc :=
  match init_queues (AQ := unbounded_allocator) (λ _, true) with
  | Ok r => r
  | Fail _ => ([], mkSched (mkSt ∅ None) 0 ∅ [] [])
  end.

(** A server with the given packets, peers and table. *)
Definition server (streams : gmap loc stream) (p : peer0)
    (bk : gmap loc (hash_backet peer_ref)) (t : hash) : world0 :=
  mkWorld streams {[1%positive := p]} ∅ list_new bk t (pool_at 100 104)
    {[5 := mkScript [] [] []]} demo_queues.2 demo_queues.1
    [none_handle; echo_handle; none_handle; none_handle] [1] 3 0.

(** No peer is registered. *)
Lemma empty_table streams p : peer_table (server streams p ∅ (hash_create_size 4)) ∅.
Proof.
  split; [apply map_Forall_empty |].
  exists (replicate 4 []). split; [apply (create_table _ u32 _ 4); lia | reflexivity].
Qed.

(** The peer is registered under its id 7. *)
Definition table7 : hash := mkHash [None; None; None; Some 1%positive] 4 1.
Definition backets7 : gmap loc (hash_backet peer_ref) :=
  {[1%positive := mkBacket None 7 (PeerAt 1%positive)]}.

Lemma peer_table7 streams p :
  p_drole p = 7 → peer_table (server streams p backets7 table7) {[7 := PeerAt 1%positive]}.
Proof.
  intros Hp. split; [by apply map_Forall_singleton |].
  exists [[]; []; []; [(1%positive, PeerAt 1%positive)]].
  assert (drole_of (w_peers (server streams p backets7 table7)) (PeerAt 1%positive) = 7) as Hd
    by exact Hp.
  split.
  - constructor; [done | done | cbn; lia | | | | done].
    + intros i xs Hi. destruct i as [|[|[|[|i]]]]; [injection Hi as <- .. | discriminate];
        split; try done; split; try done.
      * cbn [bseg bfirst first_ptr fmap list_fmap]. unfold peer_key. rewrite Hd. done.
      * apply Forall_cons_2; [| constructor]. cbn [snd]. by rewrite Hd.
    + cbn. apply NoDup_singleton.
    + cbn. apply NoDup_singleton.
  - unfold contents. cbn [concat app fmap list_fmap]. unfold entry. cbn [snd]. by rewrite Hd.
Qed.

Definition no_call (fn : Empty_set) (p : peer0) : peer0 := match fn with end.

Lemma misaka_stop_null_callback_witness :
  misaka_stop no_call 1%positive (server out_heap demo_peer backets7 table7) = Fail NullDeref.
Proof.
  apply (misaka_stop_null_callback no_call _ _ 1). exists demo_peer. split; [reflexivity |].
  split; [reflexivity |]. split; [reflexivity |].
  split; [eexists; reflexivity |]. split; [eexists; reflexivity | by left].
Defined.

Lemma peer_register_enters_witness :
  ∃ bk t w', peer_register (AB := unbounded_allocator) 1%positive
      (server ∅ demo_peer ∅ (hash_create_size 4)) = Ok (tt, set_w_table t (set_w_backets bk w')) ∧
    peer_table (set_w_table t (set_w_backets bk w')) {[100 := PeerAt 1%positive]}.
Proof.
  edestruct (peer_register_enters (AB := unbounded_allocator) ltac:(eauto)
    (server ∅ demo_peer ∅ (hash_create_size 4)) 1%positive demo_peer ∅ 100 1 (pool_at 101 104))
    as (bk & t & H & Ht).
  - reflexivity.
  - apply empty_table.
  - intros d. by rewrite lookup_empty.
  - reflexivity.
  - apply lookup_empty.
  - apply Forall_cons_2; [exists echo_handle; reflexivity | constructor].
  - exists bk, t. eexists. split; [exact H | exact Ht].
Defined.

(** The packet at 3, for the node 7. *)
Definition routed_heap : gmap loc stream :=
  <[3%positive := packet_with [9; 9]]> out_heap.

Lemma packet_with_u8 : sane (packet_with [9; 9]).
Proof.
  apply packet_with_sane; [| cbn; lia].
  repeat (apply Forall_cons_2; [unfold is_u8; lia |]). constructor.
Qed.

Lemma routed_fifo : fifo_rep routed_heap out_fifo [1%positive; 2%positive].
Proof.
  eapply fifo_frame; [| apply out_fifo_rep]. intros x Hx.
  unfold routed_heap. rewrite lookup_insert_ne; [done |]. set_solver.
Qed.

Lemma misaka_packet_route_delivers_witness :
  ∃ h' q' p', misaka_packet_route (AB := unbounded_allocator) (Some 3%positive)
      (server routed_heap demo_peer backets7 table7)
      = Ok (0, set_w_peers {[1%positive := p']}
                 (set_w_streams h' (server routed_heap demo_peer backets7 table7))) ∧
    p_obuf p' = Some q' ∧ fifo_rep h' q' [1%positive; 2%positive; 3%positive] ∧ writing p'.
Proof.
  edestruct (misaka_packet_route_delivers (AB := unbounded_allocator)
    (server routed_heap demo_peer backets7 table7) {[7 := PeerAt 1%positive]} 1%positive demo_peer
    out_fifo [1%positive; 2%positive] 3%positive (packet_with [9; 9]) [] peer_default_pack_p)
    as (h' & q' & p' & Hrun & Hq & Hr & Hw & _).
  - by apply peer_table7.
  - reflexivity.
  - reflexivity.
  - reflexivity.
  - reflexivity.
  - by eexists.
  - apply routed_fifo.
  - split; [| done]. eexists. split; reflexivity.
  - apply (bool_decide_unpack _). by vm_compute.
  - reflexivity.
  - apply packet_with_u8.
  - by vm_compute.
  - done.
  - exists h', q', p'. split; [exact Hrun |]. by split.
Defined.

Lemma misaka_packet_route_drops_witness :
  misaka_packet_route (AB := unbounded_allocator) (Some 3%positive)
    (server routed_heap demo_peer ∅ (hash_create_size 4))
    = Ok (-1, set_w_streams (delete 3%positive routed_heap)
                (server routed_heap demo_peer ∅ (hash_create_size 4))).
Proof.
  exact (misaka_packet_route_drops (AB := unbounded_allocator)
           (server routed_heap demo_peer ∅ (hash_create_size 4)) ∅ 3%positive
           (packet_with [9; 9]) (empty_table routed_heap demo_peer) eq_refl packet_with_u8
           (or_intror (lookup_empty _))).
Defined.

(** The input buffer at 1 holds a packet for this node, 3. *)
Definition input_heap (nid : Z) : gmap loc stream :=
  {[1%positive := set_nid nid (packet_with [9; 9])]}.

Lemma input_sane nid : sane (set_nid nid (packet_with [9; 9])).
Proof. eapply same_buffer_sane; [| apply packet_with_u8]. by repeat split. Qed.

Definition input_world (nid : Z) : world0 := server (input_heap nid) demo_peer backets7 table7.

(** The address of the copy. *)
Definition copy_at : loc := Eval vm_compute in fresh (dom (input_heap 3)).

Lemma copy_alloc nid :
  salloc (<[1%positive := stamped 7 3 (set_nid nid (packet_with [9; 9]))]> (input_heap nid))
    = (Some (copy_at, set_nid 41 (blank_stream 0)), Some (replicate 256 0)).
Proof. reflexivity. Qed.

Definition after_task : sched loc :=
  match misaka_packet_task_route (λ _, true) (w_sched (input_world 3)) echo_queue copy_at with
  | Ok sc => sc
  | Fail _ => w_sched (input_world 3)
  end.

Lemma after_task_ok :
  misaka_packet_task_route (λ _, true) (w_sched (input_world 3)) echo_queue copy_at
    = Ok after_task.
Proof. vm_compute. reflexivity. Qed.

Lemma read_packet_to_task_witness :
  ∃ w' to, read_io_action (AB := unbounded_allocator) (AN := unbounded_allocator)
      (AI := unbounded_allocator) (λ _, true) no_call None IO_PACKET 1%positive (input_world 3)
      = Ok (0, w') ∧ w_sched w' = after_task ∧
    sane to ∧ unread to = [9; 9] ∧ s_next to = None ∧
    (s_type to, s_src to, s_dst to) = (EVENT_ECHO, 7, 3).
Proof.
  edestruct (read_packet_to_task (AB := unbounded_allocator) (AN := unbounded_allocator)
            (AI := unbounded_allocator) (λ _, true) no_call (input_world 3) None 1%positive demo_peer
            1%positive (set_nid 3 (packet_with [9; 9])) copy_at
            (set_nid 41 (blank_stream 0)) (replicate 256 0) echo_queue after_task)
    as (to & Hrun & Hs & Hu & Hn & Hm & _).
  - reflexivity.
  - reflexivity.
  - reflexivity.
  - reflexivity.
  - reflexivity.
  - apply input_sane.
  - by vm_compute.
  - reflexivity.
  - exact (copy_alloc 3).
  - by vm_compute.
  - exact after_task_ok.
  - eexists _, to. split; [exact Hrun |]. split; [reflexivity |].
    split; [exact Hs |]. split; [rewrite Hu; reflexivity |]. split; [exact Hn | exact Hm].
Defined.

Lemma read_packet_forward_drops_witness :
  ∃ w', read_io_action (AB := unbounded_allocator) (AN := unbounded_allocator)
      (AI := unbounded_allocator) (λ _, true) no_call None IO_PACKET 1%positive (input_world 7)
      = Ok (0, w') ∧ dom (w_streams w') = {[1%positive]}.
Proof.
  eexists. split.
  - apply (read_packet_forward_drops (AB := unbounded_allocator) (AN := unbounded_allocator)
            (AI := unbounded_allocator) (λ _, true) no_call (input_world 7) None 1%positive demo_peer
            1%positive (set_nid 7 (packet_with [9; 9])) copy_at
            (set_nid 41 (blank_stream 0)) (replicate 256 0) {[7 := PeerAt 1%positive]}).
    + reflexivity.
    + reflexivity.
    + reflexivity.
    + reflexivity.
    + apply input_sane.
    + by vm_compute.
    + by vm_compute.
    + exact (copy_alloc 7).
    + by apply peer_table7.
    + reflexivity.
  - cbn [w_streams set_w_peers set_w_streams]. rewrite dom_insert_L.
    change (dom (w_streams (input_world 7))) with (dom (input_heap 7)).
    unfold input_heap. rewrite dom_singleton_L. set_solver.
Defined.

Lemma establish_null_callback_witness :
  ∃ p' ev', establish 1%positive
      (server out_heap (set_p_status TAT_IDLE demo_peer) backets7 table7)
      = Ok (tt, set_w_peers {[1%positive := p']}
                  (server out_heap (set_p_status TAT_IDLE demo_peer) backets7 table7)) ∧
    p_status p' = TAT_ESTA ∧ p_t_write p' = Some ev' ∧ wa_active ev' = 1 ∧ wa_cb ev' = None.
Proof.
  apply (establish_null_callback
    (server out_heap (set_p_status TAT_IDLE demo_peer) backets7 table7) 1%positive
    (set_p_status TAT_IDLE demo_peer) (mkWatcher 0 None 0) out_fifo [1%positive; 2%positive]).
  - reflexivity.
  - discriminate.
  - reflexivity.
  - apply out_fifo_rep.
  - discriminate.
  - reflexivity.
  - discriminate.
Defined.

Lemma misaka_write_flushes_witness :
  ∃ h' p' q' ev', misaka_write (AB := unbounded_allocator) (AN := unbounded_allocator)
      (AI := unbounded_allocator) no_call 2 None 1%positive
      (server out_heap demo_peer backets7 table7)
      = Ok (tt, set_w_peers {[1%positive := p']}
              (set_w_fds {[5 := mkScript [] [1; 2; 3; 4; 5; 6] []]}
                 (set_w_streams h' (server out_heap demo_peer backets7 table7)))) ∧
    freed out_heap [1%positive; 2%positive] h' ∧ p_obuf p' = Some q' ∧ fifo_rep h' q' [] ∧
    p_scount p' = 2 ∧ p_t_write p' = Some ev' ∧ wa_active ev' ≠ 1.
Proof.
  apply (misaka_write_flushes (AB := unbounded_allocator) (AN := unbounded_allocator)
    (AI := unbounded_allocator) no_call (server out_heap demo_peer backets7 table7) None 2
    1%positive demo_peer out_fifo [1%positive; 2%positive]
    [([1; 2; 3; 4], mkSockunion 0 0 0); ([5; 6], mkSockunion 0 0 0)]
    (mkScript [] [] []) (mkScript [] [1; 2; 3; 4; 5; 6] []) (mkWatcher 0 None 0)).
  - reflexivity.
  - reflexivity.
  - reflexivity.
  - reflexivity.
  - apply out_fifo_rep.
  - apply out_holds.
  - reflexivity.
  - repeat (econstructor; [reflexivity |]). constructor.
  - cbn. lia.
  - reflexivity.
  - by vm_compute.
  - by vm_compute.
Defined.

(** A packet that fills its buffer. *)
Definition full_packet : stream := set_type EVENT_ECHO (pushed (blank_stream 2) [1; 2]).

Lemma full_packet_sane : sane full_packet.
Proof.
  eapply same_buffer_sane; [repeat split |].
  apply pushed_sane; [by apply blank_stream_sane | | by vm_compute].
  repeat (apply Forall_cons_2; [unfold is_u8; lia |]). constructor.
Qed.

Lemma script_plugin_overflows_witness :
  call_plugin (λ _ _ _ _, None) (λ t s d p, (t, s, d, p))
    (set_eh_plug LUA_PLUGIN_TYPE echo_handle) 1%positive
    (server {[1%positive := full_packet]} demo_peer backets7 table7) = Fail OutOfBounds.
Proof.
  apply (script_plugin_overflows _ _ (server {[1%positive := full_packet]} demo_peer backets7 table7)
           1%positive full_packet).
  - reflexivity.
  - apply full_packet_sane.
  - by vm_compute.
  - left. reflexivity.
Defined.

Definition echo_world : world0 :=
  server {[1%positive := set_type EVENT_ECHO (packet_with [9; 9])]} demo_peer backets7 table7.

Definition after_reply : sched loc :=
  match misaka_packet_net_route (λ _, true) (w_sched echo_world) net_queue 1%positive with
  | Ok sc => sc
  | Fail _ => w_sched echo_world
  end.

Lemma after_reply_ok :
  misaka_packet_net_route (λ _, true) (w_sched echo_world) net_queue 1%positive = Ok after_reply.
Proof. vm_compute. reflexivity. Qed.

Lemma process_echo_replies_witness :
  ∃ w' n', misaka_packet_process (λ _, true) (λ _ _ _ _, None) (λ t s d p, (t, s, d, p)) 1%positive echo_world
             = Ok (None, w') ∧
    w_streams w' !! 1%positive = Some n' ∧ (s_src n', s_dst n', s_type n') = (-2, 1, EVENT_NET) ∧
    unread n' = [9; 9].
Proof.
  eexists _, _. split.
  - apply (process_echo_replies (λ _, true) _ _ echo_world 1%positive
             (set_type EVENT_ECHO (packet_with [9; 9])) 1%nat echo_handle net_queue after_reply).
    + reflexivity.
    + reflexivity.
    + reflexivity.
    + reflexivity.
    + reflexivity.
    + reflexivity.
    + reflexivity.
    + by vm_compute.
    + exact after_reply_ok.
  - split; [apply lookup_insert_eq |]. by split.
Defined.

(** A shared object without misaka_handle. *)
Definition plugin_no_handle : plugin_env :=
  mkPlugin true None true true (Some misaka_connect_p) (Some misaka_disconnect_p).

Lemma load_event_without_handler_witness :
  ∃ w' eh', misaka_load_event plugin_no_handle 1 echo_world = Ok (0, w') ∧
    w_events w' = [1; 1] ∧ w_handles w' !! 1%nat = Some eh' ∧
    eh_func eh' = None ∧ eh_plug eh' = C_PLUGIN_TYPE.
Proof.
  apply (load_event_without_handler echo_world 1%nat echo_handle plugin_no_handle).
  - reflexivity.
  - by vm_compute.
  - reflexivity.
  - reflexivity.
  - reflexivity.
  - reflexivity.
  - reflexivity.
  - by eexists.
  - by eexists.
Defined.

(** A list of two peers. *)
Definition two_nodes : gmap loc (listnode loc) :=
  <[1%positive := mkNode (Some 2%positive) None (Some 11%positive)]>
    {[2%positive := mkNode None (Some 1%positive) (Some 12%positive)]}.
Definition two_list : clist loc := mkList (Some 1%positive) (Some 2%positive) 2 None false.

Lemma peer_lookup_su_first_witness :
  peer_lookup_su (Some two_list) (mkSockunion 2 80 16777343) (set_w_nodes two_nodes echo_world)
    = Ok (Some 11%positive, set_w_nodes two_nodes echo_world) ∧
  peer_lookup_dsu (Some two_list) (mkSockunion 2 80 16777343) (set_w_nodes two_nodes echo_world)
    = Ok (Some 11%positive, set_w_nodes two_nodes echo_world).
Proof.
  apply (peer_lookup_su_first (set_w_nodes two_nodes echo_world) two_list
           [(1%positive, 11%positive); (2%positive, 12%positive)]).
  split; [| split; [| by repeat split]].
  - split; [reflexivity |]. split; [reflexivity | done].
  - apply (bool_decide_unpack _). by vm_compute.
Defined.

(** A server with both peers listed: the first has two addresses, the second has
    none. *)
Definition addressed_peer : peer0 :=
  set_p_su (mkSockunion AF_INET 0 16777343) (set_p_dsu (mkSockunion AF_INET 0 16777343) demo_peer).

Definition listed_world (second : peer0) : world0 :=
  set_w_nodes two_nodes (set_w_plist two_list (set_w_peers
    (<[11%positive := addressed_peer]> {[12%positive := second]}) echo_world)).

Lemma core_watch_outcome_witness :
  let st := mkLog DEBUG_DEBUG None [] in
  (∃ recs, misaka_core_watch (listed_world addressed_peer) st = Ok (add_calls recs st) ∧
     length recs = 36%nat ∧ omap shown_id recs = [p_id addressed_peer; p_id addressed_peer]) ∧
  misaka_core_watch (listed_world demo_peer) st = Fail Uninitialised ∧
  misaka_core_watch (listed_world demo_peer) log_start = Ok log_start.
Proof.
  cbv zeta.
  assert (∀ p, list_rep (w_nodes (listed_world p)) (w_plist (listed_world p))
                 [(1%positive, 11%positive); (2%positive, 12%positive)]) as Hr.
  { intros p. split; [| split; [| by repeat split]].
    - split; [reflexivity |]. split; [reflexivity | done].
    - apply (bool_decide_unpack _). by vm_compute. }
  assert (∀ p : peer0, p_id p = p_id demo_peer →
     Forall (λ '(l, q), w_peers (listed_world p) !! l = Some q ∧ 0 ≤ p_id q < 2 ^ 31)
       [(11%positive, addressed_peer); (12%positive, p)]) as Hp.
  { intros p E. apply Forall_cons. split; [split; [reflexivity | cbn; lia] |]. apply Forall_singleton.
    split; [reflexivity |]. rewrite E. cbn. lia. }
  destruct (core_watch_outcome (listed_world addressed_peer) _
    [(11%positive, addressed_peer); (12%positive, addressed_peer)] (mkLog DEBUG_DEBUG None [])
    (Hr addressed_peer) eq_refl (Hp addressed_peer eq_refl)) as [_ H1].
  destruct (core_watch_outcome (listed_world demo_peer) _
    [(11%positive, addressed_peer); (12%positive, demo_peer)] (mkLog DEBUG_DEBUG None [])
    (Hr demo_peer) eq_refl (Hp demo_peer eq_refl)) as [_ H2].
  destruct (core_watch_outcome (listed_world demo_peer) _
    [(11%positive, addressed_peer); (12%positive, demo_peer)] log_start
    (Hr demo_peer) eq_refl (Hp demo_peer eq_refl)) as [H3 _].
  split; [| split].
  - apply H1. unfold DEBUG_DEBUG. cbn. lia.
  - apply H2. unfold DEBUG_DEBUG. cbn. lia.
  - apply H3. unfold DEBUG_DEBUG. cbn. lia.
Defined.
