(* ===== verification/Connect.v ===== *)
(** Creating and opening the links: the functions of link/tcp_link.c,
    link/udp_link.c, link/ludp_link.c and link/sdio_link.c that make a peer and
    give it a descriptor, and misaka_start_thread of lib/core.c, the timer that
    calls them until one succeeds. *)

From S2P Require Import Prelude Memory Cstring Sockunion Stream Fifo Linklist Hash Mq Sched.
From S2P Require Import Peer Network Parser Link IdMaker Core.

Local Open Scope Z_scope.

(** sizeof(sun_path) *)
Definition UNIX_PATH_MAX : Z := 108.

(** What the system calls that open a link return. *)
Record open_env {K : Kernel} := mkOpen {
  oe_socket : Z * descr;                           (* socket() *)
  oe_connect : sockunion → Z → Z * connect_errno;  (* connect() and errno *)
  oe_bind : sockunion → Z → Z;                     (* bind() *)
  oe_bind_un : list Z → Z;                         (* bind() to a path *)
  oe_listen : Z → Z;                               (* listen() *)
  oe_open : list Z → Z * descr                     (* open(path, O_RDWR) *)
}.

Section connect.
Context {K : Kernel} {L : Libev} {disparser_fn : Type}.
Context {AS : StreamAllocator} {AN : Allocator (listnode loc)} {AI : Allocator (option Z)}.
Context {AB : Allocator (hash_backet peer_ref)} {AP : Allocator (peer disparser_fn)}.
(** inet_addr of the C library *)
Context (inet_addr : list Z → Z).
Implicit Types (l : loc) (env : open_env) (pm : peer_mem).

Abbreviation handler := (@handler K L disparser_fn).

(** A new descriptor; a negative number is an error. *)
Definition open_fd (r : Z * descr) : handler Z :=
  let '(fd, f) := r in
  _ ← when (0 <=? fd) (put (λ w, set_w_fds (<[fd := f]> (w_fds w)) w)); mret fd.

(** ** link/tcp_link.c *)

(** [if(peer->fd < 0) peer->fd = socket(...)] *)
Definition tcp_socket env l : handler unit :=
  p ← peer_at l;
  when (p_fd p <? 0) (fd ← open_fd (oe_socket env); set_peer l (set_p_fd fd)).

Definition tcp_connect env l : handler connect_result :=
  _ ← tcp_socket env l;
  p ← peer_at l;
  if p_fd p <? 0 then mret connect_error
  else mret (sockunion_connect (oe_connect env) (p_dsu p)).

Definition tcp_listen env l : handler connect_result :=
  _ ← tcp_socket env l;
  p ← peer_at l;
  if p_fd p <? 0 then mret connect_error else
  let '(ret, su) := sockunion_bind (oe_bind env) (p_su p) (ntohs (sin_port (p_su p))) false in
  _ ← set_peer l (set_p_su su);
  if ret <? 0 then mret connect_error else
  if oe_listen env (p_listens p) <? 0 then mret connect_error else
  mret connect_success.

Definition tcp_passive l : handler connect_result := mret connect_success.

Definition peer_tcp_create pm (dstip : option (list Z)) (dstport srcport : Z) : handler (option loc) :=
  c ← peer_new pm;
  match c with
  | None => mret None
  | Some l =>
      let su := mkSockunion AF_INET (htons srcport) (htonl INADDR_ANY) in
      let dsu := match dstip with
                 | Some ip => mkSockunion AF_INET (htons dstport) (inet_addr ip)
                 | None => mkSockunion AF_INET 0 0
                 end in
      _ ← set_peer l (λ p, set_p_type TYPE_TCP (set_p_dsu dsu (set_p_su su p)));
      mret (Some l)
  end.

(** The functions registered at the end of the init functions *)
Definition register_api (rd : read_fn) (wr : write_fn) (st : start_fn) l : handler unit :=
  set_peer l (λ p, set_p_start (Some st) (set_p_write (Some wr) (set_p_read (Some rd) p))).

Definition tcp_connect_init pm (str : option (list Z)) (dstport srcport : Z) : handler (option loc) :=
  c ← peer_tcp_create pm str dstport srcport;
  match c with
  | None => mret None
  | Some l =>
      _ ← register_api tcp_read_p tcp_write_p tcp_connect_p l;
      _ ← set_peer l (set_p_mode MODE_CONNECT);
      mret (Some l)
  end.

(** The parameter [srcport] is an int, peer_tcp_create takes an unsigned short. *)
Definition tcp_listen_init pm (srcport : Z) : handler (option loc) :=
  c ← peer_tcp_create pm None 0 (u16 srcport);
  match c with
  | None => mret None
  | Some l =>
      _ ← register_api tcp_accept_p tcp_write_p tcp_listen_p l;
      _ ← set_peer l (set_p_mode MODE_LISTEN);
      mret (Some l)
  end.

(** ** link/udp_link.c *)

Definition peer_udp_create pm (dstip : list Z) (dstport srcport : Z) : handler (option loc) :=
  c ← peer_new pm;
  match c with
  | None => mret None
  | Some l =>
      let su := mkSockunion AF_INET (htons srcport) (htonl INADDR_ANY) in
      let dsu := mkSockunion AF_INET (htons dstport) (inet_addr dstip) in
      _ ← set_peer l (λ p, set_p_mode MODE_CONNECT (set_p_type TYPE_UDP (set_p_dsu dsu (set_p_su su p))));
      mret (Some l)
  end.

(** Every attempt opens a new socket; one that cannot be bound is closed, but
    [peer->fd] keeps its number. *)
Definition bind_socket env l (bind : peer disparser_fn → Z) : handler connect_result :=
  fd ← open_fd (oe_socket env);
  _ ← set_peer l (set_p_fd fd);
  if fd <? 0 then mret connect_error else
  p ← peer_at l;
  if bind p <? 0 then _ ← close fd; mret connect_error else mret connect_success.

Definition udp_connect env l : handler connect_result :=
  bind_socket env l (λ p, oe_bind env (p_su p) sizeof_sockaddr_in).

Definition udp_init pm (str : list Z) (dstport srcport : Z) : handler (option loc) :=
  c ← peer_udp_create pm str dstport srcport;
  match c with
  | None => mret None
  | Some l => _ ← register_api udp_read_p udp_write_p udp_connect_p l; mret (Some l)
  end.

(** ** link/ludp_link.c *)

Definition peer_ludp_create pm (spath dpath : list Z) : handler (option loc) :=
  c ← peer_new pm;
  match c with
  | None => mret None
  | Some l =>
      _ ← set_peer l (λ p, set_p_mode MODE_CONNECT (set_p_type TYPE_LUDP
            (set_p_ldsu (snprintf UNIX_PATH_MAX dpath) (set_p_lsu (snprintf UNIX_PATH_MAX spath) p))));
      mret (Some l)
  end.

(** After a failure the path is unlinked too, for the next attempt. *)
Definition ludp_connect env l : handler connect_result :=
  bind_socket env l (λ p, oe_bind_un env (p_lsu p)).

Definition ludp_init pm (srcip dstip : list Z) : handler (option loc) :=
  c ← peer_ludp_create pm srcip dstip;
  match c with
  | None => mret None
  | Some l => _ ← register_api ludp_read_p ludp_write_p ludp_connect_p l; mret (Some l)
  end.

(** ** link/sdio_link.c *)

Definition sdio_connect env l : handler connect_result :=
  p ← peer_at l;
  fd ← open_fd (oe_open env (p_path p));
  _ ← set_peer l (set_p_fd fd);
  mret (if fd <? 0 then connect_error else connect_success).

Definition peer_sdio_create pm (path : list Z) : handler (option loc) :=
  c ← peer_new pm;
  match c with
  | None => mret None
  | Some l =>
      _ ← set_peer l (λ p, set_p_status TAT_IDLE (set_p_mode MODE_CONNECT (set_p_type TYPE_SDIO
            (set_p_path (snprintf MISAKA_PATH_SIZE path) p))));
      mret (Some l)
  end.

Definition sdio_init pm (str : list Z) : handler (option loc) :=
  c ← peer_sdio_create pm str;
  match c with
  | None => mret None
  | Some l => _ ← register_api sdio_read_p sdio_write_p sdio_connect_p l; mret (Some l)
  end.

(** ** lib/core.c *)

(** [peer->start(peer)] *)
Definition call_start env l : handler connect_result :=
  p ← peer_at l;
  match p_start p with
  | None => lift (Fail NullDeref)
  | Some tcp_connect_p => tcp_connect env l
  | Some tcp_listen_p => tcp_listen env l
  | Some tcp_passive_p => tcp_passive l
  | Some udp_connect_p => udp_connect env l
  | Some ludp_connect_p => ludp_connect env l
  | Some sdio_connect_p => sdio_connect env l
  end.

(** The callback of [t_connect]: [data] is the peer of the timer. *)
Definition misaka_start_thread env (data : option loc) : handler unit :=
  match data with
  | None => mret tt
  | Some l =>
      p ← peer_at l;
      if p_status p =? TAT_ESTA then mret tt else
      status ← call_start env l;
      connect_status_trigger status l
  end.

(** The callback of a timer that was registered with a packet: the types are
    exchanged and the packet goes to its task. *)
Definition misaka_timer_thread (malloc_ok : Z → bool) (data : option loc) : handler unit :=
  match data with
  | None => mret tt
  | Some s =>
      _ ← set_stream (Some s) (λ n, set_type (s_stype n) (set_stype (s_type n) n));
      route_task malloc_ok s
  end.

(** peer_old_time: the seconds of the age, as gmtime splits it. *)
Definition PEER_OLD_TIME : Z := 15.
Definition peer_old_time (uptime2 : Z) : handler bool :=
  now ← get w_now; mret (PEER_OLD_TIME <? (now - uptime2) mod 60).

End connect.
