(* ===== verification/ConnectFacts.v ===== *)
(** How a connection comes to life: the theorems on Connect.v and on tcp_accept
    and misaka_start of Core.v. *)

From S2P Require Import Prelude Memory Sockunion Stream StreamFacts Fifo Linklist LinklistFacts.
From S2P Require Import Hash HashFacts Mq MqFacts Sched SchedFacts Peer Network Parser Link.
From S2P Require Import LinkFacts IdMaker Core CoreFacts PacketFacts Connect.

Local Open Scope Z_scope.

Section facts.
Context {K : Kernel} {L : Libev} {disparser_fn : Type}.
Context {AS : StreamAllocator} {AN : Allocator (listnode loc)} {AI : Allocator (option Z)}.
Context {AB : Allocator (hash_backet peer_ref)} {AP : Allocator (peer disparser_fn)}.
Implicit Types (w : world disparser_fn) (l : loc) (p : peer disparser_fn) (n : stream).
Implicit Types (m : gmap Z peer_ref).

(** ** The table of peers *)

(** The peers that are there keep their ids. *)
Lemma peer_table_ext w w' m :
  (∀ l p, w_peers w !! l = Some p → ∃ p', w_peers w' !! l = Some p' ∧ p_drole p' = p_drole p) →
  w_backets w' = w_backets w → w_table w' = w_table w → peer_table w m → peer_table w' m.
Proof.
  intros Hps Hbk Htb (Hlive & bs & Ht & <-).
  assert (∀ e, e ∈ concat bs → drole_of (w_peers w) e.2 = drole_of (w_peers w') e.2) as Heq.
  { intros [r [l|d]] Hx; [| done].
    pose proof (Hlive _ _ (contents_elem _ _ _ Hx (tb_ids _ _ _ _ _ _ Ht))) as Hl. cbn in Hl |- *.
    apply bool_decide_eq_false, not_eq_None_Some in Hl as [p Hp].
    destruct (Hps l p Hp) as (p' & Hp' & Hd). by rewrite Hp, Hp', Hd. }
  destruct (peer_table_frame (w_peers w) (w_peers w') (w_backets w) (w_table w) bs Heq Ht) as [Ht' Hm].
  split; [| exists bs; rewrite Hbk, Htb; by rewrite Hm].
  intros d r Hr. apply Hlive in Hr. destruct r as [l|]; [| done]. cbn in *.
  apply bool_decide_eq_false, not_eq_None_Some in Hr as [p Hp]. destruct (Hps l p Hp) as (p' & Hp' & _).
  apply bool_decide_eq_false. by rewrite Hp'.
Qed.

Lemma peer_table_insert w w' m l p' :
  (∀ p, w_peers w !! l = Some p → p_drole p' = p_drole p) →
  w_peers w' = <[l := p']> (w_peers w) → w_backets w' = w_backets w → w_table w' = w_table w →
  peer_table w m → peer_table w' m.
Proof.
  intros Hd Hps. apply peer_table_ext. intros l' p Hp. rewrite Hps.
  destruct (decide (l' = l)) as [-> | Hne]; [exists p' | exists p].
  - rewrite lookup_insert_eq. split; [done | by apply Hd].
  - by rewrite lookup_insert_ne.
Qed.

Lemma peer_table_at w w' m l p p' :
  w_peers w !! l = Some p → p_drole p' = p_drole p →
  w_peers w' = <[l := p']> (w_peers w) → w_backets w' = w_backets w → w_table w' = w_table w →
  peer_table w m → peer_table w' m.
Proof. intros Hl Hd. apply peer_table_insert. intros p2 Hp2. rewrite Hl in Hp2. by injection Hp2 as <-. Qed.

(** A peer that is not in memory is not in the table. *)
Lemma peer_table_fresh w m l d : peer_table w m → w_peers w !! l = None → m !! d ≠ Some (PeerAt l).
Proof.
  intros (Hlive & _) Hl Hd. apply Hlive in Hd. cbn in Hd. by apply bool_decide_eq_false in Hd.
Qed.

(** ** misaka_start_success *)

(** A peer that can go into service: an empty output fifo, an idle read watcher
    and an open descriptor. *)
Record startable w l p (r : ev_io) (f f' : descr) : Prop := {
  sa_peer : w_peers w !! l = Some p;
  sa_fifo : ∃ q, p_obuf p = Some q ∧ misaka_write_proceed q = false;
  sa_read : p_t_read p = Some r ∧ ev_is_active r ≠ 1;
  sa_fd : w_fds w !! p_fd p = Some f ∧ set_nonblocking f = (0, f')
}.

(** A free id, and handlers that exist. *)
Record registrable w l m (c flag : Z) (ids : pool) : Prop := {
  rs_table : peer_table w m;
  rs_new d : m !! d ≠ Some (PeerAt l);
  rs_id : idmaker_get (w_ids w) = Ok (c, flag, ids);
  rs_free : m !! c = None;
  rs_events : Forall (λ i, ∃ e, rd (w_handles w) i = Ok e) (w_events w)
}.

Hypothesis backets : ∀ h : gmap loc (hash_backet peer_ref), is_Some (xalloc h).

Lemma wp_make_nonblocking w l p f f' (Q : unit → world disparser_fn → Prop) :
  w_peers w !! l = Some p → w_fds w !! p_fd p = Some f → set_nonblocking f = (0, f') →
  Q tt (set_w_fds (<[p_fd p := f']> (w_fds w)) w) → wp (make_nonblocking l) Q w.
Proof.
  intros Hl Hf Hnb HQ. unfold make_nonblocking. apply wp_bind. eapply wp_peer_at; [done |].
  apply wp_bind. eexists _, _. split; [unfold set_nonblocking_fd; by rewrite Hf, Hnb |].
  by apply wp_ret.
Qed.

(** The read watcher, started on the peer's descriptor *)
Definition watching (r : ev_io) p : peer disparser_fn :=
  set_p_t_read (Some (ev_io_start (ev_io_init r (Some misaka_read_p) (p_fd p) EV_READ))) p.

Lemma wp_start_read w l p r (Q : unit → world disparser_fn → Prop) :
  w_peers w !! l = Some p → p_t_read p = Some r → ev_is_active r ≠ 1 →
  Q tt (set_w_peers (<[l := watching r p]> (w_peers w)) w) → wp (start_read l) Q w.
Proof.
  intros Hl Hr Hact HQ. unfold start_read. apply wp_bind. eapply wp_io_active; [done.. |].
  rewrite (proj2 (Z.eqb_neq _ _) Hact). cbn [negb when]. apply wp_bind.
  eapply (wp_io_update l _ r p_t_read set_p_t_read (λ p ev, ev_io_init ev (Some misaka_read_p) (p_fd p) EV_READ));
    [done.. |].
  eapply (wp_io_update l _ _ p_t_read set_p_t_read (λ _ ev, ev_io_start ev)); [apply lookup_insert_eq | reflexivity |].
  cbn [w_peers set_w_peers]. by rewrite !insert_insert_eq.
Qed.

(** The peer in service *)
Definition in_service w p (r : ev_io) (c : Z) : peer disparser_fn :=
  watching r (set_p_drole c (set_p_uptime (w_now w) (set_p_status TAT_ESTA p))).

Lemma wp_start_success w l p r f f' m c flag ids (Q : Z → world disparser_fn → Prop) :
  startable w l p r f f' → registrable w l m c flag ids →
  (∀ bk t, let w' := set_w_fds (<[p_fd p := f']> (w_fds w)) (set_w_table t (set_w_backets bk
               (set_w_ids ids (set_w_peers (<[l := in_service w p r c]> (w_peers w)) w)))) in
     peer_table w' (<[c := PeerAt l]> m) → Q 0 w') →
  wp (misaka_start_success l) Q w.
Proof.
  intros [Hl (q & Hq & Hwp) [Hr Hact] [Hf Hnb]] [Hm Hnew Hid Hc Hev] HQ. unfold misaka_start_success.
  apply wp_bind. eapply wp_set_peer; [done |]. apply wp_bind. unfold peer_uptime_reset.
  apply wp_bind, wp_get. eapply wp_set_peer; [apply lookup_insert_eq |].
  cbn [w_peers w_now set_w_peers]. rewrite insert_insert_eq.
  set (p1 := set_p_uptime (w_now w) (set_p_status TAT_ESTA p)).
  set (w1 := set_w_peers _ _).
  assert (peer_table w1 m) as Hm1.
  { by eapply (peer_table_at w w1 m l p p1). }
  destruct (peer_register_enters backets w1 l p1 m c flag ids) as (bk & t & Hreg & Hm2); try done.
  { apply lookup_insert_eq. }
  apply wp_bind. eexists _, _. split; [exact Hreg |]. cbn [w1 w_peers set_w_peers] in Hm2 |- *. rewrite insert_insert_eq in Hm2 |- *.
  apply wp_bind. eapply wp_make_nonblocking; [apply lookup_insert_eq | exact Hf | done |].
  apply wp_bind. eapply wp_start_read; [apply lookup_insert_eq | done.. |].
  cbn [w_peers set_w_fds set_w_peers set_w_table set_w_backets set_w_ids]. rewrite !insert_insert_eq.
  apply wp_bind. eapply wp_write_proceed; [apply lookup_insert_eq | exact Hq |]. rewrite Hwp. cbn [when].
  apply wp_bind, wp_ret, wp_ret. apply (HQ bk t).
  refine (peer_table_at _ _ _ l _ (in_service w p r c) (lookup_insert_eq _ _ _) _ _ _ _ Hm2); try done.
  cbn [w_peers set_w_fds set_w_peers set_w_table set_w_backets set_w_ids]. by rewrite insert_insert_eq.
Qed.

(** ** peer_new *)

(** The allocations of peer_new that succeed: the peer at [c], its input buffer
    at [s], the watchers [r] and [t], and the node [q] of the list of peers. *)
Record peer_memory w pm (c s q : loc) (o : stream) (d : list Z) (r t : ev_io) : Prop := {
  pm_peer : xalloc (w_peers w) = Some c;
  pm_ibuf : salloc (w_streams w) = (Some (s, o), Some d);
  pm_rest : pm = mkPeerMem true (Some r) (Some t);
  pm_node : xalloc (w_nodes w) = Some q
}.

Definition new_peer (now : Z) (s : loc) (r t : ev_io) : peer disparser_fn :=
  set_p_t_write (Some t) (set_p_t_read (Some r) (init_peer now (Some s) (Some stream_fifo_new))).

(** The input buffer of a new peer *)
Definition new_buffer (o : stream) (d : list Z) : stream :=
  set_rlen MISAKA_MAX_PACKET_SIZE (set_size MISAKA_MAX_PACKET_SIZE (set_next None (set_mark 0 (set_type 0
    (set_endp 0 (set_getp 0 (set_data d o))))))).

Lemma wp_peer_new w pm c s q o d r t cells (Q : option loc → world disparser_fn → Prop) :
  peer_memory w pm c s q o d r t → list_rep (w_nodes w) (w_plist w) cells →
  (∀ nodes lst, list_rep nodes lst (cells ++ [(q, c)]) →
     Q (Some c) (set_w_plist lst (set_w_nodes nodes (set_w_peers (<[c := new_peer (w_now w) s r t]> (w_peers w))
                  (set_w_streams (<[s := new_buffer o d]> (w_streams w)) w))))) →
  wp (peer_new pm) Q w.
Proof.
  intros [Hc Hs -> Hq] Hl HQ.
  destruct (listnode_add_rep _ _ _ c q Hl Hq) as (nodes & lst & Hadd & Hrep).
  eexists _, _. split; [| exact (HQ nodes lst Hrep)]. unfold peer_new. rewrite Hc.
  cbn [pm_fifo pm_read pm_write negb]. unfold new_stream. cbn [w_streams set_w_peers].
  rewrite Hs. cbn [fst snd fmap option_fmap option_map]. unfold stream_new.
  change (MISAKA_MAX_PACKET_SIZE =? 0) with false. cbv iota. rewrite bind_Ok.
  unfold set_stream. cbn [w_streams set_w_streams].
  erewrite modify_Some by apply lookup_insert_eq. rewrite !bind_Ok. rewrite insert_insert_eq.
  cbn [w_nodes w_plist set_w_streams set_w_peers w_peers w_now]. rewrite Hadd, bind_Ok.
  by rewrite insert_insert_eq.
Qed.

Lemma new_buffer_idle o d p :
  block_of MISAKA_MAX_PACKET_SIZE d →
  p_unpack p = Some normal_parser_unpack_p → p_parser p = Some normal_parser_init_p →
  p_body_size p = 0 → p_packet_size p = 32 →
  idle MISAKA_MAX_PACKET_SIZE (new_buffer o d) p.
Proof.
  intros [Hd Hu] ? ? ? ? fr. rewrite alloc_size_small in Hd by (unfold MISAKA_MAX_PACKET_SIZE; lia).
  by constructor.
Qed.

(** ** tcp_accept *)

(** The connection accept returned, and a listener of the wire format. *)
Record acceptable w ac l p (fd : Z) (f f' : descr) (su : sockunion) : Prop := {
  ca_listener : w_peers w !! l = Some p;
  ca_unpack : p_unpack p = Some normal_parser_unpack_p;
  ca_parser : p_parser p = Some normal_parser_init_p;
  ca_conn : ac_conn ac = Some (fd, f, su);
  ca_fd : set_nonblocking f = (0, f');
  ca_ret : ac_ret ac ≠ Some IO_PASSIVE_CLOSE
}.

(** The accepted peer: connected to [su] over [fd], with the listener's packing
    functions and the id [c], and waiting for input. *)
Record accepted p (cp : peer disparser_fn) (fd : Z) (su : sockunion) (c : Z) (s : loc) (r : ev_io) : Prop := {
  at_conn : (p_status cp, p_fd cp, p_write cp, p_scount cp) = (TAT_ESTA, fd, Some tcp_write_p, 0);
  at_dsu : p_dsu cp = su;
  at_drole : p_drole cp = c;
  at_read : p_read cp = Some tcp_read_p;
  at_pack : p_pack cp = p_pack p;
  at_ibuf : p_ibuf cp = Some s;
  at_obuf : p_obuf cp = Some stream_fifo_new;
  at_watch : p_t_read cp = Some (ev_io_start (ev_io_init r (Some misaka_read_p) fd EV_READ))
}.

(** The accepted peer before it is started, and in the end *)
Definition passive_peer (now : Z) (su : sockunion) (fd : Z) (s : loc) (r t : ev_io) p : peer disparser_fn :=
  set_p_quick 1 (set_p_parser (p_parser p)
    (set_p_on_disconnect (p_on_disconnect p) (set_p_on_connect (p_on_connect p)
      (set_p_unpack (p_unpack p) (set_p_pack (p_pack p)
        (set_p_old 1 (set_p_mode MODE_PASSIVE (set_p_start (Some tcp_passive_p)
          (set_p_write (Some tcp_write_p) (set_p_read (Some tcp_read_p)
            (set_p_dsu su (set_p_fd fd (new_peer now s r t))))))))))))).

Lemma wp_start_quick w l p r f f' m c flag ids (timer : option ev_periodic) (Q : Z → world disparser_fn → Prop) :
  startable w l p r f f' → registrable w l m c flag ids → p_quick p = 1 →
  p_parser p = Some normal_parser_init_p →
  (∀ w', w_peers w' = <[l := normal_parser_init (in_service w p r c)]> (w_peers w) →
     w_fds w' = <[p_fd p := f']> (w_fds w) → w_streams w' = w_streams w →
     w_nodes w' = w_nodes w → w_plist w' = w_plist w →
     peer_table w' (<[c := PeerAt l]> m) → Q 0 w') →
  wp (misaka_start timer l) Q w.
Proof.
  intros Hst Hrg Hq Hpa HQ. unfold misaka_start. apply wp_bind.
  eapply wp_peer_at; [apply (sa_peer _ _ _ _ _ _ Hst) |]. rewrite Hq. cbn [Z.eqb negb].
  apply wp_bind. eapply wp_start_success; [done.. |]. intros bk t w' Hm. subst w'.
  apply wp_bind. eapply wp_peer_at; [apply lookup_insert_eq |]. apply wp_bind.
  apply (wp_lift _ (normal_parser_init (in_service w p r c))).
  { unfold call_parser. change (p_parser (in_service w p r c)) with (p_parser p). by rewrite Hpa. }
  apply wp_bind.
  eapply wp_set_peer; [apply lookup_insert_eq |].
  apply wp_ret, HQ; try done.
  { cbn [w_peers set_w_fds set_w_peers set_w_table set_w_backets set_w_ids]. apply insert_insert_eq. }
  eapply (peer_table_at _ _ _ l (in_service w p r c) (normal_parser_init (in_service w p r c))); [| | | | | exact Hm]; try done. apply lookup_insert_eq.
Qed.


(** ** misaka_start_thread *)

Lemma wp_stop_timer w l p tm (Q : unit → world disparser_fn → Prop) :
  w_peers w !! l = Some p → p_t_connect p = Some tm →
  Q tt (set_w_peers (<[l := set_p_t_connect (Some (ev_periodic_stop tm)) p]> (w_peers w)) w) →
  wp (_ ← periodic_active l; periodic_stop l) Q w.
Proof.
  intros Hl Ht HQ. apply wp_bind. unfold periodic_active. apply wp_bind. eapply wp_peer_at; [done |].
  apply wp_bind. eapply wp_lift; [by rewrite Ht |]. apply wp_ret. unfold periodic_stop.
  apply wp_bind. eapply wp_peer_at; [done |]. apply wp_bind. eapply wp_lift; [by rewrite Ht |].
  by eapply wp_set_peer.
Qed.

(** The peer whose connect is under way *)
Definition in_progress w p (r : ev_io) : peer disparser_fn :=
  watching r (set_p_uptime (w_now w) (set_p_status TAT_IDLE p)).

Lemma wp_start_progress w l p r f f' (Q : Z → world disparser_fn → Prop) :
  startable w l p r f f' →
  Q 0 (set_w_peers (<[l := in_progress w p r]> (w_peers w)) (set_w_fds (<[p_fd p := f']> (w_fds w)) w)) →
  wp (misaka_start_progress l) Q w.
Proof.
  intros [Hl _ [Hr Hact] [Hf Hnb]] HQ. unfold misaka_start_progress.
  apply wp_bind. eapply wp_set_peer; [done |]. apply wp_bind. unfold peer_uptime_reset.
  apply wp_bind, wp_get. eapply wp_set_peer; [apply lookup_insert_eq |].
  cbn [w_peers w_now set_w_peers]. rewrite insert_insert_eq.
  apply wp_bind. eapply wp_make_nonblocking; [apply lookup_insert_eq | exact Hf | done |].
  apply wp_bind. eapply wp_start_read; [apply lookup_insert_eq | done.. |].
  cbn [w_peers set_w_fds set_w_peers]. rewrite !insert_insert_eq. by apply wp_ret.
Qed.

(** A TCP client whose connect timer [tm] is running and that has no socket yet *)
Record connecting w l p (r : ev_io) (tm : ev_periodic) : Prop := {
  cn_peer : w_peers w !! l = Some p;
  cn_start : p_start p = Some tcp_connect_p;
  cn_status : p_status p ≠ TAT_ESTA;
  cn_fd : p_fd p < 0;
  cn_fifo : ∃ q, p_obuf p = Some q ∧ misaka_write_proceed q = false;
  cn_read : p_t_read p = Some r ∧ ev_is_active r ≠ 1;
  cn_timer : p_t_connect p = Some tm
}.

(** The peer, its descriptor and the table of peers after the timer has fired *)
Definition connect_outcome (res : connect_result) w p (r : ev_io) (tm : ev_periodic) (fd : Z)
    (f f' : descr) m (id : Z) l : peer disparser_fn * descr * gmap Z peer_ref :=
  let p1 := set_p_fd fd p in
  let stopped := set_p_t_connect (Some (ev_periodic_stop tm)) in
  match res with
  | connect_success => (stopped (in_service w p1 r id), f', <[id := PeerAt l]> m)
  | connect_in_progress => (stopped (in_progress w p1 r), f', m)
  | _ => (p1, f, m)
  end.

Lemma wp_tcp_connect env w l p r tm fd f (Q : connect_result → world disparser_fn → Prop) :
  connecting w l p r tm → oe_socket env = (fd, f) → 0 ≤ fd →
  Q (sockunion_connect (oe_connect env) (p_dsu p))
    (set_w_peers (<[l := set_p_fd fd p]> (w_peers w)) (set_w_fds (<[fd := f]> (w_fds w)) w)) →
  wp (tcp_connect env l) Q w.
Proof.
  intros [Hl _ _ Hfd _ _ _] Hs Hpos HQ. unfold tcp_connect, tcp_socket. apply wp_bind, wp_bind.
  eapply wp_peer_at; [done |]. rewrite (proj2 (Z.ltb_lt _ _) Hfd). cbn [when]. unfold open_fd. rewrite Hs.
  apply wp_bind, wp_bind. rewrite (proj2 (Z.leb_le _ _) Hpos). cbn [when]. apply wp_put, wp_ret.
  eapply wp_set_peer; [done |]. apply wp_bind. eapply wp_peer_at; [apply lookup_insert_eq |].
  change (p_fd (set_p_fd fd p)) with fd. rewrite (proj2 (Z.ltb_ge _ _) Hpos). by apply wp_ret.
Qed.

(** C16: one expiry of the connect timer of a TCP client, for every answer of
    connect.  The socket is opened and kept.  On success the peer is in service:
    registered under the next id, non-blocking, watched for input, and the timer
    is stopped.  While the connect is in progress the socket is watched and the
    timer stopped, but the peer is idle and not in the table.  On an error only
    the descriptor is kept: the timer stays as it was and fires again. *)
Theorem start_thread_outcome env w l p r tm fd f f' m id flag ids :
  connecting w l p r tm → oe_socket env = (fd, f) → 0 ≤ fd → set_nonblocking f = (0, f') →
  registrable w l m id flag ids →
  ∃ w', misaka_start_thread env (Some l) w = Ok (tt, w') ∧
    let '(p', fn, m') := connect_outcome (sockunion_connect (oe_connect env) (p_dsu p)) w p r tm fd f f' m id l in
    w_peers w' = <[l := p']> (w_peers w) ∧ w_fds w' = <[fd := fn]> (w_fds w) ∧ peer_table w' m'.
Proof.
  intros Hc Hs Hpos Hnb Hrg. set (p1 := set_p_fd fd p).
  set (w1 := set_w_peers (<[l := p1]> (w_peers w)) (set_w_fds (<[fd := f]> (w_fds w)) w)).
  pose proof Hc as [Hl Hst Hes _ Hq Hr Ht].
  assert (startable w1 l p1 r f f') as Hsa by (by constructor; try done; try split; try apply lookup_insert_eq).
  assert (registrable w1 l m id flag ids) as Hrg1.
  { destruct Hrg. constructor; try done. by eapply (peer_table_at w w1 m l p p1). }
  destruct (connect_outcome _ _ _ _ _ _ _ _ _ _ _) as [[p' fn] m'] eqn:Ho.
  cut (wp (misaka_start_thread env (Some l)) (λ _ w', w_peers w' = <[l := p']> (w_peers w) ∧
         w_fds w' = <[fd := fn]> (w_fds w) ∧ peer_table w' m') w).
  { intros ([] & w' & Hw & H). by exists w'. }
  unfold misaka_start_thread. apply wp_bind. eapply wp_peer_at; [done |].
  rewrite (proj2 (Z.eqb_neq _ _) Hes). apply wp_bind. unfold call_start. apply wp_bind.
  eapply wp_peer_at; [done |]. rewrite Hst. eapply wp_tcp_connect; [done.. |]. fold p1 w1.
  destruct (sockunion_connect _ _); injection Ho as <- <- <-; cbn [connect_status_trigger].
  1, 4: apply wp_ret; repeat split; try done; apply (rs_table _ _ _ _ _ _ Hrg1).
  - apply wp_bind. eapply wp_start_success; [done.. |]. intros bk t w2 Hm2.
    eapply wp_stop_timer; [apply lookup_insert_eq | done |].
    split; [| split].
    + unfold w2, w1. cbn [w_peers set_w_fds set_w_peers set_w_table set_w_backets set_w_ids]. by rewrite !insert_insert_eq.
    + unfold w2, w1. cbn [w_fds set_w_fds set_w_peers]. apply insert_insert_eq.
    + eapply (peer_table_at w2 _ _ l (in_service w1 p1 r id) (set_p_t_connect _ _)); [| | | | | exact Hm2]; try done.
      apply lookup_insert_eq.
  - apply wp_bind. eapply wp_start_progress; [done |].
    eapply wp_stop_timer; [apply lookup_insert_eq | done |].
    split; [| split].
    + unfold w1. cbn [w_peers set_w_fds set_w_peers]. by rewrite !insert_insert_eq.
    + unfold w1. cbn [w_fds set_w_fds set_w_peers]. apply insert_insert_eq.
    + eapply (peer_table_at w1 _ _ l p1 (set_p_t_connect (Some (ev_periodic_stop tm)) (in_progress w1 p1 r)));
        [apply lookup_insert_eq | done | | done | done | apply (rs_table _ _ _ _ _ _ Hrg1)].
      cbn [w_peers set_w_fds set_w_peers]. by rewrite insert_insert_eq.
Qed.

End facts.
