(* ===== verification/Server.v ===== *)
(** The server as a whole: the worker threads with the handlers they call, the
    timer loop, core_init and core_run of lib/core.c, core_register of
    app/echo/main.c, and the events of the running program.

    The main thread runs its handlers one after the other; a worker is
    interleaved with them at the operations of Sched.v, and processes a packet
    together with the pop that took it from its queue. *)

From S2P Require Import Prelude Memory Sockunion Stream Fifo Linklist Hash Mq Sched Timer.
From S2P Require Import Peer Network Parser Link IdMaker Core Connect.

Local Open Scope Z_scope.

Definition MISAKA_TIMER_SANDS : Z := 50.
Definition MISAKA_MAX_NODE : Z := 100.
Definition MISAKA_MAX_ID : Z := 99999.
Definition ROLE_TCP : Z := 2.
Definition ROLE_SERVER : Z := 3.
Definition TCP_DSTPORT : Z := 8002.

(** "/tmp/task-lua/echo.lua" *)
Definition echo_lua : list Z :=
  [47; 116; 109; 112; 47; 116; 97; 115; 107; 45; 108; 117; 97; 47; 101; 99; 104; 111; 46; 108; 117; 97].

Section server.
Context {K : Kernel} {L : Libev} {disparser_fn : Type}.
Context {AS : StreamAllocator} {AN : Allocator (listnode loc)} {AI : Allocator (option Z)}.
Context {AB : Allocator (hash_backet peer_ref)} {AP : Allocator (peer disparser_fn)}.
Context {AQ : Allocator (message_queue loc)}.
Context (malloc_ok : Z → bool).
Context (call_disparser : disparser_fn → peer disparser_fn → peer disparser_fn).
Context (run_script : script_fn) (run_python : python_fn).
Context (inet_addr : list Z → Z).

Abbreviation world := (world disparser_fn).
Abbreviation handler := (@handler K L disparser_fn).

(** ** Worker threads *)

(** A step of worker on the thread [t]; the packet a pop returned is processed,
    unless it came from the queue of outgoing packets. *)
Definition worker_turn (t : nat) : handler unit := λ w,
  let out := sc_out (w_sched w) in
  sc ← worker_step (w_sched w) t;
  let w := set_w_sched sc w in
  match drop (length out) (sc_out sc) with
  | [] => Ok (tt, w)
  | (q, s) :: _ =>
      mq ← load (st_mqs (sc_st sc)) (Some q);
      if skynet_mq_handle mq =? EVENT_NET then Ok (tt, w) else
      '(_, w) ← misaka_packet_process malloc_ok run_script run_python s w; Ok (tt, w)
  end.

(** thpool: a thread takes the next job. *)
Definition worker_start (t : nat) : handler unit := put (λ w, set_w_sched (start_worker (w_sched w) t) w).

(** ** The timer loop *)

(** The packets of the queue EVENT_SYS are registered with the timer; [mem]
    tells whether its nodes could be allocated. *)
Fixpoint timer_sands (sands : nat) (mem : bool) (T : timer loc) : handler (timer loc) :=
  match sands with
  | O => mret T
  | S sands =>
      s ← pop_queue EVENT_SYS;
      match s with
      | None => mret T
      | Some x =>
          _ ← set_stream s (λ n, set_stype (s_type n) (set_type (s_stype n) n));
          n ← stream_at s;
          T ← lift (server_timer_timeout mem T (s_interval n) x);
          timer_sands sands mem T
      end
  end.

(** dispatch_list of lib/timer.c on the packets that are due *)
Fixpoint dispatch_timers (due : list loc) : handler unit :=
  match due with
  | [] => mret tt
  | s :: due => _ ← route_task malloc_ok s; dispatch_timers due
  end.

(** [cp]: the reading of the monotonic clock *)
Definition misaka_packet_loop_timer (mem : bool) (cp : Z) (T : timer loc) : handler (timer loc) :=
  T ← timer_sands (Z.to_nat MISAKA_TIMER_SANDS) mem T;
  '(due, T) ← lift (server_timer_updatetime T cp);
  _ ← dispatch_timers due;
  mret T.

Definition misaka_loop_watch : handler unit := misaka_packet_loop_route.
Definition misaka_loop_sys := misaka_packet_loop_timer.

(** ** Start-up *)

(** The globals of the program. *)
Record server_state := mkServer { sv_world : world; sv_timer : timer loc }.

Definition set_w_queues (v : list loc) (w : world) : world :=
  mkWorld
    (w_streams w) (w_peers w) (w_nodes w) (w_plist w) (w_backets w) (w_table w)
    (w_ids w) (w_fds w) (w_sched w) v (w_handles w) (w_events w) (w_role w) (w_now w).
Definition set_w_role (v : Z) (w : world) : world :=
  mkWorld
    (w_streams w) (w_peers w) (w_nodes w) (w_plist w) (w_backets w) (w_table w)
    (w_ids w) (w_fds w) (w_sched w) (w_queues w) (w_handles w) (w_events w) v (w_now w).

(** memset(events, 0, sizeof(events)) *)
Definition zero_handle : event_handle :=
  mkHandle [] None false false None None false false 0 NONE_PLUGIN_TYPE.

(** What core_init meets: which allocations succeed, and the clocks. *)
Record init_env := mkInit {
  ie_loop : bool; ie_peer_list : bool; ie_event_list : bool; ie_mid : bool; ie_store : bool;
  ie_thpool : bool; ie_t_watch : bool; ie_t_old : bool;
  ie_sec : Z; ie_cs : Z; ie_point : Z
}.

(** The two watchers are used before the test for NULL. *)
Definition core_init (env : init_env) (sv : server_state) : res (Z * server_state) :=
  let w := set_w_handles (replicate (Z.to_nat EVENT_MAX) zero_handle) (sv_world sv) in
  if negb (ie_loop env) then Ok (-1, mkServer w (sv_timer sv)) else
  let T := server_timer_init (ie_sec env) (ie_cs env) (ie_point env) in
  if negb (ie_peer_list env) then Ok (-1, mkServer w T) else
  let w := set_w_plist list_new w in
  let w := set_w_table hash_create w in
  if negb (ie_event_list env) then Ok (-1, mkServer w T) else
  let w := set_w_events [] w in
  match idmaker_new MISAKA_MAX_NODE MISAKA_MAX_ID (ie_mid env) (ie_store env) with
  | None => Ok (-1, mkServer w T)
  | Some m =>
      let w := set_w_ids (mkPool m ∅ ∅) w in
      '(qs, sc) ← init_queues malloc_ok;
      let w := set_w_queues qs (set_w_sched sc w) in
      if negb (ie_thpool env) then Ok (-1, mkServer w T) else
      if negb (ie_t_watch env) then Fail NullDeref else
      if negb (ie_t_old env) then Fail NullDeref else
      Ok (0, mkServer w T)
  end.

(** app/echo/main.c: the result of tcp_listen_init is not tested. *)
Definition core_register (pm : peer_mem) (timer : option ev_periodic) : handler Z :=
  _ ← register_lua_event echo_lua EVENT_ECHO;
  _ ← put (set_w_role ROLE_SERVER);
  c ← tcp_listen_init inet_addr pm TCP_DSTPORT;
  match c with
  | None => lift (Fail NullDeref)
  | Some l =>
      _ ← set_peer l (λ p, set_p_drole ROLE_TCP (set_p_role ROLE_SERVER (set_p_on_disconnect 1
            (set_p_on_connect 1 (set_p_listens 3 (set_p_parser (Some normal_parser_init_p) p))))));
      _ ← peer_register l;
      _ ← misaka_start timer l;
      mret 0
  end.

(** The loop of core_run over the events; [pl i]: what loading the event [i]
    finds. *)
Fixpoint load_events (k : nat) (i : Z) (pl : Z → plugin_env) : handler Z :=
  match k with
  | O => mret 0
  | S k =>
      ret ← misaka_load_event (pl i) i;
      if ret <? 0 then mret (-1) else load_events k (i + 1) pl
  end.

(** core_run, up to its event loop *)
Definition core_run (pl : Z → plugin_env) : handler Z := load_events (Z.to_nat EVENT_MAX) 0 pl.

(** The calls of main; their results are not tested. *)
Definition main_start (env : init_env) (pm : peer_mem) (timer : option ev_periodic)
    (pl : Z → plugin_env) (sv : server_state) : res server_state :=
  '(_, sv) ← core_init env sv;
  '(_, w) ← core_register pm timer (sv_world sv);
  '(_, w) ← core_run pl w;
  Ok (mkServer w (sv_timer sv)).

(** [opts]: what getopt returns, up to its -1.  Only -d ('d' is 100) is known; any
    other option, also one of the option string, ends the program. *)
Fixpoint main_options (opts : list Z) (background : Z) : option Z :=
  match opts with
  | [] => Some background
  | opt :: opts => if opt =? 100 then main_options opts 1 else None
  end.

(** main, up to the event loop: the exit status, if it exits before.  daemon(0, 1)
    detaches the process, which keeps its state. *)
Definition main_run (opts : list Z) (env : init_env) (pm : peer_mem) (timer : option ev_periodic)
    (pl : Z → plugin_env) (sv : server_state) : res (option Z * server_state) :=
  match main_options opts 0 with
  | None => Ok (Some 1, sv)
  | Some background => sv ← main_start env pm timer pl sv; Ok (None, sv)
  end.

(** ** The running program *)

Inductive server_event :=
| SvRead (ac : accept_env) (l : loc)                              (* t_read of a peer *)
| SvWrite (rounds : nat) (timer : option ev_periodic) (l : loc)   (* t_write *)
| SvStart (env : open_env) (data : option loc)                    (* t_connect *)
| SvWatch                                                         (* t_watch *)
| SvSys (mem : bool) (cp : Z)                                     (* t_old *)
| SvJob (t : nat)                                                 (* a pool thread takes a job *)
| SvWorker (t : nat).                                             (* and makes a step *)

Definition on_world (m : handler unit) (sv : server_state) : res server_state :=
  '(_, w) ← m (sv_world sv); Ok (mkServer w (sv_timer sv)).

Definition server_step (sv : server_state) (e : server_event) : res server_state :=
  match e with
  | SvRead ac l => on_world (misaka_read malloc_ok call_disparser ac l) sv
  | SvWrite rounds timer l => on_world (misaka_write call_disparser rounds timer l) sv
  | SvStart env data => on_world (misaka_start_thread env data) sv
  | SvWatch => on_world misaka_loop_watch sv
  | SvSys mem cp =>
      '(T, w) ← misaka_loop_sys mem cp (sv_timer sv) (sv_world sv); Ok (mkServer w T)
  | SvJob t => on_world (worker_start t) sv
  | SvWorker t => on_world (worker_turn t) sv
  end.

Fixpoint server_run (sv : server_state) (es : list server_event) : res server_state :=
  match es with
  | [] => Ok sv
  | e :: es => sv ← server_step sv e; server_run sv es
  end.

End server.

Global Arguments server_state {K L} disparser_fn.
Global Arguments server_event {K L}.
