(* ===== verification/ServerFacts.v ===== *)
(** The components together: a request that a peer has read passes through the
    queue of its task, a worker thread, the queue of outgoing packets and the main
    loop to the peer that answers; and how a connection comes to life. *)

From S2P Require Import Prelude Memory Sockunion Stream StreamFacts Fifo Linklist LinklistFacts.
From S2P Require Import Hash HashFacts Mq MqFacts Sched SchedFacts Timer Peer Network Parser Link.
From S2P Require Import LinkFacts IdMaker Core CoreFacts PacketFacts Connect ConnectFacts.
From S2P Require Import Server.

Local Open Scope Z_scope.

(** ** One packet through the queues *)

Section queues.
Context {M : Type} (malloc_ok : Z → bool) (memory : ∀ n, malloc_ok n = true) (task : loc → bool).
Implicit Types (s : sched M) (p : loc) (m : M) (qs : gset loc).

(** An idle scheduler: nothing is queued or held. *)
Definition resting qs s : Prop :=
  sched_inv task qs s [] ∅ (λ _, []) ∧ sc_threads s = ∅.

(** What is in a queue, from its history. *)
Lemma contents_hist qs s gl H c p ms :
  sched_inv task qs s gl H c → on p (sc_in s) = on p (sc_out s) ++ ms → c p = ms.
Proof. intros Hs Hon. rewrite (si_hist _ _ _ _ _ _ Hs p) in Hon. by apply app_inv_head in Hon. Qed.

(** The global queue is in memory: it is empty or not. *)
Lemma gq_rep_nil (st : mq_state M) gl : gq_rep st [] → gq_rep st gl → gl = [].
Proof.
  intros [E1 _] [E2 _]. rewrite E1 in E2. destruct gl as [| x gl]; [done |]. by injection E2.
Qed.

(** A task is pushed; the worker that takes the job pops it. *)
Lemma task_turn qs s t p q m :
  resting qs s → task p = true → p ∈ qs → core (sc_st s) p = Some q →
  Z.of_nat (length (sc_in s)) + 4 < 2 ^ 29 →
  ∃ s1 s2 s3 q', misaka_packet_task_route malloc_ok s p m = Ok s1 ∧
    worker_step (start_worker s1 t) t = Ok s2 ∧ sc_out s2 = sc_out s1 ∧ worker_step s2 t = Ok s3 ∧
    sc_out s3 = sc_out s2 ++ [(p, m)] ∧ sc_out s3 = sc_out s ++ [(p, m)] ∧
    sc_in s3 = sc_in s ++ [(p, m)] ∧
    core (sc_st s3) p = Some q' ∧ mq_handle q' = mq_handle q ∧
    sc_threads s3 = {[t := mkWorker (MISAKA_TASK_SANDS - 1) (Some p)]} ∧
    ∃ H c, sched_inv task qs s3 [] H c.
Proof.
  intros [Hs Hth] Ht Hp Hq Hlen. pose proof (si_queues _ _ _ _ _ _ Hs) as Hqi.
  assert (mq_in_global q = 0) as H0.
  { destruct (qi_task _ _ _ _ _ Hqi p q Ht Hq) as [[_ [Hin | Hin]] | (H0 & _)]; [set_solver.. | done]. }
  destruct (mq_push_spec malloc_ok memory (sc_st s) [] p q [] m) as (st1 & q1 & E1 & C1 & R1 & Hh1 & _ & G1);
    [apply Hqi | done | exact (qi_ring _ _ _ _ _ Hqi p q Hq) | cbn; lia | set_solver |].
  rewrite H0 in G1. cbn [Z.eqb app] in G1, R1.
  destruct (globalmq_pop_spec st1 p [] G1) as (st2 & E2 & G2 & C2).
  assert (core st2 p = Some q1) as Hq1 by (rewrite C2, C1, decide_True by done; done).
  destruct (mq_pop_spec st2 [] p q1 [m] G2 Hq1 R1) as (st3 & q3 & E3 & C3 & _ & Hh3 & _ & G3).
  cbn [head] in E3.
  set (s1 := mkSched st1 (S (sc_jobs s)) ∅ (sc_in s ++ [(p, m)]) (sc_out s)).
  set (s2 := mkSched st2 (sc_jobs s) {[t := mkWorker MISAKA_TASK_SANDS (Some p)]} (sc_in s ++ [(p, m)]) (sc_out s)).
  set (s3 := mkSched st3 (sc_jobs s) {[t := mkWorker (MISAKA_TASK_SANDS - 1) (Some p)]}
               (sc_in s ++ [(p, m)]) (sc_out s ++ [(p, m)])).
  assert (misaka_packet_task_route malloc_ok s p m = Ok s1) as F1.
  { unfold misaka_packet_task_route. by rewrite E1, bind_Ok, Hth. }
  assert (worker_step (start_worker s1 t) t = Ok s2) as F2.
  { unfold start_worker, worker_step. cbn [sc_jobs sc_threads sc_st sc_in sc_out s1].
    rewrite lookup_empty. cbn [sc_threads sc_st]. rewrite lookup_insert_eq. cbn [w_hold w_sands].
    by rewrite E2, bind_Ok, insert_insert_eq. }
  assert (worker_step s2 t = Ok s3) as F3.
  { unfold worker_step. cbn [sc_threads sc_st s2 w_hold w_sands sc_in sc_out sc_jobs].
    rewrite lookup_singleton_eq. cbn [w_hold w_sands]. rewrite E3, bind_Ok. cbn [s3].
    by rewrite insert_singleton_eq. }
  exists s1, s2, s3, q3. split_and!; try done.
  - cbn [s3 sc_st]. rewrite C3. by rewrite decide_True.
  - congruence.
  - destruct (sched_run_inv malloc_ok memory task qs s [] ∅ _ [EvTask p m; EvStart t; EvWorker t; EvWorker t] Hs)
      as (s' & gl & H & c & Hrun & Hinv).
    { repeat constructor; done. } { cbn [length]. lia. }
    cbn [sched_run sched_step] in Hrun. rewrite F1, bind_Ok, bind_Ok, F2, bind_Ok, F3, bind_Ok in Hrun.
    injection Hrun as <-. rewrite (gq_rep_nil _ _ G3 (qi_gq _ _ _ _ _ (si_queues _ _ _ _ _ _ Hinv))) in Hinv. eauto.
Qed.

(** An answer is pushed on the queue of outgoing packets; the main loop pops it
    and finds the queue empty. *)
Lemma net_turn qs s gl H c p m :
  sched_inv task qs s gl H c → task p = false → p ∈ qs → on p (sc_in s) = on p (sc_out s) →
  Z.of_nat (length (sc_in s)) < 2 ^ 29 →
  ∃ s1 s2 s3, misaka_packet_net_route malloc_ok s p m = Ok s1 ∧
    loop_pop s1 p = Ok (Some m, s2) ∧ loop_pop s2 p = Ok (None, s3).
Proof.
  intros Hs Ht Hp Hon Hlen.
  destruct (net_route_inv malloc_ok memory task qs s gl H c p m Hs Ht Hp Hlen) as (s1 & E1 & I1 & _).
  assert (c p = []) as Hc.
  { apply (contents_hist _ _ _ _ _ _ _ Hs). by rewrite Hon, app_nil_r. }
  rewrite Hc in I1. cbn [app] in I1.
  destruct (loop_pop_inv task qs s1 gl H _ p I1 Ht Hp) as (s2 & E2 & _ & I2).
  destruct (loop_pop_inv task qs s2 gl H _ p I2 Ht Hp) as (s3 & E3 & _ & _).
  exists s1, s2, s3. split; [done |]. rewrite E2, E3, !upd_eq. done.
Qed.

End queues.

(** ** A peer reads the end of a packet *)

Section read.
Context {K : Kernel} {L : Libev} {disparser_fn : Type}.
Context {AS : StreamAllocator} {AN : Allocator (listnode loc)} {AI : Allocator (option Z)}.
Context {AB : Allocator (hash_backet peer_ref)} {AP : Allocator (peer disparser_fn)}.
Context (malloc_ok : Z → bool).
Context (call_disparser : disparser_fn → peer disparser_fn → peer disparser_fn).
Implicit Types (w : world disparser_fn) (l x : loc) (p : peer disparser_fn) (n : stream) (f : descr).

(** What reading leaves of a peer. *)
Definition same_conn p p' : Prop :=
  p_ibuf p' = p_ibuf p ∧ p_status p' = p_status p ∧ p_sys p' = p_sys p ∧
  p_parser p' = p_parser p ∧ p_drole p' = p_drole p ∧ p_fd p' = p_fd p ∧
  p_obuf p' = p_obuf p ∧ p_pack p' = p_pack p ∧ p_t_write p' = p_t_write p ∧
  p_write p' = p_write p ∧ p_scount p' = p_scount p ∧ p_read p' = p_read p.

Lemma tcp_read_conn n p f r n' p' f' :
  tcp_read n p f = Ok (r, n', p', f') → r ≠ IO_PACKET ∧ same_conn p p'.
Proof.
  unfold tcp_read. intros H. apply bind_Ok_inv in H as ([[nb n1] f1] & _ & H).
  repeat case_match; simplify_eq; split; done.
Qed.

Lemma check_conn n p n' p' r :
  check_packet IO_CHECK n p = Ok (r, n', p') → same_conn p p'.
Proof.
  unfold check_packet, call_unpack, peer_default_unpack, normal_parser_unpack. intros H.
  repeat case_match; simplify_eq; try done; inv_bind; repeat case_match; simplify_eq; try done; inv_bind.
  by repeat case_match; simplify_eq.
Qed.

Lemma same_conn_trans p1 p2 p3 : same_conn p1 p2 → same_conn p2 p3 → same_conn p1 p3.
Proof. unfold same_conn. intros. destruct_and!. split_and!; congruence. Qed.

Lemma read_event_conn n p f r n' p' f' :
  read_event n p f = Ok (r, n', p', f') →
  ∃ t n1 p1, tcp_read n p f = Ok (t, n1, p1, f') ∧ check_packet t n1 p1 = Ok (r, n', p') ∧ same_conn p p'.
Proof.
  unfold read_event. intros H. apply bind_Ok_inv in H as ([[[t n1] p1] f1] & Ht & H).
  apply bind_Ok_inv in H as ([[r' n2] p2] & Hc & H). injection H as -> -> -> ->.
  destruct (tcp_read_conn _ _ _ _ _ _ _ Ht) as [_ Hsame]. exists t, n1, p1. split; [done |]. split; [done |].
  destruct (decide (t = IO_CHECK)) as [-> | Ht'].
  - eapply same_conn_trans; [exact Hsame | by eapply check_conn].
  - assert (p' = p1) as -> by (destruct t; try done; by injection Hc). exact Hsame.
Qed.

Lemma read_event_rcount n p f r n' p' f' :
  read_event n p f = Ok (r, n', p', f') → p_rcount p' = p_rcount p.
Proof.
  unfold read_event. intros H. apply bind_Ok_inv in H as ([[[t n1] p1] f1] & Ht & H).
  apply bind_Ok_inv in H as ([[r' n2] p2] & Hc & H). injection H as -> -> -> ->. transitivity (p_rcount p1).
  - unfold check_packet, call_unpack, peer_default_unpack, normal_parser_unpack in Hc.
    repeat case_match; simplify_eq; try done; inv_bind; repeat case_match; simplify_eq; try done; inv_bind.
    by repeat case_match; simplify_eq.
  - unfold tcp_read in Ht. apply bind_Ok_inv in Ht as ([[nb n2] f2] & _ & H). by repeat case_match; simplify_eq.
Qed.

Lemma wp_run_read {D} w l p x n (m : stream → peer disparser_fn → res (io_tat * stream * peer disparser_fn * D))
    r n' p' d (Q : io_tat * D → world disparser_fn → Prop) :
  w_peers w !! l = Some p → p_ibuf p = Some x → w_streams w !! x = Some n → m n p = Ok (r, n', p', d) →
  Q (r, d) (set_w_peers (<[l := p']> (w_peers w)) (set_w_streams (<[x := n']> (w_streams w)) w)) →
  wp (run_read l m) Q w.
Proof.
  intros Hl Hx Hn Hm HQ. eexists _, _. split; [| exact HQ]. unfold run_read.
  rewrite (load_Some _ _ _ Hl), bind_Ok, Hx, (load_Some _ _ _ Hn), bind_Ok, Hm, bind_Ok.
  unfold set_stream, set_peer. rewrite (modify_Some _ _ _ _ Hn), !bind_Ok. cbn [w_peers set_w_streams].
  by rewrite (modify_Some _ _ _ _ Hl), !bind_Ok.
Qed.

(** misaka_read, up to its event *)
Lemma wp_misaka_read w ac l p x n f r n' p' f' (Q : unit → world disparser_fn → Prop) :
  w_peers w !! l = Some p → p_read p = Some tcp_read_p → p_status p = TAT_ESTA → 0 ≤ p_fd p →
  w_fds w !! p_fd p = Some f → p_ibuf p = Some x → w_streams w !! x = Some n →
  - 2 ^ 31 ≤ p_rcount p → p_rcount p + 1 < 2 ^ 31 →
  read_event n (set_p_rcount (p_rcount p + 1) (set_p_uptime (w_now w) p)) f = Ok (r, n', p', f') →
  wp (read_io_action malloc_ok call_disparser (ac_timer ac) r l) (λ _ w', Q tt w')
     (set_w_fds (<[p_fd p := f']> (w_fds w)) (set_w_peers (<[l := p']> (w_peers w))
        (set_w_streams (<[x := n']> (w_streams w)) w))) →
  wp (misaka_read malloc_ok call_disparser ac l) Q w.
Proof.
  intros Hl Hrd Hst Hfd Hf Hx Hn Hge Hlt Hev HQ.
  destruct (read_event_conn _ _ _ _ _ _ _ Hev) as (t & n1 & p1 & Ht & Hc & Hsame).
  pose proof (tcp_read_conn _ _ _ _ _ _ _ Ht) as [_ Hs1]. set (p0 := set_p_rcount _ _) in *.
  unfold misaka_read, peer_uptime_reset. apply wp_bind, wp_bind, wp_get.
  eapply wp_set_peer; [done |]. apply wp_bind. eapply wp_peer_at; [apply lookup_insert_eq |].
  apply wp_bind. eapply wp_lift; [apply int_op_Ok; cbn [p_rcount set_p_uptime]; lia |].
  apply wp_bind. eapply wp_set_peer; [apply lookup_insert_eq |]. cbn [p_fd set_p_uptime].
  rewrite (proj2 (Z.ltb_ge _ _)) by lia. cbn [w_peers set_w_peers]. rewrite insert_insert_eq.
  change (set_p_rcount _ _) with p0.
  apply wp_bind. unfold call_read. apply wp_bind. eapply wp_peer_at; [apply lookup_insert_eq |].
  change (p_read p0) with (p_read p). rewrite Hrd. unfold read_link.
  eexists _, _. split.
  { cbn [w_peers set_w_peers]. rewrite (load_Some _ _ p0), bind_Ok by apply lookup_insert_eq.
    cbn [w_fds set_w_peers]. change (p_fd p0) with (p_fd p). rewrite Hf.
    destruct (wp_run_read (set_w_peers (<[l := p0]> (w_peers w)) (set_w_peers (<[l := set_p_uptime (w_now w) p]> (w_peers w)) w))
      l p0 x n (λ n p, tcp_read n p f) t n1 p1 f' (λ r w', r = (t, f') ∧ w' = set_w_peers (<[l := p1]> (w_peers w)) (set_w_streams (<[x := n1]> (w_streams w)) w)))
      as (r0 & w' & -> & -> & ->); [apply lookup_insert_eq | exact Hx | exact Hn | exact Ht | |].
    { split; [done |]. cbn [w_peers set_w_peers w_streams]. by rewrite insert_insert_eq. }
    rewrite bind_Ok. reflexivity. }
  apply wp_bind. destruct (decide (t = IO_CHECK)) as [-> | Hne].
  2: { assert ((r, n', p') = (t, n1, p1)) as [= -> -> ->] by (destruct t; try done; by injection Hc as <- <- <-).
       apply wp_ret, wp_bind. eapply wp_mono; [exact HQ |]. intros ? w' Hw'. by apply wp_ret. }
  apply wp_bind. unfold check_read. apply wp_bind.
  eapply (wp_run_read _ l p1 x n1 _ r n' p' tt).
  { apply lookup_insert_eq. } { destruct Hs1 as (-> & _). exact Hx. } { apply lookup_insert_eq. }
  { by rewrite Hc, bind_Ok. }
  apply wp_ret. apply wp_bind. unfold establish. apply wp_bind. eapply wp_peer_at; [apply lookup_insert_eq |].
  destruct Hsame as (_ & -> & _). change (p_status p0) with (p_status p). rewrite Hst. cbn [Z.eqb TAT_ESTA Pos.eqb negb when].
  apply wp_ret, wp_ret. apply wp_bind. cbn [w_peers w_streams set_w_peers set_w_streams set_w_fds].
  rewrite !insert_insert_eq. eapply wp_mono; [exact HQ |]. intros ? w' Hw'. by apply wp_ret.
Qed.

End read.

(** ** From a request to its answer *)

Section echo.
Context {K : Kernel} {L : Libev} {disparser_fn : Type}.
Context {AS : StreamAllocator} {AN : Allocator (listnode loc)} {AI : Allocator (option Z)}.
Context {AB : Allocator (hash_backet peer_ref)} {AP : Allocator (peer disparser_fn)}.
Context (malloc_ok : Z → bool) (memory : ∀ n, malloc_ok n = true) (task : loc → bool).
Context (call_disparser : disparser_fn → peer disparser_fn → peer disparser_fn).
Context (run_script : script_fn) (run_python : python_fn).
Implicit Types (w : world disparser_fn) (l x c : loc) (p : peer disparser_fn) (n : stream).
Implicit Types (m : gmap Z peer_ref) (sv : server_state disparser_fn).

(** The queues of a running server: the echo task has one of its own, the answers
    another. *)
Record queues_ready w (qs : gset loc) (q1 q3 : loc) (mq : message_queue loc) : Prop := {
  qr_rest : resting task qs (w_sched w);
  qr_echo : w_queues w !! 1%nat = Some q1;
  qr_net : w_queues w !! 3%nat = Some q3;
  qr_task : task q1 = true ∧ task q3 = false ∧ q1 ∈ qs ∧ q3 ∈ qs;
  qr_core : core (sc_st (w_sched w)) q1 = Some mq ∧ mq_handle mq = EVENT_ECHO;
  qr_room : Z.of_nat (length (sc_in (w_sched w))) + 5 < 2 ^ 29
}.

(** The echo handler is loaded, and nothing else. *)
Definition echo_loaded w : Prop :=
  ∃ i eh, w_events w = [Z.of_nat i] ∧ w_handles w !! i = Some eh ∧ eh_type eh = EVENT_ECHO ∧
    eh_plug eh = C_PLUGIN_TYPE ∧ eh_func eh = Some misaka_handle_p.

Lemma start_worker_out {M} (s : sched M) t : sc_out (start_worker s t) = sc_out s.
Proof. unfold start_worker. by repeat case_match. Qed.

(** A step of a worker that pops nothing. *)
Lemma worker_turn_idle w t sc :
  worker_step (w_sched w) t = Ok sc → sc_out sc = sc_out (w_sched w) →
  worker_turn malloc_ok run_script run_python t w = Ok (tt, set_w_sched sc w).
Proof.
  intros Hstep Hout. unfold worker_turn. rewrite Hstep, bind_Ok, Hout. by rewrite drop_all.
Qed.

(** A worker pops the request [c], and the echo handler answers it. *)
Lemma worker_turn_echo w t sc q1 q3 mq c n s4 :
  worker_step (w_sched w) t = Ok sc → sc_out sc = sc_out (w_sched w) ++ [(q1, c)] →
  core (sc_st sc) q1 = Some mq → mq_handle mq = EVENT_ECHO →
  w_streams w !! c = Some n → s_type n = EVENT_ECHO → echo_loaded w →
  w_queues w !! 3%nat = Some q3 → misaka_packet_net_route malloc_ok sc q3 c = Ok s4 →
  worker_turn malloc_ok run_script run_python t w = Ok (tt, set_w_sched s4 (set_w_streams
      (<[c := set_type EVENT_NET (set_dst (s_src n) (set_src (s_dst n) n))]> (w_streams w)) w)).
Proof.
  intros Hstep Hout Hcore Hh Hn Hty (i & eh & Hev & Hi & Heht & Hplug & Hfunc) Hq3 Hnet.
  unfold worker_turn. rewrite Hstep, bind_Ok, Hout, drop_app_length.
  apply core_Some in Hcore as (mq0 & Hmq & ->). rewrite (load_Some _ _ _ Hmq), bind_Ok.
  unfold skynet_mq_handle. cbn [mq_handle set_mq_next] in Hh. rewrite Hh. cbn [Z.eqb EVENT_ECHO EVENT_NET Pos.eqb].
  rewrite (process_echo_replies malloc_ok run_script run_python (set_w_sched sc w) c n i eh q3 s4); try done.
Qed.

(** The main loop sends the answer [c] to the peer of its node id. *)
Lemma loop_watch_routes w s2 s3 q3 c n m l p q ev :
  w_queues w !! 3%nat = Some q3 → loop_pop (w_sched w) q3 = Ok (Some c, s2) →
  loop_pop s2 q3 = Ok (None, s3) →
  w_streams w !! c = Some n → sane n → unread n ≠ [] → s_next n = None →
  peer_table w m → m !! s_nid n = Some (PeerAt l) → w_peers w !! l = Some p →
  p_obuf p = Some q → fifo_rep (w_streams w) q [] → p_pack p = Some peer_default_pack_p →
  p_t_write p = Some ev →
  ∃ h' q' p', misaka_loop_watch w
      = Ok (tt, set_w_sched s3 (set_w_peers (<[l := p']> (w_peers w)) (set_w_streams h' w))) ∧
    p_obuf p' = Some q' ∧ same_link peer_default_pack_p p p' ∧ fifo_rep h' q' [c] ∧ h' !! c = Some n ∧
    (∀ y ny, w_streams w !! y = Some ny → ∃ nx, h' !! y = Some (set_next nx ny)).
Proof.
  intros Hq3 Hp1 Hp2 Hn Hs Hu Hnext Hm Hid Hl Hob Hr Hpk Hev.
  destruct (route_delivers (set_w_sched s2 w) m l p q [] c n [] peer_default_pack_p)
    as (h' & q' & p' & Hroute & Hq' & Hr' & _ & Hsl & _ & Hh'); try done.
  { split; [| done]. exists n. done. }
  { apply NoDup_singleton. }
  exists h', q', p'. split; [| split; [done |]; split; [done |]; split; [done |]].
  - assert (wp misaka_loop_watch (λ _ w', w' = set_w_sched s3 (set_w_peers (<[l := p']> (w_peers w))
      (set_w_streams h' w))) w) as ([] & w' & Hrun & ->); [| exact Hrun].
    unfold misaka_loop_watch, misaka_packet_loop_route. change (Z.to_nat MISAKA_ROUTE_SANDS) with 50%nat.
    cbn [route_sands]. apply wp_bind. eexists _, _. split.
    { unfold pop_queue. rewrite (proj2 (rd_Ok _ _ q3)), bind_Ok by (split; [done | exact Hq3]).
      by rewrite Hp1, bind_Ok. }
    apply wp_bind. eexists _, _. split; [exact Hroute |]. apply wp_bind. eexists _, _. split.
    { unfold pop_queue. cbn [w_queues w_sched set_w_sched set_w_peers set_w_streams].
      rewrite (proj2 (rd_Ok _ _ q3)), bind_Ok by (split; [done | exact Hq3]). by rewrite Hp2, bind_Ok. }
    by apply wp_ret.
  - assert (∀ y ny, w_streams w !! y = Some ny → ∃ nx, h' !! y = Some (set_next nx ny)) as Hall.
    { intros y ny Hy. destruct (Hh' y ny Hy) as (nx & Hnx). exists nx. rewrite Hnx. by case_decide. }
    split; [| exact Hall]. destruct (Hall c n Hn) as (nx & Hnx).
    destruct Hr' as (((n' & Hn' & Hlink) & _) & _). rewrite Hnx in Hn'. injection Hn' as <-.
    cbn in Hlink. subst nx. rewrite Hnx. f_equal. destruct n. cbn in Hnext. by subst.
Qed.

(** The peer at [l] has the input buffer [x] and its descriptor is readable: this
    read completes a packet, [n'] in the buffer, for this node. *)
Record completes_packet w l p x n' p' (f' : descr) : Prop := {
  cp_peer : w_peers w !! l = Some p;
  cp_link : p_read p = Some tcp_read_p ∧ p_status p = TAT_ESTA ∧ 0 ≤ p_fd p ∧ p_sys p = 0 ∧
    p_parser p = Some normal_parser_init_p;
  cp_count : - 2 ^ 31 ≤ p_rcount p ∧ p_rcount p + 1 < 2 ^ 31;
  cp_buffer : p_ibuf p = Some x;
  cp_event : ∃ f n, w_fds w !! p_fd p = Some f ∧ w_streams w !! x = Some n ∧
    read_event n (set_p_rcount (p_rcount p + 1) (set_p_uptime (w_now w) p)) f = Ok (IO_PACKET, n', p', f');
  cp_packet : sane n' ∧ s_endp n' - s_getp n' ≤ MISAKA_MAX_PACKET_SIZE ∧ s_nid n' = w_role w ∧ unread n' ≠ []
}.

(** An established TCP peer with nothing to send. *)
Record can_answer w l p q : Prop := {
  ca_peer : w_peers w !! l = Some p;
  ca_link : p_status p = TAT_ESTA ∧ p_write p = Some tcp_write_p ∧ p_pack p = Some peer_default_pack_p;
  ca_fifo : p_obuf p = Some q ∧ fifo_rep (w_streams w) q [];
  ca_watch : is_Some (p_t_write p);
  ca_count : - 2 ^ 31 ≤ p_scount p ∧ p_scount p + 1 < 2 ^ 31
}.

(** The read event: the request is in the queue of its task. *)
Lemma read_queues w ac l p x n' p' f' c o d q1 sc :
  completes_packet w l p x n' p' f' →
  salloc (<[x := stamped (p_drole p) (w_role w) n']> (w_streams w)) = (Some (c, o), Some d) →
  w_queues w !! 1%nat = Some q1 → misaka_packet_task_route malloc_ok (w_sched w) q1 c = Ok sc →
  ∃ to, let h' := <[x := stream_reset (stamped (p_drole p) (w_role w) n')]> (<[c := to]> (w_streams w)) in
    misaka_read malloc_ok call_disparser ac l w
      = Ok (tt, set_w_fds (<[p_fd p := f']> (w_fds w)) (set_w_peers (<[l := normal_parser_init p']> (w_peers w))
              (set_w_sched sc (set_w_streams h' w)))) ∧
    same_conn p p' ∧ sane to ∧ unread to = unread n' ∧ s_next to = None ∧
    (s_type to, s_src to, s_dst to) = (EVENT_ECHO, p_drole p, w_role w) ∧
    s_nid to = s_nid o ∧ s_size to = MISAKA_MAX_PACKET_SIZE ∧ c ≠ x.
Proof.
  intros [Hl (Hrd & Hst & Hfd & Hsys & Hpar) [Hge Hlt] Hx (f & n & Hf & Hn & Hev) (Hs & Hfit & Hnid & _)] Ha Hq Hsc.
  destruct (read_event_conn _ _ _ _ _ _ _ Hev) as (_ & _ & _ & _ & _ & Hsame).
  assert (same_conn p p') as Hconn by exact Hsame.
  destruct Hconn as (Ci & Cst & Csys & Cpar & Cd & _).
  set (w1 := set_w_fds (<[p_fd p := f']> (w_fds w)) (set_w_peers (<[l := p']> (w_peers w))
               (set_w_streams (<[x := n']> (w_streams w)) w))).
  destruct (read_packet_to_task malloc_ok call_disparser w1 (ac_timer ac) l p' x n' c o d q1 sc)
    as (to & Hrun & Hto & Hu & Hnext & Hmeta & Hid & Hsz); try congruence.
  { apply lookup_insert_eq. } { apply lookup_insert_eq. }
  { exact Hnid. }
  { cbn [w1 w_streams w_role set_w_fds set_w_peers set_w_streams]. by rewrite insert_insert_eq, Cd. }
  { exact Hq. } { exact Hsc. }
  assert (c ≠ x) as Hne.
  { pose proof (salloc_fresh _ _ _ _ Ha) as Hfresh. intros ->. by rewrite lookup_insert_eq in Hfresh. }
  exists to. split; [| rewrite Cd in Hmeta; by split_and!].
  assert (wp (misaka_read malloc_ok call_disparser ac l) (λ _ w', w' =
      set_w_fds (<[p_fd p := f']> (w_fds w)) (set_w_peers (<[l := normal_parser_init p']> (w_peers w))
              (set_w_sched sc (set_w_streams (<[x := stream_reset (stamped (p_drole p) (w_role w) n')]>
                (<[c := to]> (w_streams w))) w)))) w) as ([] & w' & Hread & ->); [| exact Hread].
  eapply wp_misaka_read; try done. fold w1. eexists _, _. split; [exact Hrun |].
  cbn [w1 w_streams w_peers w_role set_w_fds set_w_peers set_w_streams]. rewrite !insert_insert_eq, Cd.
  rewrite (insert_insert_ne _ c x), insert_insert_eq by done. done.
Qed.

(** The peer that answers, after the read event of another peer or its own. *)
Lemma can_answer_after w w1 l p x n' p' f' l2 p2 q :
  completes_packet w l p x n' p' f' → same_conn p p' → can_answer w l2 p2 q →
  w_peers w1 = <[l := normal_parser_init p']> (w_peers w) →
  ∃ p3, w_peers w1 !! l2 = Some p3 ∧ same_conn p2 p3.
Proof.
  intros [Hl _ _ _ _ _] Hsame [Hl2 _ _ _ _] ->. destruct (decide (l2 = l)) as [-> | Hne].
  - rewrite Hl in Hl2. injection Hl2 as <-. exists (normal_parser_init p').
    split; [apply lookup_insert_eq | exact Hsame].
  - exists p2. split; [by rewrite lookup_insert_ne | done].
Qed.

Lemma on_world_Ok (h : handler unit) sv w' :
  h (sv_world sv) = Ok (tt, w') → on_world h sv = Ok (mkServer w' (sv_timer sv)).
Proof. intros Hh. unfold on_world. by rewrite Hh, bind_Ok. Qed.

Lemma server_run_app es1 es2 sv :
  server_run malloc_ok call_disparser run_script run_python sv (es1 ++ es2) =
  (sv ← server_run malloc_ok call_disparser run_script run_python sv es1;
   server_run malloc_ok call_disparser run_script run_python sv es2).
Proof.
  revert sv. induction es1 as [| e es1 IH]; intros sv; [done |]. cbn [app server_run].
  destruct (server_step _ _ _ _ sv e); [rewrite !bind_Ok; apply IH | done].
Qed.

(** The answer [c], alone in the queue of outgoing packets, goes out on the peer of
    its node id. *)
Lemma answer_written w T s5 s6 q3 c n m l p q g g' rounds timer :
  w_queues w !! 3%nat = Some q3 → loop_pop (w_sched w) q3 = Ok (Some c, s5) → loop_pop s5 q3 = Ok (None, s6) →
  w_streams w !! c = Some n → sane n → s_size n = MISAKA_MAX_PACKET_SIZE → unread n ≠ [] → s_next n = None →
  peer_table w m → m !! s_nid n = Some (PeerAt l) → can_answer w l p q →
  w_fds w !! p_fd p = Some g → sys_write g (unread n) = (Wrote (Z.of_nat (length (unread n))), g') → (1 ≤ rounds)%nat →
  ∃ h' p' q', server_run malloc_ok call_disparser run_script run_python (mkServer w T)
      [SvWatch; SvWrite rounds timer l]
      = Ok (mkServer (set_w_peers (<[l := p']> (w_peers w)) (set_w_fds (<[p_fd p := g']> (w_fds w))
              (set_w_streams h' (set_w_sched s6 w)))) T) ∧
    h' !! c = None ∧ p_obuf p' = Some q' ∧ fifo_rep h' q' [] ∧ is_Some (p_t_write p') ∧
    conn p' = conn (set_p_scount (p_scount p + 1) p) ∧
    ∀ y ny, y ≠ c → w_streams w !! y = Some ny → ∃ nx, h' !! y = Some (set_next nx ny).
Proof.
  intros Hq3 E5 E6 Hc Hs Hsz Hu Hnext Hm Hid [Hl (Hst & Hwr & Hpk) [Hob Hfifo] [ev Hev] [Hge Hlt]] Hg Hw Hrounds.
  destruct (loop_watch_routes w s5 s6 q3 c n m l p q ev)
    as (h5 & q5 & p5 & R5 & Hob5 & (_ & [ev5 Hev5] & Hconn) & Hr5 & Hc5 & Hall5); try done.
  pose proof (f_equal p_status Hconn) as D1. pose proof (f_equal p_fd Hconn) as D2.
  pose proof (f_equal p_write Hconn) as D3. pose proof (f_equal p_scount Hconn) as D4.
  cbn [conn p_status p_fd p_write p_scount set_p_obuf set_p_t_write] in D1, D2, D3, D4.
  set (w5 := set_w_sched s6 (set_w_peers (<[l := p5]> (w_peers w)) (set_w_streams h5 w))) in R5.
  destruct (write_flushes call_disparser w5 timer rounds l p5 q5 [c] [(unread n, s_dsu n)] g g' ev5)
    as (h6 & p6 & q6 & ev6 & R6 & Hfree & Hob6 & Hr6 & _ & Hev6 & _ & Hconn6); try congruence; try done.
  { apply lookup_insert_eq. }
  { constructor; [| constructor]. exists n. split; [exact Hc5 |]. split_and!; try done. by rewrite Hsz. }
  { cbn [w5 w_fds set_w_sched set_w_peers set_w_streams]. by rewrite D2. }
  { by eapply wrote_cons; [| constructor]. }
  { rewrite D4. cbn [length]. lia. }
  exists h6, p6, q6. split; [| split; [| split; [done |]; split; [done |]; split; [by rewrite Hev6 |]; split]].
  - cbn [server_run server_step]. rewrite (on_world_Ok misaka_loop_watch _ w5), bind_Ok by exact R5.
    cbn [sv_timer]. rewrite (on_world_Ok _ (mkServer w5 T) _ R6), bind_Ok.
    cbn [w5 w_peers w_fds set_w_sched set_w_peers set_w_streams]. by rewrite insert_insert_eq, D2.
  - rewrite Hfree. by rewrite decide_True by left.
  - rewrite Hconn6, D4. exact (f_equal (set_p_scount (p_scount p + 1)) Hconn).
  - intros y ny Hy Hny. destruct (Hall5 y ny Hny) as (nx & Hnx). exists nx.
    rewrite Hfree, decide_False by set_solver. exact Hnx.
Qed.

(** The echo service, end to end.  When a TCP peer reads the last bytes of a
    request for this node, a pool thread takes the job and makes two steps, the
    main loop runs its route loop and the answering peer becomes writable, then
    the bytes of the request, unchanged, are written to the descriptor of that
    peer: the peer registered under the node id that the copy of the packet has,
    which is the one its allocation happened to hold.  Nothing faults, the copy is
    freed, the output fifo is empty again and so is the input buffer. *)
Theorem echo_round_trip sv ac t rounds timer l p x n' p' f' c o d qs q1 q3 mq m l2 p2 q g g' :
  let w := sv_world sv in
  completes_packet w l p x n' p' f' →
  salloc (<[x := stamped (p_drole p) (w_role w) n']> (w_streams w)) = (Some (c, o), Some d) →
  queues_ready w qs q1 q3 mq → echo_loaded w →
  peer_table w m → m !! s_nid o = Some (PeerAt l2) → can_answer w l2 p2 q →
  <[p_fd p := f']> (w_fds w) !! p_fd p2 = Some g →
  sys_write g (unread n') = (Wrote (Z.of_nat (length (unread n'))), g') → (1 ≤ rounds)%nat →
  ∃ sv' p2' q' nx, server_run malloc_ok call_disparser run_script run_python sv
      [SvRead ac l; SvJob t; SvWorker t; SvWorker t; SvWatch; SvWrite rounds timer l2] = Ok sv' ∧
    w_fds (sv_world sv') !! p_fd p2 = Some g' ∧
    w_streams (sv_world sv') !! c = None ∧
    w_peers (sv_world sv') !! l2 = Some p2' ∧ p_obuf p2' = Some q' ∧
    fifo_rep (w_streams (sv_world sv')) q' [] ∧
    w_streams (sv_world sv') !! x = Some nx ∧ unread nx = [].
Proof.
  intros w Hcp Ha [Hrest He Hn (Ht1 & Ht3 & Hin1 & Hin3) [Hcore Hh] Hroom] Hecho Hm Hid Hca Hg Hwr Hrounds.
  destruct (task_turn malloc_ok memory task qs (w_sched w) t q1 mq c Hrest Ht1 Hin1 Hcore ltac:(lia))
    as (s1 & s2 & s3 & mq' & E1 & E2 & Ho2 & E3 & Ho3 & Ho3' & Hin3' & Hcore3 & Hh3 & _ & H & cc & Hinv).
  destruct (net_turn malloc_ok memory task qs s3 [] H cc q3 c Hinv Ht3 Hin3) as (s4 & s5 & s6 & E4 & E5 & E6).
  { rewrite Ho3', Hin3', !on_snoc. rewrite !decide_False by (intros ->; congruence).
    rewrite (si_hist _ _ _ _ _ _ (proj1 Hrest)). apply app_nil_r. }
  { rewrite Hin3', length_app. cbn [length]. lia. }
  destruct (read_queues w ac l p x n' p' f' c o d q1 s1 Hcp Ha He E1)
    as (to & R1 & Hsame & Hto & Hu & Hnext & Hmeta & Hnid & Hsz & Hcx).
  set (h1 := <[x := stream_reset (stamped (p_drole p) (w_role w) n')]> (<[c := to]> (w_streams w))) in R1.
  set (w1 := set_w_fds (<[p_fd p := f']> (w_fds w)) (set_w_peers (<[l := normal_parser_init p']> (w_peers w))
              (set_w_sched s1 (set_w_streams h1 w)))) in R1.
  injection Hmeta as Hty Hsrc Hdst.
  assert (h1 !! c = Some to) as Hc by (unfold h1; by rewrite lookup_insert_ne, lookup_insert_eq).
  set (reply := set_type EVENT_NET (set_dst (s_src to) (set_src (s_dst to) to))).
  set (w4 := set_w_sched s4 (set_w_streams (<[c := reply]> h1) w1)).
  destruct (can_answer_after w w1 l p x n' p' f' l2 p2 q Hcp Hsame Hca eq_refl) as (p3 & Hl3 & S3).
  destruct Hca as [Hl2 (Hst2 & Hwr2 & Hpk2) [Hob2 Hfifo] [ev Hev] [Hge2 Hlt2]].
  destruct S3 as (_ & C1 & _ & _ & _ & C2 & C3 & C4 & C5 & C6 & C7 & _).
  rewrite <- Hu in Hwr.
  destruct (answer_written w4 (sv_timer sv) s5 s6 q3 c reply m l2 p3 q g g' rounds timer)
    as (h6 & p6 & q6 & R & Hgone & Hq6 & Hr6 & _ & _ & Hrest'); try done.
  { apply lookup_insert_eq. }
  { change (unread reply) with (unread to). rewrite Hu. apply Hcp. }
  { eapply (peer_table_at w w4 m l p (normal_parser_init p')); try done; [apply Hcp |]. apply Hsame. }
  { change (s_nid reply) with (s_nid to). by rewrite Hnid. }
  { constructor; [done | split_and!; congruence | split; [congruence | done] | by rewrite C5; eexists | lia]. }
  { cbn [w4 w1 w_fds set_w_sched set_w_streams set_w_fds]. by rewrite C2. }
  destruct (Hrest' x (stream_reset (stamped (p_drole p) (w_role w) n'))) as (nx & Hnx); [done | |].
  { cbn [w4 w_streams set_w_sched set_w_streams]. rewrite lookup_insert_ne by done. apply lookup_insert_eq. }
  match type of R with _ = Ok ?s => exists s, p6, q6 end. eexists. rewrite <- C2. split; [| cbn [sv_world w_fds w_streams w_peers set_w_peers set_w_fds set_w_streams];
    split_and!; [apply lookup_insert_eq | done | apply lookup_insert_eq | done | done | exact Hnx | done]].
  rewrite (server_run_app [SvRead ac l; SvJob t; SvWorker t; SvWorker t] [SvWatch; SvWrite rounds timer l2]).
  cbn [server_run server_step]. rewrite (on_world_Ok _ sv _ R1), bind_Ok.
  rewrite (on_world_Ok (worker_start t) (mkServer w1 (sv_timer sv)) (set_w_sched (start_worker s1 t) w1)), bind_Ok by done.
  rewrite (on_world_Ok (worker_turn _ _ _ t) _ (set_w_sched s2 w1)), bind_Ok.
  2:{ cbn [sv_world]. rewrite (worker_turn_idle _ _ s2); [done | done |].
      cbn [w_sched set_w_sched]. by rewrite start_worker_out. }
  rewrite (on_world_Ok (worker_turn _ _ _ t) _ w4), !bind_Ok; [exact R |].
  cbn [sv_world]. by apply (worker_turn_echo (set_w_sched s2 w1) t s3 q1 q3 mq' c to s4); try congruence.
Qed.

End echo.

(** ** Start-up *)

Section boot.
Context {K : Kernel} {L : Libev} {disparser_fn : Type}.
Context {AS : StreamAllocator} {AN : Allocator (listnode loc)} {AI : Allocator (option Z)}.
Context {AB : Allocator (hash_backet peer_ref)} {AP : Allocator (peer disparser_fn)}.
Context {AQ : Allocator (message_queue loc)}.
Context (malloc_ok : Z → bool) (inet_addr : list Z → Z).
Implicit Types (w : world disparser_fn) (sv : server_state disparser_fn).

(** The peers are listed, the events are blank and the counter of the ids is
    indeterminate. *)
Definition booted w : Prop :=
  w_plist w = list_new ∧ w_handles w = replicate (Z.to_nat EVENT_MAX) zero_handle ∧
  w_events w = [] ∧ im_curr (po_mid (w_ids w)) = None.

Lemma core_init_booted env sv sv' : core_init malloc_ok env sv = Ok (0, sv') → booted (sv_world sv').
Proof.
  unfold core_init, idmaker_new. intros H.
  destruct (ie_loop env), (ie_peer_list env), (ie_event_list env), (ie_mid env), (ie_store env); try discriminate H.
  cbn [negb] in H. apply bind_Ok_inv in H as ([qs sc] & _ & H).
  destruct (ie_thpool env), (ie_t_watch env), (ie_t_old env); try discriminate H. by injection H as <-.
Qed.

Lemma wp_register_event w plug path i eh (Q : Z → world disparser_fn → Prop) :
  w_handles w !! i = Some eh → (∀ hs, Q 0 (set_w_handles hs w)) →
  wp (register_event plug path (Z.of_nat i)) Q w.
Proof.
  intros Hi HQ. unfold register_event. apply wp_bind. eapply wp_set_handle; [done |].
  apply wp_bind. eapply wp_set_handle.
  { cbn [w_handles set_w_handles]. apply list_lookup_insert_eq. by eapply lookup_lt_Some. }
  apply wp_ret, HQ.
Qed.

Lemma wp_tcp_listen_init w pm port c s q o d r t cells (Q : option loc → world disparser_fn → Prop) :
  peer_memory w pm c s q o d r t → list_rep (w_nodes w) (w_plist w) cells →
  (∀ w' p, w_peers w' !! c = Some p → w_ids w' = w_ids w → Q (Some c) w') →
  wp (tcp_listen_init inet_addr pm port) Q w.
Proof.
  intros Hmem Hl HQ. unfold tcp_listen_init, peer_tcp_create, register_api. apply wp_bind, wp_bind.
  eapply wp_peer_new; [done.. |]. intros nodes lst _. apply wp_bind.
  eapply wp_set_peer; [apply lookup_insert_eq |]. apply wp_ret. apply wp_bind.
  eapply wp_set_peer; [apply lookup_insert_eq |]. apply wp_bind.
  eapply wp_set_peer; [apply lookup_insert_eq |]. apply wp_ret. eapply HQ; [apply lookup_insert_eq | done].
Qed.

(** C40: start-up reads an indeterminate value.  idmaker_new leaves the counter
    of the pool unset, so whenever core_init succeeds and the listener can be
    allocated, the peer_register of core_register takes its id from memory that
    was never written, whatever the options that main accepts. *)
Theorem boot_reads_uninitialised opts b env pm timer pl sv sv' c s q o d r t :
  main_options opts 0 = Some b →
  core_init malloc_ok env sv = Ok (0, sv') → peer_memory (sv_world sv') pm c s q o d r t →
  main_run malloc_ok inet_addr opts env pm timer pl sv = Fail Uninitialised.
Proof.
  intros Hopts Hinit Hmem. unfold main_run. rewrite Hopts. destruct (core_init_booted _ _ _ Hinit) as (Hpl & Hh & Hev & Hid).
  unfold main_start. rewrite Hinit, bind_Ok.
  enough (faults (core_register inet_addr pm timer) Uninitialised (sv_world sv')) as -> by done.
  unfold core_register. apply faults_bind. eapply (wp_register_event _ _ _ 1%nat zero_handle); [by rewrite Hh |].
  intros hs. apply faults_bind, wp_put. apply faults_bind.
  eapply (wp_tcp_listen_init _ pm _ c s q o d r t []); [by destruct Hmem; constructor | | ].
  { cbn [w_plist set_w_role set_w_handles]. rewrite Hpl. by repeat split; constructor. }
  intros w' p Hc Hids. apply faults_bind. eapply wp_set_peer; [done |]. apply faults_head.
  unfold peer_register. apply faults_head. unfold faults, idmaker_get_h, idmaker_get.
  cbn [w_ids set_w_peers]. rewrite Hids. cbn [w_ids set_w_role set_w_handles]. by rewrite Hid.
Qed.

End boot.
