(* ===== verification/SessionFacts.v ===== *)
(** Any number of requests: after an answer the server is where it was before the
    request, so that every sequence of packets on its connections is answered. *)

From S2P Require Import Prelude Memory Sockunion Stream StreamFacts Fifo Linklist LinklistFacts.
From S2P Require Import Hash HashFacts Mq MqFacts Sched SchedFacts Timer Peer Network Parser Link.
From S2P Require Import LinkFacts IdMaker Core CoreFacts PacketFacts Connect ConnectFacts.
From S2P Require Import Server ServerFacts.

Local Open Scope Z_scope.

(** ** The scheduler comes to rest *)

Section queues.
Context {M : Type} (malloc_ok : Z → bool) (memory : ∀ n, malloc_ok n = true) (task : loc → bool).
Implicit Types (s : sched M) (p r : loc) (m : M) (qs : gset loc).

(** Nothing is held when no thread holds anything. *)
Lemma holds_nothing (th : gmap nat worker_state) H :
  threads_inv th H → (∀ t w, th !! t = Some w → w_hold w = None) → H = ∅.
Proof.
  intros HT Hno. apply set_eq. intros p. split; [| set_solver]. intros Hp.
  apply (ti_held _ _ HT) in Hp as (t & n & Ht). by apply Hno in Ht.
Qed.

(** The worker finds the queue it holds empty and gives it up. *)
Lemma worker_pop_last qs s gl H c t n p :
  sched_inv task qs s gl H c → sc_threads s = {[t := mkWorker n (Some p)]} → n ≠ 0 → c p = [] →
  ∃ s', worker_step s t = Ok s' ∧ sc_in s' = sc_in s ∧ sc_out s' = sc_out s ∧
    sc_threads s' = {[t := mkWorker n None]} ∧ sched_inv task qs s' gl ∅ c ∧
    ∀ r q, core (sc_st s) r = Some q → ∃ q', core (sc_st s') r = Some q' ∧ mq_handle q' = mq_handle q.
Proof.
  intros Hs Hth Hn Hc. assert (sc_threads s !! t = Some (mkWorker n (Some p))) as Ht by (rewrite Hth; apply lookup_singleton_eq).
  destruct (worker_pop_inv task qs s gl H c t n p Hs Ht Hn) as (s' & H' & Hst & Hin & Hs').
  destruct (thread_holds _ _ _ _ _ (si_threads _ _ _ _ _ _ Hs) Ht) as [HpH _].
  destruct (qi_alloc _ _ _ _ _ (si_queues _ _ _ _ _ _ Hs) p HpH) as [q Hq].
  destruct (mq_pop_spec (sc_st s) gl p q (c p) (qi_gq _ _ _ _ _ (si_queues _ _ _ _ _ _ Hs)) Hq
              (qi_ring _ _ _ _ _ (si_queues _ _ _ _ _ _ Hs) p q Hq)) as (st' & q' & Hpop & Hcore & _ & Hh & _).
  unfold worker_step in Hst. rewrite Ht in Hst. cbn [w_hold w_sands] in Hst.
  rewrite (proj2 (Z.eqb_neq n 0) Hn), Hpop, Hc, bind_Ok in Hst. cbn [head] in Hst. injection Hst as <-.
  eexists. split.
  { unfold worker_step. rewrite Ht. cbn [w_hold w_sands]. rewrite (proj2 (Z.eqb_neq n 0) Hn), Hpop, Hc, bind_Ok. done. }
  cbn [sc_in sc_out sc_threads sc_st] in *. rewrite Hth, insert_singleton_eq.
  split; [done |]. split; [done |]. split; [done |]. split.
  - assert (H' = ∅) as ->.
    { eapply holds_nothing; [exact (si_threads _ _ _ _ _ _ Hs') |]. cbn [sc_threads]. rewrite Hth, insert_singleton_eq.
      intros t' w [-> <-]%lookup_singleton_Some. done. }
    destruct Hs' as [Hq1 Hq2 Hq3 Hq4]. cbn [sc_in sc_out sc_threads sc_st] in *. rewrite Hth, insert_singleton_eq in *.
    assert (∀ r, upd c p (tail (c p)) r = c r) as Hext.
    { intros r. unfold upd. case_decide as Hr; [by rewrite Hr, Hc | done]. }
    constructor; cbn [sc_in sc_out sc_threads sc_st]; [by eapply queues_inv_ext | done | | done].
    intros r. by rewrite Hq3, Hext.
  - intros r q0 Hr. rewrite Hcore. case_decide as Hrp; [subst r; exists q'; split; [done | congruence] | eauto].
Qed.

(** The global queue is empty: the worker ends. *)
Lemma worker_leaves qs s c t n :
  sched_inv task qs s [] ∅ c → sc_threads s = {[t := mkWorker n None]} →
  ∃ s', worker_step s t = Ok s' ∧ sc_in s' = sc_in s ∧ sc_out s' = sc_out s ∧
    sc_threads s' = ∅ ∧ sched_inv task qs s' [] ∅ c ∧ sc_st s' = sc_st s.
Proof.
  intros [Hq HT Hh Ha] Hth. unfold worker_step. rewrite Hth, lookup_singleton_eq. cbn [w_hold].
  rewrite (globalmq_pop_empty _ (qi_gq _ _ _ _ _ Hq)), bind_Ok, delete_singleton_eq.
  eexists. split; [done |]. cbn [sc_in sc_out sc_threads sc_st]. split; [done |]. split; [done |].
  split; [done |]. split; [| done]. split; cbn [sc_in sc_out sc_threads sc_st]; try done.
  constructor; [| intros ?????; by rewrite lookup_empty | intros ??; by rewrite lookup_empty].
  intros p. split; [set_solver |]. intros (t' & n' & Ht'). by rewrite lookup_empty in Ht'.
Qed.

(** A pop by the main loop leaves the threads and the kinds of the queues. *)
Lemma loop_pop_keeps qs s gl H c r :
  sched_inv task qs s gl H c → task r = false → r ∈ qs →
  ∃ s', loop_pop s r = Ok (head (c r), s') ∧ sc_in s' = sc_in s ∧ sc_threads s' = sc_threads s ∧
    sched_inv task qs s' gl H (upd c r (tail (c r))) ∧
    ∀ p q, core (sc_st s) p = Some q → ∃ q', core (sc_st s') p = Some q' ∧ mq_handle q' = mq_handle q.
Proof.
  intros Hs Ht Hr. destruct (loop_pop_inv task qs s gl H c r Hs Ht Hr) as (s' & He & Hin & Hs').
  exists s'. split; [done |]. split; [done |].
  destruct (si_alloc _ _ _ _ _ _ Hs r Hr) as [q Hq]. pose proof (si_queues _ _ _ _ _ _ Hs) as Hqi.
  destruct (mq_pop_spec (sc_st s) gl r q (c r) (qi_gq _ _ _ _ _ Hqi) Hq (qi_ring _ _ _ _ _ Hqi r q Hq))
    as (st' & q' & Hpop & Hcore & _ & Hh & _).
  unfold loop_pop in He. rewrite Hpop, bind_Ok in He. injection He as <-. split; [done |]. split; [done |].
  intros p q0 Hp. cbn [sc_st]. rewrite Hcore. case_decide; [subst p; exists q'; split; [done | congruence] | eauto].
Qed.

(** The main loop pops the only answer and finds the queue empty. *)
Lemma net_pops qs s c r m :
  sched_inv task qs s [] ∅ c → task r = false → r ∈ qs → c r = [m] → sc_threads s = ∅ →
  ∃ s1 s2, loop_pop s r = Ok (Some m, s1) ∧ loop_pop s1 r = Ok (None, s2) ∧
    sc_in s2 = sc_in s ∧ sc_threads s2 = ∅ ∧ sched_inv task qs s2 [] ∅ (upd c r []) ∧
    ∀ p q, core (sc_st s) p = Some q → ∃ q', core (sc_st s2) p = Some q' ∧ mq_handle q' = mq_handle q.
Proof.
  intros Hs Ht Hr Hc Hth. destruct (loop_pop_keeps qs s [] ∅ c r Hs Ht Hr) as (s1 & E1 & I1 & T1 & S1 & K1).
  rewrite Hc in E1, S1. cbn [head tail] in E1, S1.
  destruct (loop_pop_keeps qs s1 [] ∅ _ r S1 Ht Hr) as (s2 & E2 & I2 & T2 & S2 & K2).
  rewrite upd_eq in E2, S2. cbn [head tail] in E2, S2. exists s1, s2.
  split; [done |]. split; [done |]. split; [congruence |]. split; [congruence |]. split.
  - destruct S2 as [Q1 Q2 Q3 Q4].
    assert (∀ p, upd (upd c r []) r [] p = upd c r [] p) as Hext by (intros p; unfold upd; by case_decide).
    constructor; [by eapply queues_inv_ext | done | | done]. intros p. by rewrite Q3, Hext.
  - intros p q Hp. destruct (K1 p q Hp) as (q1 & Hq1 & H1). destruct (K2 p q1 Hq1) as (q2 & Hq2 & H2).
    exists q2. split; [done | congruence].
Qed.

(** A queue that is routed to keeps its kind. *)
Lemma net_route_keeps s gl H c qs r m s' :
  sched_inv task qs s gl H c → task r = false → r ∈ qs → Z.of_nat (length (sc_in s)) < 2 ^ 29 →
  misaka_packet_net_route malloc_ok s r m = Ok s' →
  ∀ p q, core (sc_st s) p = Some q → ∃ q', core (sc_st s') p = Some q' ∧ mq_handle q' = mq_handle q.
Proof.
  intros Hs Ht Hr Hsz He p q Hp. pose proof (contents_bound _ _ _ _ _ _ r Hs) as Hb.
  destruct (si_alloc _ _ _ _ _ _ Hs r Hr) as [qr Hqr]. pose proof (si_queues _ _ _ _ _ _ Hs) as Hqi.
  destruct (mq_global_upd task _ _ _ _ r qr Hqi Ht Hqr) as (st1 & E1 & C1 & I1).
  assert (core st1 r = Some (set_mq_in_global 1 qr)) as Hr1 by (rewrite C1; by rewrite decide_True).
  destruct (mq_push_spec malloc_ok memory st1 gl r (set_mq_in_global 1 qr) (c r) m
              (qi_gq _ _ _ _ _ I1) Hr1 (qi_ring _ _ _ _ _ I1 r _ Hr1)) as (st2 & q2 & E2 & C2 & _ & Hh & _);
    [lia | done |].
  unfold misaka_packet_net_route in He. rewrite E1, bind_Ok, E2, bind_Ok in He. injection He as <-.
  cbn [sc_st]. rewrite C2, C1. destruct (decide (p = r)) as [-> |]; [| eauto].
  exists q2. split; [done |]. rewrite Hh. rewrite Hqr in Hp. by injection Hp as <-.
Qed.

(** One request through the queues: the task is pushed, a thread takes the job,
    acquires the queue, pops the request, pushes the answer, finds the queue
    empty and ends; the main loop pops the answer.  The scheduler is at rest
    again. *)
Lemma request_turn qs s t p r q m :
  resting task qs s → task p = true → p ∈ qs → task r = false → r ∈ qs → core (sc_st s) p = Some q →
  Z.of_nat (length (sc_in s)) + 5 < 2 ^ 29 →
  ∃ s1 s2 s3 s4 s5 s6 s7 s8 q3 q8, misaka_packet_task_route malloc_ok s p m = Ok s1 ∧
    (worker_step (start_worker s1 t) t = Ok s2 ∧ sc_out s2 = sc_out s1) ∧
    (worker_step s2 t = Ok s3 ∧ sc_out s3 = sc_out s2 ++ [(p, m)] ∧
     core (sc_st s3) p = Some q3 ∧ mq_handle q3 = mq_handle q) ∧
    misaka_packet_net_route malloc_ok s3 r m = Ok s4 ∧
    (worker_step s4 t = Ok s5 ∧ sc_out s5 = sc_out s4) ∧ (worker_step s5 t = Ok s6 ∧ sc_out s6 = sc_out s5) ∧
    loop_pop s6 r = Ok (Some m, s7) ∧ loop_pop s7 r = Ok (None, s8) ∧
    resting task qs s8 ∧ length (sc_in s8) = (length (sc_in s) + 2)%nat ∧
    core (sc_st s8) p = Some q8 ∧ mq_handle q8 = mq_handle q.
Proof.
  intros Hrest Ht Hp Htr Hr Hq Hlen. pose proof (si_hist _ _ _ _ _ _ (proj1 Hrest)) as Hh0.
  destruct (task_turn malloc_ok memory task qs s t p q m Hrest Ht Hp Hq ltac:(lia))
    as (s1 & s2 & s3 & q3 & E1 & E2 & Ho2 & E3 & Ho3 & Ho3' & Hi3 & Hc3 & Hh3 & Hth3 & H & c & Hs3).
  assert (∀ x, c x = []) as Hempty.
  { intros x. apply (contents_hist _ _ _ _ _ _ _ _ Hs3). rewrite Hi3, Ho3', !on_snoc, (Hh0 x), !app_nil_r. done. }
  destruct (net_route_inv malloc_ok memory task qs s3 [] H c r m Hs3 Htr Hr) as (s4 & E4 & Hs4 & Hi4 & Ho4 & Hth4).
  { rewrite Hi3, length_app. cbn [length]. lia. }
  pose proof (net_route_keeps _ _ _ _ _ _ _ _ Hs3 Htr Hr ltac:(rewrite Hi3, length_app; cbn [length]; lia) E4) as K4.
  assert (p ≠ r) as Hpr by congruence.
  destruct (worker_pop_last qs s4 [] H _ t (MISAKA_TASK_SANDS - 1) p Hs4)
    as (s5 & E5 & Hi5 & Ho5 & Hth5 & Hs5 & K5); [congruence | done | by rewrite upd_ne |].
  destruct (worker_leaves qs s5 _ t _ Hs5 Hth5) as (s6 & E6 & Hi6 & Ho6 & Hth6 & Hs6 & K6).
  destruct (net_pops qs s6 _ r m Hs6 Htr Hr) as (s7 & s8 & E7 & E8 & Hi8 & Hth8 & Hs8 & K8);
    [by rewrite upd_eq, Hempty | done |].
  destruct (K4 p q3 Hc3) as (q4 & Hc4 & Hh4). destruct (K5 p q4 Hc4) as (q5 & Hc5 & Hh5).
  rewrite <- K6 in Hc5. destruct (K8 p q5 Hc5) as (q8 & Hc8 & Hh8).
  exists s1, s2, s3, s4, s5, s6, s7, s8, q3, q8. split_and!; try done; try congruence.
  - split; [| done]. destruct Hs8 as [Q1 Q2 Q3 Q4].
    assert (∀ x, upd (upd c r (c r ++ [m])) r [] x = []) as Hext.
    { intros x. unfold upd. case_decide; [done | apply Hempty]. }
    constructor; [by eapply queues_inv_ext | done | | done]. intros x. by rewrite Q3, Hext.
  - rewrite Hi8, Hi6, Hi5, Hi4, Hi3, !length_app. cbn [length]. lia.
Qed.
End queues.

(** ** The source of a packet that is being read

    read_io_action stores the id of the peer as the source in the input buffer after
    every read, also between the header and the end of the body.  The reader does
    not look at it. *)

Section source.
Context {K : Kernel} {L : Libev} {disparser_fn : Type}.
Implicit Types (s n : stream) (p : peer disparser_fn) (f : descr) (u v : Z).

Lemma set_src_eta s : set_src (s_src s) s = s.
Proof. by destruct s. Qed.
Lemma set_src_twice u v s : set_src u (set_src v s) = set_src u s.
Proof. done. Qed.

Lemma next_byte_src u s :
  next_byte (set_src u s) = ('(b, s) ← next_byte s; Ok (b, set_src u s)).
Proof. unfold next_byte. cbn [s_data s_getp set_src]. by destruct (rd (s_data s) (s_getp s)). Qed.

Lemma stream_getl_src u s :
  stream_getl (set_src u s) = ('(l, s) ← stream_getl s; Ok (l, set_src u s)).
Proof.
  unfold stream_getl. change (STREAM_READABLE (set_src u s)) with (STREAM_READABLE s).
  destruct (STREAM_READABLE s <? 4); [done |].
  do 4 (rewrite next_byte_src; destruct (next_byte _) as [[? s1] |]; [rewrite !bind_Ok; clear s; rename s1 into s | done]).
  done.
Qed.

Lemma getl_int_src u s set :
  (∀ v z s', set z (set_src v s') = set_src v (set z s')) →
  getl_int set (set_src u s) = (s ← getl_int set s; Ok (set_src u s)).
Proof.
  intros Hset. unfold getl_int. rewrite stream_getl_src.
  destruct (stream_getl s) as [[l s'] |]; [| done]. rewrite !bind_Ok. by rewrite Hset.
Qed.

(** The source is overwritten by the header, or stays what it was. *)
Lemma getl_src_src u s : getl_int set_src (set_src u s) = getl_int set_src s.
Proof. unfold getl_int. rewrite stream_getl_src. by destruct (stream_getl s) as [[l s'] |]. Qed.

Lemma check_packet_src u r s p r' s' p' :
  check_packet r s p = Ok (r', s', p') →
  ∃ u', check_packet r (set_src u s) p = Ok (r', set_src u' s', p').
Proof.
  unfold check_packet. intros H. destruct r; try (injection H as <- <- <-; by exists u).
  destruct (p_unpack p) as [[|] |]; cbn [call_unpack] in *; try (injection H as <- <- <-; by exists u).
  unfold normal_parser_unpack in *. destruct (p_body_size p =? 0); [| injection H as <- <- <-; by exists u].
  change (stream_get_endp (set_src u s)) with (stream_get_endp s).
  change (stream_get_getp (set_src u s)) with (stream_get_getp s).
  cbv zeta in *. destruct (_ <? MAGIC_HEADER_SIZE); [injection H as <- <- <-; by exists u |].
  cbn [s_data s_getp set_src]. destruct (rd_block _ _ _) as [magic |]; [| done]. rewrite bind_Ok in *.
  destruct (decide _); [injection H as <- <- <-; by exists u |].
  change (set_getp ?g (set_src u s)) with (set_src u (set_getp g s)).
  rewrite getl_int_src by done. apply bind_Ok_inv in H as (s1 & -> & H). rewrite bind_Ok, bind_Ok.
  rewrite getl_src_src, H. exists (s_src s'). by rewrite set_src_eta.
Qed.

Lemma stream_read_try_src u s f (n : Z) :
  stream_read_try (set_src u s) f n = ('(r, s, f) ← stream_read_try s f n; Ok (r, set_src u s, f)).
Proof.
  unfold stream_read_try. change (STREAM_WRITEABLE (set_src u s)) with (STREAM_WRITEABLE s).
  destruct (STREAM_WRITEABLE s <? n); [done |]. destruct (sys_read f n) as [[bs | en] f1].
  - cbn [read_at_endp s_data s_endp set_src]. by destruct (wr_block _ _ _).
  - cbn [read_at_endp try_result]. rewrite !bind_Ok. cbn [try_result]. by destruct (ERRNO_IO_RETRY en).
Qed.

Lemma tcp_read_src u s p f r s' p' f' :
  tcp_read s p f = Ok (r, s', p', f') → tcp_read (set_src u s) p f = Ok (r, set_src u s', p', f').
Proof.
  unfold tcp_read. rewrite stream_read_try_src. intros H.
  apply bind_Ok_inv in H as ([[nb s1] f1] & -> & H). rewrite !bind_Ok. cbv zeta in *.
  destruct (_ =? -2); [by injection H as <- <- <- <- |]. destruct (_ =? -1); [by injection H as <- <- <- <- |].
  destruct (_ =? 0); by injection H as <- <- <- <-.
Qed.

Lemma read_event_src u s p f r s' p' f' :
  read_event s p f = Ok (r, s', p', f') →
  ∃ u', read_event (set_src u s) p f = Ok (r, set_src u' s', p', f').
Proof.
  unfold read_event. intros H. apply bind_Ok_inv in H as ([[[r1 s1] p1] f1] & Ht & H).
  apply bind_Ok_inv in H as ([[r2 s2] p2] & Hc & H). injection H as -> -> -> ->.
  rewrite (tcp_read_src u _ _ _ _ _ _ _ Ht), bind_Ok.
  destruct (check_packet_src u _ _ _ _ _ _ Hc) as [u' ->]. rewrite bind_Ok. by exists u'.
Qed.

(** The reader at [bs] of the frame [fr], but for the source. *)
Definition reading_on (size : Z) s p fr bs : Prop := ∃ v, reading size (set_src v s) p fr bs.

Lemma reading_on_src size s p fr bs u : reading_on size s p fr bs → reading_on size (set_src u s) p fr bs.
Proof. intros [v Hv]. exists v. by rewrite set_src_twice. Qed.

(** One read in the middle of a frame, as read_event_step. *)
Lemma read_step_on size s p fr bs f d rest f' :
  size < 2 ^ 31 → frame_ok size fr → reading_on size s p fr bs → encode fr = bs ++ d ++ rest →
  d ≠ [] → sys_read f (p_packet_size p) = (Got d, f') →
  ∃ s' p', reading_on size s' p' fr (bs ++ d) ∧
    ((rest ≠ [] ∧ read_event s p f = Ok (IO_PARTIAL, s', p', f')) ∨
     (rest = [] ∧ read_event s p f = Ok (IO_PACKET, s', p', f') ∧
      unread s' = fr_body fr ∧ s_nid s' = hd_nid (fr_head fr))).
Proof.
  intros Hsz Hok [v Hr] He Hd Hsys.
  destruct (read_event_step size (set_src v s) p fr bs f d rest f' Hsz Hok Hr He Hd Hsys) as (s1 & p1 & Hr1 & Hcase).
  assert (∀ r, read_event (set_src v s) p f = Ok (r, s1, p1, f') →
            ∃ u, read_event s p f = Ok (r, set_src u s1, p1, f')) as Hcomm.
  { intros r Hev. destruct (read_event_src (s_src s) _ _ _ _ _ _ _ Hev) as [u Hu].
    rewrite set_src_twice, set_src_eta in Hu. eauto. }
  destruct Hcase as [[Hne Hev] | (-> & Hev & Hpk)]; destruct (Hcomm _ Hev) as [u Hu];
    exists (set_src u s1), p1; (split; [exists (s_src s1); by rewrite set_src_twice, set_src_eta |]).
  - by left.
  - right. split; [done |]. split; [done |].
    change (unread (set_src u s1)) with (unread s1). change (s_nid (set_src u s1)) with (s_nid s1).
    rewrite <- Hpk. done.
Qed.
End source.

(** ** Connections

    [C i o f]: the descriptor [f] still delivers [i], in pieces of any size, and has
    taken [o]; it takes every packet whole. *)
Class Duplex `{Kernel} (C : list Z → list Z → descr → Prop) : Prop := {
  duplex_read i o f n : C i o f → i ≠ [] → 0 < n →
    ∃ d i' f', sys_read f n = (Got d, f') ∧ d ≠ [] ∧ i = d ++ i' ∧ C i' o f';
  duplex_write i o f bs : C i o f → Forall is_u8 bs →
    ∃ f', sys_write f bs = (Wrote (Z.of_nat (length bs)), f') ∧ C i (o ++ bs) f'
}.

Section session.
Context {K : Kernel} {L : Libev} {disparser_fn : Type}.
Context {AS : StreamAllocator} {AN : Allocator (listnode loc)} {AI : Allocator (option Z)}.
Context {AB : Allocator (hash_backet peer_ref)} {AP : Allocator (peer disparser_fn)}.
Context (malloc_ok : Z → bool) (memory : ∀ n, malloc_ok n = true) (task : loc → bool).
Context (call_disparser : disparser_fn → peer disparser_fn → peer disparser_fn).
Context (run_script : script_fn) (run_python : python_fn).
Context (C : list Z → list Z → descr → Prop) `{!Duplex C}.
Implicit Types (w : world disparser_fn) (l x c : loc) (p : peer disparser_fn) (n : stream) (f : descr).
Implicit Types (m : gmap Z peer_ref) (sv : server_state disparser_fn).

Local Abbreviation run := (server_run malloc_ok call_disparser run_script run_python).

(** The world after reads of the peer [l]. *)
Definition read_world w l p x n f : world disparser_fn :=
  set_w_fds (<[p_fd p := f]> (w_fds w)) (set_w_peers (<[l := p]> (w_peers w))
    (set_w_streams (<[x := n]> (w_streams w)) w)).

Lemma read_world_id w l p x n f :
  w_peers w !! l = Some p → w_streams w !! x = Some n → w_fds w !! p_fd p = Some f → read_world w l p x n f = w.
Proof. intros Hl Hn Hf. unfold read_world. rewrite !insert_id by done. by destruct w. Qed.

Lemma read_world_twice w l p x n f p' n' f' :
  p_fd p' = p_fd p → read_world (read_world w l p x n f) l p' x n' f' = read_world w l p' x n' f'.
Proof.
  intros Hfd. unfold read_world. cbn [w_fds w_peers w_streams set_w_fds set_w_peers set_w_streams].
  by rewrite Hfd, !insert_insert_eq.
Qed.

(** A peer that reads a connection *)
Definition attends w l p x : Prop :=
  w_peers w !! l = Some p ∧ p_ibuf p = Some x ∧
  p_read p = Some tcp_read_p ∧ p_status p = TAT_ESTA ∧ 0 ≤ p_fd p ∧ p_sys p = 0.

Lemma partial_read w ac l p x n f n' p' f' :
  attends w l p x → w_streams w !! x = Some n → w_fds w !! p_fd p = Some f →
  - 2 ^ 31 ≤ p_rcount p → p_rcount p + 1 < 2 ^ 31 →
  read_event n (set_p_rcount (p_rcount p + 1) (set_p_uptime (w_now w) p)) f = Ok (IO_PARTIAL, n', p', f') →
  misaka_read malloc_ok call_disparser ac l w = Ok (tt, read_world w l p' x (set_src (p_drole p) n') f') ∧
  same_conn p p' ∧ p_rcount p' = p_rcount p + 1.
Proof.
  intros (Hl & Hx & Hrd & Hst & Hfd & Hsys) Hn Hf Hge Hlt Hev.
  destruct (read_event_conn _ _ _ _ _ _ _ Hev) as (_ & _ & _ & _ & _ & Hsame).
  pose proof (read_event_rcount _ _ _ _ _ _ _ Hev) as Hrc.
  assert (same_conn p p') as Hconn by exact Hsame. destruct Hsame as (Ci & _ & _ & _ & Cd & Cf & _).
  split; [| done].
  assert (wp (misaka_read malloc_ok call_disparser ac l)
    (λ _ w', w' = read_world w l p' x (set_src (p_drole p) n') f') w) as ([] & w' & Hrun & ->); [| exact Hrun].
  eapply wp_misaka_read; try done. unfold read_io_action.
  apply wp_bind. eapply wp_peer_at; [apply lookup_insert_eq |]. rewrite Ci. cbn [p_ibuf set_p_rcount set_p_uptime].
  rewrite Hx, Cd. apply wp_bind. eapply wp_set_stream; [apply lookup_insert_eq |]. apply wp_bind, wp_ret, wp_ret.
  unfold read_world. cbn [w_fds w_peers w_streams set_w_fds set_w_peers set_w_streams p_drole p_fd set_p_rcount set_p_uptime].
  by rewrite insert_insert_eq, Cf.
Qed.

Lemma reading_on_count size n p fr bs a b :
  reading_on size n p fr bs → reading_on size n (set_p_rcount a (set_p_uptime b p)) fr bs.
Proof. intros [v [H1 H2 H3 H4 H5 H6]]. exists v. by constructor. Qed.

(** One read in the middle of a frame: it is not enough, or it completes the
    packet. *)
Lemma read_once size fr i o ac w l p x n f bs rest :
  size < 2 ^ 31 → frame_ok size fr → hd_nid (fr_head fr) = w_role w →
  Z.of_nat (length (fr_body fr)) ≤ MISAKA_MAX_PACKET_SIZE →
  attends w l p x → w_streams w !! x = Some n → w_fds w !! p_fd p = Some f →
  reading_on size n p fr bs → encode fr = bs ++ rest → rest ≠ [] → C (rest ++ i) o f →
  - 2 ^ 31 ≤ p_rcount p → p_rcount p + 1 < 2 ^ 31 →
  ∃ d rest' n' p' f', rest = d ++ rest' ∧ d ≠ [] ∧ same_conn p p' ∧ p_rcount p' = p_rcount p + 1 ∧
    C (rest' ++ i) o f' ∧
    ((rest' ≠ [] ∧ misaka_read malloc_ok call_disparser ac l w = Ok (tt, read_world w l p' x n' f') ∧
      reading_on size n' p' fr (bs ++ d)) ∨
     (rest' = [] ∧ completes_packet w l p x n' p' f' ∧ unread n' = fr_body fr ∧
      p_unpack p' = Some normal_parser_unpack_p ∧ s_size n' = size)).
Proof.
  intros Hsz Hok Hnid Hmax Hat Hn Hf Hr He Hrest HC Hge Hlt.
  pose proof Hat as (Hl & Hx & Hrd & Hst & Hfd & Hsys). pose proof Hr as [v Hv].
  pose proof (f_equal length He) as Hlen. rewrite length_app in Hlen.
  assert (0 < length rest)%nat as Hpos by (destruct rest; [done | cbn; lia]).
  destruct (reading_wants size (set_src v n) p fr bs Hok Hv) as [Hps Hw];
    [by eexists | intros Heq; rewrite <- Heq in Hlen; lia |].
  destruct (duplex_read (rest ++ i) o f (p_packet_size p) HC) as (d & i' & f' & Hread & Hd & Hi & HC');
    [by destruct rest | done |].
  destruct (sys_read_bound _ _ _ _ (ltac:(lia) : 0 ≤ p_packet_size p) Hread) as [Hdl _].
  assert (∃ rest', rest = d ++ rest' ∧ i' = rest' ++ i) as (rest' & -> & ->).
  { apply app_eq_inv in Hi as [(e & ? & ?) | (e & Hde & ?)]; [by exists e |].
    assert (e = []) as ->. { apply nil_length_inv. rewrite Hde, length_app in Hdl. lia. }
    rewrite app_nil_r in Hde. subst. exists []. by rewrite app_nil_r. }
  destruct (read_step_on size n _ fr bs f d rest' f' Hsz Hok
              (reading_on_count _ _ _ _ _ (p_rcount p + 1) (w_now w) Hr) He Hd Hread)
    as (n' & p' & Hr' & [[Hne Hev] | (-> & Hev & Hun & Hid)]).
  - destruct (partial_read w ac l p x n f n' p' f' Hat Hn Hf Hge Hlt Hev) as (Hrun & Hsame & Hrc).
    exists d, rest', (set_src (p_drole p) n'), p', f'. split_and!; try done. by left.
  - destruct Hr' as [v' [Hs' Hz' Hc' Hu' Hp' _]].
    destruct (read_event_conn _ _ _ _ _ _ _ Hev) as (_ & _ & _ & _ & _ & Hsame).
    pose proof (read_event_rcount _ _ _ _ _ _ _ Hev) as Hrc. cbn [p_rcount set_p_rcount] in Hrc.
    assert (sane n') as Hsn by exact Hs'. destruct Hv as [_ _ _ _ Hpar _].
    exists d, [], n', p', f'. split_and!; try done. right. split_and!; try done.
    constructor; [done | done | lia | done | by exists f, n |].
    split; [done |]. rewrite <- (length_unread n' Hsn), Hun. split; [done |]. split; [congruence |].
    by destruct Hok as (_ & _ & ? & _).
Qed.

(** What is left of a frame on the connection is read: after some reads that are
    not enough comes the one that completes the packet. *)
Lemma reads_frame size fr i o ac T k : ∀ w l p x n f bs rest,
  size < 2 ^ 31 → frame_ok size fr → hd_nid (fr_head fr) = w_role w →
  Z.of_nat (length (fr_body fr)) ≤ MISAKA_MAX_PACKET_SIZE →
  attends w l p x → w_streams w !! x = Some n → w_fds w !! p_fd p = Some f →
  reading_on size n p fr bs → encode fr = bs ++ rest → rest ≠ [] → length rest = k → C (rest ++ i) o f →
  - 2 ^ 31 ≤ p_rcount p → p_rcount p + Z.of_nat k < 2 ^ 31 →
  ∃ j p1 n1 f1 n' p' f', let w1 := read_world w l p1 x n1 f1 in
    run (mkServer w T) (replicate j (SvRead ac l)) = Ok (mkServer w1 T) ∧
    completes_packet w1 l p1 x n' p' f' ∧ same_conn p p1 ∧ C i o f' ∧ unread n' = fr_body fr ∧
    p_unpack p' = Some normal_parser_unpack_p ∧ s_size n' = size ∧
    - 2 ^ 31 ≤ p_rcount p' ≤ p_rcount p + Z.of_nat k.
Proof.
  induction k as [k IH] using lt_wf_ind.
  intros w l p x n f bs rest Hsz Hok Hnid Hmax Hat Hn Hf Hr He Hrest Hk HC Hge Hlt.
  assert (0 < length rest)%nat as Hpos by (destruct rest; [done | cbn; lia]).
  destruct (read_once size fr i o ac w l p x n f bs rest)
    as (d & rest' & n' & p' & f' & -> & Hd & Hsame & Hrc & HC' & Hcase); try done; [lia |].
  pose proof Hat as (Hl & Hx & Hrd & Hst & Hfd & Hsys).
  assert (0 < length d)%nat as Hd0 by (destruct d; [done | cbn; lia]). rewrite length_app in Hk.
  destruct Hcase as [(Hne & Hrun & Hr') | (-> & Hcp & Hun & Hup & Hsz')].
  - pose proof Hsame as (Ci & Cst & Csys & _ & _ & Cf & _ & _ & _ & _ & _ & Crd).
    set (w1 := read_world w l p' x n' f') in *.
    destruct (IH (length rest') ltac:(lia) w1 l p' x n' f' (bs ++ d) rest')
      as (j & p1 & n1 & f1 & n2 & p2 & f2 & Hj & Hcp & Hs1 & HC2 & Hun & Hup & Hsz2 & Hrc2); try done.
    { split_and!; try congruence. apply lookup_insert_eq. }
    all: try apply lookup_insert_eq; try (by rewrite <- app_assoc); try lia.
    assert (read_world w1 l p1 x n1 f1 = read_world w l p1 x n1 f1) as Hw1.
    { apply read_world_twice. by destruct Hs1 as (_ & _ & _ & _ & _ & -> & _). }
    rewrite Hw1 in Hj, Hcp. exists (S j), p1, n1, f1, n2, p2, f2. split; [| split_and!; try done].
    + cbn [replicate server_run server_step]. by rewrite (on_world_Ok _ (mkServer w T) w1), bind_Ok.
    + by eapply same_conn_trans.
    + lia.
    + lia.
  - exists 0%nat, p, n, f, n', p', f'. cbv zeta. rewrite read_world_id by done.
    split; [done |]. split_and!; try done; lia.
Qed.

(** ** A server in service

    The connection [l] has the descriptor [fdo l] and the input buffer [ibo l]; the
    answers go to the peer [l2] that is registered under [id], the node id which the
    copies of the packets find in their memory. *)
Context (size : Z) (fdo : loc → Z) (ibo : loc → loc) `{!Inj (=) (=) fdo} `{!Inj (=) (=) ibo}.
Context (qs : gset loc) (q1 q3 : loc) (m : gmap Z peer_ref) (id : Z) (l2 : loc).

(** A reader that still has to get the bytes [i] of the requests [frs]: of the first
    of them it may have got a part. *)
Definition reader_at n p (frs : list frame) (i : list Z) : Prop :=
  match frs with
  | [] => idle size n p ∧ i = []
  | fr :: frs => ∃ bs rest, reading_on size n p fr bs ∧ encode fr = bs ++ rest ∧ rest ≠ [] ∧ i = rest ++ (frs ≫= encode)
  end.

(** A connection that will still deliver the requests [frs] and took [out]. *)
Definition conn_at w l (frs : list frame) (out : list Z) : Prop :=
  ∃ p n f i, attends w l p (ibo l) ∧ p_fd p = fdo l ∧ w_streams w !! ibo l = Some n ∧
    w_fds w !! fdo l = Some f ∧ reader_at n p frs i ∧ C i out f ∧
    - 2 ^ 31 ≤ p_rcount p ∧ p_rcount p + Z.of_nat (length i) < 2 ^ 31.

(** A request for this node. *)
Definition request_ok (role : Z) (fr : frame) : Prop :=
  frame_ok size fr ∧ hd_nid (fr_head fr) = role ∧ Z.of_nat (length (fr_body fr)) ≤ MISAKA_MAX_PACKET_SIZE.

(** What the reader uses of a peer. *)
Definition same_reader p p' : Prop :=
  same_conn p (set_p_obuf (p_obuf p) (set_p_t_write (p_t_write p) (set_p_scount (p_scount p) p'))) ∧
  p_unpack p' = p_unpack p ∧ p_body_size p' = p_body_size p ∧ p_packet_size p' = p_packet_size p ∧
  p_rcount p' = p_rcount p.

Lemma same_reader_conn p p' k : conn p' = conn (set_p_scount k p) → same_reader p p'.
Proof. intros H. destruct p, p'. unfold conn in H. cbn in H. injection H. intros. subst. by repeat split. Qed.

Lemma reading_keep n p fr bs v nx p' :
  reading size (set_src v n) p fr bs → same_reader p p' → reading size (set_src v (set_next nx n)) p' fr bs.
Proof.
  intros [? ? ? ? ? Hph] ((_ & _ & _ & Hpar & _) & Hu & Hb & Hk & _).
  cbn [p_parser set_p_obuf set_p_t_write set_p_scount] in Hpar.
  constructor; try done; try congruence. revert Hph. by rewrite Hb, Hk.
Qed.

Lemma reader_keep n p frs i nx p' : reader_at n p frs i → same_reader p p' → reader_at (set_next nx n) p' frs i.
Proof.
  intros Hr Hp. destruct frs as [| fr frs].
  - destruct Hr as [Hi ->]. split; [| done]. intros fr. specialize (Hi fr). rewrite <- (set_src_eta n) in Hi.
    apply (reading_keep _ _ _ _ _ nx p') in Hi; [| done]. by rewrite <- (set_src_eta (set_next nx n)).
  - destruct Hr as (bs & rest & [v Hv] & ? & ? & ?). exists bs, rest. split_and!; try done. exists v. by eapply reading_keep.
Qed.

(** A reader between two packets *)
Lemma idle_reader n p frs : idle size n p → reader_at n p frs (frs ≫= encode).
Proof.
  intros Hi. destruct frs as [| fr frs]; [done |]. exists [], (encode fr). split_and!; try done.
  exists (s_src n). rewrite set_src_eta. apply Hi.
Qed.

(** The reader after a packet *)
Lemma reset_idle n p k u :
  sane n → s_size n = size → p_unpack p = Some normal_parser_unpack_p → p_parser p = Some normal_parser_init_p →
  idle size (stream_reset (stamped k u n)) (normal_parser_init p).
Proof.
  intros (? & ? & ? & ? & ?) Hz Hu Hp fr. constructor; try done.
  repeat split; cbn [s_getp s_endp s_size s_data stream_reset set_endp set_getp stamped set_type set_dst set_flag set_src]; auto; lia.
Qed.

(** A connection through a step that is about something else, or writes to it. *)
Lemma conn_at_upd w w' l frs out out' :
  conn_at w l frs out →
  (∀ p, w_peers w !! l = Some p → ∃ p', w_peers w' !! l = Some p' ∧ same_reader p p') →
  (∀ n, w_streams w !! ibo l = Some n → ∃ nx, w_streams w' !! ibo l = Some (set_next nx n)) →
  (∀ f i, w_fds w !! fdo l = Some f → C i out f → ∃ f', w_fds w' !! fdo l = Some f' ∧ C i out' f') →
  conn_at w' l frs out'.
Proof.
  intros (p & n & f & i & (Hl & Hx & Hrd & Hst & Hfd & Hsys) & Hfo & Hn & Hf & Hi & HC & Hge & Hlt) Hp Hs Hd.
  destruct (Hp p Hl) as (p' & Hl' & Hsame). destruct (Hs n Hn) as (nx & Hn'). destruct (Hd f i Hf HC) as (f' & Hf' & HC').
  pose proof (reader_keep _ _ _ _ nx _ Hi Hsame) as Hi'. destruct Hsame as (Hc & _ & _ & _ & Hr).
  destruct Hc as (Ci & Cst & Csys & _ & _ & Cf & _ & _ & _ & _ & _ & Crd).
  cbn [p_ibuf p_status p_sys p_fd p_read set_p_obuf set_p_t_write set_p_scount] in *.
  exists p', (set_next nx n), f', i. split_and!; try done; try congruence; try lia.
  by split_and!; congruence.
Qed.

Lemma same_reader_refl p : same_reader p p.
Proof. by repeat split. Qed.

Lemma set_next_eta n : set_next (s_next n) n = n.
Proof. by destruct n. Qed.

Lemma conn_at_keep w w' l frs out :
  conn_at w l frs out → w_peers w' !! l = w_peers w !! l → w_fds w' !! fdo l = w_fds w !! fdo l →
  (∀ n, w_streams w !! ibo l = Some n → ∃ nx, w_streams w' !! ibo l = Some (set_next nx n)) →
  conn_at w' l frs out.
Proof.
  intros Hc Hp Hf Hs. eapply conn_at_upd; [done | | done |].
  - intros p. rewrite Hp. eauto using same_reader_refl.
  - intros f. rewrite Hf. eauto.
Qed.

Context (stale : ∀ h, ∃ c o d, salloc h = (Some (c, o), Some d) ∧ s_nid o = id) (small : size < 2 ^ 31).

(** The packet that the echo task gets for the request [fr] *)
Definition copy_of (fr : frame) (to : stream) : Prop :=
  sane to ∧ unread to = fr_body fr ∧ s_next to = None ∧ s_type to = EVENT_ECHO ∧ s_nid to = id ∧
  s_size to = MISAKA_MAX_PACKET_SIZE.

(** The read that completes a packet hands a copy to the queue of the task, and the
    reader is between two packets again. *)
Lemma packet_read w ac l p n' p' f' fr frs out :
  completes_packet w l p (ibo l) n' p' f' → p_fd p = fdo l → C (frs ≫= encode) out f' → unread n' = fr_body fr →
  p_unpack p' = Some normal_parser_unpack_p → s_size n' = size → - 2 ^ 31 ≤ p_rcount p' →
  p_rcount p' + Z.of_nat (length (frs ≫= encode)) < 2 ^ 31 → w_queues w !! 1%nat = Some q1 →
  (∀ c, ∃ s, misaka_packet_task_route malloc_ok (w_sched w) q1 c = Ok s) →
  ∃ c s to h p2, let w2 := set_w_fds (<[fdo l := f']> (w_fds w)) (set_w_peers (<[l := p2]> (w_peers w))
                             (set_w_sched s (set_w_streams h w))) in
    same_conn p p2 ∧ misaka_packet_task_route malloc_ok (w_sched w) q1 c = Ok s ∧
    misaka_read malloc_ok call_disparser ac l w = Ok (tt, w2) ∧
    conn_at w2 l frs out ∧ h !! c = Some to ∧ copy_of fr to ∧
    (∀ y n, w_streams w !! y = Some n → y ≠ c) ∧ (∀ y, y ≠ c → y ≠ ibo l → h !! y = w_streams w !! y).
Proof.
  intros Hcp Hfo HC Hun Hup Hsz Hge Hlt Hq1 Hroute.
  destruct (stale (<[ibo l := stamped (p_drole p) (w_role w) n']> (w_streams w))) as (c & o & d & Ha & Ho).
  destruct (Hroute c) as (s & Es). pose proof (salloc_fresh _ _ _ _ Ha) as Hfresh.
  destruct (read_queues malloc_ok call_disparser w ac l p (ibo l) n' p' f' c o d q1 s Hcp Ha Hq1 Es)
    as (to & R & Hsame & Hto & Hu & Hnext & Hmeta & Hid & Htsz & Hcx).
  injection Hmeta as Hty _ _. rewrite Hfo in R.
  set (h := <[ibo l := stream_reset (stamped (p_drole p) (w_role w) n')]> (<[c := to]> (w_streams w))) in R.
  exists c, s, to, h, (normal_parser_init p'). cbv zeta. split; [exact Hsame |]. split; [done |]. split; [done |].
  split; [| split; [| split; [| split]]].
  - destruct Hcp as [Hl (Hrd & Hst & Hfd & Hsys & Hpar) _ Hx _ Hpk].
    destruct Hsame as (Ci & Cst & Csys & Cpar & _ & Cf & _ & _ & _ & _ & _ & Crd).
    eexists (normal_parser_init p'), _, f', (frs ≫= encode).
    assert (p_fd (normal_parser_init p') = p_fd p') as Hfdi by done.
    split; [split_and!; try apply lookup_insert_eq;
            unfold normal_parser_init; cbn [p_ibuf p_status p_sys p_fd p_read set_p_header_size set_p_body_size set_p_packet_size];
            first [congruence | lia] |].
    split; [congruence |]. split; [apply lookup_insert_eq |]. split; [apply lookup_insert_eq |].
    split; [| split; [done | split; [exact Hge | exact Hlt]]].
    apply idle_reader, reset_idle; [apply Hpk | done | done | congruence].
  - unfold h. rewrite lookup_insert_ne by done. apply lookup_insert_eq.
  - split_and!; try done; congruence.
  - intros y ny Hy ->. apply lookup_insert_None in Hfresh as [? _]. congruence.
  - intros y Hy Hyx. unfold h. by rewrite !lookup_insert_ne by done.
Qed.

(** A request is read: some reads that are not enough, then the one that hands a
    copy to the queue of the task. *)
Lemma request_read w T ac l fr frs out :
  conn_at w l (fr :: frs) out → Forall (request_ok (w_role w)) (fr :: frs) → w_queues w !! 1%nat = Some q1 →
  (∀ c, ∃ s, misaka_packet_task_route malloc_ok (w_sched w) q1 c = Ok s) →
  ∃ j c s to h p p' f', let w2 := set_w_fds (<[fdo l := f']> (w_fds w)) (set_w_peers (<[l := p']> (w_peers w))
                                    (set_w_sched s (set_w_streams h w))) in
    (w_peers w !! l = Some p ∧ same_conn p p') ∧ misaka_packet_task_route malloc_ok (w_sched w) q1 c = Ok s ∧
    run (mkServer w T) (replicate (S j) (SvRead ac l)) = Ok (mkServer w2 T) ∧
    conn_at w2 l frs out ∧ h !! c = Some to ∧ copy_of fr to ∧
    (∀ y n, w_streams w !! y = Some n → y ≠ c) ∧ (∀ y, y ≠ c → y ≠ ibo l → h !! y = w_streams w !! y).
Proof.
  intros (p & n & f & i & Hat & Hfo & Hn & Hf & (bs & rest & Hr & He & Hne & ->) & HC & Hge & Hlt) Hreqs Hq1 Hroute.
  apply Forall_cons_1 in Hreqs as [(Hok & Hnid & Hmax) Hreqs]. rewrite length_app in Hlt.
  destruct (reads_frame size fr (frs ≫= encode) out ac T (length rest) w l p (ibo l) n f bs rest)
    as (j & p1 & n1 & f1 & n' & p' & f' & Hj & Hcp & Hs1 & HC' & Hun & Hup & Hsz & Hrc); try done.
  { by rewrite Hfo. } { lia. }
  set (w1 := read_world w l p1 (ibo l) n1 f1) in *.
  assert (p_fd p1 = fdo l) as Hfd1 by (destruct Hs1 as (_ & _ & _ & _ & _ & -> & _); done).
  destruct (packet_read w1 ac l p1 n' p' f' fr frs out) as (c & s & to & h & p2 & Hs2 & Es & R & Hca & Hc & Hcopy & Hyc & Hkeep);
    try done; [lia | lia |].
  assert (set_w_fds (<[fdo l := f']> (w_fds w1)) (set_w_peers (<[l := p2]> (w_peers w1)) (set_w_sched s (set_w_streams h w1)))
    = set_w_fds (<[fdo l := f']> (w_fds w)) (set_w_peers (<[l := p2]> (w_peers w)) (set_w_sched s (set_w_streams h w)))) as Hw2.
  { cbn [w1 read_world w_streams w_peers w_fds set_w_fds set_w_peers set_w_streams]. by rewrite Hfd1, !insert_insert_eq. }
  rewrite Hw2 in R, Hca. exists j, c, s, to, h, p, p2, f'. cbv zeta.
  split; [split; [apply Hat | by eapply same_conn_trans] |]. split; [done |]. split.
  { rewrite replicate_S_end, server_run_app, Hj, bind_Ok. cbn [server_run server_step].
    by rewrite (on_world_Ok _ (mkServer w1 T) _ R), bind_Ok. }
  split; [done |]. split; [done |]. split; [done |].
  cbn [w1 read_world w_streams set_w_fds set_w_peers set_w_streams] in Hyc, Hkeep. split.
  - intros y ny Hy. destruct (decide (y = ibo l)) as [-> | Hyx]; [eapply Hyc; apply lookup_insert_eq |].
    eapply Hyc. by rewrite lookup_insert_ne.
  - intros y Hy Hyx. rewrite Hkeep by done. by rewrite lookup_insert_ne.
Qed.

(** What a write of the connection does to it, whatever it still delivers. *)
Lemma duplex_wrote i o f bs k f' : C i o f → Forall is_u8 bs → sys_write f bs = (Wrote k, f') → C i (o ++ bs) f'.
Proof. intros HC Hu Hw. destruct (duplex_write i o f bs HC Hu) as (g & Hg & HC'). rewrite Hw in Hg. by injection Hg as _ ->. Qed.

(** What the echo task makes of a packet *)
Definition reply_of (to : stream) : stream := set_type EVENT_NET (set_dst (s_src to) (set_src (s_dst to) to)).

(** A thread takes the job, acquires the queue, answers the request, finds the
    queue empty and goes back to the pool. *)
Lemma worker_serves w T t s2 s3 s4 s5 s6 mq c to :
  worker_step (start_worker (w_sched w) t) t = Ok s2 ∧ sc_out s2 = sc_out (w_sched w) →
  worker_step s2 t = Ok s3 ∧ sc_out s3 = sc_out s2 ++ [(q1, c)] ∧
    core (sc_st s3) q1 = Some mq ∧ mq_handle mq = EVENT_ECHO →
  misaka_packet_net_route malloc_ok s3 q3 c = Ok s4 → worker_step s4 t = Ok s5 ∧ sc_out s5 = sc_out s4 →
  worker_step s5 t = Ok s6 ∧ sc_out s6 = sc_out s5 →
  w_streams w !! c = Some to → s_type to = EVENT_ECHO → echo_loaded w → w_queues w !! 3%nat = Some q3 →
  run (mkServer w T) [SvJob t; SvWorker t; SvWorker t; SvWorker t; SvWorker t]
    = Ok (mkServer (set_w_sched s6 (set_w_streams (<[c := reply_of to]> (w_streams w)) w)) T).
Proof.
  intros [E2 O2] (E3 & O3 & Hq & Hh) E4 [E5 O5] [E6 O6] Hc Hty Hecho Hq3. cbn [server_run server_step].
  rewrite (on_world_Ok (worker_start t) (mkServer w T) (set_w_sched (start_worker (w_sched w) t) w)), bind_Ok by done.
  rewrite (on_world_Ok (worker_turn _ _ _ t) _ (set_w_sched s2 w)), bind_Ok
    by (cbn [sv_world]; rewrite (worker_turn_idle _ _ _ _ _ s2); cbn [w_sched set_w_sched]; rewrite ?start_worker_out; done).
  set (w4 := set_w_sched s4 (set_w_streams (<[c := reply_of to]> (w_streams w)) w)).
  rewrite (on_world_Ok (worker_turn _ _ _ t) _ w4), bind_Ok
    by (cbn [sv_world]; by apply (worker_turn_echo malloc_ok run_script run_python (set_w_sched s2 w) t s3 q1 q3 mq c to s4)).
  rewrite (on_world_Ok (worker_turn _ _ _ t) _ (set_w_sched s5 w4)), bind_Ok
    by (cbn [sv_world]; by rewrite (worker_turn_idle _ _ _ _ _ s5)).
  rewrite (on_world_Ok (worker_turn _ _ _ t) _ (set_w_sched s6 w4)), bind_Ok
    by (cbn [sv_world]; by rewrite (worker_turn_idle _ _ _ _ _ s6)).
  done.
Qed.

(** A server in service, with room for [N] more requests: [σ] has, for each
    connection, the requests it will still deliver and the bytes it took. *)
Record serves (N : nat) w (σ : gmap loc (list frame * list Z)) : Prop := {
  se_conns : map_Forall (λ l a, conn_at w l a.1 a.2 ∧ Forall (request_ok (w_role w)) a.1) σ;
  se_queues : ∃ mq, queues_ready task w qs q1 q3 mq;
  se_room : Z.of_nat (length (sc_in (w_sched w))) + 2 * Z.of_nat N + 5 < 2 ^ 29;
  se_echo : echo_loaded w;
  se_table : peer_table w m;
  se_answer : ∃ p q, can_answer w l2 p q ∧ p_scount p + Z.of_nat N + 1 < 2 ^ 31
}.

(** The service: the body of the next request of [l] goes out on [l2]. *)
Definition echo_spec (σ : gmap loc (list frame * list Z)) l : option (gmap loc (list frame * list Z)) :=
  match σ !! l with
  | Some (fr :: frs, out) =>
      let σ1 := <[l := (frs, out)]> σ in
      match σ1 !! l2 with
      | Some (frs2, out2) => Some (<[l2 := (frs2, out2 ++ fr_body fr)]> σ1)
      | None => None
      end
  | _ => None
  end.

Context (registered : m !! id = Some (PeerAt l2)).

(** The first half of a round: the request of [l] has been answered by the task, the
    answer [c] is in the queue of outgoing packets, and no thread is busy. *)
Lemma request_taken N w T σ l fr frs out ac t :
  serves (S N) w σ → σ !! l = Some (fr :: frs, out) →
  ∃ j c to s6 s7 s8 q8 h p p' fds,
    let w4 := set_w_fds fds (set_w_peers (<[l := p']> (w_peers w)) (set_w_sched s6 (set_w_streams h w))) in
    run (mkServer w T) (replicate (S j) (SvRead ac l) ++ [SvJob t; SvWorker t; SvWorker t; SvWorker t; SvWorker t])
      = Ok (mkServer w4 T) ∧
    (w_peers w !! l = Some p ∧ same_conn p p') ∧ h !! c = Some (reply_of to) ∧ copy_of fr to ∧
    map_Forall (λ l a, conn_at w4 l a.1 a.2 ∧ ibo l ≠ c) (<[l := (frs, out)]> σ) ∧
    loop_pop s6 q3 = Ok (Some c, s7) ∧ loop_pop s7 q3 = Ok (None, s8) ∧ resting task qs s8 ∧
    length (sc_in s8) = (length (sc_in (w_sched w)) + 2)%nat ∧
    core (sc_st s8) q1 = Some q8 ∧ mq_handle q8 = EVENT_ECHO.
Proof.
  intros [Hcs [mq [Hrest He Hn (Ht1 & Ht3 & Hin1 & Hin3) [Hcore Hh] _]] Hroom Hecho _ _] Hl.
  destruct (Hcs l _ Hl) as [Hcl Hreq]. cbn [fst snd] in Hcl, Hreq.
  pose proof (λ c, request_turn malloc_ok memory task qs (w_sched w) t q1 q3 mq c Hrest Ht1 Hin1 Ht3 Hin3 Hcore ltac:(lia)) as Hturn.
  destruct (request_read w T ac l fr frs out Hcl Hreq He) as
    (j & c & s1 & to & h & p & p' & f' & Hp & Es & R & Hcl2 & Hc & Hcopy & Hyc & Hkeep).
  { intros c. destruct (Hturn c) as (s1 & ? & ? & ? & ? & ? & ? & ? & ? & ? & E & _). eauto. }
  destruct (Hturn c) as (s1' & s2 & s3 & s4 & s5 & s6 & s7 & s8 & mq3 & q8 & E1 & E2 & (E3 & O3 & K3 & H3) & E4 & E5 & E6 & E7 & E8 & Hr8 & L8 & K8 & H8).
  rewrite Es in E1. injection E1 as <-. set (w2 := set_w_fds _ _) in R, Hcl2.
  exists j, c, to, s6, s7, s8, q8, (<[c := reply_of to]> h), p, p', (<[fdo l := f']> (w_fds w)).
  split; [| split; [done |]; split; [apply lookup_insert_eq |]; split; [done |]; split; [| split_and!; try done; congruence]].
  - rewrite server_run_app, R, bind_Ok.
    by rewrite (worker_serves w2 T t s2 s3 s4 s5 s6 mq3 c to); try done; [.. | apply Hcopy]; repeat split; try done; congruence.
  - assert (∀ l a, σ !! l = Some a → ibo l ≠ c) as Hib.
    { intros l' a Ha. destruct (Hcs l' a Ha) as [(? & n & ? & ? & _ & _ & Hn' & _) _]. by eapply Hyc. }
    intros l' a Ha. destruct (decide (l' = l)) as [-> | Hne].
    + rewrite lookup_insert_eq in Ha. injection Ha as <-. split; [| by eapply Hib].
      eapply conn_at_keep; [exact Hcl2 | done | done |]. intros n Hn'. exists (s_next n). rewrite set_next_eta.
      cbn [w_streams set_w_fds set_w_peers set_w_sched set_w_streams].
      rewrite lookup_insert_ne; [exact Hn' |]. intros Heq. by eapply (Hib l).
    + rewrite lookup_insert_ne in Ha by done. pose proof (Hib l' a Ha) as Hib'. split; [| done].
      assert (ibo l' ≠ ibo l) by (intros ?%(inj ibo); done). assert (fdo l ≠ fdo l') by (intros ?%(inj fdo); done).
      eapply conn_at_keep; [by apply Hcs | by apply lookup_insert_ne | by apply lookup_insert_ne |].
      intros n Hn'. exists (s_next n). rewrite set_next_eta.
      cbn [w_streams set_w_fds set_w_peers set_w_sched set_w_streams]. rewrite lookup_insert_ne by done.
      by rewrite Hkeep.
Qed.

(** The peer that answers, when another peer or itself has read. *)
Lemma can_answer_read w w4 l p p' q2 p2 :
  can_answer w l2 p2 q2 → w_peers w !! l = Some p → same_conn p p' → w_peers w4 = <[l := p']> (w_peers w) →
  ∃ p3, can_answer w4 l2 p3 q2 ∧ p_scount p3 = p_scount p2.
Proof.
  intros [Hl2 (Hst & Hwr & Hpk) [Hob Hr] Hev Hsc] Hl Hsame Hps.
  assert (∃ p3, w_peers w4 !! l2 = Some p3 ∧ same_conn p2 p3) as (p3 & Hp3 & Hs3).
  { rewrite Hps. destruct (decide (l2 = l)) as [-> | Hne].
    - rewrite Hl in Hl2. injection Hl2 as <-. exists p'. by rewrite lookup_insert_eq.
    - exists p2. by rewrite lookup_insert_ne. }
  destruct Hs3 as (_ & C1 & _ & _ & _ & _ & C2 & C3 & C4 & C5 & C6 & _). exists p3. split; [| done].
  constructor; [done | split_and!; congruence | split; [congruence | exact Hr] | by rewrite C4 | lia].
Qed.

(** The same peer, when it has sent an answer. *)
Lemma can_answer_sent w w' p q p' q' :
  can_answer w l2 p q → w_peers w' !! l2 = Some p' → conn p' = conn (set_p_scount (p_scount p + 1) p) →
  p_obuf p' = Some q' → fifo_rep (w_streams w') q' [] → is_Some (p_t_write p') → p_scount p + 2 < 2 ^ 31 →
  can_answer w' l2 p' q' ∧ p_scount p' = p_scount p + 1.
Proof.
  intros [Hp (Hst & Hwr & Hpk) _ _ [Hge Hlt]] Hl Hconn Hob Hr Hev Hsc.
  pose proof (f_equal p_status Hconn). pose proof (f_equal p_write Hconn). pose proof (f_equal p_pack Hconn).
  pose proof (f_equal p_scount Hconn).
  cbn [conn p_status p_write p_pack p_scount set_p_obuf set_p_t_write set_p_scount] in *.
  split; [constructor; [done | split_and!; congruence | done | done | lia] | done].
Qed.

(** The connections after an answer: [l2] took the bytes [bs]. *)
Lemma conns_answered w4 w5 (σ1 : gmap loc (list frame * list Z)) c k p3 p5 g g' frs2 out2 bs :
  map_Forall (λ l a, conn_at w4 l a.1 a.2 ∧ ibo l ≠ c) σ1 → σ1 !! l2 = Some (frs2, out2) →
  w_peers w4 !! l2 = Some p3 → w_fds w4 !! fdo l2 = Some g → (∀ i, C i out2 g → C i (out2 ++ bs) g') →
  w_peers w5 = <[l2 := p5]> (w_peers w4) → conn p5 = conn (set_p_scount k p3) →
  w_fds w5 = <[fdo l2 := g']> (w_fds w4) →
  (∀ y ny, y ≠ c → w_streams w4 !! y = Some ny → ∃ nx, w_streams w5 !! y = Some (set_next nx ny)) →
  map_Forall (λ l a, conn_at w5 l a.1 a.2) (<[l2 := (frs2, out2 ++ bs)]> σ1).
Proof.
  intros Hcs Hl2 Hp3 Hg HC Hps Hconn Hfds Hkeep l a Ha. destruct (decide (l = l2)) as [-> | Hne].
  - rewrite lookup_insert_eq in Ha. injection Ha as <-. destruct (Hcs l2 _ Hl2) as [Hc Hib].
    eapply conn_at_upd; [exact Hc | | exact (λ n, Hkeep _ n Hib) |].
    + intros p Hp. rewrite Hp3 in Hp. injection Hp as <-. exists p5. rewrite Hps, lookup_insert_eq.
      split; [done | by eapply same_reader_conn].
    + intros f i Hf Hi. rewrite Hg in Hf. injection Hf as <-. exists g'. rewrite Hfds, lookup_insert_eq. auto.
  - rewrite lookup_insert_ne in Ha by done. destruct (Hcs l a Ha) as [Hc Hib].
    assert (fdo l2 ≠ fdo l) by (intros ?%(inj fdo); done).
    eapply conn_at_keep; [exact Hc | rewrite Hps | rewrite Hfds | exact (λ n, Hkeep _ n Hib)]; by apply lookup_insert_ne.
Qed.

(** The requests that are left are for this node. *)
Lemma requests_left role (σ : gmap loc (list frame * list Z)) l l' fr frs out frs2 out2 bs :
  map_Forall (λ _ a, Forall (request_ok role) a.1) σ → σ !! l = Some (fr :: frs, out) →
  <[l := (frs, out)]> σ !! l' = Some (frs2, out2) →
  map_Forall (λ _ a, Forall (request_ok role) a.1) (<[l' := (frs2, out2 ++ bs)]> (<[l := (frs, out)]> σ)).
Proof.
  intros Hok Hl Hl'. assert (map_Forall (λ _ a, Forall (request_ok role) a.1) (<[l := (frs, out)]> σ)) as H1.
  { apply map_Forall_insert_2; [| done]. by apply (Forall_inv_tail (Hok l _ Hl)). }
  apply map_Forall_insert_2; [exact (H1 l' _ Hl') | done].
Qed.

(** One request: from the state of the service to the next. *)
Lemma serve_request N w T σ σ' l ac t rounds timer :
  serves (S N) w σ → echo_spec σ l = Some σ' → (1 ≤ rounds)%nat →
  ∃ j w', run (mkServer w T) ((replicate (S j) (SvRead ac l) ++
      [SvJob t; SvWorker t; SvWorker t; SvWorker t; SvWorker t]) ++ [SvWatch; SvWrite rounds timer l2])
      = Ok (mkServer w' T) ∧ serves N w' σ'.
Proof.
  intros Hse Hspec Hrounds. unfold echo_spec in Hspec.
  destruct (σ !! l) as [[[| fr frs] out] |] eqn:Hl; [done | | done]. cbv zeta in Hspec.
  destruct (<[l:=(frs, out)]> σ !! l2) as [[frs2 out2] |] eqn:Hl2; [| done]. injection Hspec as <-.
  destruct (request_taken N w T σ l fr frs out ac t Hse Hl) as
    (j & c & to & s6 & s7 & s8 & q8 & h & p & p' & fds & R & [Hp Hsame] & Hc & Hcopy & Hcs & E7 & E8 & Hr8 & L8 & K8 & H8).
  set (w4 := set_w_fds _ _) in R, Hcs. destruct Hcopy as (Hto & Hu & Hnext & _ & Hnid & Hsz).
  destruct Hse as [Hcs0 [mq [_ Hq1 Hq3 Hts _ _]] Hroom Hecho Htab (p2 & q2 & Hca & Hsc)].
  destruct (can_answer_read w w4 l p p' q2 p2 Hca Hp Hsame eq_refl) as (p3 & Hca3 & Hsc3).
  assert (peer_table w4 m) as Htab4.
  { eapply (peer_table_at w w4 m l p p'); try done. by destruct Hsame as (_ & _ & _ & _ & -> & _). }
  destruct (Hcs l2 _ Hl2) as [(p3' & n3 & g & i3 & Hat & Hfd3 & Hn3 & Hg & _ & HC & _) Hib].
  assert (p3' = p3) as ->. { destruct Hat as [Hx _]. destruct Hca3 as [Hy _]. congruence. }
  destruct (Hcs0 l _ Hl) as [_ Hreqs]. apply Forall_cons_1 in Hreqs as [((_ & _ & Hbne & Hbu & _) & _) Hreqs].
  destruct (duplex_write _ _ g (unread (reply_of to)) HC) as (g' & Hw & HC');
    [change (unread (reply_of to)) with (unread to); by rewrite Hu |].
  destruct (answer_written malloc_ok memory task call_disparser run_script run_python w4 T s7 s8 q3 c (reply_of to) m l2 p3 q2 g g' rounds timer)
    as (h5 & p5 & q5 & R5 & Hgone & Hob5 & Hr5 & Hev5 & Hconn & Hkeep); try done.
  { change (unread (reply_of to)) with (unread to). by rewrite Hu. }
  { change (s_nid (reply_of to)) with (s_nid to). by rewrite Hnid. }
  { by rewrite Hfd3. }
  set (w5 := set_w_peers _ _) in R5. exists j, w5. split; [by rewrite server_run_app, R, bind_Ok |].
  assert (map_Forall (λ l a, conn_at w5 l a.1 a.2) (<[l2 := (frs2, out2 ++ fr_body fr)]> (<[l := (frs, out)]> σ))) as Hcs5.
  { rewrite <- Hu. eapply (conns_answered w4 w5); try done; [apply Hca3 | | cbn; by rewrite Hfd3].
    intros i Hi. eapply duplex_wrote; [done | by rewrite Hu | exact Hw]. }
  constructor.
  - intros l' a Ha. split; [by apply Hcs5 |].
    assert (map_Forall (λ _ a, Forall (request_ok (w_role w)) a.1) σ) as Hok by (intros ? ? ?; by eapply Hcs0).
    exact (requests_left _ _ _ _ _ _ _ _ _ (fr_body fr) Hok Hl Hl2 l' a Ha).
  - exists q8. constructor; try done. cbn [w5 w_sched set_w_peers set_w_fds set_w_streams set_w_sched]. lia.
  - cbn [w5 w_sched set_w_peers set_w_fds set_w_streams set_w_sched]. lia.
  - exact Hecho.
  - eapply (peer_table_at w4 w5 m l2 p3 p5); try done; [apply Hca3 |]. exact (f_equal p_drole Hconn).
  - exists p5, q5. destruct (can_answer_sent w4 w5 p3 q2 p5 q5) as [Hca5 ->]; try done; [apply lookup_insert_eq | lia |].
    split; [done | lia].
Qed.

(** ** Sessions *)

(** A request that comes in on [vi_conn]: what its events find, and the thread that
    takes the job. *)
Record visit := mkVisit {
  vi_conn : loc; vi_accept : accept_env; vi_thread : nat; vi_rounds : nat; vi_timer : option ev_periodic }.

(** Its events, when [j] reads are not enough. *)
Definition visit_events (v : visit) (j : nat) : list server_event :=
  let t := vi_thread v in
  (replicate (S j) (SvRead (vi_accept v) (vi_conn v)) ++ [SvJob t; SvWorker t; SvWorker t; SvWorker t; SvWorker t])
    ++ [SvWatch; SvWrite (vi_rounds v) (vi_timer v) l2].

(** The service for a sequence of requests *)
Fixpoint echo_run (σ : gmap loc (list frame * list Z)) (ls : list loc) : option (gmap loc (list frame * list Z)) :=
  match ls with
  | [] => Some σ
  | l :: ls => match echo_spec σ l with Some σ' => echo_run σ' ls | None => None end
  end.


End session.
