(* ===== verification/PipelineFacts.v ===== *)
(** Any interleaving of events: reads of the connections, steps of the worker
    threads, rounds of the main loop and writes, in whatever order they happen.
    The server is a queue of bodies: each request that has been read enters at
    the end, each write takes bodies from the front. *)

From S2P Require Import Prelude Memory Sockunion Stream StreamFacts Fifo Linklist LinklistFacts.
From S2P Require Import Hash HashFacts Mq MqFacts Sched SchedFacts Timer Peer Network Parser Link.
From S2P Require Import LinkFacts IdMaker Core CoreFacts PacketFacts Connect ConnectFacts.
From S2P Require Import Server ServerFacts SessionFacts.

Local Open Scope Z_scope.

(** ** Steps of the scheduler *)

Section queues.
Context {M : Type} (malloc_ok : Z → bool) (memory : ∀ n, malloc_ok n = true) (task : loc → bool).
Implicit Types (s : sched M) (p r : loc) (qs : gset loc) (c : loc → list M).

(** The queues are there and of the kinds they were. *)
Definition kinds_kept s s' : Prop :=
  ∀ p q, core (sc_st s) p = Some q → ∃ q', core (sc_st s') p = Some q' ∧ mq_handle q' = mq_handle q.

Lemma sched_inv_ext qs s gl H c c' :
  (∀ r, c r = c' r) → sched_inv task qs s gl H c → sched_inv task qs s gl H c'.
Proof.
  intros Hc [Q1 Q2 Q3 Q4]. constructor; [by eapply queues_inv_ext | done | | done].
  intros r. by rewrite Q3, Hc.
Qed.

Lemma upd_same c p ms r : c p = ms → upd c p ms r = c r.
Proof. intros Hp. unfold upd. case_decide; congruence. Qed.

(** A step of a thread: it pops a message of a task queue or takes none. *)
Lemma worker_step_cases qs s gl H c t :
  sched_inv task qs s gl H c →
  ∃ s' gl' H', worker_step s t = Ok s' ∧ sc_in s' = sc_in s ∧ kinds_kept s s' ∧
    ((sc_out s' = sc_out s ∧ sched_inv task qs s' gl' H' c) ∨
     ∃ p x ms, c p = x :: ms ∧ task p = true ∧ sc_out s' = sc_out s ++ [(p, x)] ∧
       sched_inv task qs s' gl' H' (upd c p ms)).
Proof.
  intros Hs. pose proof (si_queues _ _ _ _ _ _ Hs) as Hq. pose proof (qi_gq _ _ _ _ _ Hq) as Hg.
  assert (kinds_kept s s) as Hrefl by (intros ???; eauto).
  destruct (sc_threads s !! t) as [[n [p |]] |] eqn:Et.
  - destruct (thread_holds _ _ _ _ _ (si_threads _ _ _ _ _ _ Hs) Et) as [HpH _].
    destruct (qi_alloc _ _ _ _ _ Hq p HpH) as [q Hp].
    destruct (decide (n = 0)) as [-> | Hn].
    + destruct (worker_giveback_inv task qs s gl H c t p Hs Et) as (s' & gl' & H' & E & Hin & Hs').
      exists s', gl', H'. split; [done |]. split; [done |].
      destruct (globalmq_push_spec _ gl p q Hg Hp (qi_excl _ _ _ _ _ Hq p HpH)) as (st' & Ep & _ & Hc).
      unfold worker_step in E. rewrite Et in E. cbn [w_hold w_sands Z.eqb] in E. rewrite Ep, bind_Ok in E.
      injection E as <-. split; [intros r q0 Hr; cbn [sc_st]; rewrite Hc; eauto |]. by left.
    + destruct (worker_pop_inv task qs s gl H c t n p Hs Et Hn) as (s' & H' & E & Hin & Hs').
      exists s', gl, H'. split; [done |]. split; [done |].
      destruct (mq_pop_spec _ gl p q (c p) Hg Hp (qi_ring _ _ _ _ _ Hq p q Hp)) as (st' & q' & Ep & Hc & _ & Hh & _).
      unfold worker_step in E. rewrite Et in E. cbn [w_hold w_sands] in E.
      rewrite (proj2 (Z.eqb_neq n 0) Hn), Ep, bind_Ok in E.
      assert (∀ th jobs i o, kinds_kept s (mkSched st' jobs th i o)) as Hk.
      { intros ???? r q0 Hr. cbn [sc_st]. rewrite Hc. case_decide; [subst r; exists q'; split; congruence | eauto]. }
      destruct (c p) as [| x ms] eqn:Hcp; cbn [head tail] in *; injection E as <-; (split; [apply Hk |]).
      * left. split; [done |]. eapply sched_inv_ext; [| exact Hs']. intros r. by apply upd_same.
      * right. exists p, x, ms. split_and!; try done. destruct (task p) eqn:Htp; [done |].
        by destruct (qi_main _ _ _ _ _ Hq p Htp).
  - destruct (worker_acquire_inv task qs s gl H c t n Hs Et) as (s' & gl' & H' & E & Hin & Hs').
    exists s', gl', H'. split; [done |]. split; [done |].
    unfold worker_step in E. rewrite Et in E. cbn [w_hold] in E. destruct gl as [| p gl].
    + rewrite (globalmq_pop_empty _ Hg), bind_Ok in E. injection E as <-. split; [exact Hrefl |]. by left.
    + destruct (globalmq_pop_spec _ p gl Hg) as (st' & Ep & _ & Hc). rewrite Ep, bind_Ok in E.
      injection E as <-. split; [intros r q0 Hr; cbn [sc_st]; rewrite Hc; eauto |]. by left.
  - exists s, gl, H. unfold worker_step. rewrite Et. split_and!; try done. by left.
Qed.

(** A task is routed. *)
Lemma task_route_keeps qs s gl H c p m s' :
  sched_inv task qs s gl H c → task p = true → p ∈ qs → Z.of_nat (length (sc_in s)) < 2 ^ 29 →
  misaka_packet_task_route malloc_ok s p m = Ok s' → kinds_kept s s'.
Proof.
  intros Hs Ht Hp Hsz He r q Hr. pose proof (contents_bound _ _ _ _ _ _ p Hs) as Hb.
  destruct (si_alloc _ _ _ _ _ _ Hs p Hp) as [qp Hqp]. pose proof (si_queues _ _ _ _ _ _ Hs) as Hqi.
  destruct (mq_push_spec malloc_ok memory (sc_st s) gl p qp (c p) m (qi_gq _ _ _ _ _ Hqi) Hqp
              (qi_ring _ _ _ _ _ Hqi p _ Hqp)) as (st2 & q2 & E2 & C2 & _ & Hh & _); [lia | |].
  { intros H0. destruct (qi_task _ _ _ _ _ Hqi p qp Ht Hqp) as [[? _] | (_ & Hn & _)]; [lia | tauto]. }
  unfold misaka_packet_task_route in He. rewrite E2, bind_Ok in He. injection He as <-.
  cbn [sc_st]. rewrite C2. destruct (decide (r = p)) as [-> |]; [| eauto].
  exists q2. split; [done |]. congruence.
Qed.

Lemma kinds_trans s1 s2 s3 : kinds_kept s1 s2 → kinds_kept s2 s3 → kinds_kept s1 s3.
Proof.
  intros H1 H2 p q Hp. destruct (H1 p q Hp) as (q1 & Hq1 & E1). destruct (H2 p q1 Hq1) as (q2 & Hq2 & E2).
  exists q2. split; [done | congruence].
Qed.
End queues.

(** ** The two queues of the echo task *)

Section echo_queues.
Context (malloc_ok : Z → bool) (memory : ∀ n, malloc_ok n = true) (task : loc → bool).
Context (qs : gset loc) (q1 q3 : loc).
Context (tasks : task q1 = true ∧ q1 ∈ qs) (answers : task q3 = false ∧ q3 ∈ qs).
Implicit Types (s : sched loc) (x : loc) (ns ts : list loc).

(** The packets [ts] are in the queue of the task, [ns] in the queue of the answers,
    the other queues are empty, and there is room for [N] more pushes. *)
Definition pipe_sched (N : nat) s ns ts : Prop :=
  ∃ gl H c mq, sched_inv task qs s gl H c ∧ c q1 = ts ∧ c q3 = ns ∧ (∀ r, r ≠ q1 → r ≠ q3 → c r = []) ∧
    core (sc_st s) q1 = Some mq ∧ mq_handle mq = EVENT_ECHO ∧
    Z.of_nat (length (sc_in s)) + Z.of_nat N < 2 ^ 29.

Lemma queues_differ : q1 ≠ q3.
Proof. intros E. destruct tasks as [T _], answers as [A _]. congruence. Qed.

Lemma pipe_sched_le N N' s ns ts : (N' ≤ N)%nat → pipe_sched N s ns ts → pipe_sched N' s ns ts.
Proof. intros Hle (gl & H & c & mq & ? & ? & ? & ? & ? & ? & ?). exists gl, H, c, mq. split_and!; try done. lia. Qed.

Lemma pipe_task N s ns ts x :
  pipe_sched (S N) s ns ts →
  ∃ s', misaka_packet_task_route malloc_ok s q1 x = Ok s' ∧ pipe_sched N s' ns (ts ++ [x]).
Proof.
  intros (gl & H & c & mq & Hs & <- & <- & Ho & Hc & Hh & Hr). destruct tasks as [Ht Hin]. pose proof queues_differ.
  destruct (task_route_inv malloc_ok memory task qs s gl H c q1 x Hs Ht Hin ltac:(lia)) as (s' & gl' & E & Hs' & Hi).
  exists s'. split; [done |].
  destruct (task_route_keeps malloc_ok memory task qs s gl H c q1 x s' Hs Ht Hin ltac:(lia) E q1 mq Hc) as (mq' & Hc' & Hh').
  exists gl', H, (upd c q1 (c q1 ++ [x])), mq'. rewrite upd_eq, upd_ne, Hi, length_app by done. cbn [length].
  split_and!; try done; [| congruence | lia]. intros r H1 H3. rewrite upd_ne by done. by apply Ho.
Qed.

Lemma pipe_start N s ns ts t : pipe_sched N s ns ts → pipe_sched N (start_worker s t) ns ts.
Proof.
  intros (gl & H & c & mq & Hs & ? & ? & ? & Hc & ? & Hr). exists gl, H, c, mq.
  split; [by apply start_worker_inv |].
  assert (sc_st (start_worker s t) = sc_st s ∧ sc_in (start_worker s t) = sc_in s) as [-> ->]
    by (unfold start_worker; by repeat case_match). done.
Qed.

(** A step of a thread: no packet is taken, or the first of the task is, and its
    answer can be routed. *)
Lemma pipe_worker N s ns ts t :
  pipe_sched (S N) s ns ts →
  (∃ s', worker_step s t = Ok s' ∧ sc_out s' = sc_out s ∧ pipe_sched N s' ns ts) ∨
  (∃ x ts' s' mq s4, ts = x :: ts' ∧ worker_step s t = Ok s' ∧ sc_out s' = sc_out s ++ [(q1, x)] ∧
     core (sc_st s') q1 = Some mq ∧ mq_handle mq = EVENT_ECHO ∧
     misaka_packet_net_route malloc_ok s' q3 x = Ok s4 ∧ pipe_sched N s4 (ns ++ [x]) ts').
Proof.
  intros (gl & H & c & mq & Hs & <- & <- & Ho & Hc & Hh & Hr). pose proof queues_differ as Hne.
  destruct (worker_step_cases task qs s gl H c t Hs) as (s' & gl' & H' & E & Hi & Hk & Hcase).
  destruct (Hk q1 mq Hc) as (mq' & Hc' & Hh').
  destruct Hcase as [[Hout Hs'] | (p & x & ms & Hp & Htp & Hout & Hs')]; [left | right].
  - exists s'. split_and!; try done. exists gl', H', c, mq'. rewrite Hi. split_and!; try done; [congruence | lia].
  - destruct answers as [Ht3 Hin3].
    assert (p = q1) as ->.
    { destruct (decide (p = q1)) as [-> | Hp1]; [done |]. assert (p ≠ q3) as Hp3 by congruence.
      by rewrite (Ho p Hp1 Hp3) in Hp. }
    destruct (net_route_inv malloc_ok memory task qs s' gl' H' _ q3 x Hs' Ht3 Hin3) as (s4 & E4 & Hs4 & Hi4 & _).
    { rewrite Hi. lia. }
    destruct (net_route_keeps malloc_ok memory task s' gl' H' _ qs q3 x s4 Hs' Ht3 Hin3 ltac:(rewrite Hi; lia) E4 q1 mq' Hc')
      as (mq4 & Hc4 & Hh4).
    exists x, ms, s', mq', s4. split_and!; try done; [congruence |].
    eexists gl', H', _, mq4. split; [exact Hs4 |]. rewrite Hi4, Hi, length_app. cbn [length].
    rewrite (upd_ne _ q3 _ q1), !upd_eq, upd_ne by done.
    split_and!; try done; [| congruence | lia]. intros r H1 H3. rewrite !upd_ne by done. by apply Ho.
Qed.

Lemma pipe_pop N s ns ts :
  pipe_sched N s ns ts →
  ∃ s', loop_pop s q3 = Ok (head ns, s') ∧ pipe_sched N s' (tail ns) ts.
Proof.
  intros (gl & H & c & mq & Hs & <- & <- & Ho & Hc & Hh & Hr). pose proof queues_differ.
  destruct answers as [Ht3 Hin3].
  destruct (loop_pop_keeps task qs s gl H c q3 Hs Ht3 Hin3) as (s' & E & Hi & _ & Hs' & Hk).
  destruct (Hk q1 mq Hc) as (mq' & Hc' & Hh'). exists s'. split; [done |].
  exists gl, H, (upd c q3 (tail (c q3))), mq'. rewrite Hi, upd_eq, upd_ne by done.
  split_and!; try done; [| congruence]. intros r H1 H3. rewrite upd_ne by done. by apply Ho.
Qed.
End echo_queues.

(** ** Packets on their way *)

Section flight.
Context (id : Z).
Implicit Types (h : gmap loc stream) (x : loc) (xs : list loc) (b : list Z) (n : stream).

(** A packet with the body [b] *)
Definition sound n b : Prop :=
  sane n ∧ s_size n = MISAKA_MAX_PACKET_SIZE ∧ unread n = b ∧ b ≠ [] ∧ Forall is_u8 b.

(** Where it is: in an output fifo, in the queue of the answers, in that of the
    task. *)
Definition sent n : Prop := True.
Definition answered n : Prop := s_next n = None ∧ s_nid n = id.
Definition asked n : Prop := answered n ∧ s_type n = EVENT_ECHO.

Definition carries (R : stream → Prop) h x b : Prop := ∃ n, h !! x = Some n ∧ sound n b ∧ R n.

Definition flight (R : stream → Prop) h xs (bs : list (list Z)) : Prop := Forall2 (carries R h) xs bs.

Lemma flight_frame R h h' xs bs :
  (∀ x, x ∈ xs → h' !! x = h !! x) → flight R h xs bs → flight R h' xs bs.
Proof.
  intros Hf Hfl. induction Hfl as [| x b xs bs (n & Hn & Hb) _ IH]; constructor.
  - exists n. by rewrite Hf by left.
  - apply IH. intros y Hy. apply Hf. by right.
Qed.

(** Links may change in a fifo. *)
Lemma flight_relink h h' xs bs :
  (∀ x n, x ∈ xs → h !! x = Some n → ∃ nx, h' !! x = Some (set_next nx n)) → flight sent h xs bs → flight sent h' xs bs.
Proof.
  intros Hf Hfl. induction Hfl as [| x b xs bs (n & Hn & Hb) _ IH]; constructor.
  - destruct (Hf x n) as [nx Hnx]; [by left | done |]. exists (set_next nx n). done.
  - apply IH. intros y ny Hy. apply Hf. by right.
Qed.

Lemma flight_live R h xs bs x : flight R h xs bs → x ∈ xs → is_Some (h !! x).
Proof.
  intros Hfl Hx. apply list_elem_of_lookup in Hx as [i Hi].
  destruct (Forall2_lookup_l _ _ _ _ _ Hfl Hi) as (b & _ & n & Hn & _). eauto.
Qed.

Lemma flight_hold h xs bs :
  flight sent h xs bs → ∃ ds, all_hold h xs ds ∧ ds.*1 = bs.
Proof.
  induction 1 as [| x b xs bs (n & Hn & (Hs & Hz & Hu & Hne & _) & _) _ (ds & Hd & E)].
  { exists []. split; [constructor | done]. }
  exists ((b, s_dsu n) :: ds). split; [| cbn; by rewrite E].
  constructor; [| done]. exists n. cbn [fst snd]. split_and!; try done. rewrite Hz. done.
Qed.

Lemma flight_bytes R h xs bs : flight R h xs bs → Forall (Forall is_u8) bs.
Proof. induction 1 as [| x b xs bs (n & _ & (_ & _ & _ & _ & Hu) & _) _ IH]; by constructor. Qed.
End flight.

(** ** What a connection takes *)

Section taken.
Context {K : Kernel} (C : list Z → list Z → descr → Prop) `{!Duplex C}.

Lemma duplex_writes i o f bss :
  C i o f → Forall (Forall is_u8) bss →
  ∃ f', wrote f bss f' ∧ ∀ j, C j o f → C j (o ++ concat bss) f'.
Proof.
  intros HC Hu. revert o f HC. induction Hu as [| bs bss Hb _ IH]; intros o f HC.
  { exists f. split; [constructor |]. intros j Hj. by rewrite app_nil_r. }
  destruct (duplex_write i o f bs HC Hb) as (f1 & Hw & HC1).
  destruct (IH (o ++ bs) f1 HC1) as (f' & Hws & Hj). exists f'. split; [by econstructor |].
  intros j Hj0. cbn [concat]. rewrite app_assoc. apply Hj. by eapply duplex_wrote.
Qed.
End taken.

(** ** The server between any two events *)

Section pipeline.
Context {K : Kernel} {L : Libev} {disparser_fn : Type}.
Context {AS : StreamAllocator} {AN : Allocator (listnode loc)} {AI : Allocator (option Z)}.
Context {AB : Allocator (hash_backet peer_ref)} {AP : Allocator (peer disparser_fn)}.
Context (malloc_ok : Z → bool) (memory : ∀ n, malloc_ok n = true) (task : loc → bool).
Context (call_disparser : disparser_fn → peer disparser_fn → peer disparser_fn).
Context (run_script : script_fn) (run_python : python_fn).
Context (C : list Z → list Z → descr → Prop) `{!Duplex C}.
Context (size : Z) (fdo : loc → Z) (ibo : loc → loc) `{!Inj (=) (=) fdo} `{!Inj (=) (=) ibo}.
Context (qs : gset loc) (q1 q3 : loc) (m : gmap Z peer_ref) (id : Z) (l2 : loc).
Context (stale : ∀ h, ∃ c o d, salloc h = (Some (c, o), Some d) ∧ s_nid o = id) (small : size < 2 ^ 31).
Context (tasks : task q1 = true ∧ q1 ∈ qs) (answers : task q3 = false ∧ q3 ∈ qs).
Context (registered : m !! id = Some (PeerAt l2)).
Implicit Types (w : world disparser_fn) (l x c : loc) (p : peer disparser_fn) (n : stream) (f : descr).
Implicit Types (os ns ts : list loc) (bo bn bt Q : list (list Z)) (σ : gmap loc (list frame * list Z)).

Local Abbreviation run := (server_run malloc_ok call_disparser run_script run_python).
Local Abbreviation step := (server_step malloc_ok call_disparser run_script run_python).
Local Abbreviation conn_at := (conn_at C size fdo ibo).
Local Abbreviation pipe_sched := (pipe_sched task qs q1 q3).

(** The peer that answers, with [os] in its output fifo *)
Record sender w p q os : Prop := {
  sn_peer : w_peers w !! l2 = Some p;
  sn_link : p_status p = TAT_ESTA ∧ p_write p = Some tcp_write_p ∧ p_pack p = Some peer_default_pack_p;
  sn_fifo : p_obuf p = Some q ∧ fifo_rep (w_streams w) q os;
  sn_watch : is_Some (p_t_write p);
  sn_count : - 2 ^ 31 ≤ p_scount p
}.

(** The packets on their way: [os] in the output fifo, [ns] in the queue of the
    answers, [ts] in the queue of the task. *)
Record pipe_at (N : nat) w σ os ns ts bo bn bt : Prop := {
  pa_conns : map_Forall (λ l a, conn_at w l a.1 a.2 ∧ Forall (request_ok size (w_role w)) a.1 ∧
                                ibo l ∉ os ++ ns ++ ts) σ;
  pa_nodup : NoDup (os ++ ns ++ ts);
  pa_out : flight sent (w_streams w) os bo;
  pa_net : flight (answered id) (w_streams w) ns bn;
  pa_task : flight (asked id) (w_streams w) ts bt;
  pa_sched : pipe_sched N (w_sched w) ns ts;
  pa_queues : w_queues w !! 1%nat = Some q1 ∧ w_queues w !! 3%nat = Some q3;
  pa_echo : echo_loaded w;
  pa_table : peer_table w m;
  pa_sender : ∃ p q, sender w p q os ∧
    p_scount p + Z.of_nat (length (bo ++ bn ++ bt)) + Z.of_nat N < 2 ^ 31
}.

(** The bodies [Q] are on their way, in this order; there is room for [N] events. *)
Definition pipe (N : nat) w σ Q : Prop :=
  ∃ os ns ts bo bn bt, pipe_at N w σ os ns ts bo bn bt ∧ Q = bo ++ bn ++ bt.

(** All packets on their way are in memory. *)
Lemma pipe_live N w σ os ns ts bo bn bt x :
  pipe_at N w σ os ns ts bo bn bt → x ∈ os ++ ns ++ ts → is_Some (w_streams w !! x).
Proof.
  intros [_ _ Ho Hn Ht _ _ _ _ _] [Hx | [Hx | Hx]%elem_of_app]%elem_of_app;
    [exact (flight_live _ _ _ _ _ Ho Hx) | exact (flight_live _ _ _ _ _ Hn Hx) | exact (flight_live _ _ _ _ _ Ht Hx)].
Qed.

(** The peer [l], which may be the one that answers, has read. *)
Lemma sender_read w w' p q os l pl pl' :
  sender w p q os → w_peers w !! l = Some pl → same_conn pl pl' → w_peers w' = <[l := pl']> (w_peers w) →
  (∀ x, x ∈ os → w_streams w' !! x = w_streams w !! x) →
  ∃ p', sender w' p' q os ∧ p_scount p' = p_scount p.
Proof.
  intros [Hl2 (Hst & Hwr & Hpk) [Hob Hr] Hev Hsc] Hl Hsame Hps Hf.
  assert (∃ p', w_peers w' !! l2 = Some p' ∧ same_conn p p') as (p' & Hp' & Hs').
  { rewrite Hps. destruct (decide (l2 = l)) as [<- | Hne].
    - rewrite Hl in Hl2. injection Hl2 as <-. exists pl'. by rewrite lookup_insert_eq.
    - exists p. by rewrite lookup_insert_ne. }
  destruct Hs' as (_ & C1 & _ & _ & _ & _ & C2 & C3 & C4 & C5 & C6 & _). exists p'. split; [| done].
  constructor; [done | split_and!; congruence | | by rewrite C4 | lia].
  split; [congruence | by eapply fifo_frame].
Qed.

(** A read of the connection [l]: [new] are the packets it put into the queue of the
    task. *)
Lemma pipe_at_read N w w' σ os ns ts bo bn bt l p p' f' frs0 frs out new bnew :
  pipe_at (S N) w σ os ns ts bo bn bt → σ !! l = Some (frs0, out) → Forall (request_ok size (w_role w)) frs →
  w_peers w !! l = Some p → same_conn p p' → w_peers w' = <[l := p']> (w_peers w) →
  w_fds w' = <[fdo l := f']> (w_fds w) →
  (∀ y, is_Some (w_streams w !! y) → y ≠ ibo l → w_streams w' !! y = w_streams w !! y) →
  (w_queues w', w_events w', w_handles w', w_role w', w_backets w', w_table w')
    = (w_queues w, w_events w, w_handles w, w_role w, w_backets w, w_table w) →
  conn_at w' l frs out → pipe_sched N (w_sched w') ns (ts ++ new) →
  flight (asked id) (w_streams w') new bnew → NoDup new → (length bnew ≤ 1)%nat →
  (∀ x, x ∈ new → w_streams w !! x = None) →
  pipe_at N w' (<[l := (frs, out)]> σ) os ns (ts ++ new) bo bn (bt ++ bnew).
Proof.
  intros Hpa Hl Hreq Hp Hsame Hps Hfds Hmem Hcfg Hconn Hsch Hnew Hnd Hlen Hfresh.
  injection Hcfg as Eq Ee Eh Er Eb Et. destruct (pa_conns _ _ _ _ _ _ _ _ _ Hpa l _ Hl) as (_ & _ & Hib).
  assert (∀ x, x ∈ os ++ ns ++ ts → w_streams w' !! x = w_streams w !! x) as Hkeep.
  { intros x Hx. apply Hmem; [exact (pipe_live _ _ _ _ _ _ _ _ _ _ Hpa Hx) | by intros ->]. }
  assert (∀ l' a, σ !! l' = Some a → ibo l' ∉ os ++ ns ++ ts ++ new) as Hibn.
  { intros l' a Ha. destruct (pa_conns _ _ _ _ _ _ _ _ _ Hpa l' a Ha) as ((? & ny & ? & ? & _ & _ & Hy & _) & _ & Hn').
    rewrite (app_assoc ns), (app_assoc os), elem_of_app. intros [Hx | Hx]; [done |]. by rewrite (Hfresh _ Hx) in Hy. }
  assert (NoDup (os ++ ns ++ ts ++ new)) as Hnd'.
  { rewrite (app_assoc ns), (app_assoc os). apply NoDup_app. split; [apply Hpa |]. split; [| done].
    intros x Hx Hx'. destruct (pipe_live _ _ _ _ _ _ _ _ _ _ Hpa Hx) as [? Hy]. by rewrite (Hfresh _ Hx') in Hy. }
  destruct Hpa as [Hcs _ Ho Hn Ht _ Hqs Hec Htab (p2 & q & Hse & Hsc)]. constructor.
  - intros l' a Ha. rewrite Er. destruct (decide (l' = l)) as [-> | Hne].
    + rewrite lookup_insert_eq in Ha. injection Ha as <-. split_and!; try done. by eapply Hibn.
    + rewrite lookup_insert_ne in Ha by done. destruct (Hcs l' a Ha) as (Hc & Hr & _).
      split; [| split; [done | by eapply Hibn]].
      assert (ibo l' ≠ ibo l) by (intros ?%(inj ibo); done). assert (fdo l ≠ fdo l') by (intros ?%(inj fdo); done).
      eapply conn_at_keep; [done | rewrite Hps; by apply lookup_insert_ne | rewrite Hfds; by apply lookup_insert_ne |].
      intros ny Hy. exists (s_next ny). rewrite set_next_eta. rewrite Hmem by (done || by eexists). done.
  - done.
  - eapply flight_frame; [| exact Ho]. intros x Hx. apply Hkeep. set_solver.
  - eapply flight_frame; [| exact Hn]. intros x Hx. apply Hkeep. set_solver.
  - apply Forall2_app; [| done]. eapply flight_frame; [| exact Ht]. intros x Hx. apply Hkeep. set_solver.
  - done.
  - by rewrite Eq.
  - unfold echo_loaded. by rewrite Ee, Eh.
  - eapply (peer_table_at w w' m l p p'); try done. by destruct Hsame as (_ & _ & _ & _ & -> & _).
  - destruct (sender_read w w' p2 q os l p p' Hse Hp Hsame Hps) as (p3 & Hse3 & E3).
    { intros x Hx. apply Hkeep. set_solver. }
    exists p3, q. split; [done |]. rewrite E3, !length_app in *. lia.
Qed.

(** *** Events *)

(** A read of a connection that still delivers: it is not enough, or the first
    request enters the queue of the task. *)
Lemma pipe_reads N w σ Q ac l fr frs out :
  pipe (S N) w σ Q → σ !! l = Some (fr :: frs, out) →
  ∃ w', misaka_read malloc_ok call_disparser ac l w = Ok (tt, w') ∧
    (pipe N w' σ Q ∨ pipe N w' (<[l := (frs, out)]> σ) (Q ++ [fr_body fr])).
Proof.
  intros (os & ns & ts & bo & bn & bt & Hpa & ->) Hl.
  destruct (pa_conns _ _ _ _ _ _ _ _ _ Hpa l _ Hl) as (Hc & Hreqs & Hib). cbn [fst snd] in Hc, Hreqs.
  destruct Hc as (p & n & f & i & Hat & Hfo & Hn & Hf & (bs & rest & Hr & He & Hne & ->) & HC & Hge & Hlt).
  pose proof Hreqs as [(Hok & Hnid & Hmax) Hreqs']%Forall_cons_1. rewrite length_app in Hlt.
  assert (0 < length rest)%nat as Hpos by (destruct rest; [done | cbn; lia]).
  destruct (read_once malloc_ok call_disparser C size fr (frs ≫= encode) out ac w l p (ibo l) n f bs rest)
    as (d & rest' & n' & p' & f' & -> & Hd & Hsame & Hrc & HC' & Hcase); try done.
  { by rewrite Hfo. } { lia. }
  assert (0 < length d)%nat by (destruct d; [done | cbn; lia]). rewrite length_app in Hlt.
  pose proof Hat as (Hp & Hx & Hrd & Hst & Hfd & Hsys).
  pose proof Hsame as (Ci & Cst & Csys & _ & _ & Cf & _ & _ & _ & _ & _ & Crd).
  destruct Hcase as [(Hne' & Hrun & Hr') | (-> & Hcp & Hun & Hup & Hsz)].
  - exists (read_world w l p' (ibo l) n' f'). split; [done |]. left.
    exists os, ns, ts, bo, bn, bt. split; [| done]. rewrite <- (insert_id σ l (fr :: frs, out)) by done.
    rewrite <- (app_nil_r ts), <- (app_nil_r bt).
    eapply (pipe_at_read N w _ σ os ns ts bo bn bt l p p' f' (fr :: frs)); try done.
    + cbn. by rewrite Cf, Hfo.
    + intros y _ Hy. cbn. by rewrite lookup_insert_ne.
    + exists p', n', f', (rest' ++ (frs ≫= encode)). cbn. rewrite lookup_insert_eq, Cf, Hfo, lookup_insert_eq.
      split; [split; [apply lookup_insert_eq |]; split_and!; first [congruence | lia] |].
      do 3 (split; [done |]). split; [exists (bs ++ d), rest'; split_and!; try done; by rewrite <- app_assoc |].
      split; [done |]. rewrite length_app. lia.
    + rewrite app_nil_r. cbn. eapply pipe_sched_le; [| apply Hpa]. lia.
    + constructor.
    + constructor.
    + cbn. lia.
    + by intros x ?%not_elem_of_nil.
  - pose proof (pa_sched _ _ _ _ _ _ _ _ _ Hpa) as Hsch.
    destruct (packet_read malloc_ok call_disparser C size fdo ibo q1 id stale w ac l p n' p' f' fr frs out)
      as (c & s & to & h & p2 & Hs2 & Es & R & Hca & Hc & Hcopy & Hyc & Hkeep); try done; [lia | cbn in Hlt; lia | apply Hpa | |].
    { intros c. destruct (pipe_task malloc_ok memory task qs q1 q3 tasks answers N (w_sched w) ns ts c Hsch) as (s & E & _). eauto. }
    destruct (pipe_task malloc_ok memory task qs q1 q3 tasks answers N (w_sched w) ns ts c Hsch) as (s' & E & Hsch').
    rewrite Es in E. injection E as <-. eexists. split; [exact R |]. right.
    exists os, ns, (ts ++ [c]), bo, bn, (bt ++ [fr_body fr]). split; [| by rewrite !app_assoc].
    assert (w_streams w !! c = None) as Hcn.
    { destruct (w_streams w !! c) as [nc |] eqn:E; [| done]. by destruct (Hyc c nc E). }
    eapply (pipe_at_read N w _ σ os ns ts bo bn bt l p p2 f' (fr :: frs)); try done.
    + intros y [ny Hy] Hyl. cbn. rewrite Hkeep; [done | by eapply Hyc | done].
    + constructor; [| constructor]. destruct Hcopy as (? & ? & ? & ? & ? & ?). destruct Hok as (_ & _ & Hb & Hb8 & _).
      exists to. split; [done |]. split; [by split_and! | by repeat split].
    + apply NoDup_singleton.
    + intros x ->%list_elem_of_singleton. done.
Qed.

(** A step that leaves the packets and the peers alone *)
Lemma pipe_at_sched N N' w s σ os ns ts bo bn bt :
  pipe_at N w σ os ns ts bo bn bt → (N' ≤ N)%nat → pipe_sched N' s ns ts →
  pipe_at N' (set_w_sched s w) σ os ns ts bo bn bt.
Proof.
  intros [Hcs ? ? ? ? _ ? ? ? (p & q & Hse & Hsc)] Hle Hs. constructor; try done.
  exists p, q. split; [by destruct Hse; constructor | lia].
Qed.

(** A thread takes a job, or there is none. *)
Lemma pipe_starts N w σ Q t :
  pipe (S N) w σ Q → pipe N (set_w_sched (start_worker (w_sched w) t) w) σ Q.
Proof.
  intros (os & ns & ts & bo & bn & bt & Hpa & ->). exists os, ns, ts, bo, bn, bt. split; [| done].
  eapply pipe_at_sched; [exact Hpa | lia |]. apply pipe_start.
  eapply pipe_sched_le; [| apply Hpa]. lia.
Qed.

(** A step of a thread: the first packet of the task may be answered. *)
Lemma pipe_works N w σ Q t :
  pipe (S N) w σ Q →
  ∃ w', worker_turn malloc_ok run_script run_python t w = Ok (tt, w') ∧ pipe N w' σ Q.
Proof.
  intros (os & ns & ts & bo & bn & bt & Hpa & ->). pose proof (pa_sched _ _ _ _ _ _ _ _ _ Hpa) as Hsch.
  destruct (pipe_worker malloc_ok memory task qs q1 q3 tasks answers N (w_sched w) ns ts t Hsch)
    as [(s' & E & Ho & Hs') | (x & ts' & s' & mq & s4 & -> & E & Ho & Hc & Hh & E4 & Hs4)].
  { exists (set_w_sched s' w). split; [by apply worker_turn_idle |].
    exists os, ns, ts, bo, bn, bt. split; [| done].
    eapply pipe_at_sched; [exact Hpa | lia | exact Hs']. }
  destruct Hpa as [Hcs Hnd Hfo Hfn Hft _ Hqs Hec Htab (p & q & Hse & Hsc)].
  apply Forall2_cons_inv_l in Hft as (b & bt' & (n & Hn & Hb & [Hnx Hid] & Hty) & Hft & ->).
  eexists. split; [exact (worker_turn_echo malloc_ok run_script run_python w t s' q1 q3 mq x n s4 E Ho Hc Hh Hn Hty Hec (proj2 Hqs) E4) |].
  set (h' := <[x := _]> (w_streams w)).
  assert ((os ++ (ns ++ [x]) ++ ts') = os ++ ns ++ x :: ts') as Hlist by (by rewrite <- app_assoc).
  assert (x ∉ os ∧ x ∉ ns ∧ x ∉ ts') as (Hx1 & Hx2 & Hx3).
  { apply NoDup_app in Hnd as (_ & Hd1 & Hnd). apply NoDup_app in Hnd as (_ & Hd2 & Hnd).
    apply NoDup_cons in Hnd as [? _]. split; [| split; [| done]].
    - intros Hx. apply (Hd1 x Hx). set_solver.
    - intros Hx. apply (Hd2 x Hx). set_solver. }
  assert (∀ y, y ≠ x → h' !! y = w_streams w !! y) as Hkeep by (intros y Hy; by apply lookup_insert_ne).
  exists os, (ns ++ [x]), ts', bo, (bn ++ [b]), bt'. split; [| by rewrite <- app_assoc].
  constructor; rewrite ?Hlist; try done.
  - intros l a Ha. destruct (Hcs l a Ha) as (Hcn & Hr & Hi). split; [| done].
    eapply conn_at_keep; [exact Hcn | done | done |]. intros ny Hy. exists (s_next ny). rewrite set_next_eta.
    cbn [w_streams set_w_sched set_w_streams]. rewrite Hkeep by set_solver. done.
  - eapply flight_frame; [| exact Hfo]. intros y Hy. apply Hkeep. by intros ->.
  - apply Forall2_app.
    + eapply flight_frame; [| exact Hfn]. intros y Hy. apply Hkeep. by intros ->.
    + constructor; [| constructor]. eexists. split; [apply lookup_insert_eq |]. done.
  - eapply flight_frame; [| exact Hft]. intros y Hy. apply Hkeep. by intros ->.
  - exists p, q. split; [| rewrite <- app_assoc; cbn [app]; lia].
    destruct Hse as [? ? [Hob Hr] ? ?]. constructor; try done. split; [done |].
    eapply fifo_frame; [| exact Hr]. intros y Hy. apply Hkeep. by intros ->.
Qed.

(** The peer that answers through a step of the main loop or a write. *)
Lemma conn_fields p p' k :
  conn p' = conn (set_p_scount k p) →
  p_status p' = p_status p ∧ p_write p' = p_write p ∧ p_pack p' = p_pack p ∧ p_drole p' = p_drole p ∧
  p_fd p' = p_fd p ∧ p_scount p' = k.
Proof.
  intros H. pose proof (f_equal p_status H). pose proof (f_equal p_write H). pose proof (f_equal p_pack H).
  pose proof (f_equal p_drole H). pose proof (f_equal p_fd H). pose proof (f_equal p_scount H). by split_and!.
Qed.

Lemma set_scount_eta p : set_p_scount (p_scount p) p = p.
Proof. by destruct p. Qed.

(** The connections when the peer that answers has got another packet or has
    written [bs]; [w'] has the packets of the input buffers. *)
Lemma pipe_conns w w' σ (xs : list loc) p p' k g' frs2 out2 bs :
  map_Forall (λ l a, conn_at w l a.1 a.2 ∧ Forall (request_ok size (w_role w)) a.1 ∧ ibo l ∉ xs) σ →
  w_peers w !! l2 = Some p → conn p' = conn (set_p_scount k p) → w_peers w' = <[l2 := p']> (w_peers w) →
  (∀ y, y ∉ xs → w_streams w' !! y = w_streams w !! y) →
  σ !! l2 = Some (frs2, out2) →
  (∀ g i, w_fds w !! fdo l2 = Some g → C i out2 g → w_fds w' !! fdo l2 = Some g' ∧ C i (out2 ++ bs) g') →
  (∀ l, l ≠ l2 → w_fds w' !! fdo l = w_fds w !! fdo l) →
  map_Forall (λ l a, conn_at w' l a.1 a.2 ∧ Forall (request_ok size (w_role w)) a.1 ∧ ibo l ∉ xs)
    (<[l2 := (frs2, out2 ++ bs)]> σ).
Proof.
  intros Hcs Hp Hconn Hps Hmem Hl2 Hg Hfds l a Ha.
  assert (∀ l a, σ !! l = Some a → ∀ n, w_streams w !! ibo l = Some n → ∃ nx, w_streams w' !! ibo l = Some (set_next nx n)) as Hib.
  { intros l' a' Ha' n Hn. exists (s_next n). rewrite set_next_eta, Hmem; [done |]. by destruct (Hcs l' a' Ha') as (_ & _ & ?). }
  destruct (decide (l = l2)) as [-> | Hne].
  - rewrite lookup_insert_eq in Ha. injection Ha as <-. destruct (Hcs l2 _ Hl2) as (Hc & Hr & Hi). split; [| done].
    eapply conn_at_upd; [exact Hc | | by eapply Hib |].
    + intros p0 Hp0. rewrite Hp in Hp0. injection Hp0 as <-. exists p'. rewrite Hps, lookup_insert_eq.
      split; [done | by eapply same_reader_conn].
    + intros f i Hf Hi'. exists g'. by eapply Hg.
  - rewrite lookup_insert_ne in Ha by done. destruct (Hcs l a Ha) as (Hc & Hr & Hi). split; [| done].
    eapply conn_at_keep; [exact Hc | rewrite Hps; by apply lookup_insert_ne | by apply Hfds | by eapply Hib].
Qed.

(** A round of the main loop takes the first answer to the output fifo. *)
Lemma pipe_at_routes N w σ os x ns ts bo b bn bt :
  is_Some (σ !! l2) → pipe_at N w σ os (x :: ns) ts bo (b :: bn) bt →
  ∃ w1 w', pop_queue EVENT_NET w = Ok (Some x, w1) ∧ misaka_packet_route (Some x) w1 = Ok (0, w') ∧
    pipe_at N w' σ (os ++ [x]) ns ts (bo ++ [b]) bn bt.
Proof.
  intros [[frs2 out2] Hl2] [Hcs Hnd Hfo Hfn Hft Hsch [Hq1 Hq3] Hec Htab (p & q & Hse & Hsc)].
  destruct (pipe_pop task qs q1 q3 tasks answers N (w_sched w) (x :: ns) ts Hsch) as (s' & E & Hs'). cbn [head tail] in E, Hs'.
  apply Forall2_cons in Hfn as [(n & Hn & (Hsa & Hz & Hu & Hbne & Hb8) & [Hnx Hid]) Hfn].
  destruct Hse as [Hp (Hst & Hwr & Hpk) [Hob Hr] Hev Hcnt].
  assert (NoDup (os ++ [x] ++ ns ++ ts)) as Hnd' by done.
  rewrite app_assoc in Hnd'. pose proof (proj1 (NoDup_app _ _) Hnd') as (Hnd1 & Hdis & _).
  destruct (route_delivers (set_w_sched s' w) m l2 p q os x n [] peer_default_pack_p)
    as (h' & q' & p' & Hroute & Hq' & Hr' & _ & (Hpk' & Hev' & Hconn) & Hfr & Hh'); try done; try congruence.
  { split; [| done]. by exists n. }
  rewrite <- (set_scount_eta p) in Hconn. pose proof (conn_fields _ _ _ Hconn) as (D1 & D2 & D3 & D4 & D5 & D6).
  exists (set_w_sched s' w), (set_w_peers (<[l2 := p']> (w_peers w)) (set_w_streams h' (set_w_sched s' w))).
  split; [unfold pop_queue; rewrite (proj2 (rd_Ok _ _ q3)) by (split; [done | exact Hq3]); by rewrite bind_Ok, E, bind_Ok |].
  split; [exact Hroute |].
  assert (∀ y, y ∈ os ++ [x] → ∀ ny, w_streams w !! y = Some ny → ∃ nx, h' !! y = Some (set_next nx ny)) as Hlk.
  { intros y Hy ny Hny. destruct (Hh' y ny Hny) as (nx & E'). exists nx. rewrite E'. by case_decide. }
  assert ((os ++ [x]) ++ ns ++ ts = os ++ x :: ns ++ ts) as Hlist by (by rewrite <- app_assoc).
  constructor; rewrite ?Hlist; try done.
  - rewrite <- (insert_id σ l2 (frs2, out2)) by done. rewrite <- (app_nil_r out2).
    destruct (Hcs l2 _ Hl2) as ((? & ? & g & ? & _ & _ & _ & Hg & _) & _).
    eapply (pipe_conns w _ σ (os ++ x :: ns ++ ts) p p' _ g); try done.
    + intros y Hy. apply Hfr. set_solver.
    + intros g0 i Hg0 HC. rewrite Hg in Hg0. injection Hg0 as <-. by rewrite app_nil_r.
  - eapply (flight_relink (w_streams w)); [intros y ny Hy Hny; by apply Hlk |]. apply Forall2_app; [done |].
    constructor; [by exists n | constructor].
  - eapply flight_frame; [| exact Hfn]. intros y Hy. apply Hfr. intros Hy'. apply (Hdis y Hy'). set_solver.
  - eapply flight_frame; [| exact Hft]. intros y Hy. apply Hfr. intros Hy'. apply (Hdis y Hy'). set_solver.
  - by eapply (peer_table_at w _ m l2 p p').
  - exists p', q'. split; [| rewrite D6, !length_app in *; cbn [length] in *; lia].
    constructor; [apply lookup_insert_eq | split_and!; congruence | done | done | lia].
Qed.

Lemma pipe_at_sands k : ∀ N w σ os ns ts bo bn bt,
  is_Some (σ !! l2) → pipe_at N w σ os ns ts bo bn bt →
  ∃ w' os' ns' bo' bn', route_sands k w = Ok (tt, w') ∧ pipe_at N w' σ os' ns' ts bo' bn' bt ∧ bo' ++ bn' = bo ++ bn.
Proof.
  induction k as [| k IH]; intros N w σ os ns ts bo bn bt Hl2 Hpa.
  { exists w, os, ns, bo, bn. done. }
  cbn [route_sands]. unfold mbind, handler_bind. destruct ns as [| x ns].
  - destruct (pipe_pop task qs q1 q3 tasks answers N (w_sched w) [] ts (pa_sched _ _ _ _ _ _ _ _ _ Hpa)) as (s' & E & Hs').
    exists (set_w_sched s' w), os, [], bo, bn. split; [| split; [eapply pipe_at_sched; [exact Hpa | lia | done] | done]].
    unfold pop_queue. rewrite (proj2 (rd_Ok _ _ q3)) by (split; [done | apply Hpa]). by rewrite bind_Ok, E, !bind_Ok.
  - destruct bn as [| b bn]; [by apply pa_net, Forall2_cons_nil_inv in Hpa |].
    destruct (pipe_at_routes N w σ os x ns ts bo b bn bt Hl2 Hpa) as (w1 & w2 & E1 & E2 & Hpa2).
    destruct (IH N w2 σ _ _ _ _ _ _ Hl2 Hpa2) as (w' & os' & ns' & bo' & bn' & E & Hpa' & Hb).
    exists w', os', ns', bo', bn'. rewrite E1, bind_Ok, E2, bind_Ok. split; [done |]. split; [done |].
    rewrite Hb. by rewrite <- app_assoc.
Qed.

(** A round of the main loop *)
Lemma pipe_watches N w σ Q :
  is_Some (σ !! l2) → pipe (S N) w σ Q → ∃ w', misaka_loop_watch w = Ok (tt, w') ∧ pipe N w' σ Q.
Proof.
  intros Hl2 (os & ns & ts & bo & bn & bt & Hpa & ->).
  destruct (pipe_at_sands (Z.to_nat MISAKA_ROUTE_SANDS) (S N) w σ os ns ts bo bn bt Hl2 Hpa)
    as (w' & os' & ns' & bo' & bn' & E & Hpa' & Hb).
  exists w'. split; [exact E |]. exists os', ns', ts, bo', bn', bt. split; [| by rewrite !app_assoc, Hb].
  destruct Hpa' as [? ? ? ? ? Hs ? ? ? (p & q & Hse & Hsc)]. constructor; try done.
  - eapply pipe_sched_le; [| exact Hs]. lia.
  - exists p, q. split; [done | lia].
Qed.

(** A write: all of the output fifo goes out. *)
Lemma pipe_writes N w σ Q rounds timer frs2 out2 :
  σ !! l2 = Some (frs2, out2) → pipe (S N) w σ Q → (length Q ≤ rounds)%nat →
  ∃ w' Q1 Q2, misaka_write call_disparser rounds timer l2 w = Ok (tt, w') ∧ Q = Q1 ++ Q2 ∧
    pipe N w' (<[l2 := (frs2, out2 ++ concat Q1)]> σ) Q2.
Proof.
  intros Hl2 (os & ns & ts & bo & bn & bt & Hpa & ->) Hrounds.
  destruct Hpa as [Hcs Hnd Hfo Hfn Hft Hsch Hqs Hec Htab (p & q & Hse & Hsc)].
  destruct Hse as [Hp (Hst & Hwr & Hpk) [Hob Hr] [ev Hev] Hcnt].
  destruct (flight_hold _ _ _ Hfo) as (ds & Hds & Ebo).
  pose proof (Forall2_length _ _ _ Hfo) as Hlen. rewrite !length_app in Hrounds, Hsc.
  destruct (Hcs l2 _ Hl2) as ((p0 & ? & g & i & [Hp0 _] & Hfd & _ & Hg & _ & HC & _) & _ & _). cbn [fst snd] in HC.
  rewrite Hp in Hp0. injection Hp0 as <-.
  destruct (duplex_writes C i out2 g bo HC (flight_bytes _ _ _ _ Hfo)) as (g' & Hw & Hj).
  destruct (write_flushes call_disparser w timer rounds l2 p q os ds g g' ev)
    as (h' & p' & q' & ev' & R & Hfree & Hob' & Hr' & Hsc' & Hev' & _ & Hconn); try done; try lia.
  { by rewrite Hfd. } { by rewrite Ebo. }
  pose proof (conn_fields _ _ _ Hconn) as (D1 & D2 & D3 & D4 & D5 & D6).
  eexists _, bo, (bn ++ bt). split; [exact R |]. split; [done |].
  exists [], ns, ts, [], bn, bt. split; [| done].
  apply NoDup_app in Hnd as (_ & Hdis & Hnd).
  assert (∀ y, y ∉ os → h' !! y = w_streams w !! y) as Hkeep by (intros y Hy; rewrite Hfree; by rewrite decide_False).
  constructor; try done.
  - assert (map_Forall (λ l a, conn_at (set_w_peers (<[l2 := p']> (w_peers w)) (set_w_fds (<[p_fd p := g']> (w_fds w)) (set_w_streams h' w))) l a.1 a.2 ∧
       Forall (request_ok size (w_role w)) a.1 ∧ ibo l ∉ os ++ ns ++ ts) (<[l2 := (frs2, out2 ++ concat bo)]> σ)) as Hcs'.
    { eapply (pipe_conns w _ σ _ p p' _ g'); try done.
      + intros y Hy. apply Hkeep. set_solver.
      + intros g0 j Hg0 HCj. rewrite Hg in Hg0. injection Hg0 as <-. cbn. rewrite Hfd, lookup_insert_eq. auto.
      + intros l Hl. cbn. rewrite Hfd. apply lookup_insert_ne. by intros ?%(inj fdo). }
    intros l a Ha. destruct (Hcs' l a Ha) as (? & ? & ?). split_and!; try done. set_solver.
  - constructor.
  - eapply flight_frame; [| exact Hfn]. intros y Hy. apply Hkeep. intros Hy'. apply (Hdis y Hy'). set_solver.
  - eapply flight_frame; [| exact Hft]. intros y Hy. apply Hkeep. intros Hy'. apply (Hdis y Hy'). set_solver.
  - eapply pipe_sched_le; [| exact Hsch]. lia.
  - by eapply (peer_table_at w _ m l2 p p').
  - exists p', q'. split; [| rewrite D6; cbn [app]; rewrite length_app; lia].
    constructor; [apply lookup_insert_eq | split_and!; congruence | done | by rewrite Hev' | lia].
Qed.

(** A server at rest is one with nothing on its way. *)
Lemma serves_pipe N w σ : serves task C size fdo ibo qs q1 q3 m l2 N w σ → pipe N w σ [].
Proof.
  intros [Hcs [mq [[Hs _] Hq1 Hq3 _ [Hc Hh] _]] Hroom Hec Htab (p & q & Hca & Hsc)].
  exists [], [], [], [], [], []. split; [| done]. constructor; try done.
  - intros l a Ha. destruct (Hcs l a Ha) as [? ?]. split_and!; try done. apply not_elem_of_nil.
  - constructor.
  - constructor.
  - constructor.
  - constructor.
  - exists [], ∅, (λ _, []), mq. split_and!; try done. lia.
  - destruct Hca as [? ? ? ? [? ?]]. exists p, q. split; [by constructor | cbn; lia].
Qed.

(** *** The service *)

(** From [a] to [b] the requests [rs] were received, in this order: each connection
    has delivered its share of them, in its order; what went out on [l2] and what is
    still on its way are what was on its way before and the bodies of [rs]; nothing
    went out on the other connections. *)
Definition delivered (rs : list (loc * frame)) (a b : gmap loc (list frame * list Z) * list (list Z)) : Prop :=
  ∀ l frs out, a.1 !! l = Some (frs, out) → ∃ frs' out', b.1 !! l = Some (frs', out') ∧ frs = on l rs ++ frs' ∧
    (if decide (l = l2) then out' ++ concat b.2 = out ++ concat (a.2 ++ (fr_body <$> rs.*2)) else out' = out).

Lemma delivered_refl a : delivered [] a a.
Proof.
  intros l frs out Hl. exists frs, out. split_and!; try done. case_decide; [by rewrite app_nil_r | done].
Qed.

Lemma on_app {M} l (xs ys : list (loc * M)) : on l (xs ++ ys) = on l xs ++ on l ys.
Proof. unfold on. by rewrite filter_app, fmap_app. Qed.

Lemma delivered_trans rs1 rs2 a b d : delivered rs1 a b → delivered rs2 b d → delivered (rs1 ++ rs2) a d.
Proof.
  intros H1 H2 l frs out Hl. destruct (H1 l frs out Hl) as (frs1 & out1 & Hl1 & -> & E1).
  destruct (H2 l frs1 out1 Hl1) as (frs2 & out2 & Hl2 & -> & E2). exists frs2, out2.
  rewrite on_app, <- app_assoc. split_and!; try done. case_decide; [| congruence].
  rewrite E2, concat_app, app_assoc, E1, !fmap_app, !concat_app. by rewrite <- !app_assoc.
Qed.

Lemma delivered_receive σ Q l fr frs out :
  σ !! l = Some (fr :: frs, out) → delivered [(l, fr)] (σ, Q) (<[l := (frs, out)]> σ, Q ++ [fr_body fr]).
Proof.
  intros Hl l' frs' out' Hl'. cbn [fst snd] in *. destruct (decide (l' = l)) as [-> | Hne].
  - rewrite Hl in Hl'. injection Hl' as <- <-. exists frs, out. rewrite lookup_insert_eq. split; [done |].
    split; [| by case_decide]. unfold on. by rewrite filter_cons_True.
  - exists frs', out'. rewrite lookup_insert_ne by done. split; [done |].
    split; [unfold on; by rewrite filter_cons_False by (cbn; congruence) |]. by case_decide.
Qed.

Lemma delivered_send σ Q1 Q2 frs out :
  σ !! l2 = Some (frs, out) → delivered [] (σ, Q1 ++ Q2) (<[l2 := (frs, out ++ concat Q1)]> σ, Q2).
Proof.
  intros Hl l' frs' out' Hl'. cbn [fst snd] in *. destruct (decide (l' = l2)) as [-> | Hne].
  - rewrite Hl in Hl'. injection Hl' as <- <-. exists frs, (out ++ concat Q1). rewrite lookup_insert_eq.
    split; [done |]. split; [done |]. cbn [fmap list_fmap]. by rewrite app_nil_r, concat_app, app_assoc.
  - exists frs', out'. by rewrite lookup_insert_ne.
Qed.

(** The events that can occur: a read where a connection still delivers, steps of the
    threads and of the main loop, and a write of the answering peer; [rounds] bounds
    its loop. *)
Definition allowed (a : gmap loc (list frame * list Z) * list (list Z)) (e : server_event) : Prop :=
  match e with
  | SvRead _ l => ∃ fr frs out, a.1 !! l = Some (fr :: frs, out)
  | SvWrite rounds _ l => l = l2 ∧ (length a.2 ≤ rounds)%nat
  | SvJob _ | SvWorker _ | SvWatch => True
  | _ => False
  end.

Lemma allowed_dec a e : allowed a e ∨ ¬ allowed a e.
Proof.
  destruct e as [ac l | rounds timer l | | | | |]; cbn [allowed]; try tauto.
  - destruct (a.1 !! l) as [[[| fr frs] out] |]; [right | left; eauto | right]; by intros (? & ? & ? & ?).
  - destruct (decide (l = l2)), (decide (length a.2 ≤ rounds)%nat); tauto.
Qed.

Lemma pipe_event N sv e σ Q :
  is_Some (σ !! l2) → pipe (S N) (sv_world sv) σ Q → allowed (σ, Q) e →
  ∃ sv' σ' Q' rs, step sv e = Ok sv' ∧ pipe N (sv_world sv') σ' Q' ∧ delivered rs (σ, Q) (σ', Q').
Proof.
  destruct sv as [w T]. intros Hl2 Hp Ha. destruct e as [ac l | rounds timer l | | | | t | t]; cbn [allowed fst snd] in Ha; try done;
    cbn [server_step sv_world] in *.
  - destruct Ha as (fr & frs & out & Hl).
    destruct (pipe_reads N w σ Q ac l fr frs out Hp Hl) as (w' & E & [Hp' | Hp']);
      rewrite (on_world_Ok _ (mkServer w T) w' E); eexists _, _, _, _; (split; [done |]); (split; [exact Hp' |]).
    + apply delivered_refl.
    + by apply delivered_receive.
  - destruct Ha as [-> Hr]. destruct Hl2 as [[frs out] Hl2].
    destruct (pipe_writes N w σ Q rounds timer frs out Hl2 Hp Hr) as (w' & Q1 & Q2 & E & -> & Hp').
    rewrite (on_world_Ok _ (mkServer w T) w' E). eexists _, _, _, _. split; [done |]. split; [exact Hp' |].
    by apply delivered_send.
  - destruct (pipe_watches N w σ Q Hl2 Hp) as (w' & E & Hp'). rewrite (on_world_Ok _ (mkServer w T) w' E).
    eexists _, _, _, _. split; [done |]. split; [exact Hp' | apply delivered_refl].
  - eexists _, _, _, _. split; [by apply (on_world_Ok (worker_start t) (mkServer w T))|].
    split; [exact (pipe_starts N w σ Q t Hp) | apply delivered_refl].
  - destruct (pipe_works N w σ Q t Hp) as (w' & E & Hp'). rewrite (on_world_Ok _ (mkServer w T) w' E).
    eexists _, _, _, _. split; [done |]. split; [exact Hp' | apply delivered_refl].
Qed.

Lemma delivered_answers rs σ Q b : delivered rs (σ, Q) b → is_Some (σ !! l2) → is_Some (b.1 !! l2).
Proof. intros Hd [[frs out] Hl]. destruct (Hd l2 frs out Hl) as (? & ? & ? & _). eauto. Qed.

End pipeline.
