(* ===== verification/SysLoopFacts.v ===== *)
(** The timer loop of the server: the packets of the queue EVENT_SYS are registered
    with the timing wheel and those that are due go to the queues of their tasks. *)

From S2P Require Import Prelude Memory Sockunion Stream StreamFacts Fifo Linklist LinklistFacts.
From S2P Require Import Hash HashFacts Mq MqFacts Sched SchedFacts Timer TimerFacts Peer Network Parser Link.
From S2P Require Import LinkFacts IdMaker Core CoreFacts PacketFacts Connect ConnectFacts.
From S2P Require Import Server ServerFacts SessionFacts PipelineFacts.

Local Open Scope Z_scope.

(** ** Countdowns *)

Lemma cd_run_app {H} (os1 os2 : list (timer_op (H := H))) c :
  cd_run (os1 ++ os2) c =
  ((cd_run os1 c).1 ++ (cd_run os2 (cd_run os1 c).2).1, (cd_run os2 (cd_run os1 c).2).2).
Proof.
  revert c. induction os1 as [| o os1 IH]; intros c; cbn [app cd_run fst snd]; [by destruct (cd_run os2 c) |].
  destruct (cd_step o c) as [hs c1]. rewrite IH. destruct (cd_run os1 c1) as [hs1 c2]. cbn [fst snd].
  by rewrite app_assoc.
Qed.

Section sys_loop.
Context {K : Kernel} {L : Libev} {disparser_fn : Type}.
Context (malloc_ok : Z → bool) (memory : ∀ n, malloc_ok n = true) (task : loc → bool).
Context (qs : gset loc) (q2 : loc) (timers : task q2 = false ∧ q2 ∈ qs).
Implicit Types (w : world disparser_fn) (x y : loc) (xs ys : list loc) (n : stream) (T : timer loc).

(** [tmp = s->type; s->type = s->stype; s->stype = tmp] *)
Definition swapped n : stream := set_stype (s_type n) (set_type (s_stype n) n).

(** The heap after the packets [xs] were registered *)
Definition swap_in (xs : list loc) (h h' : gmap loc stream) : Prop :=
  ∀ y, h' !! y = if decide (y ∈ xs) then swapped <$> h !! y else h !! y.

Definition interval_of (h : gmap loc stream) x : Z := match h !! x with Some n => s_interval n | None => 0 end.

(** The registrations of the packets [xs] *)
Definition registrations (h : gmap loc stream) xs : list (timer_op (H := loc)) := (λ x, TAdd (interval_of h x) x) <$> xs.

Definition timed (h : gmap loc stream) x : Prop := ∃ n, h !! x = Some n ∧ 0 ≤ s_interval n < 2 ^ 31.

Lemma swap_interval xs h h' x : swap_in xs h h' → interval_of h' x = interval_of h x.
Proof. intros Hs. unfold interval_of. rewrite Hs. case_decide; [| done]. by destruct (h !! x). Qed.

(** The registration loop, [k] rounds *)
Lemma timer_sands_spec k : ∀ w T c gl H cc,
  w_queues w !! 2%nat = Some q2 → sched_inv task qs (w_sched w) gl H cc → NoDup (cc q2) →
  Forall (timed (w_streams w)) (cc q2) → refines T c →
  ∃ h' s' T', timer_sands k true T w = Ok (T', set_w_sched s' (set_w_streams h' w)) ∧
    swap_in (take k (cc q2)) (w_streams w) h' ∧
    sched_inv task qs s' gl H (upd cc q2 (drop k (cc q2))) ∧ sc_in s' = sc_in (w_sched w) ∧
    refines T' (cd_run (registrations (w_streams w) (take k (cc q2))) c).2 ∧
    (cd_run (registrations (w_streams w) (take k (cc q2))) c).1 = [] ∧ t_current_point T' = t_current_point T.
Proof.
  induction k as [| k IH]; intros w T c gl H cc Hq Hs Hnd Hti Hr.
  { exists (w_streams w), (w_sched w), T. rewrite drop_0, take_0. split; [by destruct w |].
    split; [intros y; by rewrite decide_False by apply not_elem_of_nil |].
    split; [eapply sched_inv_ext; [| exact Hs]; intros r; by rewrite upd_same |]. done. }
  cbn [timer_sands]. unfold mbind, handler_bind. destruct timers as [Ht2 Hin2].
  destruct (loop_pop_inv task qs (w_sched w) gl H cc q2 Hs Ht2 Hin2) as (s1 & E1 & Hi1 & Hs1).
  assert (pop_queue EVENT_SYS w = Ok (head (cc q2), set_w_sched s1 w)) as ->.
  { unfold pop_queue. rewrite (proj2 (rd_Ok _ _ q2)) by (split; [done | exact Hq]). by rewrite bind_Ok, E1, bind_Ok. }
  rewrite bind_Ok. destruct (cc q2) as [| x xs] eqn:Hcc; cbn [head tail] in *.
  { exists (w_streams w), s1, T. rewrite drop_nil, take_nil. split; [by destruct w |].
    split; [intros y; by rewrite decide_False by apply not_elem_of_nil |]. done. }
  apply Forall_cons_1 in Hti as [(n & Hn & Hni) Hti]. apply NoDup_cons in Hnd as [Hx Hnd].
  set (w1 := set_w_streams (<[x := swapped n]> (w_streams w)) (set_w_sched s1 w)).
  assert (set_stream (Some x) (λ n, set_stype (s_type n) (set_type (s_stype n) n)) (set_w_sched s1 w) = Ok (tt, w1)) as ->.
  { unfold set_stream. cbn [w_streams set_w_sched]. by rewrite (modify_Some _ _ _ _ Hn), bind_Ok. }
  rewrite bind_Ok. unfold stream_at at 1. cbn [w1 w_streams set_w_streams].
  rewrite (load_Some _ _ (swapped n)) by apply lookup_insert_eq. rewrite !bind_Ok.
  destruct (timeout_refines T c (s_interval n) x Hr Hni) as (T1 & ET & Hr1).
  change (s_interval (swapped n)) with (s_interval n). unfold lift. rewrite ET, !bind_Ok.
  assert (t_current_point T1 = t_current_point T) as Hcp.
  { unfold server_timer_timeout in ET. destruct (s_interval n =? 0); [by injection ET as <- |].
    unfold timer_add in ET. by apply (add_nodes_point T [mkTnode (u32 (s_interval n + t_time T)) x]); cbn [add_nodes]; rewrite ET. }
  assert (swap_in [x] (w_streams w) (w_streams w1)) as Hsw1.
  { intros y. cbn [w1 w_streams set_w_streams]. destruct (decide (y = x)) as [-> | Hne].
    - rewrite lookup_insert_eq, decide_True, Hn by left. done.
    - rewrite lookup_insert_ne, decide_False by set_solver. done. }
  destruct (IH w1 T1 (if s_interval n =? 0 then c else c ++ [(s_interval n, x)]) gl H (upd cc q2 xs))
    as (h' & s' & T' & E & Hsw & Hs' & Hi' & Hr' & Ho' & Hcp'); [exact Hq | exact Hs1 | by rewrite upd_eq | | exact Hr1 |].
  { rewrite upd_eq. eapply Forall_impl; [exact Hti |]. intros y (ny & Hy & Hyi). unfold timed. rewrite Hsw1.
    case_decide; [exists (swapped ny); by rewrite Hy | eauto]. }
  rewrite upd_eq in *. exists h', s', T'. split; [exact E |]. cbn [take drop].
  assert (registrations (w_streams w1) (take k xs) = registrations (w_streams w) (take k xs)) as Hreg.
  { unfold registrations. apply list_fmap_ext. intros i y Hy. f_equal. by eapply swap_interval. }
  rewrite Hreg in Hr', Ho'. cbn [registrations fmap list_fmap cd_run cd_step].
  assert (interval_of (w_streams w) x = s_interval n) as -> by (unfold interval_of; by rewrite Hn).
  fold (registrations (w_streams w) (take k xs)).
  destruct (cd_run (registrations (w_streams w) (take k xs)) _) as [hs c']. cbn [fst snd app] in *.
  split; [| split; [| split; [exact (eq_trans Hi' Hi1) | split; [done | split; [done | congruence]]]]].
  - intros y. rewrite Hsw, Hsw1. destruct (decide (y = x)) as [-> | Hne].
    + rewrite decide_False by (intros Hy; apply Hx; by apply (subseteq_take k)). rewrite !decide_True by set_solver. done.
    + rewrite (decide_False (P := y ∈ [x])) by set_solver.
      destruct (decide (y ∈ take k xs)); [rewrite decide_True | rewrite decide_False]; set_solver.
  - eapply sched_inv_ext; [| exact Hs']. intros r. unfold upd. by case_decide.
Qed.

(** The packet [y] has a task queue, [q]. *)
Definition for_queue w (h : gmap loc stream) y (q : loc) : Prop :=
  ∃ n, h !! y = Some n ∧ rd (w_queues w) (s_type n) = Ok q ∧ task q = true ∧ q ∈ qs.

Lemma dispatch_spec (tq : loc → loc) due : ∀ w gl H cc,
  sched_inv task qs (w_sched w) gl H cc → (∀ y, y ∈ due → for_queue w (w_streams w) y (tq y)) →
  Z.of_nat (length (sc_in (w_sched w))) + Z.of_nat (length due) < 2 ^ 29 →
  ∃ s' gl' cc', dispatch_timers malloc_ok due w = Ok (tt, set_w_sched s' w) ∧ sched_inv task qs s' gl' H cc' ∧
    ∀ q, cc' q = cc q ++ filter (λ y, tq y = q) due.
Proof.
  induction due as [| y due IH]; intros w gl H cc Hs Hq Hlen; cbn [dispatch_timers].
  { exists (w_sched w), gl, cc. split; [by destruct w |]. split; [done |]. intros q. by rewrite app_nil_r. }
  destruct (Hq y ltac:(left)) as (n & Hn & Hrd & Ht & Hin). cbn [length] in Hlen.
  destruct (task_route_inv malloc_ok memory task qs (w_sched w) gl H cc (tq y) y Hs Ht Hin ltac:(lia))
    as (s1 & gl1 & E1 & Hs1 & Hi1).
  assert (route_task malloc_ok y w = Ok (tt, set_w_sched s1 w)) as Hroute.
  { unfold route_task. by rewrite (load_Some _ _ _ Hn), bind_Ok, Hrd, bind_Ok, E1, bind_Ok. }
  destruct (IH (set_w_sched s1 w) gl1 H (upd cc (tq y) (cc (tq y) ++ [y]))) as (s' & gl' & cc' & E & Hs' & Hcc).
  { exact Hs1. } { intros z Hz. apply Hq. by right. }
  { cbn [w_sched set_w_sched]. rewrite Hi1, length_app. cbn [length]. lia. }
  exists s', gl', cc'. split; [| split; [done |]].
  - unfold mbind, handler_bind. rewrite Hroute, bind_Ok. exact E.
  - intros q. rewrite Hcc, filter_cons. unfold upd. destruct (decide (q = tq y)) as [-> | Hne].
    + rewrite decide_True by done. by rewrite <- app_assoc.
    + by rewrite decide_False by congruence.
Qed.

End sys_loop.
