(* ===== verification/ServerWorlds.v ===== *)
(** Concrete servers on which the theorems of ConnectFacts.v and ServerFacts.v are
    applied. *)

From S2P Require Import Prelude Memory Sockunion Stream StreamFacts Fifo Linklist LinklistFacts.
From S2P Require Import Hash HashFacts Mq MqFacts Sched SchedFacts Timer Peer Network Parser Link.
From S2P Require Import LinkFacts IdMaker Core CoreFacts PacketFacts Worlds Connect ConnectFacts.
From S2P Require Import Server ServerFacts SessionFacts PipelineFacts TimerFacts SysLoopFacts.

Local Open Scope Z_scope.

#[local] Existing Instance script_kernel.
#[local] Existing Instance record_libev.
#[local] Existing Instance zeroed_streams.

(** ** A connection *)

Abbreviation ua := unbounded_allocator.

(** An idle watcher, and a listener of the wire format at 1. *)
Definition idle_watcher : ev_io := mkWatcher 0 None 0.
Definition listener : peer0 :=
  set_p_unpack (Some normal_parser_unpack_p) (set_p_pack (Some normal_parser_pack_p)
    (set_p_read (Some tcp_accept_p) demo_peer)).
Definition listening : world0 := Worlds.server out_heap listener ∅ (hash_create_size 4).

Definition remote : sockunion := mkSockunion AF_INET 80 1.
Definition connection9 : accept_env :=
  mkAccept (Some (9, mkScript [] [] [], remote)) (mkPeerMem true (Some idle_watcher) (Some idle_watcher))
    None None.

Lemma server_registrable p l :
  registrable (Worlds.server out_heap p ∅ (hash_create_size 4)) l ∅ 100 1 (pool_at 101 104).
Proof.
  constructor; [apply empty_table | intros d; by rewrite lookup_empty | done | done |].
  apply Forall_cons_2; [exists echo_handle; reflexivity | constructor].
Qed.


(** A client without a socket whose timer is active, and a network on which the
    connect is still under way when the call returns. *)
Definition dialer : peer0 :=
  set_p_dsu remote (set_p_start (Some tcp_connect_p) (set_p_t_connect (Some 1) (set_p_fd (-1)
    (set_p_status TAT_IDLE (set_p_obuf (Some stream_fifo_new) demo_peer))))).
Definition dialing : world0 := Worlds.server out_heap dialer ∅ (hash_create_size 4).

Definition slow_network : open_env :=
  mkOpen _ (8, mkScript [] [] []) (λ _ _, (-1, EINPROGRESS)) (λ _ _, 0) (λ _, 0) (λ _, 0) (λ _, (-1, mkScript [] [] [])).

Lemma start_thread_outcome_witness :
  ∃ w', misaka_start_thread (AB := ua) slow_network (Some 1%positive) dialing = Ok (tt, w') ∧
    w_peers w' = <[1%positive := set_p_t_connect (Some 0)
                     (in_progress dialing (set_p_fd 8 dialer) idle_watcher)]> (w_peers dialing) ∧
    w_fds w' = <[8 := mkScript [] [] []]> (w_fds dialing) ∧ peer_table w' ∅.
Proof.
  apply (start_thread_outcome (AB := ua) ltac:(eauto) slow_network dialing 1%positive dialer idle_watcher 1
    8 (mkScript [] [] []) (mkScript [] [] []) ∅ 100 1 (pool_at 101 104)).
  - constructor; try done. by eexists.
  - done.
  - lia.
  - done.
  - apply server_registrable.
Defined.

(** ** Start-up *)

Definition enough_memory : init_env := mkInit true true true true true true true true 0 0 0.

Lemma boot_reads_uninitialised_witness :
  main_run (AN := ua) (AB := ua) (AP := ua) (AQ := ua) (λ _, true) (λ _, 0) [100]
    enough_memory (mkPeerMem true (Some idle_watcher) (Some idle_watcher)) None
    (λ _, mkPlugin false None false false None None) (mkServer listening server_timer_create_timer)
  = Fail Uninitialised.
Proof.
  eapply (boot_reads_uninitialised (AN := ua) (AB := ua) (AP := ua) (AQ := ua) (λ _, true) (λ _, 0)
    [100] 1 _ _ _ _ _ _ 2%positive 3%positive 1%positive (set_nid 41 (blank_stream 0)) (replicate 256 0)
    idle_watcher idle_watcher).
  - done.
  - reflexivity.
  - by constructor; vm_compute.
Defined.

(** ** An echo *)

(** The peer with the id 41, established, with an empty output fifo; it waits for
    two bytes. *)
Definition client : peer0 :=
  set_p_packet_size 2 (set_p_read (Some tcp_read_p) (set_p_drole 41
    (set_p_obuf (Some stream_fifo_new) demo_peer))).

(** Its input buffer, for the node 3. *)
Definition client_buffer : stream := set_nid 3 (blank_stream 64).

Definition table41 : hash := mkHash [None; Some 1%positive; None; None] 4 1.
Definition backets41 : gmap loc (hash_backet peer_ref) :=
  {[1%positive := mkBacket None 41 (PeerAt 1%positive)]}.

Definition client_world : world0 :=
  set_w_fds {[5 := mkScript [Got [9; 8]] [] []]}
    (Worlds.server {[1%positive := client_buffer]} client backets41 table41).

Definition client_server : server_state Empty_set := mkServer client_world server_timer_create_timer.

(** The events of one echo, and what is on the wire afterwards. *)
Definition echo_events : list server_event :=
  let ac := mkAccept None (mkPeerMem true None None) None None in
  [SvRead ac 1%positive; SvJob 0; SvWorker 0; SvWorker 0; SvWatch; SvWrite 1 None 1%positive].

Definition run_server (sv : server_state Empty_set) (es : list server_event) : res (server_state Empty_set) :=
  server_run (AN := unbounded_allocator) (AI := unbounded_allocator) (AB := unbounded_allocator)
    (AP := unbounded_allocator) (λ _, true) no_call (λ _ _ _ _, None) (λ t s d p, (t, s, d, p)) sv es.

Lemma client_table : peer_table client_world {[41 := PeerAt 1%positive]}.
Proof.
  split; [by apply map_Forall_singleton |].
  exists [[]; [(1%positive, PeerAt 1%positive)]; []; []].
  split.
  - constructor; [done | done | cbn; lia | | | | done].
    + intros i xs Hi. destruct i as [|[|[|[|i]]]]; [injection Hi as <- .. | discriminate];
        split; try done; split; try done.
      * apply Forall_cons_2; [| constructor]. done.
    + cbn. apply NoDup_singleton.
    + cbn. apply NoDup_singleton.
  - done.
Qed.

(** The request as it is in the buffer, and the peer after the read. *)
Definition request : stream := pushed client_buffer [9; 8].
Definition client_read : peer0 := set_p_packet_size 0 (set_p_rcount 1 (set_p_uptime 0 client)).

Lemma client_completes :
  completes_packet client_world 1%positive client 1%positive request client_read (mkScript [] [] []).
Proof.
  assert (sane request) as Hs.
  { apply pushed_sane; [| repeat constructor; lia | by vm_compute].
    eapply same_buffer_sane; [| by apply (blank_stream_sane 64)]. by repeat split. }
  constructor; [done | by repeat split | by vm_compute | done | |].
  - exists (mkScript [Got [9; 8]] [] []), client_buffer. split; [done |]. split; [done |]. by vm_compute.
  - split; [done |]. by vm_compute.
Qed.

Definition is_task (q : loc) : bool := bool_decide (q ≠ net_queue) && bool_decide (q ≠ sys_queue).

Lemma client_queues :
  queues_ready is_task client_world (list_to_set demo_queues.1) echo_queue net_queue
    (new_queue (λ _, true) EVENT_ECHO).
Proof.
  constructor; [split | ..]; try (by vm_compute).
  - apply (init_queues_inv (AQ := unbounded_allocator) (λ _, true) (λ _, eq_refl) is_task).
    by vm_compute.
Qed.

Lemma client_answers : can_answer client_world 1%positive client stream_fifo_new.
Proof.
  constructor; [done | by repeat split | split; [done | apply fifo_new_rep] | by eexists | by vm_compute].
Qed.

Lemma echo_round_trip_witness :
  ∃ sv' p' q' nx, run_server client_server echo_events = Ok sv' ∧
    w_fds (sv_world sv') !! 5 = Some (mkScript [] [9; 8] []) ∧
    w_streams (sv_world sv') !! 2%positive = None ∧
    w_peers (sv_world sv') !! 1%positive = Some p' ∧ p_obuf p' = Some q' ∧
    fifo_rep (w_streams (sv_world sv')) q' [] ∧
    w_streams (sv_world sv') !! 1%positive = Some nx ∧ unread nx = [].
Proof.
  apply (echo_round_trip (AN := unbounded_allocator) (AI := unbounded_allocator) (AB := unbounded_allocator)
    (AP := unbounded_allocator) (λ _, true) (λ _, eq_refl) is_task no_call _ _ client_server
    (mkAccept None (mkPeerMem true None None) None None) 0 1 None 1%positive client 1%positive request
    client_read (mkScript [] [] []) 2%positive (set_nid 41 (blank_stream 0)) (replicate 256 0)
    (list_to_set demo_queues.1) echo_queue net_queue (new_queue (λ _, true) EVENT_ECHO)
    {[41 := PeerAt 1%positive]} 1%positive client stream_fifo_new (mkScript [] [] [])).
  - exact client_completes.
  - by vm_compute.
  - exact client_queues.
  - exists 1%nat, echo_handle. by repeat split.
  - exact client_table.
  - done.
  - exact client_answers.
  - done.
  - done.
  - lia.
Defined.

(** ** A session *)

(** What a connection still delivers, in pieces, and what it took. *)
Definition script_conn (i o : list Z) (f : script) : Prop :=
  ∃ cs, f = mkScript (Got <$> cs) o [] ∧ concat cs = i ∧ Forall (λ c, c ≠ [] ∧ Forall is_u8 c) cs.

#[local] Instance script_duplex : Duplex script_conn.
Proof.
  split.
  - intros i o f n (cs & -> & <- & Hcs) Hi Hn. destruct cs as [| c cs]; [done |].
    destruct (script_read_chunk n c cs o [] Hn Hcs) as (d & cs' & Hread & Hd & Heq & Hcs').
    exists d, (concat cs'), (mkScript (Got <$> cs') o []). split_and!; try done. by exists cs'.
  - intros i o f bs (cs & -> & <- & Hcs) _. exists (mkScript (Got <$> cs) (o ++ bs) []). split; [done |]. by exists cs.
Qed.

(** Two connections: the peer 41 at 1, which answers, and another at 2. *)
Definition session_fd (l : loc) : Z := Zpos l + 4.
#[local] Instance session_fd_inj : Inj (=) (=) session_fd.
Proof. intros x y. unfold session_fd. lia. Qed.

Definition session_peer (id : Z) (l : loc) : peer0 :=
  normal_parser_init (set_p_unpack (Some normal_parser_unpack_p) (set_p_ibuf (Some l)
    (set_p_fd (session_fd l) (set_p_drole id client)))).

Definition session_world : world0 :=
  set_w_fds {[5 := mkScript (Got <$> [take 20 (encode frame_a); drop 20 (encode frame_a)]) [] [];
              6 := mkScript (Got <$> [take 33 (encode frame_b ++ encode frame_a); drop 33 (encode frame_b ++ encode frame_a)]) [] []]}
    (set_w_peers {[1%positive := session_peer 41 1; 2%positive := session_peer 42 2]}
      (Worlds.server {[1%positive := blank_stream 64; 2%positive := blank_stream 64]} client backets41 table41)).

Definition session_start : gmap loc (list frame * list Z) :=
  {[1%positive := ([frame_a], []); 2%positive := ([frame_b; frame_a], [])]}.
Definition session_end : gmap loc (list frame * list Z) :=
  {[1%positive := ([], [14; 11; 12; 13; 11; 12; 13]); 2%positive := ([], [])]}.

Definition visit_of (l : loc) (t : nat) : visit := mkVisit l (mkAccept None (mkPeerMem true None None) None None) t 1 None.

(** A connection of this world is in service when its pieces are its requests. *)
Lemma session_conn id l frs (cs : list (list Z)) :
  w_peers session_world !! l = Some (session_peer id l) → w_streams session_world !! l = Some (blank_stream 64) →
  w_fds session_world !! session_fd l = Some (mkScript (Got <$> cs) [] []) →
  concat cs = frs ≫= encode → Forall (frame_ok 64) frs → forallb (λ c, 0 <? Z.of_nat (length c)) cs = true →
  Z.of_nat (length (frs ≫= encode)) < 2 ^ 31 → conn_at script_conn 64 session_fd (λ l, l) session_world l frs [].
Proof.
  intros Hp Hs Hf Hcs Hok Hne Hlen. exists (session_peer id l), (blank_stream 64), (mkScript (Got <$> cs) [] []), (frs ≫= encode).
  split_and!; try done.
  - apply idle_reader. intros fr. constructor; try done. by apply blank_stream_sane.
  - exists cs. split; [done |]. split; [done |]. assert (Forall is_u8 (concat cs)) as Hu.
    { rewrite Hcs. clear -Hok. induction Hok as [| fr frs Hfr _ IH]; [constructor |].
      cbn [mbind list_bind]. apply Forall_app_2; [by eapply encode_u8 | done]. }
    clear -Hne Hu. induction cs as [| c cs IH]; [constructor |]. cbn in Hne, Hu.
    apply andb_true_iff in Hne as [Hc Hne]. apply Forall_app in Hu as [Hu Hus].
    constructor; [split; [by intros -> | done] | by apply IH].
Qed.

Lemma session_conns : map_Forall (λ l a, conn_at script_conn 64 session_fd (λ l, l) session_world l a.1 a.2 ∧
  Forall (request_ok 64 3) a.1) session_start.
Proof.
  pose proof frames_ok as Hok. apply Forall_cons_1 in Hok as [Ha Hok]. apply Forall_cons_1 in Hok as [Hb _].
  assert (request_ok 64 3 frame_a ∧ request_ok 64 3 frame_b) as [Ra Rb] by (split; (split; [done | by vm_compute])).
  intros l a Hl. unfold session_start in Hl. apply lookup_insert_Some in Hl as [[<- <-] | [_ [<- <-]%lookup_singleton_Some]];
    (split; [| by repeat constructor]).
  - by eapply (session_conn 41); [.. | repeat constructor | |].
  - by eapply (session_conn 42); [.. | repeat constructor | |].
Qed.

Lemma session_serves N :
  (N < 1000)%nat →
  serves is_task script_conn 64 session_fd (λ l, l) (list_to_set demo_queues.1) echo_queue net_queue
    {[41 := PeerAt 1%positive]} 1%positive N session_world session_start.
Proof.
  intros HN. constructor.
  - exact session_conns.
  - eexists. destruct client_queues. by constructor.
  - change (length (sc_in (w_sched session_world))) with 0%nat. lia.
  - exists 1%nat, echo_handle. by repeat split.
  - eapply (peer_table_ext client_world); [| done | done | exact client_table].
    intros l p Hl. change (({[1%positive := client]} : gmap loc peer0) !! l = Some p) in Hl.
    apply lookup_singleton_Some in Hl as [<- <-]. by eexists.
  - exists (session_peer 41 1), stream_fifo_new. split; [| change (p_scount (session_peer 41 1)) with 0; lia].
    constructor; [done | by repeat split | split; [done | apply fifo_new_rep] | by eexists | by vm_compute].
Qed.


(** The reads of both connections, two threads, the main loop and the writes,
    interleaved: a request is still half read when another is on its way. *)
Definition mixed_events : list server_event :=
  let rd l := SvRead (mkAccept None (mkPeerMem true None None) None None) l in
  [rd 2%positive; rd 1%positive; rd 2%positive; SvJob 0; rd 2%positive; SvWorker 0; rd 1%positive; SvWatch;
   SvWorker 0; rd 1%positive; SvJob 1; SvWorker 1; SvWorker 0; SvWatch; SvWrite 9 None 1%positive; rd 2%positive;
   SvWorker 0; SvWorker 1; SvWorker 0; SvWatch; SvWrite 9 None 1%positive].


(** The run of these events to its end: the three bodies are sent. *)
Lemma mixed_events_run :
  (λ sv, sc_written <$> (w_fds (sv_world sv) !! 5)) <$>
    run_server (mkServer session_world server_timer_create_timer) mixed_events = Ok (Some [14; 11; 12; 13; 11; 12; 13]).
Proof. by vm_compute. Qed.

(** ** Timers *)

(** Two packets for the echo task in the queue EVENT_SYS, due after 3 and after 1
    hundredths of a second. *)
Definition timed_packet (interval : Z) : stream :=
  let su := mkSockunion 0 0 0 in
  mkStream None 0 EVENT_SYS EVENT_ECHO su su 0 0 0 0 0 0 interval 0 0 0 0 [] 0 0 16 (replicate 16 0).

Definition timed_heap : gmap loc stream := {[1%positive := timed_packet 3; 2%positive := timed_packet 1]}.

Definition timed_sched : sched loc :=
  match (s ← misaka_packet_net_route (λ _, true) demo_queues.2 sys_queue 1%positive;
         misaka_packet_net_route (λ _, true) s sys_queue 2%positive) with
  | Ok s => s
  | Fail _ => demo_queues.2
  end.

Definition timed_world : world0 := set_w_sched timed_sched (set_w_streams timed_heap client_world).

Lemma timed_sched_inv :
  ∃ cc, sched_inv is_task (list_to_set demo_queues.1) timed_sched [] ∅ cc ∧
    cc sys_queue = [1%positive; 2%positive] ∧ cc echo_queue = [] ∧ length (sc_in timed_sched) = 2%nat.
Proof.
  assert (sched_inv is_task (list_to_set demo_queues.1) demo_queues.2 [] ∅ (λ _, [])) as H0.
  { apply (init_queues_inv (AQ := unbounded_allocator) (λ _, true) (λ _, eq_refl) is_task). by vm_compute. }
  destruct (net_route_inv (λ _, true) (λ _, eq_refl) is_task _ _ _ _ _ sys_queue 1%positive H0) as (s1 & E1 & H1 & I1 & _);
    [by vm_compute | by vm_compute | by vm_compute |].
  destruct (net_route_inv (λ _, true) (λ _, eq_refl) is_task _ _ _ _ _ sys_queue 2%positive H1) as (s2 & E2 & H2 & I2 & _);
    [by vm_compute | by vm_compute | rewrite I1; by vm_compute |].
  assert (timed_sched = s2) as -> by (unfold timed_sched; by rewrite E1, bind_Ok, E2).
  eexists. split; [exact H2 |]. split; [by rewrite !upd_eq |].
  split; [by rewrite !upd_ne by done |]. rewrite I2, I1. by vm_compute.
Qed.

